(** * CodeQL graph index: ingestion pipeline, relational store, resolver
    and query engine of [codeql-mcp-server]

    The development embeds [src/index.ts] (the [handleBuildGraphIndex],
    [handleFindFunctionFast], [handleFindCallers], [handleFindCallChain]
    and [handleQueryGraphStats] handlers, and the ancestor query of
    [handleGetClassHierarchy]), [src/postgres.ts]
    ([clearDatabase], [updateForeignKeys], [getDatabaseStats],
    [importCSVFallback]) and the table declarations of
    [scripts/schema.sql].

    Conventions.
    - A JavaScript string is a sequence of code units; the model uses
      [string] and so covers the code units below 256.
    - The store is PostgreSQL.  A table is the list of its rows in
      insertion order; every SQL statement of the sources is written out
      as the list computation it denotes, with the constraints that
      [schema.sql] declares (NOT NULL, UNIQUE, INTEGER columns, the
      ON DELETE rules of the foreign keys).
    - A statement that the store rejects leaves the store as it was and
      makes the calling handler throw. *)

From Stdlib Require Import String Ascii List ZArith QArith Lia Lqa Bool Permutation Sorted.
From stdpp Require Import base gmap strings.
Import ListNotations.

Local Open Scope string_scope.
Local Open Scope list_scope.
Local Open Scope Z_scope.

(** ** JavaScript string primitives *)

Module Js.

(** [WhiteSpace] and [LineTerminator] code units below 256, the ones
    [String.prototype.trim] strips: TAB, LF, VT, FF, CR, SP, NBSP. *)
Definition isWhiteSpace (c : ascii) : bool :=
  match nat_of_ascii c with
  | 9%nat | 10%nat | 11%nat | 12%nat | 13%nat | 32%nat | 160%nat => true
  | _ => false
  end.

Fixpoint trimStart (s : string) : string :=
  match s with
  | EmptyString => EmptyString
  | String c r => if isWhiteSpace c then trimStart r else s
  end.

Fixpoint rev_append (s acc : string) : string :=
  match s with
  | EmptyString => acc
  | String c r => rev_append r (String c acc)
  end.

Definition reverse (s : string) : string := rev_append s EmptyString.

Definition trimEnd (s : string) : string := reverse (trimStart (reverse s)).

(** [s.trim()] *)
Definition trim (s : string) : string := trimEnd (trimStart s).

(** Truthiness of a string: non-empty. *)
Definition truthy (s : string) : bool :=
  match s with EmptyString => false | String _ _ => true end.

Definition LF : ascii := ascii_of_nat 10.

(** [s.split("\n")], with [cur] the reversed piece read so far. *)
Fixpoint split_lines_from (s cur : string) : list string :=
  match s with
  | EmptyString => [reverse cur]
  | String c r =>
      if Ascii.eqb c LF then reverse cur :: split_lines_from r EmptyString
      else split_lines_from r (String c cur)
  end.

Definition split_lines (s : string) : list string := split_lines_from s EmptyString.

(** [lines.join("\n")] *)
Fixpoint join_lines (lines : list string) : string :=
  match lines with
  | [] => EmptyString
  | [l] => l
  | l :: ls => l ++ String LF (join_lines ls)
  end.

(** [s.startsWith(p)] *)
Fixpoint startsWith (p s : string) : bool :=
  match p, s with
  | EmptyString, _ => true
  | String a p', String b s' => Ascii.eqb a b && startsWith p' s'
  | String _ _, EmptyString => false
  end.

(** [arr.slice(i, i + n)] as a pair of [skipn] and [firstn]. *)
Definition slice {A} (i n : nat) (l : list A) : list A := firstn n (skipn i l).

End Js.

(** ** Rows read from the decoded CSV files ([handleBuildGraphIndex]) *)

Module Ingest.

Definition DQUOTE : ascii := ascii_of_nat 34.
Definition COMMA : ascii := ascii_of_nat 44.
Definition AT : ascii := ascii_of_nat 64.

(** [current += char] *)
Definition push_char (current : string) (c : ascii) : string :=
  current ++ String c EmptyString.

(** The loop of [parseCSVLine], from position [i] on: [line] is the rest
    of the line, [result] the fields closed so far, [current] the field
    being read.  An escaped quote consumes two code units ([i++]). *)
Fixpoint parseCSVLine_loop (line : string) (result : list string)
    (current : string) (inQuotes : bool) : list string :=
  match line with
  | EmptyString => result ++ [current]
  | String char rest =>
      if Ascii.eqb char DQUOTE && negb inQuotes then
        parseCSVLine_loop rest result current true
      else if Ascii.eqb char DQUOTE && inQuotes then
        match rest with
        | String nextChar rest' =>
            if Ascii.eqb nextChar DQUOTE
            then parseCSVLine_loop rest' result (push_char current DQUOTE) inQuotes
            else parseCSVLine_loop rest result current false
        | EmptyString => parseCSVLine_loop rest result current false
        end
      else if Ascii.eqb char COMMA && negb inQuotes then
        parseCSVLine_loop rest (result ++ [current]) EmptyString inQuotes
      else
        parseCSVLine_loop rest result (push_char current char) inQuotes
  end.

Definition parseCSVLine (line : string) : list string :=
  parseCSVLine_loop line [] EmptyString false.

(** A parsed field: [null] for the empty string. *)
Definition field := option string.

(** [parseCSVLine(line).map(...)]: each value trimmed, the empty one
    replaced by [null]. *)
Definition null_if_empty (v : string) : field :=
  let v := Js.trim v in
  if Js.truthy v then Some v else None.

Definition parse_parts (line : string) : list field :=
  map null_if_empty (parseCSVLine line).

(** [parts[i]]; [undefined] and [null] are both read as [None]. *)
Definition at_index (parts : list field) (i : nat) : field :=
  match nth_error parts i with
  | Some v => v
  | None => None
  end.

(** The capture of [/^([^@]+)@/]: the code units before the first [@],
    when there is an [@] and at least one code unit before it. *)
Fixpoint before_at (s : string) : option string :=
  match s with
  | EmptyString => None
  | String c r =>
      if Ascii.eqb c AT then Some EmptyString
      else match before_at r with
           | Some p => Some (String c p)
           | None => None
           end
  end.

Definition match_name_at (s : string) : option string :=
  match before_at s with
  | Some EmptyString => None
  | Some p => Some p
  | None => None
  end.

Definition unresolved_prefix : string := "unresolved:".

(** [s.match(/^unresolved:([^@]+)@/)] for an [s] that starts with the prefix. *)
Fixpoint drop_prefix (p s : string) : string :=
  match p, s with
  | String _ p', String _ s' => drop_prefix p' s'
  | _, _ => s
  end.

(** The [processRow] of the call-edge extraction: appends [callee_name]. *)
Definition processRow_calls (parts : list field) : list field :=
  let calleeId := at_index parts 1 in
  let calleeName :=
    match calleeId with
    | Some id =>
        if Js.startsWith unresolved_prefix id
        then match_name_at (drop_prefix unresolved_prefix id)
        else match_name_at id
    | None => None
    end in
  parts ++ [calleeName].

(** The name [processRow] derives from a callee reference. *)
Definition derived_callee_name (calleeId : string) : option string :=
  if Js.startsWith unresolved_prefix calleeId
  then match_name_at (drop_prefix unresolved_prefix calleeId)
  else match_name_at calleeId.

(** One entry of the [extractions] array. *)
Record extraction := {
  query : string;
  table : string;
  columns : list string;
  required : bool;
  processRow : option (list field -> list field)
}.

Definition extract_functions : extraction :=
  {| query := "extract-functions.ql"; table := "functions";
     columns := ["codeql_id"; "name"; "file"; "line"; "num_params"; "signature"];
     required := true; processRow := None |}.

Definition extract_calls : extraction :=
  {| query := "extract-calls.ql"; table := "function_calls";
     columns := ["caller_codeql_id"; "callee_codeql_id"; "file"; "line"];
     required := false; processRow := Some processRow_calls |}.

Definition extract_classes : extraction :=
  {| query := "extract-classes.ql"; table := "classes";
     columns := ["codeql_id"; "name"; "file"; "line"; "parent_codeql_id"];
     required := false; processRow := None |}.

Definition extract_methods : extraction :=
  {| query := "extract-methods.ql"; table := "class_methods";
     columns := ["class_codeql_id"; "method_codeql_id"; "method_name"];
     required := false; processRow := None |}.

Definition extractions : list extraction :=
  [extract_functions; extract_calls; extract_classes; extract_methods].

(** [actualColumns] *)
Definition actualColumns (e : extraction) : list string :=
  match processRow e with
  | Some _ => ("database_name" :: columns e) ++ ["callee_name"]
  | None => "database_name" :: columns e
  end.

(** The state of the loop over [dataLines]. *)
Record acc := {
  seenIds : gset string;
  skippedDuplicates : nat;
  values : list (list field)
}.

Definition acc0 : acc :=
  {| seenIds := ∅; skippedDuplicates := 0; values := [] |}.

(** One iteration of [for (const line of dataLines)]. *)
Definition ingest_line (database_name : string)
    (processRow : option (list field -> list field)) (a : acc) (line : string) : acc :=
  if Js.truthy (Js.trim line) then
    let parts := parse_parts line in
    let uniqueId := at_index parts 0 in
    let rowData := match processRow with Some f => f parts | None => parts end in
    let row := Some database_name :: rowData in
    match uniqueId with
    | Some u =>
        if bool_decide (u ∈ seenIds a) then
          {| seenIds := seenIds a;
             skippedDuplicates := S (skippedDuplicates a);
             values := values a |}
        else
          {| seenIds := {[u]} ∪ seenIds a;
             skippedDuplicates := skippedDuplicates a;
             values := values a ++ [row] |}
    | None =>
        {| seenIds := seenIds a;
           skippedDuplicates := skippedDuplicates a;
           values := values a ++ [row] |}
    end
  else a.

(** [parts[0]] and the pushed [row] of a line, as the loop body computes them. *)
Definition uniqueId_of (line : string) : field := at_index (parse_parts line) 0.

Definition row_of (database_name : string)
    (processRow : option (list field -> list field)) (line : string) : list field :=
  let parts := parse_parts line in
  Some database_name :: match processRow with Some f => f parts | None => parts end.

Definition ingest_from (database_name : string)
    (processRow : option (list field -> list field)) (a : acc)
    (dataLines : list string) : acc :=
  fold_left (ingest_line database_name processRow) dataLines a.

(** [csvContent.trim().split("\n").slice(1)] *)
Definition dataLines_of (csvContent : string) : list string :=
  tl (Js.split_lines (Js.trim csvContent)).

Definition ingest (database_name : string) (e : extraction) (csvContent : string) : acc :=
  ingest_from database_name (processRow e) acc0 (dataLines_of csvContent).

(** The message printed when [skippedDuplicates > 0]. *)
Definition duplicates_reported (a : acc) : option nat :=
  match skippedDuplicates a with
  | O => None
  | n => Some n
  end.

(** [maxParams] and [batchSize]. *)
Definition maxParams : Z := 8000.
Definition batchSize (e : extraction) : nat :=
  Z.to_nat (maxParams / Z.of_nat (length (actualColumns e))).

End Ingest.


(** ** The relational store ([scripts/schema.sql]) *)

Module Store.

(** Rows of the five tables.  [created_at] (a clock value) is left out. *)
Record function_row := {
  f_id : Z;                        (* id SERIAL PRIMARY KEY *)
  f_codeql_id : string;            (* codeql_id TEXT UNIQUE NOT NULL *)
  f_database_name : string;        (* database_name TEXT NOT NULL *)
  f_name : string;                 (* name TEXT NOT NULL *)
  f_file : string;                 (* file TEXT NOT NULL *)
  f_line : Z;                      (* line INTEGER NOT NULL *)
  f_num_params : option Z;         (* num_params INTEGER DEFAULT 0 *)
  f_signature : option string      (* signature TEXT *)
}.

Record class_row := {
  c_id : Z;
  c_codeql_id : string;            (* codeql_id TEXT UNIQUE NOT NULL *)
  c_database_name : string;
  c_name : string;
  c_file : string;
  c_line : Z;
  c_parent_codeql_id : option string;
  c_parent_id : option Z           (* REFERENCES classes(id) ON DELETE SET NULL *)
}.

Record call_row := {
  fc_id : Z;
  fc_database_name : string;
  fc_caller_codeql_id : string;    (* TEXT NOT NULL *)
  fc_callee_codeql_id : string;    (* TEXT NOT NULL *)
  fc_caller_id : option Z;         (* REFERENCES functions(id) ON DELETE CASCADE *)
  fc_callee_id : option Z;         (* REFERENCES functions(id) ON DELETE CASCADE *)
  fc_callee_name : option string;  (* callee_name TEXT *)
  fc_file : string;
  fc_line : Z
}.

Record method_row := {
  cm_id : Z;
  cm_database_name : string;
  cm_class_codeql_id : string;     (* TEXT NOT NULL *)
  cm_method_codeql_id : string;    (* TEXT NOT NULL *)
  cm_method_name : option string;
  cm_class_id : option Z;          (* REFERENCES classes(id) ON DELETE CASCADE *)
  cm_method_id : option Z          (* REFERENCES functions(id) ON DELETE CASCADE;
                                      UNIQUE(class_id, method_id) *)
}.

Record variable_row := {
  v_id : Z;
  v_database_name : string;
  v_name : string;
  v_file : string;
  v_line : Z;
  v_scope : option string;
  v_var_type : option string
}.

(** The tables and the sequences behind the SERIAL columns the indexer
    inserts into. *)
Record store := {
  functions : list function_row;
  classes : list class_row;
  function_calls : list call_row;
  class_methods : list method_row;
  variables : list variable_row;
  functions_id_seq : Z;
  classes_id_seq : Z;
  function_calls_id_seq : Z;
  class_methods_id_seq : Z
}.

Definition empty : store :=
  {| functions := []; classes := []; function_calls := []; class_methods := [];
     variables := []; functions_id_seq := 1; classes_id_seq := 1;
     function_calls_id_seq := 1; class_methods_id_seq := 1 |}.

Definition with_functions (s : store) (l : list function_row) (seq : Z) : store :=
  {| functions := l; classes := classes s; function_calls := function_calls s;
     class_methods := class_methods s; variables := variables s;
     functions_id_seq := seq; classes_id_seq := classes_id_seq s;
     function_calls_id_seq := function_calls_id_seq s;
     class_methods_id_seq := class_methods_id_seq s |}.

Definition with_classes (s : store) (l : list class_row) (seq : Z) : store :=
  {| functions := functions s; classes := l; function_calls := function_calls s;
     class_methods := class_methods s; variables := variables s;
     functions_id_seq := functions_id_seq s; classes_id_seq := seq;
     function_calls_id_seq := function_calls_id_seq s;
     class_methods_id_seq := class_methods_id_seq s |}.

Definition with_function_calls (s : store) (l : list call_row) (seq : Z) : store :=
  {| functions := functions s; classes := classes s; function_calls := l;
     class_methods := class_methods s; variables := variables s;
     functions_id_seq := functions_id_seq s; classes_id_seq := classes_id_seq s;
     function_calls_id_seq := seq;
     class_methods_id_seq := class_methods_id_seq s |}.

Definition with_class_methods (s : store) (l : list method_row) (seq : Z) : store :=
  {| functions := functions s; classes := classes s; function_calls := function_calls s;
     class_methods := l; variables := variables s;
     functions_id_seq := functions_id_seq s; classes_id_seq := classes_id_seq s;
     function_calls_id_seq := function_calls_id_seq s;
     class_methods_id_seq := seq |}.

Definition with_variables (s : store) (l : list variable_row) : store :=
  {| functions := functions s; classes := classes s; function_calls := function_calls s;
     class_methods := class_methods s; variables := l;
     functions_id_seq := functions_id_seq s; classes_id_seq := classes_id_seq s;
     function_calls_id_seq := function_calls_id_seq s;
     class_methods_id_seq := class_methods_id_seq s |}.

(** Setters of the resolved ids, as the UPDATE statements write them. *)
Definition set_caller_id (fc : call_row) (v : option Z) : call_row :=
  {| fc_id := fc_id fc; fc_database_name := fc_database_name fc;
     fc_caller_codeql_id := fc_caller_codeql_id fc;
     fc_callee_codeql_id := fc_callee_codeql_id fc;
     fc_caller_id := v; fc_callee_id := fc_callee_id fc;
     fc_callee_name := fc_callee_name fc; fc_file := fc_file fc; fc_line := fc_line fc |}.

Definition set_callee_id (fc : call_row) (v : option Z) : call_row :=
  {| fc_id := fc_id fc; fc_database_name := fc_database_name fc;
     fc_caller_codeql_id := fc_caller_codeql_id fc;
     fc_callee_codeql_id := fc_callee_codeql_id fc;
     fc_caller_id := fc_caller_id fc; fc_callee_id := v;
     fc_callee_name := fc_callee_name fc; fc_file := fc_file fc; fc_line := fc_line fc |}.

Definition set_parent_id (c : class_row) (v : option Z) : class_row :=
  {| c_id := c_id c; c_codeql_id := c_codeql_id c; c_database_name := c_database_name c;
     c_name := c_name c; c_file := c_file c; c_line := c_line c;
     c_parent_codeql_id := c_parent_codeql_id c; c_parent_id := v |}.

Definition set_class_id (m : method_row) (v : option Z) : method_row :=
  {| cm_id := cm_id m; cm_database_name := cm_database_name m;
     cm_class_codeql_id := cm_class_codeql_id m;
     cm_method_codeql_id := cm_method_codeql_id m;
     cm_method_name := cm_method_name m; cm_class_id := v;
     cm_method_id := cm_method_id m |}.

Definition set_method_id (m : method_row) (v : option Z) : method_row :=
  {| cm_id := cm_id m; cm_database_name := cm_database_name m;
     cm_class_codeql_id := cm_class_codeql_id m;
     cm_method_codeql_id := cm_method_codeql_id m;
     cm_method_name := cm_method_name m; cm_class_id := cm_class_id m;
     cm_method_id := v |}.

(** The ways the store rejects a statement of the indexer. *)
Inductive pg_error :=
  | bind_parameter_mismatch    (* the statement has another number of placeholders *)
  | not_null_violation
  | invalid_integer            (* invalid input syntax for type integer *)
  | unique_violation
  | negative_limit             (* LIMIT must not be negative *)
  | bad_integer_parameter.     (* the number bound to an integer parameter is
                                  not a value of the parameter's type *)

(** [x = ANY(ids)] for a nullable [x]: never true on NULL. *)
Definition refers_to (x : option Z) (ids : list Z) : bool :=
  match x with
  | Some i => existsb (Z.eqb i) ids
  | None => false
  end.

Definition mem_string (k : string) (l : list string) : bool :=
  existsb (String.eqb k) l.

(** Text accepted by a column of type INTEGER: an optional sign and
    decimal digits, within 32 bits. *)
Definition digit_of (c : ascii) : option Z :=
  let n := nat_of_ascii c in
  if (48 <=? n)%nat && (n <=? 57)%nat then Some (Z.of_nat (n - 48)) else None.

Fixpoint parse_digits (s : string) (acc : Z) : option Z :=
  match s with
  | EmptyString => Some acc
  | String c r =>
      match digit_of c with
      | Some d => parse_digits r (10 * acc + d)
      | None => None
      end
  end.

Definition parse_unsigned (s : string) : option Z :=
  match s with
  | EmptyString => None
  | _ => parse_digits s 0
  end.

Definition in_int4 (v : Z) : bool := (-2147483648 <=? v) && (v <=? 2147483647).

(** The values of [bigint]. *)
Definition in_int8 (v : Z) : bool :=
  (-9223372036854775808 <=? v) && (v <=? 9223372036854775807).

Definition parse_int4 (s : string) : option Z :=
  let r :=
    match s with
    | String c rest =>
        if Ascii.eqb c (ascii_of_nat 45) then option_map Z.opp (parse_unsigned rest)
        else if Ascii.eqb c (ascii_of_nat 43) then parse_unsigned rest
        else parse_unsigned s
    | EmptyString => None
    end in
  match r with
  | Some v => if in_int4 v then Some v else None
  | None => None
  end.

End Store.

(** ** Statements sent to the store ([src/postgres.ts] and the INSERT of
       [handleBuildGraphIndex]) *)

Module Postgres.
Import Store.

Inductive result (A : Type) :=
  | Ok (a : A)
  | Rejected (e : pg_error).
Arguments Ok {A} a.
Arguments Rejected {A} e.

(** What a handler can throw. *)
Inductive error :=
  | StoreError (e : pg_error)          (* rethrown by [executeQuery] *)
  | DatabaseNotFound
  | ConnectionFailed
  | UnsupportedLanguage
  | RequiredQueryNotFound
  | ExtractionFailed                   (* the external tool or its decoder failed *)
  | BuildFailed (cause : error).       (* "Failed to build graph index: ..." *)

Inductive outcome (A : Type) :=
  | Returned (a : A)
  | Thrown (e : error).
Arguments Returned {A} a.
Arguments Thrown {A} e.

(** A handler step: it reads and writes the store and returns or throws.
    The store it leaves behind is kept in both cases, since every
    statement is committed on its own. *)
Definition M (A : Type) : Type := store -> outcome A * store.

Definition ret {A} (a : A) : M A := fun s => (Returned a, s).
Definition throw {A} (e : error) : M A := fun s => (Thrown e, s).
Definition bind {A B} (m : M A) (k : A -> M B) : M B :=
  fun s => match m s with
           | (Returned a, s') => k a s'
           | (Thrown e, s') => (Thrown e, s')
           end.

Notation "'do' x <- m ; k" := (bind m (fun x => k))
  (at level 10, x name, m at level 100, k at level 200).
Notation "m >> k" := (bind m (fun _ => k))
  (at level 100, k at level 200, right associativity).

(** [try { m } catch (error) { throw wrap(error) }] *)
Definition try_rethrow {A} (wrap : error -> error) (m : M A) : M A :=
  fun s => match m s with
           | (Returned a, s') => (Returned a, s')
           | (Thrown e, s') => (Thrown (wrap e), s')
           end.

(** [executeQuery] on a data-changing statement. *)
Definition executeQuery (stmt : store -> result store) : M unit :=
  fun s => match stmt s with
           | Ok s' => (Returned tt, s')
           | Rejected e => (Thrown (StoreError e), s)
           end.

(** *** INSERT INTO table (actualColumns) VALUES (...), (...) *)

(** The parameters of the statement, cut into one tuple per VALUES row. *)
Fixpoint tuples_of (ncols nrows : nat) (params : list Ingest.field) : list (list Ingest.field) :=
  match nrows with
  | O => []
  | S n => firstn ncols params :: tuples_of ncols n (skipn ncols params)
  end.

(** Rows built from the tuples, with ids drawn from the sequence. *)
Fixpoint build_rows {R} (mk : Z -> list Ingest.field -> result R) (seq : Z)
    (tuples : list (list Ingest.field)) : result (list R) :=
  match tuples with
  | [] => Ok []
  | t :: ts =>
      match mk seq t with
      | Rejected e => Rejected e
      | Ok r =>
          match build_rows mk (seq + 1) ts with
          | Rejected e => Rejected e
          | Ok rs => Ok (r :: rs)
          end
      end
  end.

Definition integer_column (v : string) : result Z :=
  match parse_int4 v with
  | Some z => Ok z
  | None => Rejected invalid_integer
  end.

Definition nullable_integer_column (v : option string) : result (option Z) :=
  match v with
  | None => Ok None
  | Some t =>
      match parse_int4 t with
      | Some z => Ok (Some z)
      | None => Rejected invalid_integer
      end
  end.

(** (database_name, codeql_id, name, file, line, num_params, signature) *)
Definition mk_function (id : Z) (t : list Ingest.field) : result function_row :=
  match t with
  | [Some db; Some cid; Some name; Some file; Some line; num_params; signature] =>
      match integer_column line, nullable_integer_column num_params with
      | Ok l, Ok n =>
          Ok {| f_id := id; f_codeql_id := cid; f_database_name := db; f_name := name;
                f_file := file; f_line := l; f_num_params := n;
                f_signature := signature |}
      | Rejected e, _ => Rejected e
      | _, Rejected e => Rejected e
      end
  | _ => Rejected not_null_violation
  end.

(** (database_name, caller_codeql_id, callee_codeql_id, file, line, callee_name) *)
Definition mk_call (id : Z) (t : list Ingest.field) : result call_row :=
  match t with
  | [Some db; Some caller; Some callee; Some file; Some line; callee_name] =>
      match integer_column line with
      | Ok l =>
          Ok {| fc_id := id; fc_database_name := db; fc_caller_codeql_id := caller;
                fc_callee_codeql_id := callee; fc_caller_id := None;
                fc_callee_id := None; fc_callee_name := callee_name;
                fc_file := file; fc_line := l |}
      | Rejected e => Rejected e
      end
  | _ => Rejected not_null_violation
  end.

(** (database_name, codeql_id, name, file, line, parent_codeql_id) *)
Definition mk_class (id : Z) (t : list Ingest.field) : result class_row :=
  match t with
  | [Some db; Some cid; Some name; Some file; Some line; parent] =>
      match integer_column line with
      | Ok l =>
          Ok {| c_id := id; c_codeql_id := cid; c_database_name := db; c_name := name;
                c_file := file; c_line := l; c_parent_codeql_id := parent;
                c_parent_id := None |}
      | Rejected e => Rejected e
      end
  | _ => Rejected not_null_violation
  end.

(** (database_name, class_codeql_id, method_codeql_id, method_name) *)
Definition mk_method (id : Z) (t : list Ingest.field) : result method_row :=
  match t with
  | [Some db; Some cls; Some meth; method_name] =>
      Ok {| cm_id := id; cm_database_name := db; cm_class_codeql_id := cls;
            cm_method_codeql_id := meth; cm_method_name := method_name;
            cm_class_id := None; cm_method_id := None |}
  | _ => Rejected not_null_violation
  end.

(** No key twice in [new], none of them in [old]: the UNIQUE constraint
    on [codeql_id], which spans the whole table. *)
Fixpoint unique_keys (old new : list string) : bool :=
  match new with
  | [] => true
  | k :: ks => negb (mem_string k old) && negb (mem_string k ks) && unique_keys old ks
  end.

Definition insert_statement (table : string) (ncols nrows : nat)
    (params : list Ingest.field) (s : store) : result store :=
  if negb (length params =? nrows * ncols)%nat then Rejected bind_parameter_mismatch
  else
    let tuples := tuples_of ncols nrows params in
    if String.eqb table "functions" then
      match build_rows mk_function (functions_id_seq s) tuples with
      | Rejected e => Rejected e
      | Ok rows =>
          if unique_keys (map f_codeql_id (functions s)) (map f_codeql_id rows)
          then Ok (with_functions s (functions s ++ rows)
                     (functions_id_seq s + Z.of_nat nrows))
          else Rejected unique_violation
      end
    else if String.eqb table "function_calls" then
      match build_rows mk_call (function_calls_id_seq s) tuples with
      | Rejected e => Rejected e
      | Ok rows =>
          Ok (with_function_calls s (function_calls s ++ rows)
                (function_calls_id_seq s + Z.of_nat nrows))
      end
    else if String.eqb table "classes" then
      match build_rows mk_class (classes_id_seq s) tuples with
      | Rejected e => Rejected e
      | Ok rows =>
          if unique_keys (map c_codeql_id (classes s)) (map c_codeql_id rows)
          then Ok (with_classes s (classes s ++ rows)
                     (classes_id_seq s + Z.of_nat nrows))
          else Rejected unique_violation
      end
    else
      match build_rows mk_method (class_methods_id_seq s) tuples with
      | Rejected e => Rejected e
      | Ok rows =>
          Ok (with_class_methods s (class_methods s ++ rows)
                (class_methods_id_seq s + Z.of_nat nrows))
      end.

(** *** [clearDatabase]: five DELETE statements.  Deleting a class or a
    function fires the ON DELETE rules of the rows that reference it. *)

Definition tagged (db tag : string) : bool := String.eqb tag db.

Definition delete_class_methods (db : string) (s : store) : store :=
  with_class_methods s
    (List.filter (fun m => negb (tagged db (cm_database_name m))) (class_methods s))
    (class_methods_id_seq s).

Definition delete_function_calls (db : string) (s : store) : store :=
  with_function_calls s
    (List.filter (fun fc => negb (tagged db (fc_database_name fc))) (function_calls s))
    (function_calls_id_seq s).

Definition delete_variables (db : string) (s : store) : store :=
  with_variables s
    (List.filter (fun v => negb (tagged db (v_database_name v))) (variables s)).

Definition delete_classes (db : string) (s : store) : store :=
  let deleted := map c_id (List.filter (fun c => tagged db (c_database_name c)) (classes s)) in
  let kept := List.filter (fun c => negb (tagged db (c_database_name c))) (classes s) in
  let s1 :=
    with_classes s
      (map (fun c => if refers_to (c_parent_id c) deleted then set_parent_id c None else c) kept)
      (classes_id_seq s) in
  with_class_methods s1
    (List.filter (fun m => negb (refers_to (cm_class_id m) deleted)) (class_methods s1))
    (class_methods_id_seq s1).

Definition delete_functions (db : string) (s : store) : store :=
  let deleted := map f_id (List.filter (fun f => tagged db (f_database_name f)) (functions s)) in
  let s1 :=
    with_functions s
      (List.filter (fun f => negb (tagged db (f_database_name f))) (functions s))
      (functions_id_seq s) in
  let s2 :=
    with_function_calls s1
      (List.filter (fun fc => negb (refers_to (fc_caller_id fc) deleted)
                              && negb (refers_to (fc_callee_id fc) deleted))
         (function_calls s1))
      (function_calls_id_seq s1) in
  with_class_methods s2
    (List.filter (fun m => negb (refers_to (cm_method_id m) deleted)) (class_methods s2))
    (class_methods_id_seq s2).

Definition clearDatabase (databaseName : string) : M unit :=
  executeQuery (fun s => Ok (delete_class_methods databaseName s)) >>
  executeQuery (fun s => Ok (delete_function_calls databaseName s)) >>
  executeQuery (fun s => Ok (delete_variables databaseName s)) >>
  executeQuery (fun s => Ok (delete_classes databaseName s)) >>
  executeQuery (fun s => Ok (delete_functions databaseName s)).

(** The store the five statements leave. *)
Definition cleared (databaseName : string) (s : store) : store :=
  delete_functions databaseName
    (delete_classes databaseName
       (delete_variables databaseName
          (delete_function_calls databaseName
             (delete_class_methods databaseName s)))).

(** *** [updateForeignKeys]: five UPDATE ... FROM statements.  A target
    row that joins several source rows takes the first of them. *)

Definition lookup_function (key : string) (s : store) : option function_row :=
  List.find (fun f => String.eqb key (f_codeql_id f)) (functions s).

Definition lookup_class (key : string) (s : store) : option class_row :=
  List.find (fun c => String.eqb key (c_codeql_id c)) (classes s).

(** The id a natural key resolves to. *)
Definition function_id_of (key : string) (s : store) : option Z :=
  option_map f_id (lookup_function key s).

Definition class_id_of (key : string) (s : store) : option Z :=
  option_map c_id (lookup_class key s).

Definition is_null {A} (x : option A) : bool :=
  match x with None => true | Some _ => false end.

Definition resolve_caller (db : string) (s : store) (fc : call_row) : call_row :=
  if tagged db (fc_database_name fc) && is_null (fc_caller_id fc) then
    match lookup_function (fc_caller_codeql_id fc) s with
    | Some f => set_caller_id fc (Some (f_id f))
    | None => fc
    end
  else fc.

Definition resolve_callee (db : string) (s : store) (fc : call_row) : call_row :=
  if tagged db (fc_database_name fc) && is_null (fc_callee_id fc) then
    match lookup_function (fc_callee_codeql_id fc) s with
    | Some f => set_callee_id fc (Some (f_id f))
    | None => fc
    end
  else fc.

Definition resolve_parent (db : string) (s : store) (c : class_row) : class_row :=
  if tagged db (c_database_name c) && is_null (c_parent_id c) then
    match c_parent_codeql_id c with
    | Some key =>
        match lookup_class key s with
        | Some p => set_parent_id c (Some (c_id p))
        | None => c
        end
    | None => c
    end
  else c.

Definition resolve_class (db : string) (s : store) (m : method_row) : method_row :=
  if tagged db (cm_database_name m) && is_null (cm_class_id m) then
    match lookup_class (cm_class_codeql_id m) s with
    | Some c => set_class_id m (Some (c_id c))
    | None => m
    end
  else m.

Definition resolve_method (db : string) (s : store) (m : method_row) : method_row :=
  if tagged db (cm_database_name m) && is_null (cm_method_id m) then
    match lookup_function (cm_method_codeql_id m) s with
    | Some f => set_method_id m (Some (f_id f))
    | None => m
    end
  else m.

(** UNIQUE(class_id, method_id): no two rows with the same pair of
    non-null ids. *)
Definition same_pair (a b : method_row) : bool :=
  match cm_class_id a, cm_method_id a, cm_class_id b, cm_method_id b with
  | Some c1, Some m1, Some c2, Some m2 => Z.eqb c1 c2 && Z.eqb m1 m2
  | _, _, _, _ => false
  end.

Fixpoint unique_pairs (l : list method_row) : bool :=
  match l with
  | [] => true
  | m :: ms => negb (existsb (same_pair m) ms) && unique_pairs ms
  end.

Definition option_Z_eqb (a b : option Z) : bool :=
  match a, b with
  | Some x, Some y => Z.eqb x y
  | None, None => true
  | _, _ => false
  end.

(** Whether the UPDATE wrote a new id into some row. *)
Definition ids_changed (old new : list method_row) : bool :=
  existsb (fun p => negb (option_Z_eqb (cm_class_id (fst p)) (cm_class_id (snd p))
                          && option_Z_eqb (cm_method_id (fst p)) (cm_method_id (snd p))))
    (combine old new).

(** The constraint is checked for the rows the statement wrote. *)
Definition update_class_methods (f : store -> method_row -> method_row) (s : store)
  : result store :=
  let new := map (f s) (class_methods s) in
  if ids_changed (class_methods s) new && negb (unique_pairs new)
  then Rejected unique_violation
  else Ok (with_class_methods s new (class_methods_id_seq s)).

Definition set_caller_ids (db : string) (s : store) : store :=
  with_function_calls s (map (resolve_caller db s) (function_calls s))
    (function_calls_id_seq s).

Definition set_callee_ids (db : string) (s : store) : store :=
  with_function_calls s (map (resolve_callee db s) (function_calls s))
    (function_calls_id_seq s).

Definition set_parent_ids (db : string) (s : store) : store :=
  with_classes s (map (resolve_parent db s) (classes s)) (classes_id_seq s).

Definition update_caller_ids (db : string) (s : store) : result store :=
  Ok (set_caller_ids db s).

Definition update_callee_ids (db : string) (s : store) : result store :=
  Ok (set_callee_ids db s).

Definition update_parent_ids (db : string) (s : store) : result store :=
  Ok (set_parent_ids db s).

Definition updateForeignKeys (databaseName : string) : M unit :=
  executeQuery (update_caller_ids databaseName) >>
  executeQuery (update_callee_ids databaseName) >>
  executeQuery (update_parent_ids databaseName) >>
  executeQuery (update_class_methods (resolve_class databaseName)) >>
  executeQuery (update_class_methods (resolve_method databaseName)).

(** The tables an INSERT into [functions] leaves as they are. *)
Definition same_but_functions (s s' : store) : Prop :=
  classes s' = classes s /\ function_calls s' = function_calls s
  /\ class_methods s' = class_methods s /\ variables s' = variables s.

(** Every row of [s] is a row of [s']. *)
Definition grows (s s' : store) : Prop :=
  incl (functions s) (functions s') /\ incl (classes s) (classes s')
  /\ incl (function_calls s) (function_calls s')
  /\ incl (class_methods s) (class_methods s')
  /\ incl (variables s) (variables s').

(** The ids of the functions and of the classes of a corpus. *)
Definition function_ids_of (db : string) (s : store) : list Z :=
  map f_id (List.filter (fun f => tagged db (f_database_name f)) (functions s)).

Definition class_ids_of (db : string) (s : store) : list Z :=
  map c_id (List.filter (fun c => tagged db (c_database_name c)) (classes s)).

(** What a statement on corpus [db] leaves of the other corpora: their
    rows in [s] are rows of [s'], with every field as it was. *)
Definition others_kept (db : string) (s s' : store) : Prop :=
  (forall f, In f (functions s) -> f_database_name f <> db -> In f (functions s'))
  /\ (forall c, In c (classes s) -> c_database_name c <> db -> In c (classes s'))
  /\ (forall fc, In fc (function_calls s) -> fc_database_name fc <> db ->
        In fc (function_calls s'))
  /\ (forall m, In m (class_methods s) -> cm_database_name m <> db ->
        In m (class_methods s'))
  /\ (forall v, In v (variables s) -> v_database_name v <> db -> In v (variables s')).

(** The same, short of the rows that reference a function or a class of
    corpus [db]. *)
Definition unreferencing_kept (db : string) (s s' : store) : Prop :=
  (forall f, In f (functions s) -> f_database_name f <> db -> In f (functions s'))
  /\ (forall c, In c (classes s) -> c_database_name c <> db ->
        refers_to (c_parent_id c) (class_ids_of db s) = false -> In c (classes s'))
  /\ (forall fc, In fc (function_calls s) -> fc_database_name fc <> db ->
        refers_to (fc_caller_id fc) (function_ids_of db s) = false ->
        refers_to (fc_callee_id fc) (function_ids_of db s) = false ->
        In fc (function_calls s'))
  /\ (forall m, In m (class_methods s) -> cm_database_name m <> db ->
        refers_to (cm_class_id m) (class_ids_of db s) = false ->
        refers_to (cm_method_id m) (function_ids_of db s) = false ->
        In m (class_methods s'))
  /\ (forall v, In v (variables s) -> v_database_name v <> db -> In v (variables s')).

(** Conversely, what a statement on corpus [db] brings to the other
    corpora: their rows in [s'] are rows of [s], a class short of its
    parent id at most. *)
Definition others_from (db : string) (s s' : store) : Prop :=
  (forall f, In f (functions s') -> f_database_name f <> db -> In f (functions s))
  /\ (forall c, In c (classes s') -> c_database_name c <> db ->
        In c (classes s)
        \/ exists c0, In c0 (classes s) /\ c_parent_id c0 <> None /\ c = set_parent_id c0 None)
  /\ (forall fc, In fc (function_calls s') -> fc_database_name fc <> db ->
        In fc (function_calls s))
  /\ (forall m, In m (class_methods s') -> cm_database_name m <> db ->
        In m (class_methods s))
  /\ (forall v, In v (variables s') -> v_database_name v <> db -> In v (variables s)).

(** *** [getDatabaseStats] *)

Record database_stats := {
  stat_functions : nat;
  stat_classes : nat;
  stat_calls : nat;
  stat_methods : nat;
  stat_variables : nat
}.

Definition count_where {A} (p : A -> bool) (l : list A) : nat :=
  length (List.filter p l).

Definition getDatabaseStats (databaseName : string) (s : store) : database_stats :=
  {| stat_functions := count_where (fun r => tagged databaseName (f_database_name r)) (functions s);
     stat_classes := count_where (fun r => tagged databaseName (c_database_name r)) (classes s);
     stat_calls := count_where (fun r => tagged databaseName (fc_database_name r)) (function_calls s);
     stat_methods := count_where (fun r => tagged databaseName (cm_database_name r)) (class_methods s);
     stat_variables := count_where (fun r => tagged databaseName (v_database_name r)) (variables s) |}.

End Postgres.

(** ** [handleBuildGraphIndex] *)

Module Indexer.
Import Store Postgres Ingest.

Record CodeQLDatabase := {
  db_name : string;
  db_language : string;
  db_path : string;
  db_created : string
}.

(** What the handler reads besides the store: the registry of analysed
    corpora, the connection test, the extraction queries present on disk
    (by language directory and file name) and the decoded CSV text the
    external tool produces for a query ([None] when it fails). *)
Record environment := {
  databases : gmap string CodeQLDatabase;
  testConnection : bool;
  access : string -> string -> bool;
  run_and_decode : CodeQLDatabase -> string -> string -> option string
}.

Definition languageDir_of (language : string) : option string :=
  if String.eqb language "javascript" || String.eqb language "typescript" then Some "javascript"
  else if String.eqb language "python" then Some "python"
  else if String.eqb language "java" then Some "java"
  else if String.eqb language "cpp" || String.eqb language "c" then Some "cpp"
  else if String.eqb language "go" then Some "go"
  else if String.eqb language "csharp" then Some "csharp"
  else if String.eqb language "ruby" then Some "ruby"
  else None.

(** [for (let i = 0; i < values.length; i += batchSize)], at most [fuel]
    rounds. *)
Fixpoint batch_loop (fuel : nat) (table : string) (ncols batchSize : nat)
    (values : list (list field)) (i : nat) : M unit :=
  match fuel with
  | O => ret tt
  | S fuel' =>
      if (i <? length values)%nat then
        let batch := Js.slice i batchSize values in
        let flatValues := concat batch in
        executeQuery (insert_statement table ncols (length batch) flatValues) >>
        batch_loop fuel' table ncols batchSize values (i + batchSize)
      else ret tt
  end.

Definition insert_batches (e : extraction) (values : list (list field)) : M unit :=
  batch_loop (length values) (table e) (length (actualColumns e)) (batchSize e) values 0.

(** The body of [for (const {...} of extractions)]. *)
Definition run_extraction (env : environment) (db : CodeQLDatabase)
    (database_name languageDir : string) (stats : gmap string nat) (e : extraction)
  : M (gmap string nat) :=
  if negb (access env languageDir (query e)) then
    if required e then throw RequiredQueryNotFound
    else ret (<[table e := 0%nat]> stats)
  else
    match run_and_decode env db languageDir (query e) with
    | None => throw ExtractionFailed
    | Some csvContent =>
        let a := ingest database_name e csvContent in
        (if (0 <? length (values a))%nat then insert_batches e (values a) else ret tt) >>
        ret (<[table e := length (values a)]> stats)
    end.

Fixpoint for_each {A B} (body : A -> B -> M A) (a : A) (l : list B) : M A :=
  match l with
  | [] => ret a
  | x :: xs => do a' <- body a x ; for_each body a' xs
  end.

Definition handleBuildGraphIndex (env : environment) (database_name : string)
  : M (gmap string nat) :=
  match databases env !! database_name with
  | None => throw DatabaseNotFound
  | Some db =>
      try_rethrow BuildFailed
        ((if testConnection env then ret tt else throw ConnectionFailed) >>
         clearDatabase database_name >>
         match languageDir_of (db_language db) with
         | None => throw UnsupportedLanguage
         | Some languageDir =>
             do stats <- for_each (run_extraction env db database_name languageDir)
                           ∅ extractions ;
             updateForeignKeys database_name >>
             ret stats
         end)
  end.

(** [stats.functions || 0] and its three siblings in the returned text. *)
Definition reported (stats : gmap string nat) (table : string) : nat :=
  default 0%nat (stats !! table).

End Indexer.

(** ** The query handlers *)

Module Query.
Import Store Postgres.

(** ORDER BY: a stable insertion sort for the given "sorts no later than". *)
Fixpoint insert_by {A} (leb : A -> A -> bool) (x : A) (l : list A) : list A :=
  match l with
  | [] => [x]
  | y :: l' => if leb x y then x :: l else y :: insert_by leb x l'
  end.

Definition order_by {A} (leb : A -> A -> bool) (l : list A) : list A :=
  fold_right (insert_by leb) [] l.

(** LIMIT n, for a literal n >= 0. *)
Definition limit {A} (n : nat) (l : list A) : list A := firstn n l.

(** [a LEFT JOIN functions b ON cond]: the matching rows, or one NULL row. *)
Definition left_join_functions (cond : function_row -> bool) (s : store)
  : list (option function_row) :=
  match List.filter cond (functions s) with
  | [] => [None]
  | l => map Some l
  end.

Definition eq_id (x : option Z) (id : Z) : bool :=
  match x with Some i => Z.eqb i id | None => false end.

Definition eq_text (x : option string) (t : string) : bool :=
  match x with Some u => String.eqb u t | None => false end.

Section Functions.

(** The store's text ordering (its collation) and the two operators of
    its trigram extension: [similarity(a, b)] and [a % b]. *)
Variable text_leb : string -> string -> bool.
Variable similarity : string -> string -> Q.
Variable similar : string -> string -> bool.

(** *** [handleFindFunctionFast] *)

Record function_hit := {
  hit_name : string;
  hit_file : string;
  hit_line : Z;
  hit_num_params : option Z;
  hit_signature : option string
}.

Definition hit_of (f : function_row) : function_hit :=
  {| hit_name := f_name f; hit_file := f_file f; hit_line := f_line f;
     hit_num_params := f_num_params f; hit_signature := f_signature f |}.

(** ORDER BY similarity(name, $2) DESC, name *)
Definition by_similarity_then_name (pattern : string) (a b : function_row) : bool :=
  match (similarity (f_name a) pattern ?= similarity (f_name b) pattern)%Q with
  | Gt => true
  | Eq => text_leb (f_name a) (f_name b)
  | Lt => false
  end.

Definition matching_functions (database_name pattern : string) (s : store)
  : list function_row :=
  List.filter (fun f => tagged database_name (f_database_name f) && similar (f_name f) pattern)
    (functions s).

Definition find_function_rows (database_name pattern : string) (n : nat) (s : store)
  : list function_row :=
  limit n (order_by (by_similarity_then_name pattern)
             (matching_functions database_name pattern s)).

(** [limit = 50] when the argument is absent.  [$3] is the count of LIMIT,
    a [bigint]: the store rejects a number that is not one when it binds
    the parameters, and a negative count when it runs the query; the
    handler rethrows what the store raises. *)
Definition handleFindFunctionFast (database_name function_name : string)
    (limit_arg : option Z) (s : store) : outcome (list function_hit) :=
  let l := match limit_arg with Some l => l | None => 50 end in
  if negb (in_int8 l) then Thrown (StoreError bad_integer_parameter)
  else if l <? 0 then Thrown (StoreError negative_limit)
  else Returned (map hit_of (find_function_rows database_name function_name (Z.to_nat l) s)).

(** *** [handleFindCallers] *)

Record caller_hit := {
  caller_name : string;
  caller_file : string;
  call_line : Z;
  call_type : string
}.

Definition joined_call : Type := call_row * function_row * option function_row.

(** function_calls fc JOIN functions caller ON caller.id = fc.caller_id
    LEFT JOIN functions callee ON callee.id = fc.callee_id *)
Definition callers_join (s : store) : list joined_call :=
  flat_map (fun fc =>
    flat_map (fun caller =>
      map (fun callee => (fc, caller, callee))
        (left_join_functions (fun f => eq_id (fc_callee_id fc) (f_id f)) s))
      (List.filter (fun f => eq_id (fc_caller_id fc) (f_id f)) (functions s)))
    (function_calls s).

(** WHERE (callee.name = $1 OR fc.callee_name = $1) AND fc.database_name = $2 *)
Definition callers_where (function_name database_name : string) (j : joined_call) : bool :=
  let '(fc, _, callee) := j in
  (match callee with
   | Some c => String.eqb (f_name c) function_name
   | None => false
   end || eq_text (fc_callee_name fc) function_name)
  && tagged database_name (fc_database_name fc).

(** ORDER BY caller.file, fc.line *)
Definition by_file_then_line (a b : joined_call) : bool :=
  let '(fca, callera, _) := a in
  let '(fcb, callerb, _) := b in
  if String.eqb (f_file callera) (f_file callerb) then fc_line fca <=? fc_line fcb
  else text_leb (f_file callera) (f_file callerb).

Definition caller_hit_of (j : joined_call) : caller_hit :=
  let '(fc, caller, _) := j in
  {| caller_name := f_name caller; caller_file := f_file caller; call_line := fc_line fc;
     call_type := if is_null (fc_callee_id fc) then "unresolved" else "resolved" |}.

Definition callers_selected (function_name database_name : string) (s : store)
  : list joined_call :=
  List.filter (callers_where function_name database_name) (callers_join s).

Definition handleFindCallers (database_name function_name : string) (s : store)
  : list caller_hit :=
  map caller_hit_of
    (limit 200 (order_by by_file_then_line (callers_selected function_name database_name s))).

End Functions.

(** *** [handleFindCallChain] *)

(** A row of the recursive table [call_chain]. *)
Record chain_row := {
  cc_id : Z;
  cc_name : string;
  cc_file : string;
  cc_path : list string;
  cc_depth : Z
}.

(** SELECT f.id, f.name, f.file, ARRAY[f.name], 0 FROM functions f
    WHERE f.name = $1 AND f.database_name = $3 *)
Definition chain_seed (from_function database_name : string) (s : store) : list chain_row :=
  map (fun f => {| cc_id := f_id f; cc_name := f_name f; cc_file := f_file f;
                   cc_path := [f_name f]; cc_depth := 0 |})
    (List.filter (fun f => String.eqb (f_name f) from_function
                           && tagged database_name (f_database_name f))
       (functions s)).

(** The recursive term, applied to the rows of the previous round. *)
Definition chain_step (database_name : string) (max_depth : Z) (s : store)
    (previous : list chain_row) : list chain_row :=
  flat_map (fun cc =>
    flat_map (fun fc =>
      flat_map (fun callee =>
        match callee with
        | Some c =>
            if tagged database_name (f_database_name c)
               && (cc_depth cc <? max_depth)
               && negb (mem_string (f_name c) (cc_path cc))
            then [{| cc_id := f_id c; cc_name := f_name c; cc_file := f_file c;
                     cc_path := cc_path cc ++ [f_name c]; cc_depth := cc_depth cc + 1 |}]
            else []
        | None => []
        end)
        (left_join_functions
           (fun c => eq_id (fc_callee_id fc) (f_id c) || eq_text (fc_callee_name fc) (f_name c))
           s))
      (List.filter (fun fc => eq_id (fc_caller_id fc) (cc_id cc)) (function_calls s)))
    previous.

(** WITH RECURSIVE ... UNION ALL: rounds until one adds no row. *)
Fixpoint chain_rounds (fuel : nat) (database_name : string) (max_depth : Z) (s : store)
    (round : list chain_row) : list chain_row :=
  match fuel with
  | O => []
  | S fuel' =>
      match round with
      | [] => []
      | _ => round ++ chain_rounds fuel' database_name max_depth s
                        (chain_step database_name max_depth s round)
      end
  end.

(** Rows come in rounds of equal depth, and no row is created at a depth
    beyond [max_depth]: that many rounds after the seed are all there are. *)
Definition call_chain (from_function database_name : string) (max_depth : Z) (s : store)
  : list chain_row :=
  chain_rounds (S (Z.to_nat max_depth)) database_name max_depth s
    (chain_seed from_function database_name s).

Record chain_hit := {
  path : list string;
  depth : Z;
  file : string
}.

(** SELECT path, depth, file FROM call_chain WHERE name = $2
    ORDER BY depth LIMIT 1; [None] is the "No call chain found" answer. *)
Definition find_call_chain (database_name from_function to_function : string)
    (max_depth : Z) (s : store) : option chain_hit :=
  let found :=
    limit 1
      (order_by (fun a b => cc_depth a <=? cc_depth b)
         (List.filter (fun r => String.eqb (cc_name r) to_function)
            (call_chain from_function database_name max_depth s))) in
  match found with
  | row :: _ => Some {| path := cc_path row; depth := cc_depth row; file := cc_file row |}
  | [] => None
  end.

(** [max_depth = 5] when the argument is absent.  [$4] is compared with
    the [integer] column [depth]: the store rejects a number that is not
    an [integer] when it binds the parameters, and the handler rethrows
    what the store raises. *)
Definition handleFindCallChain (database_name from_function to_function : string)
    (max_depth_arg : option Z) (s : store) : outcome (option chain_hit) :=
  let max_depth := match max_depth_arg with Some d => d | None => 5 end in
  if in_int4 max_depth
  then Returned (find_call_chain database_name from_function to_function max_depth s)
  else Thrown (StoreError bad_integer_parameter).

(** *** [handleQueryGraphStats]: the hot spots *)

Record hot_spot := {
  hs_name : string;
  hs_file : string;
  call_count : nat;
  unique_callers : nat
}.

(** functions f JOIN function_calls fc ON fc.callee_id = f.id
    WHERE f.database_name = $1 *)
Definition hot_join (database_name : string) (s : store) : list (function_row * call_row) :=
  flat_map (fun f =>
    map (fun fc => (f, fc))
      (List.filter (fun fc => eq_id (fc_callee_id fc) (f_id f)) (function_calls s)))
    (List.filter (fun f => tagged database_name (f_database_name f)) (functions s)).

Definition group_key : Type := Z * string * string.

Definition key_of (f : function_row) : group_key := (f_id f, f_name f, f_file f).

Definition key_eqb (a b : group_key) : bool :=
  let '(ia, na, fa) := a in
  let '(ib, nb, fb) := b in
  Z.eqb ia ib && String.eqb na nb && String.eqb fa fb.

Fixpoint distinct {A} (eqb : A -> A -> bool) (l : list A) : list A :=
  match l with
  | [] => []
  | x :: xs => x :: List.filter (fun y => negb (eqb x y)) (distinct eqb xs)
  end.

(** COUNT(DISTINCT fc.caller_id): NULLs are not counted. *)
Definition count_distinct_callers (l : list call_row) : nat :=
  length (distinct Z.eqb
            (flat_map (fun fc => match fc_caller_id fc with Some i => [i] | None => [] end) l)).

(** GROUP BY f.id, f.name, f.file HAVING COUNT(fc.id) > 1
    ORDER BY call_count DESC LIMIT 10 *)
Definition hot_spots (database_name : string) (s : store) : list hot_spot :=
  let joined := hot_join database_name s in
  let groups :=
    map (fun k =>
           let members := map snd (List.filter (fun p => key_eqb k (key_of (fst p))) joined) in
           {| hs_name := snd (fst k); hs_file := snd k;
              call_count := length members;
              unique_callers := count_distinct_callers members |})
      (distinct key_eqb (map (fun p => key_of (fst p)) joined)) in
  limit 10
    (order_by (fun a b => (call_count b <=? call_count a)%nat)
       (List.filter (fun g => (1 <? call_count g)%nat) groups)).

(** The store without the call edges whose callee is unresolved. *)
Definition resolved_edges_only (s : store) : store :=
  with_function_calls s
    (List.filter (fun fc => negb (is_null (fc_callee_id fc))) (function_calls s))
    (function_calls_id_seq s).

Definition handleQueryGraphStats (database_name : string) (s : store)
  : database_stats * list hot_spot :=
  (getDatabaseStats database_name s, hot_spots database_name s).

End Query.

(** ** [importCSVFallback] ([src/postgres.ts]) *)

Module Fallback.
Import Store Postgres.

(** [s.includes(",")] *)
Fixpoint includes_comma (s : string) : bool :=
  match s with
  | EmptyString => false
  | String c r => Ascii.eqb c Ingest.COMMA || includes_comma r
  end.

(** [s.match(/^\d/)] *)
Definition starts_with_digit (s : string) : bool :=
  match s with
  | String c _ => match digit_of c with Some _ => true | None => false end
  | EmptyString => false
  end.

(** [s.split(",")], with [cur] the reversed piece read so far. *)
Fixpoint split_commas_from (s cur : string) : list string :=
  match s with
  | EmptyString => [Js.reverse cur]
  | String c r =>
      if Ascii.eqb c Ingest.COMMA then Js.reverse cur :: split_commas_from r EmptyString
      else split_commas_from r (String c cur)
  end.

Definition split_commas (s : string) : list string := split_commas_from s EmptyString.

(** The code units [.] does not match. *)
Definition isLineTerminator (c : ascii) : bool :=
  match nat_of_ascii c with
  | 10%nat | 13%nat => true
  | _ => false
  end.

Fixpoint no_line_terminator (s : string) : bool :=
  match s with
  | EmptyString => true
  | String c r => negb (isLineTerminator c) && no_line_terminator r
  end.

(** [v.replace] of a value enclosed in double quotes by what the quotes
    enclose, when that holds no line terminator (the pattern's dot). *)
Definition strip_quotes (v : string) : string :=
  match v with
  | String c r =>
      if Ascii.eqb c Ingest.DQUOTE then
        match Js.reverse r with
        | String d inner_rev =>
            if Ascii.eqb d Ingest.DQUOTE && no_line_terminator inner_rev
            then Js.reverse inner_rev
            else v
        | EmptyString => v
        end
      else v
  | EmptyString => v
  end.

Definition fallback_value (v : string) : Ingest.field :=
  let v := strip_quotes (Js.trim v) in
  if negb (Js.truthy v) || String.eqb v "null" then None else Some v.

Definition fallback_dataLines (csvContent : string) : list string :=
  let lines := Js.split_lines (Js.trim csvContent) in
  match lines with
  | first :: rest =>
      if includes_comma first && negb (starts_with_digit first) then rest else lines
  | [] => lines
  end.

(** The parameter lists of the INSERT statements the loop executes: the
    rows whose number of values is the number of columns. *)
Definition fallback_tuples (columns : list string) (csvContent : string)
  : list (list Ingest.field) :=
  flat_map (fun line =>
    if Js.truthy (Js.trim line) then
      let values := map fallback_value (split_commas line) in
      if (length values =? length columns)%nat then [values] else []
    else [])
    (fallback_dataLines csvContent).

Fixpoint run_all (stmt : list Ingest.field -> store -> result store)
    (tuples : list (list Ingest.field)) (s : store) : result store :=
  match tuples with
  | [] => Ok s
  | t :: ts =>
      match stmt t s with
      | Ok s' => run_all stmt ts s'
      | Rejected e => Rejected e
      end
  end.

(** BEGIN; one INSERT per kept row; COMMIT, or ROLLBACK and rethrow.
    [stmt] is the single-row INSERT into the caller's table and columns. *)
Definition importCSVFallback (stmt : list Ingest.field -> store -> result store)
    (columns : list string) (csvContent : string) : M nat :=
  fun s =>
    let tuples := fallback_tuples columns csvContent in
    match run_all stmt tuples s with
    | Ok s' => (Returned (length tuples), s')
    | Rejected e => (Thrown (StoreError e), s)
    end.

End Fallback.

(** ** Call paths, as the call-chain search follows them *)

Module CallGraph.
Import Store Postgres Query.

(** An edge from [f] to [g]: a stored call whose resolved caller is [f]
    and whose callee is [g] by resolved id or by name. *)
Definition calls (s : store) (f g : function_row) : Prop :=
  exists fc,
    In fc (function_calls s)
    /\ fc_caller_id fc = Some (f_id f)
    /\ (fc_callee_id fc = Some (f_id g) \/ fc_callee_name fc = Some (f_name g)).

(** [call_path s db from p g]: the functions [p ++ [g]] of corpus [db],
    in order, start at a function named [from], follow one edge per step
    and never come back to a name already on the path.  Its depth is the
    number of edges, [length p]. *)
Inductive call_path (s : store) (db from : string) : list function_row -> function_row -> Prop :=
  | path_start f :
      In f (functions s) -> f_name f = from -> f_database_name f = db ->
      call_path s db from [] f
  | path_extend p f g :
      call_path s db from p f ->
      In g (functions s) -> f_database_name g = db ->
      calls s f g ->
      ~ In (f_name g) (map f_name (p ++ [f])) ->
      call_path s db from (p ++ [f]) g.

(** The row of [call_chain] that stands for a path. *)
Definition row_of_path (p : list function_row) (g : function_row) : chain_row :=
  {| cc_id := f_id g; cc_name := f_name g; cc_file := f_file g;
     cc_path := map f_name (p ++ [g]); cc_depth := Z.of_nat (length p) |}.

(** The row the recursive term derives from [cc] and a callee [c]. *)
Definition extend (cc : chain_row) (c : function_row) : chain_row :=
  {| cc_id := f_id c; cc_name := f_name c; cc_file := f_file c;
     cc_path := cc_path cc ++ [f_name c]; cc_depth := cc_depth cc + 1 |}.

(** The rows of round [k], counted from the seed. *)
Fixpoint chain_level (k : nat) (database_name : string) (max_depth : Z) (s : store)
    (round : list chain_row) : list chain_row :=
  match k with
  | O => round
  | S k' => chain_level k' database_name max_depth s
              (chain_step database_name max_depth s round)
  end.

End CallGraph.

(** ** The store's trigram extension

    [similarity] and [%] are functions of PostgreSQL's [pg_trgm], which
    [schema.sql] installs; they are not code of the repository.  The
    module follows the extension's documentation for text made of code
    units below 128: letters are folded to lower case, the words of a
    text are its maximal runs of letters and digits, each word is read
    with two blanks before it and one after it, the trigrams of a text
    are the distinct groups of three consecutive code units of its words,
    the similarity of two texts is the number of trigrams they share over
    the number of trigrams of either, 0 when one of them has no trigram,
    and [a % b] holds when the similarity reaches the threshold, 0.3
    unless it is reconfigured. *)

Module Trgm.
Import Store Query.

Definition lower (c : ascii) : ascii :=
  let n := nat_of_ascii c in
  if (65 <=? n)%nat && (n <=? 90)%nat then ascii_of_nat (n + 32) else c.

Definition is_word_char (c : ascii) : bool :=
  let n := nat_of_ascii c in
  ((48 <=? n)%nat && (n <=? 57)%nat)
  || ((65 <=? n)%nat && (n <=? 90)%nat)
  || ((97 <=? n)%nat && (n <=? 122)%nat).

Definition close_word (cur : string) : list string :=
  match cur with
  | EmptyString => []
  | _ => [Js.reverse cur]
  end.

(** The words of [s]; [cur] is the reversed word being read. *)
Fixpoint words_from (s cur : string) : list string :=
  match s with
  | EmptyString => close_word cur
  | String c r =>
      if is_word_char c then words_from r (String (lower c) cur)
      else close_word cur ++ words_from r EmptyString
  end.

Definition words (s : string) : list string := words_from s EmptyString.

Definition pad (w : string) : string := "  " ++ w ++ " ".

Fixpoint windows (s : string) : list string :=
  match s with
  | String a ((String b (String c _)) as r) =>
      String a (String b (String c EmptyString)) :: windows r
  | _ => []
  end.

Definition trigrams (s : string) : list string :=
  distinct String.eqb (flat_map (fun w => windows (pad w)) (words s)).

Definition similarity (a b : string) : Q :=
  let ta := trigrams a in
  let tb := trigrams b in
  let shared := length (List.filter (fun t => mem_string t tb) ta) in
  match ta, tb with
  | [], _ | _, [] => 0
  | _, _ => Z.of_nat shared # Pos.of_nat (length ta + length tb - shared)
  end.

Definition similarity_threshold : Q := 3 # 10.

Definition similar (a b : string) : bool :=
  Qle_bool similarity_threshold (similarity a b).

End Trgm.

(** ** CSV text, as the decoder of the external tool writes it *)

Module Csv.
Import Ingest.

(** A field between double quotes, each of its own double quotes doubled. *)
Fixpoint double_quotes (f : string) : string :=
  match f with
  | EmptyString => EmptyString
  | String c r =>
      if Ascii.eqb c DQUOTE then String DQUOTE (String DQUOTE (double_quotes r))
      else String c (double_quotes r)
  end.

Definition quoted (f : string) : string :=
  String DQUOTE (double_quotes f ++ String DQUOTE EmptyString).

(** [fields.join(",")] *)
Fixpoint join_commas (fields : list string) : string :=
  match fields with
  | [] => EmptyString
  | [f] => f
  | f :: fs => f ++ String COMMA (join_commas fs)
  end.

Fixpoint has_char (c : ascii) (s : string) : bool :=
  match s with
  | EmptyString => false
  | String d r => Ascii.eqb d c || has_char c r
  end.

(** The keys of the rows pushed for insertion: their second value, the
    first parsed column. *)
Definition pushed_keys (values : list (list field)) : list string :=
  flat_map (fun row => match at_index row 1 with Some k => [k] | None => [] end) values.

(** The lines the loop reads, the blank ones left out. *)
Definition non_blank (lines : list string) : list string :=
  List.filter (fun l => Js.truthy (Js.trim l)) lines.

(** What the loop keeps true: the keys pushed so far are pairwise
    distinct, they are the keys in [seenIds], and every non-blank line
    was either pushed or counted. *)
Definition loop_invariant (a : acc) (read : list string) : Prop :=
  List.NoDup (pushed_keys (values a))
  /\ (forall k, k ∈ seenIds a <-> In k (pushed_keys (values a)))
  /\ (length (values a) + skippedDuplicates a = length (non_blank read))%nat
  /\ (forall l u, In l (non_blank read) -> uniqueId_of l = Some u -> u ∈ seenIds a).

End Csv.

(** ** Row counts *)

Module Rows.
Import Store Postgres.

(** The number of rows of the table an INSERT names. *)
Definition rows_in (table : string) (s : store) : nat :=
  if String.eqb table "functions" then length (functions s)
  else if String.eqb table "function_calls" then length (function_calls s)
  else if String.eqb table "classes" then length (classes s)
  else length (class_methods s).

(** Every data line the loop reads has as many fields as the extraction
    has columns. *)
Definition well_formed (e : Ingest.extraction) (csvContent : string) : Prop :=
  forall line, In line (Ingest.dataLines_of csvContent) ->
               Js.truthy (Js.trim line) = true ->
               length (Ingest.parseCSVLine line) = length (Ingest.columns e).

(** The shape of a pushed row: the corpus name, then one value per
    column. *)
Definition shaped (name : string) (ncols : nat) (row : list Ingest.field) : Prop :=
  length row = ncols /\ hd_error row = Some (Some name).

(** The keys under the UNIQUE constraint of [table]: [codeql_id] for
    functions and classes; the other two tables have none. *)
Definition stored_keys (table : string) (s : store) : list string :=
  if String.eqb table "functions" then map f_codeql_id (functions s)
  else if String.eqb table "classes" then map c_codeql_id (classes s)
  else [].

(** The counts of a corpus with [n] more rows in [table]. *)
Definition add_rows (table : string) (n : nat) (st : database_stats) : database_stats :=
  if String.eqb table "functions" then
    {| stat_functions := stat_functions st + n; stat_classes := stat_classes st;
       stat_calls := stat_calls st; stat_methods := stat_methods st;
       stat_variables := stat_variables st |}
  else if String.eqb table "function_calls" then
    {| stat_functions := stat_functions st; stat_classes := stat_classes st;
       stat_calls := stat_calls st + n; stat_methods := stat_methods st;
       stat_variables := stat_variables st |}
  else if String.eqb table "classes" then
    {| stat_functions := stat_functions st; stat_classes := stat_classes st + n;
       stat_calls := stat_calls st; stat_methods := stat_methods st;
       stat_variables := stat_variables st |}
  else
    {| stat_functions := stat_functions st; stat_classes := stat_classes st;
       stat_calls := stat_calls st; stat_methods := stat_methods st + n;
       stat_variables := stat_variables st |}.

End Rows.

(** ** Referential integrity *)

Module Integrity.
Import Store Postgres.

Section Links.

(** How the natural key of the row an id points to relates to the key
    the referencing row names. *)
Variable agree : string -> option string -> Prop.

(** A nullable id column: a value that is not NULL is the id of a stored
    row, whose key agrees. *)
Definition points_to {R} (id : R -> Z) (key : R -> string) (rows : list R)
    (x : option Z) (k : option string) : Prop :=
  forall i, x = Some i -> exists r, In r rows /\ id r = i /\ agree (key r) k.

Definition to_function (s : store) : option Z -> option string -> Prop :=
  points_to f_id f_codeql_id (functions s).

Definition to_class (s : store) : option Z -> option string -> Prop :=
  points_to c_id c_codeql_id (classes s).

(** The five id columns the resolver fills. *)
Definition linked (s : store) : Prop :=
  (forall fc, In fc (function_calls s) ->
     to_function s (fc_caller_id fc) (Some (fc_caller_codeql_id fc))
     /\ to_function s (fc_callee_id fc) (Some (fc_callee_codeql_id fc)))
  /\ (forall c, In c (classes s) -> to_class s (c_parent_id c) (c_parent_codeql_id c))
  /\ (forall m, In m (class_methods s) ->
        to_class s (cm_class_id m) (Some (cm_class_codeql_id m))
        /\ to_function s (cm_method_id m) (Some (cm_method_codeql_id m))).

End Links.

(** The foreign keys of the schema, [REFERENCES functions(id)] and
    [REFERENCES classes(id)]: an id that is not NULL is the id of a
    stored row. *)
Definition references_ok : store -> Prop := linked (fun _ _ => True).

(** The stored row moreover carries the natural key that the
    referencing row names. *)
Definition keys_agree : store -> Prop := linked (fun k key => key = Some k).

(** No row of corpus [db] has an id resolved: the state of the rows a
    build has just inserted. *)
Definition unlinked (db : string) (s : store) : Prop :=
  (forall fc, In fc (function_calls s) -> fc_database_name fc = db ->
     fc_caller_id fc = None /\ fc_callee_id fc = None)
  /\ (forall c, In c (classes s) -> c_database_name c = db -> c_parent_id c = None)
  /\ (forall m, In m (class_methods s) -> cm_database_name m = db ->
        cm_class_id m = None /\ cm_method_id m = None).

End Integrity.

(** ** [handleGetClassHierarchy]: the ancestors of a class *)

Module Hierarchy.
Import Store Postgres Query.

(** A row of the recursive table [class_hierarchy]. *)
Record hierarchy_row := {
  ch_id : Z;
  ch_name : string;
  ch_file : string;
  ch_line : Z;
  ch_parent_id : option Z;
  ch_level : Z
}.

Definition hierarchy_row_of (c : class_row) (level : Z) : hierarchy_row :=
  {| ch_id := c_id c; ch_name := c_name c; ch_file := c_file c; ch_line := c_line c;
     ch_parent_id := c_parent_id c; ch_level := level |}.

(** SELECT c.id, c.name, c.file, c.line, c.parent_id, 0 as level
    FROM classes c WHERE c.name = $1 AND c.database_name = $2 *)
Definition hierarchy_seed (class_name database_name : string) (s : store)
  : list hierarchy_row :=
  map (fun c => hierarchy_row_of c 0)
    (List.filter (fun c => String.eqb (c_name c) class_name
                           && tagged database_name (c_database_name c))
       (classes s)).

(** SELECT c.id, c.name, c.file, c.line, c.parent_id, ch.level + 1
    FROM class_hierarchy ch JOIN classes c ON c.id = ch.parent_id
    WHERE ch.level < 10 *)
Definition hierarchy_step (s : store) (previous : list hierarchy_row) : list hierarchy_row :=
  flat_map (fun ch =>
    flat_map (fun c =>
      if ch_level ch <? 10 then [hierarchy_row_of c (ch_level ch + 1)] else [])
      (List.filter (fun c => eq_id (ch_parent_id ch) (c_id c)) (classes s)))
    previous.

(** WITH RECURSIVE ... UNION ALL: rounds until one adds no row. *)
Fixpoint hierarchy_rounds (fuel : nat) (s : store) (round : list hierarchy_row)
  : list hierarchy_row :=
  match fuel with
  | O => []
  | S fuel' =>
      match round with
      | [] => []
      | _ => round ++ hierarchy_rounds fuel' s (hierarchy_step s round)
      end
  end.

(** SELECT * FROM class_hierarchy ORDER BY level DESC.  No row is created
    at a level beyond 10: eleven rounds are all there are. *)
Definition class_hierarchy (class_name database_name : string) (s : store)
  : list hierarchy_row :=
  order_by (fun a b => ch_level b <=? ch_level a)
    (hierarchy_rounds 11 s (hierarchy_seed class_name database_name s)).

(** [hierarchyResult.rows.length - row.level - 1], the count handed to
    [repeat] for the indentation of a row; [repeat] throws on a negative
    count. *)
Definition indent_count (rows : list hierarchy_row) (row : hierarchy_row) : Z :=
  Z.of_nat (length rows) - ch_level row - 1.

(** The rows of round [k], counted from the seed. *)
Fixpoint hierarchy_level (k : nat) (s : store) (round : list hierarchy_row)
  : list hierarchy_row :=
  match k with
  | O => round
  | S k' => hierarchy_level k' s (hierarchy_step s round)
  end.

End Hierarchy.

(** ** Sample corpora used in the examples below *)

Module Samples.
Import Store Postgres Ingest Indexer.

Definition sample_call_line : string := "f@function f@a.js:1:1,unresolved:g@a.js:2,a.js,2".

Definition functions_header : string := "codeql_id,name,file,line,num_params,signature".
Definition calls_header : string := "caller_codeql_id,callee_codeql_id,file,line".

Definition corpus (name : string) : CodeQLDatabase :=
  {| db_name := name; db_language := "javascript"; db_path := "/db/" ++ name;
     db_created := "2025-01-01" |}.

(** An environment with the corpora [names], a reachable store, and the
    decoded CSV text [csv corpus query] for the queries that exist. *)
Definition env_of (names : list string) (csv : string -> string -> option string)
  : environment :=
  {| databases := list_to_map (map (fun n => (n, corpus n)) names);
     testConnection := true;
     access := fun _ q => match csv EmptyString q with Some _ => true | None => false end;
     run_and_decode := fun db _ q => csv (db_name db) q |}.

(** A functions file whose second data row lacks its last column. *)
Definition malformed_functions_csv : string :=
  Js.join_lines [functions_header;
                 "foo@function foo@a.js:3:1,foo,a.js,3,0,function foo";
                 "bar@function bar@a.js:7:1,bar,a.js,7,1"].

Definition malformed_env : environment :=
  env_of ["sample"]
    (fun _ q => if String.eqb q "extract-functions.ql"
                then Some malformed_functions_csv else None).

(** Two corpora analysed from the same sources: the same functions file. *)
Definition shared_functions_csv : string :=
  Js.join_lines [functions_header;
                 "foo@function foo@a.js:3:1,foo,a.js,3,0,function foo"].

Definition twin_env : environment :=
  env_of ["a"; "b"]
    (fun _ q => if String.eqb q "extract-functions.ql"
                then Some shared_functions_csv else None).

(** Corpus [sample]: functions A, B and C; A calls B (a callee the tool
    bound to B's key) and B calls C (a callee known by name only). *)
Definition abc_functions_csv : string :=
  Js.join_lines [functions_header;
                 "A@a.js:1,A,a.js,1,0,function A";
                 "B@a.js:5,B,a.js,5,1,function B";
                 "C@a.js:9,C,a.js,9,2,function C"].

Definition abc_calls_csv : string :=
  Js.join_lines [calls_header;
                 "A@a.js:1,B@a.js:5,a.js,2";
                 "B@a.js:5,unresolved:C@a.js:6,a.js,6"].

Definition abc_env : environment :=
  env_of ["sample"]
    (fun _ q => if String.eqb q "extract-functions.ql" then Some abc_functions_csv
                else if String.eqb q "extract-calls.ql" then Some abc_calls_csv
                else None).

(** The store once the corpus is built. *)
Definition abc_store : store :=
  snd (handleBuildGraphIndex abc_env "sample" Store.empty).

(** The same rows before the resolver has run. *)
Definition abc_unresolved : store :=
  with_function_calls abc_store
    (map (fun fc => set_callee_id (set_caller_id fc None) None) (function_calls abc_store))
    (function_calls_id_seq abc_store).

(** Corpus [app] calls a function whose key is that of a function of
    corpus [lib]. *)
Definition lib_functions_csv : string :=
  Js.join_lines [functions_header; "helper@lib.py:1,helper,lib.py,1,0,Function helper"].

Definition app_functions_csv : string :=
  Js.join_lines [functions_header; "main@app.py:1,main,app.py,1,0,Function main"].

Definition app_calls_csv : string :=
  Js.join_lines [calls_header; "main@app.py:1,helper@lib.py:1,app.py,2"].

Definition lib_app_env : environment :=
  env_of ["lib"; "app"]
    (fun corpus q =>
       if String.eqb q "extract-functions.ql" then
         Some (if String.eqb corpus "app" then app_functions_csv else lib_functions_csv)
       else if String.eqb q "extract-calls.ql" then
         Some (if String.eqb corpus "app" then app_calls_csv else calls_header)
       else None).

(** Corpus [sample] again: C is called from A and from B by name only,
    D is called from E and from F through its key. *)
Definition hot_functions_csv : string :=
  Js.join_lines [functions_header;
                 "A@a.js:1,A,a.js,1,0,function A";
                 "B@a.js:5,B,a.js,5,0,function B";
                 "C@a.js:9,C,a.js,9,0,function C";
                 "D@a.js:13,D,a.js,13,0,function D";
                 "E@a.js:17,E,a.js,17,0,function E";
                 "F@a.js:21,F,a.js,21,0,function F"].

Definition hot_calls_csv : string :=
  Js.join_lines [calls_header;
                 "A@a.js:1,unresolved:C@a.js:2,a.js,2";
                 "B@a.js:5,unresolved:C@a.js:6,a.js,6";
                 "E@a.js:17,D@a.js:13,a.js,18";
                 "F@a.js:21,D@a.js:13,a.js,22"].

Definition hot_env : environment :=
  env_of ["sample"]
    (fun _ q => if String.eqb q "extract-functions.ql" then Some hot_functions_csv
                else if String.eqb q "extract-calls.ql" then Some hot_calls_csv
                else None).

Definition hot_store : store :=
  snd (handleBuildGraphIndex hot_env "sample" Store.empty).

(** A corpus with the gettext-style function [_]. *)
Definition underscore_functions_csv : string :=
  Js.join_lines [functions_header;
                 "_@function _@i18n.js:1:1,_,i18n.js,1,1,function _";
                 "translate@function translate@i18n.js:5:1,translate,i18n.js,5,1,function translate"].

Definition underscore_env : environment :=
  env_of ["sample"]
    (fun _ q => if String.eqb q "extract-functions.ql"
                then Some underscore_functions_csv else None).

Definition underscore_store : store :=
  snd (handleBuildGraphIndex underscore_env "sample" Store.empty).

(** No extraction query at all. *)
Definition bare_env : environment := env_of ["sample"] (fun _ _ => None).

(** Two methods that share the name [render]: [main] calls the one of
    class [A], which calls the one of class [B], which calls [save]. *)
Definition render_functions_csv : string :=
  Js.join_lines [functions_header;
                 "main@m.js:1,main,m.js,1,0,function main";
                 "A.render@a.js:1,render,a.js,1,0,method render";
                 "B.render@b.js:1,render,b.js,1,0,method render";
                 "save@s.js:1,save,s.js,1,0,function save"].

Definition render_calls_csv : string :=
  Js.join_lines [calls_header;
                 "main@m.js:1,A.render@a.js:1,m.js,2";
                 "A.render@a.js:1,B.render@b.js:1,a.js,2";
                 "B.render@b.js:1,save@s.js:1,b.js,2"].

Definition render_env : environment :=
  env_of ["sample"]
    (fun _ q => if String.eqb q "extract-functions.ql" then Some render_functions_csv
                else if String.eqb q "extract-calls.ql" then Some render_calls_csv
                else None).

Definition render_store : store :=
  snd (handleBuildGraphIndex render_env "sample" Store.empty).

(** The functions [init] and [init_]: the two names have the same
    trigrams. *)
Definition init_functions_csv : string :=
  Js.join_lines [functions_header;
                 "init_@u.js:1,init_,u.js,1,0,function init_";
                 "init@u.js:9,init,u.js,9,0,function init"].

Definition init_env : environment :=
  env_of ["sample"]
    (fun _ q => if String.eqb q "extract-functions.ql"
                then Some init_functions_csv else None).

Definition init_store : store :=
  snd (handleBuildGraphIndex init_env "sample" Store.empty).

(** A functions file for corpus [a] whose first data line lacks its last
    field and whose second has one field too many, the name of another
    corpus first. *)
Definition shifted_functions_csv : string :=
  Js.join_lines [functions_header;
                 "f@a.js:1,f,a.js,1,0";
                 "b,g@b.js:1,g,b.js,1,0,function g"].

Definition shifted_env : environment :=
  env_of ["a"; "b"]
    (fun _ q => if String.eqb q "extract-functions.ql"
                then Some shifted_functions_csv else None).

End Samples.

(** * Properties *)

(** ** Ingestion: duplicates within one run *)

Section IngestFacts.
Import Ingest.

Variable database_name : string.
Variable pr : option (list field -> list field).

Local Abbreviation step := (ingest_line database_name pr).
Local Abbreviation run := (ingest_from database_name pr).

Lemma ingest_from_app a l1 l2 : run a (l1 ++ l2) = run (run a l1) l2.
Proof. unfold ingest_from. apply fold_left_app. Qed.

Lemma ingest_from_cons a l ls : run a (l :: ls) = run (step a l) ls.
Proof. reflexivity. Qed.

Lemma ingest_line_blank a l : Js.truthy (Js.trim l) = false -> step a l = a.
Proof. intros H. unfold ingest_line. now rewrite H. Qed.

Lemma ingest_line_seen a l u :
  Js.truthy (Js.trim l) = true -> uniqueId_of l = Some u -> u ∈ seenIds a ->
  step a l = {| seenIds := seenIds a;
                skippedDuplicates := S (skippedDuplicates a);
                values := values a |}.
Proof.
  intros Hl Hu Hin. unfold ingest_line, uniqueId_of in *.
  rewrite Hl, Hu. now rewrite bool_decide_eq_true_2.
Qed.

Lemma ingest_line_fresh a l u :
  Js.truthy (Js.trim l) = true -> uniqueId_of l = Some u -> u ∉ seenIds a ->
  step a l = {| seenIds := {[u]} ∪ seenIds a;
                skippedDuplicates := skippedDuplicates a;
                values := values a ++ [row_of database_name pr l] |}.
Proof.
  intros Hl Hu Hin. unfold ingest_line, uniqueId_of, row_of in *.
  rewrite Hl, Hu. now rewrite bool_decide_eq_false_2.
Qed.

Lemma ingest_line_null a l :
  Js.truthy (Js.trim l) = true -> uniqueId_of l = None ->
  step a l = {| seenIds := seenIds a;
                skippedDuplicates := skippedDuplicates a;
                values := values a ++ [row_of database_name pr l] |}.
Proof.
  intros Hl Hu. unfold ingest_line, uniqueId_of, row_of in *.
  now rewrite Hl, Hu.
Qed.

Lemma seenIds_line_mono a l u : u ∈ seenIds a -> u ∈ seenIds (step a l).
Proof.
  intros Hin. unfold ingest_line.
  destruct (Js.truthy (Js.trim l)); [|done].
  destruct (at_index (parse_parts l) 0) as [k|]; [|done].
  case_bool_decide; simpl; [done | set_solver].
Qed.

Lemma seenIds_mono ls : forall a u, u ∈ seenIds a -> u ∈ seenIds (run a ls).
Proof.
  induction ls as [|l ls IH]; intros a u Hin; [done|].
  rewrite ingest_from_cons. apply IH. now apply seenIds_line_mono.
Qed.

Lemma seenIds_after_line a l u :
  Js.truthy (Js.trim l) = true -> uniqueId_of l = Some u -> u ∈ seenIds (step a l).
Proof.
  intros Hl Hu. destruct (decide (u ∈ seenIds a)) as [Hin|Hin].
  - now apply seenIds_line_mono.
  - rewrite (ingest_line_fresh a l u Hl Hu Hin). simpl. set_solver.
Qed.

(** Once a line with key [u] has been read, [u] stays in [seenIds]. *)
Lemma seenIds_of_earlier_line a pre l mid u :
  Js.truthy (Js.trim l) = true -> uniqueId_of l = Some u ->
  u ∈ seenIds (run a (pre ++ l :: mid)).
Proof.
  intros Hl Hu. rewrite ingest_from_app, ingest_from_cons.
  apply seenIds_mono. now apply seenIds_after_line.
Qed.

End IngestFacts.

(** C6 (as stated) fails on rows whose first column is empty: the loop
    tracks a key only when [parts[0]] is not null, so two rows that share
    an empty first column are both pushed and none is counted. *)
Lemma C6_counterexample :
  let l1 := ",unresolved:g@a.js:2,a.js,2" in
  let l2 := ",unresolved:h@a.js:3,a.js,3" in
  let a := Ingest.ingest "sample" Ingest.extract_calls
             (Js.join_lines [Samples.calls_header; l1; l2]) in
  l1 <> l2
  /\ nth_error (Ingest.parseCSVLine l1) 0 = nth_error (Ingest.parseCSVLine l2) 0
  /\ length (Ingest.values a) = 2%nat
  /\ Ingest.skippedDuplicates a = 0%nat.
Proof. vm_compute. repeat split; congruence. Qed.

(** C6, amended. The duplicate-tracking key of every fact type is the
    first parsed column alone (the function's or class's natural key, the
    caller's key of a call edge, the class's key of a method membership),
    and it is tracked only when it is not empty: of two rows of one run
    that share a non-empty first column, whatever their other columns,
    the later one is counted as a skipped duplicate and not pushed; a row
    whose first column is empty is always pushed and never counted. *)
Theorem C6_first_column_alone_is_the_key :
  forall (database_name : string)
         (pr : option (list Ingest.field -> list Ingest.field))
         (pre mid : list string) (l l' u : string),
    Js.truthy (Js.trim l) = true ->
    Js.truthy (Js.trim l') = true ->
    Ingest.uniqueId_of l = Some u ->
    Ingest.uniqueId_of l' = Some u ->
    map (fun e => hd_error (Ingest.columns e)) Ingest.extractions
      = [Some "codeql_id"; Some "caller_codeql_id"; Some "codeql_id"; Some "class_codeql_id"]
    /\
    (let a1 := Ingest.ingest_from database_name pr Ingest.acc0 (pre ++ l :: mid) in
     let a2 := Ingest.ingest_from database_name pr Ingest.acc0 (pre ++ l :: mid ++ [l']) in
     Ingest.values a2 = Ingest.values a1
     /\ Ingest.skippedDuplicates a2 = S (Ingest.skippedDuplicates a1))
    /\
    (forall a l0,
       Js.truthy (Js.trim l0) = true -> Ingest.uniqueId_of l0 = None ->
       let a' := Ingest.ingest_line database_name pr a l0 in
       Ingest.values a' = Ingest.values a ++ [Ingest.row_of database_name pr l0]
       /\ Ingest.skippedDuplicates a' = Ingest.skippedDuplicates a).
Proof.
  intros db pr pre mid l l' u Hl Hl' Hu Hu'. split; [reflexivity|]. split.
  - simpl.
    replace (pre ++ l :: mid ++ [l']) with ((pre ++ l :: mid) ++ [l'])
      by (rewrite <- app_assoc; reflexivity).
    rewrite ingest_from_app. simpl.
    set (a1 := Ingest.ingest_from db pr Ingest.acc0 (pre ++ l :: mid)).
    assert (Hin : u ∈ Ingest.seenIds a1)
      by (apply seenIds_of_earlier_line with (l := l); assumption).
    rewrite (ingest_line_seen db pr a1 l' u Hl' Hu' Hin). simpl. auto.
  - intros a l0 Hl0 Hnone. simpl.
    rewrite (ingest_line_null db pr a l0 Hl0 Hnone). simpl. auto.
Qed.

Lemma C6_witness :
  let l := "f@function f@a.js:1:1,unresolved:g@a.js:2,a.js,2" in
  let l' := "f@function f@a.js:1:1,unresolved:h@b.js:9,b.js,9" in
  let a1 := Ingest.ingest_from "sample" (Some Ingest.processRow_calls) Ingest.acc0 [l] in
  let a2 := Ingest.ingest_from "sample" (Some Ingest.processRow_calls) Ingest.acc0 [l; l'] in
  Ingest.values a2 = Ingest.values a1
  /\ Ingest.skippedDuplicates a2 = S (Ingest.skippedDuplicates a1).
Proof.
  apply (C6_first_column_alone_is_the_key "sample" (Some Ingest.processRow_calls) [] []
           "f@function f@a.js:1:1,unresolved:g@a.js:2,a.js,2"
           "f@function f@a.js:1:1,unresolved:h@b.js:9,b.js,9"
           "f@function f@a.js:1:1");
    vm_compute; reflexivity.
Defined.

(** ** Ingestion: rows with a wrong number of columns *)

Lemma fallback_tuples_well_formed columns csvContent t :
  In t (Fallback.fallback_tuples columns csvContent) -> length t = length columns.
Proof.
  unfold Fallback.fallback_tuples. rewrite in_flat_map. intros (line & _ & Ht).
  destruct (Js.truthy (Js.trim line)); [|contradiction].
  destruct (Nat.eqb_spec (length (map Fallback.fallback_value (Fallback.split_commas line)))
              (length columns)) as [E|E]; [|contradiction].
  destruct Ht as [<-|[]]. exact E.
Qed.

(** C9. The loop of [handleBuildGraphIndex] never compares the number of
    parsed fields with the number of columns: every non-blank line whose
    key is new or empty is pushed as it is, so a row that lacks a column
    reaches the INSERT, the store rejects the statement for its parameter
    count and the build is aborted with nothing stored, the well-formed
    row of the same file included.  [importCSVFallback] does drop such
    rows: each parameter list it sends has one value per column. *)
Theorem C9_malformed_row_is_not_dropped :
  (forall database_name pr a l,
     Js.truthy (Js.trim l) = true ->
     (forall u, Ingest.uniqueId_of l = Some u -> u ∉ Ingest.seenIds a) ->
     Ingest.values (Ingest.ingest_line database_name pr a l)
       = Ingest.values a ++ [Ingest.row_of database_name pr l])
  /\ map (@length _)
       (Ingest.values (Ingest.ingest "sample" Ingest.extract_functions
                         Samples.malformed_functions_csv))
     = [7%nat; 6%nat]
  /\ length (Ingest.actualColumns Ingest.extract_functions) = 7%nat
  /\ (let r := Indexer.handleBuildGraphIndex Samples.malformed_env "sample" Store.empty in
      fst r = Postgres.Thrown
                (Postgres.BuildFailed (Postgres.StoreError Store.bind_parameter_mismatch))
      /\ Store.functions (snd r) = [])
  /\ (forall columns csvContent t,
        In t (Fallback.fallback_tuples columns csvContent) -> length t = length columns)
  /\ map (@length _)
       (Fallback.fallback_tuples (Ingest.columns Ingest.extract_functions)
          Samples.malformed_functions_csv)
     = [6%nat].
Proof.
  split; [|split; [|split; [|split; [|split]]]].
  - intros db pr a l Hl Hfresh.
    destruct (Ingest.uniqueId_of l) as [u|] eqn:Hu.
    + rewrite (ingest_line_fresh db pr a l u Hl Hu (Hfresh u eq_refl)). reflexivity.
    + rewrite (ingest_line_null db pr a l Hl Hu). reflexivity.
  - vm_compute. reflexivity.
  - reflexivity.
  - vm_compute. split; reflexivity.
  - exact fallback_tuples_well_formed.
  - vm_compute. reflexivity.
Qed.

(** ** The build: missing extraction queries *)

Section BuildFacts.
Import Store Postgres Ingest Indexer.

Lemma clearDatabase_returns db s : clearDatabase db s = (Returned tt, cleared db s).
Proof. reflexivity. Qed.

Lemma bind_returned {A B} (m : M A) (k : A -> M B) s a s' :
  m s = (Returned a, s') -> bind m k s = k a s'.
Proof. intros H. unfold bind. now rewrite H. Qed.

Lemma bind_thrown {A B} (m : M A) (k : A -> M B) s e s' :
  m s = (Thrown e, s') -> bind m k s = (Thrown e, s').
Proof. intros H. unfold bind. now rewrite H. Qed.

Lemma for_each_cons {A B} (body : A -> B -> M A) a x xs s :
  for_each body a (x :: xs) s = bind (body a x) (fun a' => for_each body a' xs) s.
Proof. reflexivity. Qed.

Lemma run_extraction_optional_missing env db name ld stats e s :
  required e = false -> access env ld (query e) = false ->
  run_extraction env db name ld stats e s = (Returned (<[table e := 0%nat]> stats), s).
Proof. intros Hr Ha. unfold run_extraction. now rewrite Ha, Hr. Qed.

Lemma run_extraction_required_missing env db name ld stats e s :
  required e = true -> access env ld (query e) = false ->
  run_extraction env db name ld stats e s = (Thrown RequiredQueryNotFound, s).
Proof. intros Hr Ha. unfold run_extraction. now rewrite Ha, Hr. Qed.

(** The class_methods rows a statement on another table leaves alone. *)
Lemma insert_functions_class_methods ncols nrows params s s' :
  insert_statement "functions" ncols nrows params s = Ok s' ->
  class_methods s' = class_methods s.
Proof.
  unfold insert_statement.
  destruct (negb (length params =? nrows * ncols)%nat); [discriminate|].
  simpl. destruct (build_rows mk_function _ _); [|discriminate].
  destruct (unique_keys _ _); [|discriminate].
  intros [= <-]. reflexivity.
Qed.

Lemma batch_loop_functions_class_methods fuel ncols bs values :
  forall i s r s',
    batch_loop fuel "functions" ncols bs values i s = (r, s') ->
    class_methods s' = class_methods s.
Proof.
  induction fuel as [|fuel IH]; intros i s r s' H; simpl in H.
  - now inversion H.
  - destruct (i <? length values)%nat; [|now inversion H].
    unfold bind, executeQuery in H.
    destruct (insert_statement _ _ _ _ s) as [s1|e] eqn:E.
    + apply IH in H. rewrite H. eapply insert_functions_class_methods; eauto.
    + now inversion H.
Qed.

Lemma filter_all_false {A} (p : A -> bool) l :
  (forall x, In x l -> p x = false) -> List.filter p l = [].
Proof.
  induction l as [|x l IH]; intros H; simpl; [reflexivity|].
  rewrite (H x (or_introl eq_refl)). apply IH. intros y Hy. apply H. now right.
Qed.

Lemma map_id_on {A} (f : A -> A) l : (forall x, In x l -> f x = x) -> map f l = l.
Proof.
  induction l as [|x l IH]; intros H; simpl; [reflexivity|].
  rewrite (H x (or_introl eq_refl)). f_equal. apply IH. intros y Hy. apply H. now right.
Qed.

(** After [clearDatabase], no method membership carries the corpus tag. *)
Lemma cleared_class_methods_untagged db s m :
  In m (class_methods (cleared db s)) -> tagged db (cm_database_name m) = false.
Proof.
  unfold cleared, delete_functions, delete_classes, delete_variables,
    delete_function_calls, delete_class_methods. simpl.
  rewrite !filter_In. intros [[[_ H] _] _].
  now apply negb_true_iff in H.
Qed.

Lemma ids_changed_same l : ids_changed l l = false.
Proof.
  unfold ids_changed. induction l as [|m l IH]; simpl; [reflexivity|].
  rewrite IH.
  assert (R : forall o, option_Z_eqb o o = true)
    by (intros [z|]; simpl; [apply Z.eqb_refl | reflexivity]).
  now rewrite !R.
Qed.

Lemma update_class_methods_untagged (f : store -> method_row -> method_row) s :
  (forall m, In m (class_methods s) -> f s m = m) ->
  update_class_methods f s = Ok (with_class_methods s (class_methods s) (class_methods_id_seq s)).
Proof.
  intros H. unfold update_class_methods.
  rewrite (map_id_on (f s) _ H), ids_changed_same. reflexivity.
Qed.

Lemma with_class_methods_same s :
  with_class_methods s (class_methods s) (class_methods_id_seq s) = s.
Proof. now destruct s. Qed.

(** The resolver cannot be rejected on a corpus without method memberships. *)
Lemma updateForeignKeys_returns db s :
  (forall m, In m (class_methods s) -> tagged db (cm_database_name m) = false) ->
  exists s', updateForeignKeys db s = (Returned tt, s').
Proof.
  intros H. unfold updateForeignKeys, bind, executeQuery. simpl.
  set (s3 := set_parent_ids _ _).
  assert (Hcm : class_methods s3 = class_methods s) by reflexivity.
  rewrite (update_class_methods_untagged (resolve_class db) s3).
  2:{ intros m Hm. rewrite Hcm in Hm. unfold resolve_class. now rewrite (H m Hm). }
  rewrite with_class_methods_same.
  rewrite (update_class_methods_untagged (resolve_method db) s3).
  2:{ intros m Hm. rewrite Hcm in Hm. unfold resolve_method. now rewrite (H m Hm). }
  eauto.
Qed.

End BuildFacts.

Section BuildCompletion.
Import Store Postgres Ingest Indexer.

Lemma insert_functions_frame ncols nrows params s s' :
  insert_statement "functions" ncols nrows params s = Ok s' -> same_but_functions s s'.
Proof.
  unfold insert_statement.
  destruct (negb (length params =? nrows * ncols)%nat); [discriminate|].
  simpl. destruct (build_rows mk_function _ _); [|discriminate].
  destruct (unique_keys _ _); [|discriminate].
  intros [= <-]. repeat split.
Qed.

Lemma batch_loop_functions_frame fuel ncols bs values :
  forall i s r s',
    batch_loop fuel "functions" ncols bs values i s = (r, s') -> same_but_functions s s'.
Proof.
  induction fuel as [|fuel IH]; intros i s r s' H; simpl in H.
  - inversion H. subst. repeat split.
  - destruct (i <? length values)%nat; [|inversion H; subst; repeat split].
    unfold bind, executeQuery in H.
    destruct (insert_statement _ _ _ _ s) as [s1|e] eqn:E.
    + apply IH in H. apply insert_functions_frame in E.
      destruct H as (H1 & H2 & H3 & H4), E as (E1 & E2 & E3 & E4).
      repeat split; congruence.
    + inversion H. subst. repeat split.
Qed.

Lemma run_extraction_functions_frame env db name ld stats s r s' :
  run_extraction env db name ld stats extract_functions s = (r, s') ->
  same_but_functions s s'.
Proof.
  unfold run_extraction. simpl.
  destruct (negb (access env ld "extract-functions.ql")).
  { intros H. inversion H. subst. repeat split. }
  destruct (run_and_decode env db ld "extract-functions.ql") as [csv|].
  2:{ intros H. inversion H. subst. repeat split. }
  unfold bind.
  destruct (0 <? length (values (ingest name extract_functions csv)))%nat.
  - unfold insert_batches.
    destruct (batch_loop _ _ _ _ _ _ s) as [[[]|e] s1] eqn:E;
      intros H; inversion H; subst; eapply batch_loop_functions_frame; eauto.
  - intros H. inversion H. subst. repeat split.
Qed.

Lemma run_extraction_functions_stats env db name ld s stats1 s1 :
  run_extraction env db name ld ∅ extract_functions s = (Returned stats1, s1) ->
  exists n : nat, stats1 = <["functions" := n]> ∅.
Proof.
  unfold run_extraction. simpl.
  destruct (negb (access env ld "extract-functions.ql")); [discriminate|].
  destruct (run_and_decode env db ld "extract-functions.ql") as [csv|]; [|discriminate].
  unfold bind.
  match goal with
  | |- context [(if ?c then ?a else ?b) s] =>
      destruct ((if c then a else b) s) as [[[]|e] s2]; [|discriminate]
  end.
  intros [= <- <-]. eauto.
Qed.

Lemma count_where_map_tag {A} (tag : A -> string) (f : A -> A) db l :
  (forall x, tag (f x) = tag x) ->
  count_where (fun r => tagged db (tag r)) (map f l)
  = count_where (fun r => tagged db (tag r)) l.
Proof.
  intros H. unfold count_where. induction l as [|x l IH]; simpl; [reflexivity|].
  rewrite H. destruct (tagged db (tag x)); simpl; now rewrite IH.
Qed.

Lemma count_where_none {A} (p : A -> bool) l :
  (forall x, In x l -> p x = false) -> count_where p l = 0%nat.
Proof. intros H. unfold count_where. now rewrite filter_all_false. Qed.

Lemma resolve_caller_tag db s fc :
  fc_database_name (resolve_caller db s fc) = fc_database_name fc.
Proof.
  unfold resolve_caller. destruct (_ && _); [|reflexivity].
  now destruct (lookup_function _ _).
Qed.

Lemma resolve_callee_tag db s fc :
  fc_database_name (resolve_callee db s fc) = fc_database_name fc.
Proof.
  unfold resolve_callee. destruct (_ && _); [|reflexivity].
  now destruct (lookup_function _ _).
Qed.

Lemma resolve_parent_tag db s c :
  c_database_name (resolve_parent db s c) = c_database_name c.
Proof.
  unfold resolve_parent. destruct (_ && _); [|reflexivity].
  destruct (c_parent_codeql_id c); [|reflexivity].
  now destruct (lookup_class _ _).
Qed.

Lemma resolve_class_tag db s m :
  cm_database_name (resolve_class db s m) = cm_database_name m.
Proof.
  unfold resolve_class. destruct (_ && _); [|reflexivity].
  now destruct (lookup_class _ _).
Qed.

Lemma resolve_method_tag db s m :
  cm_database_name (resolve_method db s m) = cm_database_name m.
Proof.
  unfold resolve_method. destruct (_ && _); [|reflexivity].
  now destruct (lookup_function _ _).
Qed.

Lemma update_class_methods_stats f s s' :
  (forall s0 m, cm_database_name (f s0 m) = cm_database_name m) ->
  update_class_methods f s = Ok s' ->
  forall db, getDatabaseStats db s' = getDatabaseStats db s.
Proof.
  intros Hf. unfold update_class_methods.
  destruct (_ && _); [discriminate|]. intros [= <-] db.
  unfold getDatabaseStats. simpl. f_equal.
  apply (count_where_map_tag cm_database_name). apply Hf.
Qed.

(** The resolver changes no per-corpus row count. *)
Lemma updateForeignKeys_stats db0 s r s' :
  updateForeignKeys db0 s = (r, s') ->
  forall db, getDatabaseStats db s' = getDatabaseStats db s.
Proof.
  unfold updateForeignKeys, bind, executeQuery. simpl.
  unfold set_parent_ids, set_callee_ids, set_caller_ids.
  set (s1 := with_function_calls s _ _).
  set (s2 := with_function_calls s1 _ _).
  set (s3 := with_classes s2 _ _).
  assert (H3 : forall db, getDatabaseStats db s3 = getDatabaseStats db s).
  { intros db. unfold getDatabaseStats. simpl. f_equal.
    - apply (count_where_map_tag c_database_name). apply resolve_parent_tag.
    - rewrite (count_where_map_tag fc_database_name) by apply resolve_callee_tag.
      apply (count_where_map_tag fc_database_name). apply resolve_caller_tag. }
  destruct (update_class_methods (resolve_class db0) s3) as [s4|e] eqn:E4.
  2:{ intros [= <- <-]. exact H3. }
  pose proof (update_class_methods_stats _ _ _ (resolve_class_tag db0) E4) as H4.
  destruct (update_class_methods (resolve_method db0) s4) as [s5|e] eqn:E5.
  2:{ intros [= <- <-] db. now rewrite H4. }
  pose proof (update_class_methods_stats _ _ _ (resolve_method_tag db0) E5) as H5.
  intros [= <- <-] db. now rewrite H5, H4.
Qed.

Lemma cleared_stats_zero db s :
  let st := getDatabaseStats db (cleared db s) in
  stat_functions st = 0%nat /\ stat_classes st = 0%nat /\ stat_calls st = 0%nat
  /\ stat_methods st = 0%nat /\ stat_variables st = 0%nat.
Proof.
  unfold cleared, delete_functions, delete_classes, delete_variables,
    delete_function_calls, delete_class_methods, getDatabaseStats. simpl.
  repeat split; apply count_where_none; intros x.
  - rewrite filter_In. intros [_ H]. now apply negb_true_iff in H.
  - rewrite in_map_iff. intros (c & <- & Hc). apply filter_In in Hc as [_ H].
    apply negb_true_iff in H.
    destruct (refers_to _ _); simpl; exact H.
  - rewrite !filter_In. intros [[_ H] _]. now apply negb_true_iff in H.
  - rewrite !filter_In. intros [[[_ H] _] _]. now apply negb_true_iff in H.
  - rewrite filter_In. intros [_ H]. now apply negb_true_iff in H.
Qed.

End BuildCompletion.

Section BuildUnfold.
Import Store Postgres Ingest Indexer.

(** The handler past its guards: the loop and the resolver, on the
    cleared store. *)
Lemma handleBuildGraphIndex_cleared env name db ld s :
  databases env !! name = Some db ->
  testConnection env = true ->
  languageDir_of (db_language db) = Some ld ->
  handleBuildGraphIndex env name s
  = try_rethrow BuildFailed
      (bind (for_each (run_extraction env db name ld) ∅ extractions)
         (fun stats => bind (updateForeignKeys name) (fun _ => ret stats)))
      (cleared name s).
Proof.
  intros Hdb Hconn Hld. unfold handleBuildGraphIndex. rewrite Hdb, Hconn, Hld.
  reflexivity.
Qed.

Lemma try_rethrow_returned {A} wrap (m : M A) s a s' :
  m s = (Returned a, s') -> try_rethrow wrap m s = (Returned a, s').
Proof. intros H. unfold try_rethrow. now rewrite H. Qed.

Lemma try_rethrow_thrown {A} wrap (m : M A) s e s' :
  m s = (Thrown e, s') -> try_rethrow wrap m s = (Thrown (wrap e), s').
Proof. intros H. unfold try_rethrow. now rewrite H. Qed.

End BuildUnfold.

(** C8. When the extraction query of the required fact type (functions)
    is missing for the corpus's language, the build throws (after having
    cleared the corpus).  When the query of an optional fact type (calls,
    classes, method memberships) is missing, the step stores nothing,
    records 0 for its table and hands over to the next fact type; with all
    three missing and the functions ingested, the build returns, reports 0
    for the three tables and leaves no row of theirs for the corpus. *)
Theorem C8_required_query_fatal_optional_query_skipped :
  forall (env : Indexer.environment) (database_name : string)
         (db : Indexer.CodeQLDatabase) (languageDir : string),
    Indexer.databases env !! database_name = Some db ->
    Indexer.testConnection env = true ->
    Indexer.languageDir_of (Indexer.db_language db) = Some languageDir ->
    (Indexer.access env languageDir (Ingest.query Ingest.extract_functions) = false ->
     forall s,
       Indexer.handleBuildGraphIndex env database_name s
       = (Postgres.Thrown (Postgres.BuildFailed Postgres.RequiredQueryNotFound),
          Postgres.cleared database_name s))
    /\
    (forall e rest stats s,
       In e [Ingest.extract_calls; Ingest.extract_classes; Ingest.extract_methods] ->
       Indexer.access env languageDir (Ingest.query e) = false ->
       Indexer.run_extraction env db database_name languageDir stats e s
       = (Postgres.Returned (<[Ingest.table e := 0%nat]> stats), s)
       /\ Indexer.for_each (Indexer.run_extraction env db database_name languageDir)
            stats (e :: rest) s
          = Indexer.for_each (Indexer.run_extraction env db database_name languageDir)
              (<[Ingest.table e := 0%nat]> stats) rest s)
    /\
    (forall s stats1 s1,
       Indexer.run_extraction env db database_name languageDir ∅ Ingest.extract_functions
         (Postgres.cleared database_name s) = (Postgres.Returned stats1, s1) ->
       (forall e,
          In e [Ingest.extract_calls; Ingest.extract_classes; Ingest.extract_methods] ->
          Indexer.access env languageDir (Ingest.query e) = false) ->
       exists stats s2,
         Indexer.handleBuildGraphIndex env database_name s = (Postgres.Returned stats, s2)
         /\ Indexer.reported stats "functions" = Indexer.reported stats1 "functions"
         /\ stats !! "function_calls" = Some 0%nat
         /\ stats !! "classes" = Some 0%nat
         /\ stats !! "class_methods" = Some 0%nat
         /\ Postgres.stat_calls (Postgres.getDatabaseStats database_name s2) = 0%nat
         /\ Postgres.stat_classes (Postgres.getDatabaseStats database_name s2) = 0%nat
         /\ Postgres.stat_methods (Postgres.getDatabaseStats database_name s2) = 0%nat).
Proof.
  intros env name db ld Hdb Hconn Hld.
  assert (Hopt : forall e rest stats s,
    In e [Ingest.extract_calls; Ingest.extract_classes; Ingest.extract_methods] ->
    Indexer.access env ld (Ingest.query e) = false ->
    Indexer.run_extraction env db name ld stats e s
    = (Postgres.Returned (<[Ingest.table e := 0%nat]> stats), s)
    /\ Indexer.for_each (Indexer.run_extraction env db name ld) stats (e :: rest) s
       = Indexer.for_each (Indexer.run_extraction env db name ld)
           (<[Ingest.table e := 0%nat]> stats) rest s).
  { intros e rest stats s He Ha.
    assert (Hr : Ingest.required e = false)
      by (destruct He as [<-|[<-|[<-|[]]]]; reflexivity).
    pose proof (run_extraction_optional_missing env db name ld stats e s Hr Ha) as E.
    split; [exact E|].
    rewrite for_each_cons. now rewrite (bind_returned _ _ _ _ _ E). }
  split; [|split; [exact Hopt|]].
  - intros Ha s. rewrite (handleBuildGraphIndex_cleared env name db ld s Hdb Hconn Hld).
    apply try_rethrow_thrown. apply bind_thrown.
    unfold Ingest.extractions. rewrite for_each_cons. apply bind_thrown.
    now apply run_extraction_required_missing.
  - intros s stats1 s1 Hf Hmiss.
    pose proof (run_extraction_functions_frame _ _ _ _ _ _ _ _ Hf) as (Hc & Hfc & Hcm & Hv).
    destruct (updateForeignKeys_returns name s1) as [s2 Hs2].
    { intros m Hm. rewrite Hcm in Hm. eapply cleared_class_methods_untagged; eauto. }
    exists (<["class_methods" := 0%nat]>
              (<["classes" := 0%nat]> (<["function_calls" := 0%nat]> stats1))), s2.
    split; [|split; [|split; [|split; [|split]]]].
    + rewrite (handleBuildGraphIndex_cleared env name db ld s Hdb Hconn Hld).
      apply try_rethrow_returned.
      eapply eq_trans; [eapply bind_returned|].
      * unfold Ingest.extractions. rewrite for_each_cons.
        rewrite (bind_returned _ _ _ _ _ Hf).
        rewrite (proj2 (Hopt Ingest.extract_calls _ _ _ ltac:(simpl; auto)
                          (Hmiss Ingest.extract_calls ltac:(simpl; auto)))).
        rewrite (proj2 (Hopt Ingest.extract_classes _ _ _ ltac:(simpl; auto)
                          (Hmiss Ingest.extract_classes ltac:(simpl; auto)))).
        rewrite (proj2 (Hopt Ingest.extract_methods _ _ _ ltac:(simpl; auto)
                          (Hmiss Ingest.extract_methods ltac:(simpl; auto)))).
        reflexivity.
      * now rewrite (bind_returned _ _ _ _ _ Hs2).
    + unfold Indexer.reported. now rewrite !lookup_insert_ne by done.
    + rewrite !lookup_insert_ne by done. now rewrite lookup_insert_eq.
    + rewrite lookup_insert_ne by done. now rewrite lookup_insert_eq.
    + now rewrite lookup_insert_eq.
    + rewrite (updateForeignKeys_stats _ _ _ _ Hs2 name).
      pose proof (cleared_stats_zero name s) as (_ & Z2 & Z3 & Z4 & _).
      unfold Postgres.getDatabaseStats in *. simpl in *.
      rewrite Hc, Hfc, Hcm. auto.
Qed.

Lemma C8_witness :
  Indexer.handleBuildGraphIndex Samples.bare_env "sample" Store.empty
  = (Postgres.Thrown (Postgres.BuildFailed Postgres.RequiredQueryNotFound),
     Postgres.cleared "sample" Store.empty).
Proof.
  apply (C8_required_query_fatal_optional_query_skipped Samples.bare_env "sample"
           (Samples.corpus "sample") "javascript");
    vm_compute; reflexivity.
Defined.

(** ** The store: natural keys across corpora *)

Section KeyFacts.
Import Store Postgres.

Lemma mem_string_In k l : mem_string k l = true <-> In k l.
Proof.
  unfold mem_string. rewrite existsb_exists. split.
  - intros (x & Hx & E). apply String.eqb_eq in E. now subst.
  - intros H. exists k. split; [exact H | apply String.eqb_refl].
Qed.

Lemma mem_string_false k l : mem_string k l = false <-> ~ In k l.
Proof.
  rewrite <- mem_string_In. destruct (mem_string k l); split; intros; congruence.
Qed.

Lemma unique_keys_spec old new :
  unique_keys old new = true ->
  List.NoDup new /\ (forall k, In k new -> ~ In k old).
Proof.
  induction new as [|k ks IH]; simpl.
  - intros _. split; [constructor | intros k []].
  - rewrite !andb_true_iff, !negb_true_iff, !mem_string_false.
    intros [[H1 H2] H3]. destruct (IH H3) as [N F]. split.
    + constructor; assumption.
    + intros k' [<-|Hk]; [exact H1 | now apply F].
Qed.

Lemma insert_functions_spec ncols nrows params s s' :
  insert_statement "functions" ncols nrows params s = Ok s' ->
  exists rows,
    functions s' = functions s ++ rows
    /\ List.NoDup (map f_codeql_id rows)
    /\ (forall r r0, In r rows -> In r0 (functions s) -> f_codeql_id r0 <> f_codeql_id r).
Proof.
  unfold insert_statement.
  destruct (negb (length params =? nrows * ncols)%nat); [discriminate|].
  simpl. destruct (build_rows mk_function _ _) as [rows|]; [|discriminate].
  destruct (unique_keys _ _) eqn:U; [|discriminate].
  intros [= <-]. exists rows. apply unique_keys_spec in U as [N F].
  repeat split; [exact N|]. intros r r0 Hr Hr0 E.
  apply (F (f_codeql_id r)); [now apply in_map | rewrite <- E; now apply in_map].
Qed.

Lemma insert_classes_spec ncols nrows params s s' :
  insert_statement "classes" ncols nrows params s = Ok s' ->
  exists rows,
    classes s' = classes s ++ rows
    /\ List.NoDup (map c_codeql_id rows)
    /\ (forall r r0, In r rows -> In r0 (classes s) -> c_codeql_id r0 <> c_codeql_id r).
Proof.
  unfold insert_statement.
  destruct (negb (length params =? nrows * ncols)%nat); [discriminate|].
  simpl. destruct (build_rows mk_class _ _) as [rows|]; [|discriminate].
  destruct (unique_keys _ _) eqn:U; [|discriminate].
  intros [= <-]. exists rows. apply unique_keys_spec in U as [N F].
  repeat split; [exact N|]. intros r r0 Hr Hr0 E.
  apply (F (c_codeql_id r)); [now apply in_map | rewrite <- E; now apply in_map].
Qed.

Lemma build_rows_not_unique {R} (mk : Z -> list Ingest.field -> result R) tuples :
  (forall id t, mk id t <> Rejected unique_violation) ->
  forall seq, build_rows mk seq tuples <> Rejected unique_violation.
Proof.
  intros Hmk. induction tuples as [|t ts IH]; intros seq; simpl; [discriminate|].
  destruct (mk seq t) eqn:E; [|intros [= ->]; now apply (Hmk seq t)].
  specialize (IH (seq + 1)). destruct (build_rows mk (seq + 1) ts); [discriminate|].
  congruence.
Qed.

Lemma mk_call_not_unique id t : mk_call id t <> Rejected unique_violation.
Proof.
  unfold mk_call, integer_column.
  repeat (match goal with
          | |- context [match ?x with _ => _ end] => is_var x; destruct x
          end; try discriminate).
  destruct (parse_int4 _); discriminate.
Qed.

Lemma mk_method_not_unique id t : mk_method id t <> Rejected unique_violation.
Proof.
  unfold mk_method.
  repeat (match goal with
          | |- context [match ?x with _ => _ end] => destruct x
          end; try discriminate).
Qed.

End KeyFacts.

(** ** The resolver: a second pass changes nothing *)

Section ResolverFacts.
Import Store Postgres.

Variable db : string.

Lemma map_fixed {A} (f : A -> A) l : map f l = l <-> (forall x, In x l -> f x = x).
Proof.
  split.
  - induction l as [|y l IH]; simpl; intros E x Hx; [contradiction|].
    injection E as E1 E2. destruct Hx as [<-|Hx]; [exact E1 | now apply IH].
  - apply map_id_on.
Qed.

Lemma map_map_fixed {A} (f g : A -> A) l :
  (forall x, f (g x) = g x) -> map f (map g l) = map g l.
Proof. intros H. rewrite map_map. apply map_ext. intros x. apply H. Qed.

Lemma find_map_same {A} (p : A -> bool) (g : A -> A) l :
  (forall x, p (g x) = p x) -> List.find p (map g l) = option_map g (List.find p l).
Proof.
  intros H. induction l as [|x l IH]; simpl; [reflexivity|].
  rewrite H. destruct (p x); [reflexivity | exact IH].
Qed.

Lemma resolve_caller_by_id s fc :
  resolve_caller db s fc
  = if tagged db (fc_database_name fc) && is_null (fc_caller_id fc) then
      match function_id_of (fc_caller_codeql_id fc) s with
      | Some i => set_caller_id fc (Some i)
      | None => fc
      end
    else fc.
Proof.
  unfold resolve_caller, function_id_of. now destruct (lookup_function _ _).
Qed.

Lemma resolve_callee_by_id s fc :
  resolve_callee db s fc
  = if tagged db (fc_database_name fc) && is_null (fc_callee_id fc) then
      match function_id_of (fc_callee_codeql_id fc) s with
      | Some i => set_callee_id fc (Some i)
      | None => fc
      end
    else fc.
Proof.
  unfold resolve_callee, function_id_of. now destruct (lookup_function _ _).
Qed.

Lemma resolve_parent_by_id s c :
  resolve_parent db s c
  = if tagged db (c_database_name c) && is_null (c_parent_id c) then
      match c_parent_codeql_id c with
      | Some key =>
          match class_id_of key s with
          | Some i => set_parent_id c (Some i)
          | None => c
          end
      | None => c
      end
    else c.
Proof.
  unfold resolve_parent, class_id_of.
  destruct (c_parent_codeql_id c); [|reflexivity]. now destruct (lookup_class _ _).
Qed.

Lemma resolve_class_by_id s m :
  resolve_class db s m
  = if tagged db (cm_database_name m) && is_null (cm_class_id m) then
      match class_id_of (cm_class_codeql_id m) s with
      | Some i => set_class_id m (Some i)
      | None => m
      end
    else m.
Proof.
  unfold resolve_class, class_id_of. now destruct (lookup_class _ _).
Qed.

Lemma resolve_method_by_id s m :
  resolve_method db s m
  = if tagged db (cm_database_name m) && is_null (cm_method_id m) then
      match function_id_of (cm_method_codeql_id m) s with
      | Some i => set_method_id m (Some i)
      | None => m
      end
    else m.
Proof.
  unfold resolve_method, function_id_of. now destruct (lookup_function _ _).
Qed.

Lemma function_id_of_ext key s s' :
  functions s' = functions s -> function_id_of key s' = function_id_of key s.
Proof. intros H. unfold function_id_of, lookup_function. now rewrite H. Qed.

(** Writing parent ids does not change what a class key resolves to. *)
Lemma class_id_of_map key s s' (g : class_row -> class_row) :
  (forall c, c_codeql_id (g c) = c_codeql_id c) ->
  (forall c, c_id (g c) = c_id c) ->
  classes s' = map g (classes s) ->
  class_id_of key s' = class_id_of key s.
Proof.
  intros Hk Hi E. unfold class_id_of, lookup_class. rewrite E.
  rewrite find_map_same by (intros c; now rewrite Hk).
  destruct (List.find _ (classes s)); simpl; [now rewrite Hi | reflexivity].
Qed.

Lemma resolve_parent_key s c : c_codeql_id (resolve_parent db s c) = c_codeql_id c.
Proof.
  unfold resolve_parent. destruct (_ && _); [|reflexivity].
  destruct (c_parent_codeql_id c); [|reflexivity]. now destruct (lookup_class _ _).
Qed.

Lemma resolve_parent_id s c : c_id (resolve_parent db s c) = c_id c.
Proof.
  unfold resolve_parent. destruct (_ && _); [|reflexivity].
  destruct (c_parent_codeql_id c); [|reflexivity]. now destruct (lookup_class _ _).
Qed.

Lemma resolve_caller_idem s s' fc :
  function_id_of (fc_caller_codeql_id fc) s' = function_id_of (fc_caller_codeql_id fc) s ->
  resolve_caller db s' (resolve_caller db s fc) = resolve_caller db s fc.
Proof.
  rewrite !resolve_caller_by_id. intros E.
  destruct fc as [i d ck ek [c|] e n f l]; simpl in *;
    destruct (tagged db d) eqn:T; simpl; rewrite ?T; simpl; try reflexivity.
  destruct (function_id_of ck s) eqn:E1; simpl; rewrite ?T; simpl; [reflexivity|].
  now rewrite E.
Qed.

Lemma resolve_callee_idem s s' fc :
  function_id_of (fc_callee_codeql_id fc) s' = function_id_of (fc_callee_codeql_id fc) s ->
  resolve_callee db s' (resolve_callee db s fc) = resolve_callee db s fc.
Proof.
  rewrite !resolve_callee_by_id. intros E.
  destruct fc as [i d ck ek c [e|] n f l]; simpl in *;
    destruct (tagged db d) eqn:T; simpl; rewrite ?T; simpl; try reflexivity.
  destruct (function_id_of ek s) eqn:E1; simpl; rewrite ?T; simpl; [reflexivity|].
  now rewrite E.
Qed.

Lemma resolve_parent_idem s s' c :
  (forall key, class_id_of key s' = class_id_of key s) ->
  resolve_parent db s' (resolve_parent db s c) = resolve_parent db s c.
Proof.
  rewrite !resolve_parent_by_id. intros E.
  destruct c as [i k d n f l [pk|] [p|]]; simpl in *;
    destruct (tagged db d) eqn:T; simpl; rewrite ?T; simpl; try reflexivity.
  destruct (class_id_of pk s) eqn:E1; simpl; rewrite ?T; simpl; [reflexivity|].
  now rewrite E, E1.
Qed.

Lemma resolve_class_idem s s' m :
  class_id_of (cm_class_codeql_id m) s' = class_id_of (cm_class_codeql_id m) s ->
  resolve_class db s' (resolve_class db s m) = resolve_class db s m.
Proof.
  rewrite !resolve_class_by_id. intros E.
  destruct m as [i d ck mk n [c|] me]; simpl in *;
    destruct (tagged db d) eqn:T; simpl; rewrite ?T; simpl; try reflexivity.
  destruct (class_id_of ck s) eqn:E1; simpl; rewrite ?T; simpl; [reflexivity|].
  now rewrite E.
Qed.

Lemma resolve_method_idem s s' m :
  function_id_of (cm_method_codeql_id m) s' = function_id_of (cm_method_codeql_id m) s ->
  resolve_method db s' (resolve_method db s m) = resolve_method db s m.
Proof.
  rewrite !resolve_method_by_id. intros E.
  destruct m as [i d ck mk n c [me|]]; simpl in *;
    destruct (tagged db d) eqn:T; simpl; rewrite ?T; simpl; try reflexivity.
  destruct (function_id_of mk s) eqn:E1; simpl; rewrite ?T; simpl; [reflexivity|].
  now rewrite E.
Qed.

(** A pass that writes another column keeps a row settled. *)
Lemma resolve_caller_after_callee s s1 fc :
  resolve_caller db s fc = fc ->
  resolve_caller db s (resolve_callee db s1 fc) = resolve_callee db s1 fc.
Proof.
  rewrite !resolve_caller_by_id, resolve_callee_by_id.
  destruct fc as [i d ck ek [c|] [e|] n f l]; simpl in *;
    destruct (tagged db d) eqn:T; simpl; rewrite ?T; simpl; try reflexivity.
  - destruct (function_id_of ek s1); simpl; rewrite ?T; reflexivity.
  - destruct (function_id_of ck s) eqn:E1; [intros [=]|]; reflexivity.
  - destruct (function_id_of ck s) eqn:E1; [intros [=]|]. intros _.
    destruct (function_id_of ek s1); simpl; rewrite ?T; simpl; now rewrite ?E1.
Qed.

Lemma resolve_class_after_method s s1 m :
  resolve_class db s m = m ->
  resolve_class db s (resolve_method db s1 m) = resolve_method db s1 m.
Proof.
  rewrite !resolve_class_by_id, resolve_method_by_id.
  destruct m as [i d ck mk n [c|] [me|]]; simpl in *;
    destruct (tagged db d) eqn:T; simpl; rewrite ?T; simpl; try reflexivity.
  - destruct (function_id_of mk s1); simpl; rewrite ?T; reflexivity.
  - destruct (class_id_of ck s) eqn:E1; [intros [=]|]; reflexivity.
  - destruct (class_id_of ck s) eqn:E1; [intros [=]|]. intros _.
    destruct (function_id_of mk s1); simpl; rewrite ?T; simpl; now rewrite ?E1.
Qed.

End ResolverFacts.

Section ResolverIdempotence.
Import Store Postgres.

Variable db : string.

Lemma updateForeignKeys_unfold s :
  updateForeignKeys db s
  = let s3 := set_parent_ids db (set_callee_ids db (set_caller_ids db s)) in
    match update_class_methods (resolve_class db) s3 with
    | Rejected e => (Thrown (StoreError e), s3)
    | Ok s4 =>
        match update_class_methods (resolve_method db) s4 with
        | Rejected e => (Thrown (StoreError e), s4)
        | Ok s5 => (Returned tt, s5)
        end
    end.
Proof.
  unfold updateForeignKeys, bind, executeQuery. simpl.
  destruct (update_class_methods (resolve_class db) _); [|reflexivity].
  destruct (update_class_methods (resolve_method db) _); reflexivity.
Qed.

(** A store is settled for a pass when the pass would write nothing. *)
Local Abbreviation fixed1 s := (map (resolve_caller db s) (function_calls s) = function_calls s).
Local Abbreviation fixed2 s := (map (resolve_callee db s) (function_calls s) = function_calls s).
Local Abbreviation fixed3 s := (map (resolve_parent db s) (classes s) = classes s).
Local Abbreviation fixed4 s := (map (resolve_class db s) (class_methods s) = class_methods s).
Local Abbreviation fixed5 s := (map (resolve_method db s) (class_methods s) = class_methods s).

Lemma with_function_calls_same s :
  with_function_calls s (function_calls s) (function_calls_id_seq s) = s.
Proof. now destruct s. Qed.

Lemma with_classes_same s : with_classes s (classes s) (classes_id_seq s) = s.
Proof. now destruct s. Qed.

Lemma set_caller_ids_fixed s : fixed1 s -> set_caller_ids db s = s.
Proof. intros H. unfold set_caller_ids. rewrite H. apply with_function_calls_same. Qed.

Lemma set_callee_ids_fixed s : fixed2 s -> set_callee_ids db s = s.
Proof. intros H. unfold set_callee_ids. rewrite H. apply with_function_calls_same. Qed.

Lemma set_parent_ids_fixed s : fixed3 s -> set_parent_ids db s = s.
Proof. intros H. unfold set_parent_ids. rewrite H. apply with_classes_same. Qed.

Lemma update_class_methods_fixed f s :
  map (f s) (class_methods s) = class_methods s -> update_class_methods f s = Ok s.
Proof.
  intros H. unfold update_class_methods. rewrite H, ids_changed_same. simpl.
  now rewrite with_class_methods_same.
Qed.

Lemma resolve_caller_ext s s' fc :
  functions s' = functions s -> resolve_caller db s' fc = resolve_caller db s fc.
Proof.
  intros H. rewrite !resolve_caller_by_id. now rewrite (function_id_of_ext _ _ _ H).
Qed.

Lemma resolve_callee_ext s s' fc :
  functions s' = functions s -> resolve_callee db s' fc = resolve_callee db s fc.
Proof.
  intros H. rewrite !resolve_callee_by_id. now rewrite (function_id_of_ext _ _ _ H).
Qed.

Lemma resolve_method_ext s s' m :
  functions s' = functions s -> resolve_method db s' m = resolve_method db s m.
Proof.
  intros H. rewrite !resolve_method_by_id. now rewrite (function_id_of_ext _ _ _ H).
Qed.

Lemma resolve_class_ext s s' m :
  classes s' = classes s -> resolve_class db s' m = resolve_class db s m.
Proof. intros H. unfold resolve_class, lookup_class. now rewrite H. Qed.

Lemma fixed1_after_caller s : fixed1 (set_caller_ids db s).
Proof.
  unfold set_caller_ids. simpl. apply map_map_fixed. intros fc.
  apply resolve_caller_idem. now apply function_id_of_ext.
Qed.

Lemma fixed12_after_callee s :
  fixed1 s -> fixed1 (set_callee_ids db s) /\ fixed2 (set_callee_ids db s).
Proof.
  intros H1. unfold set_callee_ids. simpl. split.
  - rewrite map_map. apply map_ext_in. intros fc Hfc.
    rewrite (resolve_caller_ext s) by reflexivity.
    apply resolve_caller_after_callee. now apply (proj1 (map_fixed _ _) H1).
  - apply map_map_fixed. intros fc.
    apply resolve_callee_idem. now apply function_id_of_ext.
Qed.

Lemma fixed3_after_parent s : fixed3 (set_parent_ids db s).
Proof.
  unfold set_parent_ids. simpl. apply map_map_fixed. intros c.
  apply resolve_parent_idem. intros key.
  apply class_id_of_map with (g := resolve_parent db s);
    [apply resolve_parent_key | apply resolve_parent_id | reflexivity].
Qed.

Lemma update_class_pass s s4 :
  update_class_methods (resolve_class db) s = Ok s4 ->
  functions s4 = functions s /\ classes s4 = classes s
  /\ function_calls s4 = function_calls s /\ fixed4 s4.
Proof.
  unfold update_class_methods. destruct (_ && _); [discriminate|].
  intros [= <-]. simpl. repeat split.
  apply map_map_fixed. intros m.
  rewrite (resolve_class_ext s) by reflexivity. now apply resolve_class_idem.
Qed.

Lemma update_method_pass s s5 :
  fixed4 s ->
  update_class_methods (resolve_method db) s = Ok s5 ->
  functions s5 = functions s /\ classes s5 = classes s
  /\ function_calls s5 = function_calls s /\ fixed4 s5 /\ fixed5 s5.
Proof.
  intros H4. unfold update_class_methods. destruct (_ && _); [discriminate|].
  intros [= <-]. simpl. repeat split.
  - rewrite map_map. apply map_ext_in. intros m Hm.
    rewrite (resolve_class_ext s) by reflexivity.
    apply resolve_class_after_method. now apply (proj1 (map_fixed _ _) H4).
  - apply map_map_fixed. intros m.
    rewrite (resolve_method_ext s) by reflexivity. now apply resolve_method_idem.
Qed.

(** Being settled for the first three passes only depends on the three
    tables they read. *)
Lemma fixed123_transfer s s' :
  functions s' = functions s -> classes s' = classes s ->
  function_calls s' = function_calls s ->
  fixed1 s -> fixed2 s -> fixed3 s ->
  set_parent_ids db (set_callee_ids db (set_caller_ids db s')) = s'.
Proof.
  intros Hf Hc Hfc H1 H2 H3.
  assert (F1 : fixed1 s').
  { rewrite Hfc. rewrite <- H1 at 2. apply map_ext. intros fc.
    now apply resolve_caller_ext. }
  assert (F2 : fixed2 s').
  { rewrite Hfc. rewrite <- H2 at 2. apply map_ext. intros fc.
    now apply resolve_callee_ext. }
  assert (F3 : fixed3 s').
  { rewrite Hc. rewrite <- H3 at 2. apply map_ext. intros c.
    unfold resolve_parent, lookup_class. now rewrite Hc. }
  now rewrite (set_caller_ids_fixed _ F1), (set_callee_ids_fixed _ F2),
    (set_parent_ids_fixed _ F3).
Qed.

Lemma fixed123_after_three s :
  let s3 := set_parent_ids db (set_callee_ids db (set_caller_ids db s)) in
  fixed1 s3 /\ fixed2 s3 /\ fixed3 s3.
Proof.
  simpl. set (s1 := set_caller_ids db s). set (s2 := set_callee_ids db s1).
  destruct (fixed12_after_callee s1 (fixed1_after_caller s)) as [A B]. fold s2 in A, B.
  repeat split.
  - etransitivity; [|exact A].
    apply (map_ext (resolve_caller db (set_parent_ids db s2)) (resolve_caller db s2)).
    intros fc. now apply resolve_caller_ext.
  - etransitivity; [|exact B].
    apply (map_ext (resolve_callee db (set_parent_ids db s2)) (resolve_callee db s2)).
    intros fc. now apply resolve_callee_ext.
  - apply fixed3_after_parent.
Qed.

Lemma updateForeignKeys_twice s :
  updateForeignKeys db (snd (updateForeignKeys db s)) = updateForeignKeys db s.
Proof.
  rewrite (updateForeignKeys_unfold s). cbv zeta.
  set (s3 := set_parent_ids db (set_callee_ids db (set_caller_ids db s))).
  destruct (fixed123_after_three s) as (F1 & F2 & F3). fold s3 in F1, F2, F3.
  destruct (update_class_methods (resolve_class db) s3) as [s4|e] eqn:E4.
  - destruct (update_class_pass _ _ E4) as (Hf4 & Hc4 & Hfc4 & F4).
    destruct (update_class_methods (resolve_method db) s4) as [s5|e] eqn:E5.
    + destruct (update_method_pass _ _ F4 E5) as (Hf5 & Hc5 & Hfc5 & G4 & G5).
      simpl. rewrite updateForeignKeys_unfold. cbv zeta.
      rewrite (fixed123_transfer s3 s5) by congruence.
      rewrite (update_class_methods_fixed _ _ G4).
      now rewrite (update_class_methods_fixed _ _ G5).
    + simpl. rewrite updateForeignKeys_unfold. cbv zeta.
      rewrite (fixed123_transfer s3 s4) by congruence.
      rewrite (update_class_methods_fixed _ _ F4). now rewrite E5.
  - simpl. rewrite updateForeignKeys_unfold. cbv zeta.
    rewrite (fixed123_transfer s3 s3) by congruence. now rewrite E4.
Qed.

End ResolverIdempotence.

(** C3. The resolution pass is idempotent.  Each update writes only a
    resolved id that is null, in a row of the given corpus; running the
    pass on the store a first run has left behaves as the first run did
    and leaves that store as it is; in particular a second pass after a
    pass that returned returns as well, without any change. *)
Theorem C3_resolver_idempotent :
  forall (db : string) (s : Store.store),
    ((forall s0 fc, Store.fc_caller_id fc <> None -> Postgres.resolve_caller db s0 fc = fc)
     /\ (forall s0 fc, Store.fc_callee_id fc <> None -> Postgres.resolve_callee db s0 fc = fc)
     /\ (forall s0 c, Store.c_parent_id c <> None -> Postgres.resolve_parent db s0 c = c)
     /\ (forall s0 m, Store.cm_class_id m <> None -> Postgres.resolve_class db s0 m = m)
     /\ (forall s0 m, Store.cm_method_id m <> None -> Postgres.resolve_method db s0 m = m))
    /\ Postgres.updateForeignKeys db (snd (Postgres.updateForeignKeys db s))
       = Postgres.updateForeignKeys db s
    /\ (forall s',
          Postgres.updateForeignKeys db s = (Postgres.Returned tt, s') ->
          Postgres.updateForeignKeys db s' = (Postgres.Returned tt, s')).
Proof.
  intros db s. split; [|split].
  - repeat split; intros s0 r Hr.
    + unfold Postgres.resolve_caller. destruct (Store.fc_caller_id r); [|congruence].
      now rewrite andb_false_r.
    + unfold Postgres.resolve_callee. destruct (Store.fc_callee_id r); [|congruence].
      now rewrite andb_false_r.
    + unfold Postgres.resolve_parent. destruct (Store.c_parent_id r); [|congruence].
      now rewrite andb_false_r.
    + unfold Postgres.resolve_class. destruct (Store.cm_class_id r); [|congruence].
      now rewrite andb_false_r.
    + unfold Postgres.resolve_method. destruct (Store.cm_method_id r); [|congruence].
      now rewrite andb_false_r.
  - apply updateForeignKeys_twice.
  - intros s' H. pose proof (updateForeignKeys_twice db s) as T.
    rewrite H in T. exact T.
Qed.

Lemma C3_witness :
  Postgres.updateForeignKeys "sample" Samples.abc_store
  = (Postgres.Returned tt, Samples.abc_store).
Proof.
  apply (C3_resolver_idempotent "sample" Samples.abc_unresolved).
  vm_compute. reflexivity.
Defined.

(** ** Rebuilding a corpus: what happens to the other corpora *)

Section RebuildFrame.
Import Store Postgres Ingest Indexer.

Lemma tagged_false db tag : tag <> db -> tagged db tag = false.
Proof. intros H. unfold tagged. now apply String.eqb_neq. Qed.

Lemma grows_refl s : grows s s.
Proof. repeat split; apply incl_refl. Qed.

Lemma grows_trans s1 s2 s3 : grows s1 s2 -> grows s2 s3 -> grows s1 s3.
Proof.
  intros (A1 & A2 & A3 & A4 & A5) (B1 & B2 & B3 & B4 & B5).
  repeat split; eapply incl_tran; eauto.
Qed.

Lemma grows_others_kept db s s' : grows s s' -> others_kept db s s'.
Proof. intros (A1 & A2 & A3 & A4 & A5). repeat split; intros r Hr _; auto. Qed.

Lemma others_kept_refl db s : others_kept db s s.
Proof. repeat split; auto. Qed.

Lemma others_kept_trans db s1 s2 s3 :
  others_kept db s1 s2 -> others_kept db s2 s3 -> others_kept db s1 s3.
Proof.
  intros (A1 & A2 & A3 & A4 & A5) (B1 & B2 & B3 & B4 & B5).
  repeat split; intros r Hr Ht; auto.
Qed.

Lemma unreferencing_then_others db s1 s2 s3 :
  unreferencing_kept db s1 s2 -> others_kept db s2 s3 -> unreferencing_kept db s1 s3.
Proof.
  intros (A1 & A2 & A3 & A4 & A5) (B1 & B2 & B3 & B4 & B5).
  repeat split; intros r Hr Ht; auto.
Qed.

Lemma others_unreferencing db s s' : others_kept db s s' -> unreferencing_kept db s s'.
Proof. intros (A1 & A2 & A3 & A4 & A5). repeat split; intros r Hr Ht; auto. Qed.

(** [clearDatabase] and the ON DELETE rules. *)
Lemma cleared_unreferencing_kept db s : unreferencing_kept db s (cleared db s).
Proof.
  unfold unreferencing_kept, cleared, delete_functions, delete_classes, delete_variables,
    delete_function_calls, delete_class_methods, class_ids_of, function_ids_of.
  simpl. repeat split.
  - intros f Hf Ht. apply filter_In. split; [exact Hf|].
    now rewrite (tagged_false _ _ Ht).
  - intros c Hc Ht Hp. apply in_map_iff. exists c. split.
    + now rewrite Hp.
    + apply filter_In. split; [exact Hc|]. now rewrite (tagged_false _ _ Ht).
  - intros fc Hfc Ht H1 H2. apply filter_In. split.
    + apply filter_In. split; [exact Hfc|]. now rewrite (tagged_false _ _ Ht).
    + now rewrite H1, H2.
  - intros m Hm Ht H1 H2. apply filter_In. split.
    + apply filter_In. split.
      * apply filter_In. split; [exact Hm|]. now rewrite (tagged_false _ _ Ht).
      * now rewrite H1.
    + now rewrite H2.
  - intros v Hv Ht. apply filter_In. split; [exact Hv|].
    now rewrite (tagged_false _ _ Ht).
Qed.

(** An INSERT only appends. *)
Lemma insert_statement_grows table ncols nrows params s s' :
  insert_statement table ncols nrows params s = Ok s' -> grows s s'.
Proof.
  unfold insert_statement.
  destruct (negb (length params =? nrows * ncols)%nat); [discriminate|].
  destruct (String.eqb table "functions").
  { destruct (build_rows mk_function _ _); [|discriminate].
    destruct (unique_keys _ _); [|discriminate].
    intros [= <-]. repeat split; simpl; try apply incl_refl. now apply incl_appl. }
  destruct (String.eqb table "function_calls").
  { destruct (build_rows mk_call _ _); [|discriminate].
    intros [= <-]. repeat split; simpl; try apply incl_refl. now apply incl_appl. }
  destruct (String.eqb table "classes").
  { destruct (build_rows mk_class _ _); [|discriminate].
    destruct (unique_keys _ _); [|discriminate].
    intros [= <-]. repeat split; simpl; try apply incl_refl. now apply incl_appl. }
  destruct (build_rows mk_method _ _); [|discriminate].
  intros [= <-]. repeat split; simpl; try apply incl_refl. now apply incl_appl.
Qed.

Lemma batch_loop_grows fuel table ncols bs values :
  forall i s r s', batch_loop fuel table ncols bs values i s = (r, s') -> grows s s'.
Proof.
  induction fuel as [|fuel IH]; intros i s r s' H; simpl in H.
  - inversion H. apply grows_refl.
  - destruct (i <? length values)%nat; [|inversion H; apply grows_refl].
    unfold bind, executeQuery in H.
    destruct (insert_statement _ _ _ _ s) as [s1|e] eqn:E.
    + apply IH in H. apply insert_statement_grows in E. eapply grows_trans; eauto.
    + inversion H. apply grows_refl.
Qed.

Lemma run_extraction_grows env db name ld stats e s r s' :
  run_extraction env db name ld stats e s = (r, s') -> grows s s'.
Proof.
  unfold run_extraction.
  destruct (negb (access env ld (query e))).
  { destruct (required e); intros H; inversion H; apply grows_refl. }
  destruct (run_and_decode env db ld (query e)) as [csv|].
  2:{ intros H. inversion H. apply grows_refl. }
  unfold bind.
  destruct (0 <? length (values (ingest name e csv)))%nat.
  - unfold insert_batches.
    destruct (batch_loop _ _ _ _ _ _ s) as [[[]|err] s1] eqn:E;
      intros H; inversion H; subst; eapply batch_loop_grows; eauto.
  - intros H. inversion H. apply grows_refl.
Qed.

Lemma for_each_grows {A B} (body : A -> B -> M A) l :
  (forall a x s r s', body a x s = (r, s') -> grows s s') ->
  forall a s r s', for_each body a l s = (r, s') -> grows s s'.
Proof.
  intros Hbody. induction l as [|x xs IH]; intros a s r s' H; simpl in H.
  - inversion H. apply grows_refl.
  - unfold bind in H. destruct (body a x s) as [[a'|e] s1] eqn:E.
    + eapply grows_trans; [eapply Hbody; eauto | eapply IH; eauto].
    + inversion H. subst. eapply Hbody; eauto.
Qed.

(** The resolver writes rows of its corpus only. *)
Lemma In_map_fixed {A} (f : A -> A) l x : In x l -> f x = x -> In x (map f l).
Proof. intros Hx E. rewrite <- E. now apply in_map. Qed.

Lemma set_caller_ids_others db s : others_kept db s (set_caller_ids db s).
Proof.
  unfold set_caller_ids. repeat split; simpl; auto.
  intros fc Hfc Ht. apply In_map_fixed; [exact Hfc|].
  unfold resolve_caller. now rewrite (tagged_false _ _ Ht).
Qed.

Lemma set_callee_ids_others db s : others_kept db s (set_callee_ids db s).
Proof.
  unfold set_callee_ids. repeat split; simpl; auto.
  intros fc Hfc Ht. apply In_map_fixed; [exact Hfc|].
  unfold resolve_callee. now rewrite (tagged_false _ _ Ht).
Qed.

Lemma set_parent_ids_others db s : others_kept db s (set_parent_ids db s).
Proof.
  unfold set_parent_ids. repeat split; simpl; auto.
  intros c Hc Ht. apply In_map_fixed; [exact Hc|].
  unfold resolve_parent. now rewrite (tagged_false _ _ Ht).
Qed.

Lemma update_class_methods_others db f s s' :
  (forall s0 m, cm_database_name m <> db -> f s0 m = m) ->
  update_class_methods f s = Ok s' -> others_kept db s s'.
Proof.
  intros Hf. unfold update_class_methods. destruct (_ && _); [discriminate|].
  intros [= <-]. repeat split; simpl; auto.
  intros m Hm Ht. apply In_map_fixed; [exact Hm|]. now apply Hf.
Qed.

Lemma updateForeignKeys_others db s r s' :
  updateForeignKeys db s = (r, s') -> others_kept db s s'.
Proof.
  rewrite updateForeignKeys_unfold. cbv zeta.
  set (s3 := set_parent_ids db (set_callee_ids db (set_caller_ids db s))).
  assert (K3 : others_kept db s s3).
  { eapply others_kept_trans; [apply set_caller_ids_others|].
    eapply others_kept_trans; [apply set_callee_ids_others|].
    apply set_parent_ids_others. }
  assert (Hc : forall s0 m, cm_database_name m <> db -> resolve_class db s0 m = m).
  { intros s0 m Ht. unfold resolve_class. now rewrite (tagged_false _ _ Ht). }
  assert (Hm : forall s0 m, cm_database_name m <> db -> resolve_method db s0 m = m).
  { intros s0 m Ht. unfold resolve_method. now rewrite (tagged_false _ _ Ht). }
  destruct (update_class_methods (resolve_class db) s3) as [s4|e] eqn:E4.
  2:{ intros [= <- <-]. exact K3. }
  pose proof (update_class_methods_others db _ _ _ Hc E4) as K4.
  destruct (update_class_methods (resolve_method db) s4) as [s5|e] eqn:E5.
  2:{ intros [= <- <-]. eapply others_kept_trans; eauto. }
  pose proof (update_class_methods_others db _ _ _ Hm E5) as K5.
  intros [= <- <-]. eapply others_kept_trans; [exact K3|].
  eapply others_kept_trans; eauto.
Qed.

(** The whole handler. *)
Lemma handleBuildGraphIndex_frame env name s :
  unreferencing_kept name s (snd (handleBuildGraphIndex env name s)).
Proof.
  destruct (databases env !! name) as [db|] eqn:Hdb.
  2:{ unfold handleBuildGraphIndex. rewrite Hdb.
      apply others_unreferencing, others_kept_refl. }
  destruct (testConnection env) eqn:Hconn.
  2:{ unfold handleBuildGraphIndex. rewrite Hdb, Hconn.
      apply others_unreferencing, others_kept_refl. }
  destruct (languageDir_of (db_language db)) as [ld|] eqn:Hld.
  2:{ unfold handleBuildGraphIndex. rewrite Hdb, Hconn, Hld.
      apply cleared_unreferencing_kept. }
  rewrite (handleBuildGraphIndex_cleared env name db ld s Hdb Hconn Hld).
  unfold try_rethrow, bind.
  destruct (for_each (run_extraction env db name ld) ∅ extractions (cleared name s))
    as [[stats|e] s1] eqn:E1;
    pose proof (for_each_grows _ _ (run_extraction_grows env db name ld) _ _ _ _ E1) as G.
  - destruct (updateForeignKeys name s1) as [[[]|e] s2] eqn:E2; simpl;
      (eapply unreferencing_then_others; [apply cleared_unreferencing_kept|];
       eapply others_kept_trans; [apply grows_others_kept; exact G|];
       eapply updateForeignKeys_others; eauto).
  - simpl. eapply unreferencing_then_others; [apply cleared_unreferencing_kept|].
    now apply grows_others_kept.
Qed.

End RebuildFrame.

(** ** ORDER BY and LIMIT *)

Section OrderBy.
Import Query.
Context {A : Type} (leb : A -> A -> bool).

Lemma insert_by_perm x l : Permutation (insert_by leb x l) (x :: l).
Proof.
  induction l as [|y l IH]; simpl; [reflexivity|].
  destruct (leb x y); [reflexivity|].
  rewrite IH. apply perm_swap.
Qed.

Lemma order_by_perm l : Permutation (order_by leb l) l.
Proof.
  induction l as [|x l IH]; simpl; [reflexivity|].
  unfold order_by in *. simpl. rewrite insert_by_perm. now constructor.
Qed.

Lemma order_by_In l x : In x (order_by leb l) <-> In x l.
Proof.
  split; apply Permutation_in; [|symmetry]; apply order_by_perm.
Qed.

Lemma order_by_length l : length (order_by leb l) = length l.
Proof. apply Permutation_length, order_by_perm. Qed.

Hypothesis leb_total : forall a b, leb a b = true \/ leb b a = true.
Hypothesis leb_trans : forall a b c, leb a b = true -> leb b c = true -> leb a c = true.

Lemma insert_by_sorted x l :
  StronglySorted (fun a b => leb a b = true) l ->
  StronglySorted (fun a b => leb a b = true) (insert_by leb x l).
Proof using leb_total leb_trans.
  induction 1 as [|y l Hs IH Hy]; simpl.
  - repeat constructor.
  - destruct (leb x y) eqn:E.
    + constructor; [now constructor|]. constructor; [exact E|].
      rewrite List.Forall_forall in *. intros z Hz. eapply leb_trans; eauto.
    + constructor; [exact IH|].
      rewrite List.Forall_forall in *. intros z Hz.
      apply (Permutation_in _ (insert_by_perm x l)) in Hz. destruct Hz as [<-|Hz].
      * destruct (leb_total x y) as [T|T]; [congruence | exact T].
      * now apply Hy.
Qed.

Lemma order_by_sorted l : StronglySorted (fun a b => leb a b = true) (order_by leb l).
Proof using leb_total leb_trans.
  induction l as [|x l IH]; simpl; [constructor|].
  now apply insert_by_sorted.
Qed.

(** The first row of an ordered table sorts no later than any row. *)
Lemma order_by_head h t l x :
  order_by leb l = h :: t -> In x l -> leb h x = true.
Proof using leb_total leb_trans.
  intros E Hx. pose proof (order_by_sorted l) as S. rewrite E in S.
  apply (proj2 (order_by_In l x)) in Hx. rewrite E in Hx.
  inversion S as [|? ? _ F]; subst. destruct Hx as [<-|Hx].
  - destruct (leb_total h h); assumption.
  - rewrite List.Forall_forall in F. now apply F.
Qed.

End OrderBy.

(** ** The call-chain search *)

Section CallChainFacts.
Import Store Postgres Query CallGraph.

Variable s : store.
Variable db from : string.
Variable max_depth : Z.

Local Abbreviation step := (chain_step db max_depth s).
Local Abbreviation level k := (chain_level k db max_depth s (chain_seed from db s)).

Lemma eq_id_true x i : eq_id x i = true <-> x = Some i.
Proof.
  destruct x as [j|]; simpl; [|split; discriminate].
  rewrite Z.eqb_eq. split; congruence.
Qed.

Lemma eq_text_true x t : eq_text x t = true <-> x = Some t.
Proof.
  destruct x as [u|]; simpl; [|split; discriminate].
  rewrite String.eqb_eq. split; congruence.
Qed.

Lemma tagged_true tag : tagged db tag = true <-> tag = db.
Proof. unfold tagged. apply String.eqb_eq. Qed.

Lemma in_left_join cond c :
  In (Some c) (left_join_functions cond s) <-> In c (functions s) /\ cond c = true.
Proof.
  unfold left_join_functions. rewrite <- filter_In.
  destruct (List.filter cond (functions s)) as [|x l] eqn:E.
  - simpl. split; [intros [H|[]]; discriminate | intros []].
  - rewrite in_map_iff. split.
    + intros (y & [= ->] & Hy). exact Hy.
    + intros H. now exists c.
Qed.

Lemma in_chain_step r W :
  In r (step W) <->
  exists cc fc c,
    In cc W /\ In fc (function_calls s) /\ fc_caller_id fc = Some (cc_id cc)
    /\ In c (functions s)
    /\ (fc_callee_id fc = Some (f_id c) \/ fc_callee_name fc = Some (f_name c))
    /\ f_database_name c = db /\ cc_depth cc < max_depth
    /\ ~ In (f_name c) (cc_path cc)
    /\ r = extend cc c.
Proof.
  unfold chain_step. rewrite in_flat_map. split.
  - intros (cc & Hcc & H). apply in_flat_map in H as (fc & Hfc & H).
    apply filter_In in Hfc as [Hfc Hcaller]. apply eq_id_true in Hcaller.
    apply in_flat_map in H as ([c|] & Hc & H); [|contradiction].
    apply in_left_join in Hc as [Hc Hcond].
    apply orb_true_iff in Hcond. rewrite eq_id_true, eq_text_true in Hcond.
    destruct (tagged db (f_database_name c) && (cc_depth cc <? max_depth)
              && negb (mem_string (f_name c) (cc_path cc))) eqn:G; [|contradiction].
    apply andb_true_iff in G as [G G3]. apply andb_true_iff in G as [G1 G2].
    apply tagged_true in G1. apply Z.ltb_lt in G2.
    apply negb_true_iff, mem_string_false in G3.
    destruct H as [<-|[]]. exists cc, fc, c. repeat split; assumption.
  - intros (cc & fc & c & Hcc & Hfc & Hcaller & Hc & Hcond & Hdb & Hd & Hn & ->).
    exists cc. split; [exact Hcc|]. apply in_flat_map. exists fc. split.
    { apply filter_In. split; [exact Hfc | now apply eq_id_true]. }
    apply in_flat_map. exists (Some c). split.
    { apply in_left_join. split; [exact Hc|]. apply orb_true_iff.
      now rewrite eq_id_true, eq_text_true. }
    apply tagged_true in Hdb. apply Z.ltb_lt in Hd.
    apply mem_string_false in Hn. rewrite Hdb, Hd, Hn. simpl. now left.
Qed.

Lemma chain_step_nil : step [] = [].
Proof. reflexivity. Qed.

Lemma chain_level_succ k W :
  chain_level (S k) db max_depth s W = step (chain_level k db max_depth s W).
Proof.
  revert W. induction k as [|k IH]; intros W; [reflexivity|].
  change (chain_level (S (S k)) db max_depth s W)
    with (chain_level (S k) db max_depth s (step W)).
  rewrite IH. reflexivity.
Qed.

Lemma chain_level_nil k : chain_level k db max_depth s [] = [].
Proof. induction k as [|k IH]; [reflexivity|]. simpl. exact IH. Qed.

Lemma in_chain_rounds r fuel :
  forall W,
    In r (chain_rounds fuel db max_depth s W)
    <-> exists k, (k < fuel)%nat /\ In r (chain_level k db max_depth s W).
Proof.
  induction fuel as [|fuel IH]; intros W; simpl.
  - split; [intros [] | intros (k & Hk & _); lia].
  - destruct W as [|w W'] eqn:EW.
    + split; [intros []|]. intros (k & _ & H). now rewrite chain_level_nil in H.
    + rewrite <- EW. rewrite in_app_iff, IH. split.
      * intros [H|(k & Hk & H)].
        -- exists 0%nat. split; [lia | exact H].
        -- exists (S k). split; [lia | exact H].
      * intros ([|k] & Hk & H).
        -- now left.
        -- right. exists k. split; [lia | exact H].
Qed.

(** More rounds than the depth bound allows add nothing. *)
Lemma chain_rounds_enough n m :
  forall W,
    chain_level n db max_depth s W = [] ->
    chain_rounds (n + m) db max_depth s W = chain_rounds n db max_depth s W.
Proof.
  induction n as [|n IH]; intros W H; simpl in *.
  - subst W. now destruct m.
  - destruct W as [|w W']; [reflexivity|]. f_equal. now apply IH.
Qed.

Lemma call_path_start_inv g :
  call_path s db from [] g ->
  In g (functions s) /\ f_name g = from /\ f_database_name g = db.
Proof.
  intros H. inversion H as [f H1 H2 H3 | p f g' _ _ _ _ _ E]; subst; [auto|].
  now destruct p.
Qed.

Lemma call_path_extend_inv p f g :
  call_path s db from (p ++ [f]) g ->
  call_path s db from p f /\ In g (functions s) /\ f_database_name g = db
  /\ calls s f g /\ ~ In (f_name g) (map f_name (p ++ [f])).
Proof.
  intros H. inversion H as [f0 H1 H2 H3 E | p0 f0 g' Hp Hg Hdb Hc Hn E]; subst.
  - now destruct p.
  - apply app_inj_tail in E as [-> ->]. auto.
Qed.

Lemma row_of_path_extend p f g :
  extend (row_of_path p f) g = row_of_path (p ++ [f]) g.
Proof.
  unfold extend, row_of_path. simpl. f_equal.
  - now rewrite !map_app.
  - rewrite length_app. simpl. lia.
Qed.

(** Round [k] holds the rows of the paths of depth [k], as far as the
    depth bound lets the search go. *)
Lemma in_chain_level k r :
  In r (level k) <->
  exists p g,
    call_path s db from p g /\ length p = k /\ r = row_of_path p g
    /\ (k = 0%nat \/ Z.of_nat k <= max_depth).
Proof.
  revert r. induction k as [|k IH]; intros r.
  - simpl. unfold chain_seed. rewrite in_map_iff. split.
    + intros (f & <- & Hf). apply filter_In in Hf as [Hf Hc].
      apply andb_true_iff in Hc as [Hn Ht].
      apply String.eqb_eq in Hn. apply tagged_true in Ht.
      exists [], f. repeat split; [now constructor | now left].
    + intros (p & g & Hp & Hl & -> & _). destruct p; [|discriminate].
      apply call_path_start_inv in Hp as (Hg & Hn & Hd).
      exists g. split; [reflexivity|]. apply filter_In. split; [exact Hg|].
      apply andb_true_iff. split; [now apply String.eqb_eq | now apply tagged_true].
  - rewrite chain_level_succ, in_chain_step. split.
    + intros (cc & fc & c & Hcc & Hfc & Hcaller & Hc & Hcond & Hdb & Hd & Hn & ->).
      apply IH in Hcc as (p & f & Hp & Hl & -> & _). simpl in *.
      exists (p ++ [f]), c. repeat split.
      * apply path_extend; try assumption. now exists fc.
      * rewrite length_app. simpl. lia.
      * apply row_of_path_extend.
      * right. lia.
    + intros (p & g & Hp & Hl & -> & Hb).
      destruct (exists_last (l := p)) as (p0 & f & ->); [now destruct p|].
      rewrite length_app in Hl. simpl in Hl.
      apply call_path_extend_inv in Hp as (Hp & Hg & Hdb & (fc & Hfc & Hcaller & Hcond) & Hn).
      exists (row_of_path p0 f), fc, g. repeat split; try assumption.
      * apply IH. exists p0, f. repeat split; [exact Hp | lia | lia].
      * simpl. lia.
      * symmetry. apply row_of_path_extend.
Qed.

(** The rows of [call_chain] are the rows of the call paths within the
    bound; a negative bound counts as 0, since the seed rows are there
    before any depth is compared. *)
Lemma in_call_chain r :
  In r (call_chain from db max_depth s) <->
  exists p g,
    call_path s db from p g /\ r = row_of_path p g
    /\ Z.of_nat (length p) <= Z.max 0 max_depth.
Proof.
  unfold call_chain. rewrite in_chain_rounds. split.
  - intros (k & Hk & H). apply in_chain_level in H as (p & g & Hp & Hl & -> & Hb).
    exists p, g. repeat split; [exact Hp | lia].
  - intros (p & g & Hp & -> & Hb). exists (length p). split; [lia|].
    apply in_chain_level. exists p, g. repeat split; [exact Hp | lia].
Qed.

Lemma call_chain_fuel fuel :
  (S (Z.to_nat max_depth) <= fuel)%nat ->
  chain_rounds fuel db max_depth s (chain_seed from db s) = call_chain from db max_depth s.
Proof.
  intros H. unfold call_chain.
  replace fuel with (S (Z.to_nat max_depth) + (fuel - S (Z.to_nat max_depth)))%nat by lia.
  apply chain_rounds_enough.
  destruct (level (S (Z.to_nat max_depth))) as [|r l] eqn:E; [reflexivity|].
  assert (Hr : In r (level (S (Z.to_nat max_depth)))) by (rewrite E; now left).
  apply in_chain_level in Hr as (p & g & _ & _ & _ & [Hb|Hb]); lia.
Qed.

(** The names along a path are pairwise distinct, the first is [from]. *)
Lemma call_path_names p g :
  call_path s db from p g ->
  List.NoDup (map f_name (p ++ [g]))
  /\ hd_error (map f_name (p ++ [g])) = Some from.
Proof.
  induction 1 as [f Hf Hn Hd | p f g Hp [IHn IHh] Hg Hd Hc Hnot].
  - simpl. split; [|now rewrite Hn]. constructor; [intros []|constructor].
  - rewrite map_app. simpl. split.
    + apply (Permutation_NoDup (l := f_name g :: map f_name (p ++ [f]))).
      * apply Permutation_cons_append.
      * now constructor.
    + destruct (map f_name (p ++ [f])); [discriminate | exact IHh].
Qed.

End CallChainFacts.

(** C2 (as stated) fails in two ways.  With a negative [max_depth] the
    functions named [from_name] enter the search at depth 0 before any
    depth is compared with the bound, so a search from A to A bounded by
    -1 still answers with the path [A] at depth 0, which exceeds the
    bound.  And the search keeps the names of the functions on its path,
    not the functions: it never extends a path by a function whose name
    is on the path already.  In corpus [sample], [main] calls the method
    [render] of class A, which calls the method [render] of class B,
    which calls [save]: four distinct functions, three edges, no cycle,
    and the search from [main] to [save] bounded by 5 answers not-found. *)
Lemma C2_counterexample :
  (exists hit,
     Query.handleFindCallChain "sample" "A" "A" (Some (-1)) Samples.abc_store
     = Postgres.Returned (Some hit)
     /\ Query.path hit = ["A"]
     /\ Query.depth hit = 0
     /\ ~ (Query.depth hit <= -1))
  /\ Query.handleFindCallChain "sample" "main" "save" (Some 5) Samples.render_store
     = Postgres.Returned None
  /\ exists m ra rb sv,
       Store.functions Samples.render_store = [m; ra; rb; sv]
       /\ map (fun f => (Store.f_id f, Store.f_name f, Store.f_file f,
                         Store.f_database_name f)) [m; ra; rb; sv]
          = [(1, "main", "m.js", "sample"); (2, "render", "a.js", "sample");
             (3, "render", "b.js", "sample"); (4, "save", "s.js", "sample")]
       /\ CallGraph.calls Samples.render_store m ra
       /\ CallGraph.calls Samples.render_store ra rb
       /\ CallGraph.calls Samples.render_store rb sv.
Proof.
  split; [|split].
  - exists {| Query.path := ["A"]; Query.depth := 0; Query.file := "a.js" |}.
    split; [vm_compute; reflexivity|]. simpl. repeat split. lia.
  - vm_compute. reflexivity.
  - destruct (Store.functions Samples.render_store) as [|m [|ra [|rb [|sv [|]]]]] eqn:E;
      try (vm_compute in E; discriminate).
    exists m, ra, rb, sv. split; [reflexivity|].
    vm_compute in E. injection E as <- <- <- <-.
    split; [reflexivity|].
    assert (Hc : map (fun fc => (Store.fc_caller_id fc, Store.fc_callee_id fc))
                   (Store.function_calls Samples.render_store)
                 = [(Some 1, Some 2); (Some 2, Some 3); (Some 3, Some 4)])
      by (vm_compute; reflexivity).
    unfold CallGraph.calls.
    destruct (Store.function_calls Samples.render_store) as [|e1 [|e2 [|e3 [|]]]] eqn:F;
      try discriminate.
    injection Hc as H1a H1b H2a H2b H3a H3b.
    split; [|split].
    + exists e1. split; [now left|]. split; [exact H1a | left; exact H1b].
    + exists e2. split; [right; now left|]. split; [exact H2a | left; exact H2b].
    + exists e3. split; [right; right; now left|]. split; [exact H3a | left; exact H3b].
Qed.

(** C2, amended. For every corpus, names and [max_depth] that is a 32-bit
    integer, [find_call_chain] answers with a path of least depth among
    the paths from a function named [from_name] to a function named
    [to_name] on which no function name occurs twice (the paths of
    [CallGraph.call_path]) and whose depth (edges followed, the start at
    depth 0) does not exceed [max (max_depth, 0)], and with not-found
    exactly when there is no such path within that bound, longer paths
    notwithstanding; the rounds the search is given suffice.  A
    [max_depth] that is not a 32-bit integer is rejected by the store and
    the operation fails.  With functions A, B, C and edges A->B, B->C,
    [max_depth = 5] yields [A, B, C] at depth 2 and [max_depth = 1] yields
    not-found. *)
Theorem C2_call_chain_is_a_shortest_path_within_the_bound :
  forall (database_name from_function to_function : string) (max_depth : Z)
         (s : Store.store),
    let bound := Z.max 0 max_depth in
    let answer := Query.handleFindCallChain database_name from_function to_function
                    (Some max_depth) s in
    (Store.in_int4 max_depth = false ->
     answer = Postgres.Thrown (Postgres.StoreError Store.bad_integer_parameter))
    /\ (Store.in_int4 max_depth = true -> exists r, answer = Postgres.Returned r)
    /\ (forall hit,
          answer = Postgres.Returned (Some hit) ->
          exists p g,
            CallGraph.call_path s database_name from_function p g
            /\ Store.f_name g = to_function
            /\ Query.path hit = map Store.f_name (p ++ [g])
            /\ List.NoDup (Query.path hit)
            /\ Query.depth hit = Z.of_nat (length p)
            /\ Query.file hit = Store.f_file g
            /\ Query.depth hit <= bound
            /\ (forall p' g',
                  CallGraph.call_path s database_name from_function p' g' ->
                  Store.f_name g' = to_function ->
                  Z.of_nat (length p') <= bound ->
                  Query.depth hit <= Z.of_nat (length p')))
    /\ (Store.in_int4 max_depth = true ->
        (answer = Postgres.Returned None <->
         (forall p g,
            CallGraph.call_path s database_name from_function p g ->
            Store.f_name g = to_function ->
            ~ Z.of_nat (length p) <= bound)))
    /\ (forall fuel,
          (S (Z.to_nat max_depth) <= fuel)%nat ->
          Query.chain_rounds fuel database_name max_depth s
            (Query.chain_seed from_function database_name s)
          = Query.call_chain from_function database_name max_depth s)
    /\ Query.handleFindCallChain "sample" "A" "C" (Some 5) Samples.abc_store
       = Postgres.Returned
           (Some {| Query.path := ["A"; "B"; "C"]; Query.depth := 2; Query.file := "a.js" |})
    /\ Query.handleFindCallChain "sample" "A" "C" (Some 1) Samples.abc_store
       = Postgres.Returned None
    /\ Query.handleFindCallChain database_name from_function to_function None s
       = Query.handleFindCallChain database_name from_function to_function (Some 5) s.
Proof.
  intros db from to md s bound answer.
  set (by_depth := fun a b : Query.chain_row => Query.cc_depth a <=? Query.cc_depth b).
  assert (Htot : forall a b, by_depth a b = true \/ by_depth b a = true)
    by (intros a b; unfold by_depth; rewrite !Z.leb_le; lia).
  assert (Htr : forall a b c, by_depth a b = true -> by_depth b c = true ->
                              by_depth a c = true)
    by (intros a b c; unfold by_depth; rewrite !Z.leb_le; lia).
  set (L := List.filter (fun r => String.eqb (Query.cc_name r) to)
              (Query.call_chain from db md s)).
  assert (HL : forall r, In r L <->
             exists p g, CallGraph.call_path s db from p g
                         /\ r = CallGraph.row_of_path p g
                         /\ Z.of_nat (length p) <= bound /\ Store.f_name g = to).
  { intros r. unfold L. rewrite filter_In, in_call_chain, String.eqb_eq. split.
    - intros ((p & g & Hp & -> & Hb) & Hn). exists p, g. auto.
    - intros (p & g & Hp & -> & Hb & Hn). split; [|exact Hn]. exists p, g. auto. }
  set (found := match Query.order_by by_depth L with
                | row :: _ => Some {| Query.path := Query.cc_path row;
                                      Query.depth := Query.cc_depth row;
                                      Query.file := Query.cc_file row |}
                | [] => None
                end).
  assert (Hq : Query.find_call_chain db from to md s = found).
  { unfold found, Query.find_call_chain. fold L. fold by_depth.
    now destruct (Query.order_by by_depth L). }
  assert (Hans : answer = if Store.in_int4 md then Postgres.Returned found
                          else Postgres.Thrown
                                 (Postgres.StoreError Store.bad_integer_parameter)).
  { unfold answer, Query.handleFindCallChain. now rewrite Hq. }
  assert (Hnone : found = None <->
                  (forall p g, CallGraph.call_path s db from p g -> Store.f_name g = to ->
                               ~ Z.of_nat (length p) <= bound)).
  { unfold found. split.
    + destruct (Query.order_by by_depth L) as [|row t] eqn:E; [|discriminate].
      intros _ p g Hp Hn Hb.
      assert (Hr : In (CallGraph.row_of_path p g) L) by (apply HL; exists p, g; auto).
      apply (order_by_In by_depth L) in Hr. now rewrite E in Hr.
    + intros Hno. destruct (Query.order_by by_depth L) as [|row t] eqn:E; [reflexivity|].
      assert (Hrow : In row L) by (apply (order_by_In by_depth L); rewrite E; now left).
      apply HL in Hrow as (p & g & Hp & _ & Hb & Hn). now destruct (Hno p g Hp Hn). }
  split; [|split; [|split; [|split; [|split; [|split; [|split]]]]]].
  - intros Hr. now rewrite Hans, Hr.
  - intros Hr. rewrite Hans, Hr. eauto.
  - intros hit Hhit. rewrite Hans in Hhit.
    destruct (Store.in_int4 md); [|discriminate]. injection Hhit as Hhit.
    unfold found in Hhit.
    destruct (Query.order_by by_depth L) as [|row t] eqn:E; [discriminate|].
    injection Hhit as <-.
    assert (Hrow : In row L) by (apply (order_by_In by_depth L); rewrite E; now left).
    apply HL in Hrow as (p & g & Hp & -> & Hb & Hn).
    exists p, g. simpl. repeat split; try assumption.
    + exact (proj1 (call_path_names s db from p g Hp)).
    + intros p' g' Hp' Hn' Hb'.
      assert (Hr' : In (CallGraph.row_of_path p' g') L)
        by (apply HL; exists p', g'; auto).
      pose proof (order_by_head by_depth Htot Htr _ _ _ _ E Hr') as Hle.
      apply Z.leb_le in Hle. exact Hle.
  - intros Hr. rewrite Hans, Hr. rewrite <- Hnone. split; [now intros [= ->] | now intros ->].
  - intros fuel Hf. now apply call_chain_fuel.
  - vm_compute. reflexivity.
  - vm_compute. reflexivity.
  - reflexivity.
Qed.

Lemma C2_witness :
  exists p g,
    CallGraph.call_path Samples.abc_store "sample" "A" p g
    /\ Store.f_name g = "C"
    /\ map Store.f_name (p ++ [g]) = ["A"; "B"; "C"]
    /\ 2 = Z.of_nat (length p).
Proof.
  destruct (C2_call_chain_is_a_shortest_path_within_the_bound
              "sample" "A" "C" 5 Samples.abc_store) as (_ & _ & H & _).
  destruct (H {| Query.path := ["A"; "B"; "C"]; Query.depth := 2; Query.file := "a.js" |})
    as (p & g & Hp & Hn & Hpath & _ & Hd & _).
  - vm_compute. reflexivity.
  - exists p, g. simpl in Hpath, Hd. auto.
Defined.

(** ** Unresolved call edges: callee name, caller lookup, hot spots *)

Section UnresolvedEdges.
Import Store Postgres Ingest Query.

Lemma startsWith_app (p x : string) : Js.startsWith p (p ++ x)%string = true.
Proof.
  induction p as [|a p IH]; simpl; [reflexivity|].
  now rewrite Ascii.eqb_refl, IH.
Qed.

Lemma drop_prefix_app (p x : string) : drop_prefix p (p ++ x)%string = x.
Proof. induction p as [|a p IH]; simpl; [now destruct x | exact IH]. Qed.

Lemma before_at_app (name rest : string) :
  before_at name = None -> before_at (name ++ String AT rest)%string = Some name.
Proof.
  induction name as [|c name IH]; simpl.
  - intros _. reflexivity.
  - destruct (Ascii.eqb c AT); [discriminate|].
    destruct (before_at name); [discriminate|]. intros _. now rewrite IH.
Qed.

Lemma match_name_at_app (name rest : string) :
  before_at name = None -> name <> EmptyString ->
  match_name_at (name ++ String AT rest)%string = Some name.
Proof.
  intros H Hne. unfold match_name_at. rewrite (before_at_app _ _ H).
  destruct name; [congruence | reflexivity].
Qed.

(** The callee name ingestion stores for a callee reference of the form
    [unresolved:<name>@<rest>]. *)
Lemma processRow_calls_unresolved (caller : field) (name rest : string)
    (tail : list field) :
  before_at name = None -> name <> EmptyString ->
  processRow_calls (caller :: Some (unresolved_prefix ++ name ++ String AT rest)%string :: tail)
  = (caller :: Some (unresolved_prefix ++ name ++ String AT rest)%string :: tail) ++ [Some name].
Proof.
  intros H Hne. unfold processRow_calls, at_index.
  cbn [nth_error]. rewrite startsWith_app, drop_prefix_app.
  now rewrite (match_name_at_app _ _ H Hne).
Qed.

Lemma left_join_no_match cond s :
  (forall f, In f (functions s) -> cond f = false) ->
  left_join_functions cond s = [None].
Proof. intros H. unfold left_join_functions. now rewrite filter_all_false. Qed.

Lemma in_callers_join_unresolved s fc caller :
  In fc (function_calls s) -> In caller (functions s) ->
  fc_caller_id fc = Some (f_id caller) -> fc_callee_id fc = None ->
  In (fc, caller, None) (callers_join s).
Proof.
  intros Hfc Hc Hid Hnull. unfold callers_join. apply in_flat_map. exists fc.
  split; [exact Hfc|]. apply in_flat_map. exists caller. split.
  - apply filter_In. split; [exact Hc|]. rewrite Hid. simpl. apply Z.eqb_refl.
  - rewrite left_join_no_match; [now left|]. intros f _. now rewrite Hnull.
Qed.

Lemma limit_all {A} n (l : list A) : (length l <= n)%nat -> limit n l = l.
Proof. intros H. unfold limit. now apply firstn_all2. Qed.

Lemma filter_filter_implied {A} (p q : A -> bool) l :
  (forall x, p x = true -> q x = true) ->
  List.filter p (List.filter q l) = List.filter p l.
Proof.
  intros H. induction l as [|x l IH]; simpl; [reflexivity|].
  destruct (q x) eqn:Q; simpl.
  - destruct (p x); now rewrite IH.
  - destruct (p x) eqn:P; [|exact IH]. apply H in P. congruence.
Qed.

(** The ranking joins on the resolved callee id. *)
Lemma hot_join_resolved_only db s :
  hot_join db (resolved_edges_only s) = hot_join db s.
Proof.
  unfold hot_join, resolved_edges_only. simpl.
  apply flat_map_ext. intros f. f_equal.
  apply filter_filter_implied. intros fc H.
  destruct (fc_callee_id fc); [reflexivity | discriminate].
Qed.

Lemma hot_spots_resolved_only db s :
  hot_spots db (resolved_edges_only s) = hot_spots db s.
Proof. unfold hot_spots. now rewrite hot_join_resolved_only. Qed.

End UnresolvedEdges.

(** ** Fuzzy function search *)

Section FuzzySearch.
Import Store Postgres Query.

Variable text_leb : string -> string -> bool.
Variable similarity : string -> string -> Q.
Variable similar : string -> string -> bool.
Variable pattern : string.

Hypothesis text_leb_total : forall a b, text_leb a b = true \/ text_leb b a = true.
Hypothesis text_leb_trans :
  forall a b c, text_leb a b = true -> text_leb b c = true -> text_leb a c = true.

Local Abbreviation ranks := (by_similarity_then_name text_leb similarity pattern).

Lemma ranks_total a b : ranks a b = true \/ ranks b a = true.
Proof using text_leb_total.
  unfold by_similarity_then_name.
  rewrite <- (Qcompare_antisym (similarity (f_name a) pattern)).
  destruct (similarity (f_name a) pattern ?= similarity (f_name b) pattern)%Q; simpl; auto.
Qed.

Lemma ranks_trans a b c : ranks a b = true -> ranks b c = true -> ranks a c = true.
Proof using text_leb_trans.
  unfold by_similarity_then_name.
  set (x := similarity (f_name a) pattern). set (y := similarity (f_name b) pattern).
  set (z := similarity (f_name c) pattern).
  destruct (Qcompare_spec x y) as [Exy|Lxy|Gxy]; [|discriminate|];
    destruct (Qcompare_spec y z) as [Eyz|Lyz|Gyz]; try discriminate; intros H1 H2.
  - assert (E : (x ?= z)%Q = Eq) by (apply Qeq_alt; lra). rewrite E. eauto.
  - assert (E : (x ?= z)%Q = Gt) by (apply Qgt_alt; lra). now rewrite E.
  - assert (E : (x ?= z)%Q = Gt) by (apply Qgt_alt; lra). now rewrite E.
  - assert (E : (x ?= z)%Q = Gt) by (apply Qgt_alt; lra). now rewrite E.
Qed.

Lemma in_firstn {A} n (l : list A) x : In x (firstn n l) -> In x l.
Proof.
  intros H. rewrite <- (firstn_skipn n l). apply in_or_app. now left.
Qed.

Lemma StronglySorted_firstn {A} (R : A -> A -> Prop) n l :
  StronglySorted R l -> StronglySorted R (firstn n l).
Proof.
  intros H. revert n. induction H as [|x l Hs IH Hx]; intros [|n]; simpl; try constructor.
  - apply IH.
  - rewrite List.Forall_forall in *. intros y Hy. apply Hx.
    eapply in_firstn; eauto.
Qed.

Lemma in_matching_functions db s f :
  In f (matching_functions similar db pattern s)
  <-> In f (functions s) /\ f_database_name f = db /\ similar (f_name f) pattern = true.
Proof.
  unfold matching_functions. rewrite filter_In, andb_true_iff.
  unfold tagged. rewrite String.eqb_eq. tauto.
Qed.

Lemma find_function_rows_sorted db n s :
  StronglySorted (fun a b => ranks a b = true)
    (find_function_rows text_leb similarity similar db pattern n s).
Proof using text_leb_total text_leb_trans.
  unfold find_function_rows, limit. apply StronglySorted_firstn.
  apply order_by_sorted; [apply ranks_total | apply ranks_trans].
Qed.

Lemma find_function_rows_in db n s f :
  In f (find_function_rows text_leb similarity similar db pattern n s) ->
  In f (functions s) /\ f_database_name f = db /\ similar (f_name f) pattern = true.
Proof.
  unfold find_function_rows, limit. intros H.
  apply in_firstn in H. apply order_by_In in H. now apply in_matching_functions.
Qed.

Lemma find_function_rows_length db n s :
  (length (find_function_rows text_leb similarity similar db pattern n s) <= n)%nat.
Proof. unfold find_function_rows, limit. apply firstn_le_length. Qed.

(** When the exact name passes the filter and sorts before every other
    name, the first row bears it. *)
Lemma find_function_rows_exact_first db n s f :
  In f (functions s) -> f_database_name f = db -> f_name f = pattern ->
  similar pattern pattern = true -> (1 <= n)%nat ->
  (forall g, In g (functions s) -> f_database_name g = db ->
             similar (f_name g) pattern = true -> f_name g <> pattern ->
             ranks g f = false) ->
  exists h rest,
    find_function_rows text_leb similarity similar db pattern n s = h :: rest
    /\ f_name h = pattern.
Proof using text_leb_total text_leb_trans.
  intros Hf Hdb Hname Hsim Hn Hothers.
  assert (Hm : In f (matching_functions similar db pattern s))
    by (apply in_matching_functions; rewrite Hname; auto).
  unfold find_function_rows, limit.
  destruct (order_by ranks (matching_functions similar db pattern s)) as [|h t] eqn:E.
  { apply (order_by_In ranks) in Hm. rewrite E in Hm. contradiction. }
  destruct n as [|n]; [lia|]. simpl. exists h, (firstn n t). split; [reflexivity|].
  pose proof (order_by_head ranks ranks_total ranks_trans _ _ _ _ E Hm) as Hle.
  assert (Hh : In h (matching_functions similar db pattern s))
    by (apply (order_by_In ranks); rewrite E; now left).
  apply in_matching_functions in Hh as (Hh1 & Hh2 & Hh3).
  destruct (String.eqb_spec (f_name h) pattern) as [Heq|Hne]; [exact Heq|].
  rewrite (Hothers h Hh1 Hh2 Hh3 Hne) in Hle. discriminate.
Qed.

End FuzzySearch.

Lemma string_leb_trans (a b c : string) :
  String.leb a b = true -> String.leb b c = true -> String.leb a c = true.
Proof.
  intros H1 H2. apply Is_true_true.
  apply (transitivity (R := String.le) (y := b)); unfold String.le; now apply Is_true_true.
Qed.

(** * Further properties of the indexer and of its queries *)

(** ** The CSV parser *)

Section CsvFacts.
Import Ingest Csv.

Lemma string_app_cons (x : ascii) (a b : string) :
  (String x a ++ b = String x (a ++ b))%string.
Proof. reflexivity. Qed.

Lemma string_app_nil_l (b : string) : (EmptyString ++ b = b)%string.
Proof. reflexivity. Qed.

Lemma string_app_assoc (a b c : string) : ((a ++ b) ++ c = a ++ (b ++ c))%string.
Proof.
  induction a as [|x a IH]; [reflexivity|].
  now rewrite !string_app_cons, IH.
Qed.

Lemma string_app_nil_r (a : string) : (a ++ EmptyString = a)%string.
Proof.
  induction a as [|x a IH]; [reflexivity|]. now rewrite string_app_cons, IH.
Qed.

Lemma parse_step_plain c rest result cur :
  Ascii.eqb c DQUOTE = false ->
  parseCSVLine_loop (String c rest) result cur true
  = parseCSVLine_loop rest result (push_char cur c) true.
Proof.
  intros E. cbn [parseCSVLine_loop]. rewrite E. cbn [andb negb].
  now rewrite andb_false_r.
Qed.

(** Inside quotes, up to the closing quote: the field is read back. *)
Lemma parse_quoted_tail f :
  forall rest result cur,
    (rest = EmptyString \/ exists r, rest = String COMMA r) ->
    parseCSVLine_loop (double_quotes f ++ String DQUOTE rest) result cur true
    = parseCSVLine_loop rest result (cur ++ f) false.
Proof.
  induction f as [|c f IH]; intros rest result cur Hrest.
  - cbn [double_quotes]. rewrite string_app_nil_l, string_app_nil_r.
    destruct Hrest as [->|[r ->]]; reflexivity.
  - cbn [double_quotes]. destruct (Ascii.eqb c DQUOTE) eqn:E.
    + apply Ascii.eqb_eq in E. subst c. rewrite !string_app_cons.
      change (parseCSVLine_loop (double_quotes f ++ String DQUOTE rest) result
                (push_char cur DQUOTE) true
              = parseCSVLine_loop rest result (cur ++ String DQUOTE f) false).
      rewrite IH by exact Hrest. unfold push_char.
      now rewrite string_app_assoc, string_app_cons, string_app_nil_l.
    + rewrite string_app_cons, (parse_step_plain _ _ _ _ E).
      rewrite IH by exact Hrest. unfold push_char.
      now rewrite string_app_assoc, string_app_cons, string_app_nil_l.
Qed.

Lemma parse_quoted f rest result :
  (rest = EmptyString \/ exists r, rest = String COMMA r) ->
  parseCSVLine_loop (quoted f ++ rest) result EmptyString false
  = parseCSVLine_loop rest result f false.
Proof.
  intros Hrest. unfold quoted.
  rewrite string_app_cons, string_app_assoc, string_app_cons, string_app_nil_l.
  change (parseCSVLine_loop (double_quotes f ++ String DQUOTE rest) result EmptyString true
          = parseCSVLine_loop rest result f false).
  now rewrite parse_quoted_tail.
Qed.

Lemma parse_quoted_fields f fs :
  forall result,
    parseCSVLine_loop (join_commas (map quoted (f :: fs))) result EmptyString false
    = result ++ f :: fs.
Proof.
  revert f. induction fs as [|g fs IH]; intros f result.
  - cbn [map join_commas]. rewrite <- (string_app_nil_r (quoted f)).
    rewrite parse_quoted by now left. reflexivity.
  - change (join_commas (map quoted (f :: g :: fs)))
      with (quoted f ++ String COMMA (join_commas (map quoted (g :: fs))))%string.
    rewrite parse_quoted by (right; eauto).
    change (parseCSVLine_loop (join_commas (map quoted (g :: fs))) (result ++ [f])
              EmptyString false = result ++ f :: g :: fs).
    rewrite IH. now rewrite <- app_assoc.
Qed.

End CsvFacts.

(** X1. Round trip of the quoted-field syntax: a line made of fields that
    are each written between double quotes, with their own double quotes
    doubled, and joined by commas, is parsed back into exactly those
    fields, commas and quotes inside a field included. *)
Theorem X1_parseCSVLine_reads_back_quoted_fields :
  forall fields : list string,
    fields <> [] ->
    Ingest.parseCSVLine (Csv.join_commas (map Csv.quoted fields)) = fields.
Proof.
  intros [|f fs] H; [congruence|]. unfold Ingest.parseCSVLine.
  now rewrite parse_quoted_fields.
Qed.

Lemma X1_witness :
  Ingest.parseCSVLine
    (Csv.join_commas (map Csv.quoted ["f(a, b)"; EmptyString; String Ingest.DQUOTE "x"]))
  = ["f(a, b)"; EmptyString; String Ingest.DQUOTE "x"].
Proof.
  apply (X1_parseCSVLine_reads_back_quoted_fields
           ["f(a, b)"; EmptyString; String Ingest.DQUOTE "x"]).
  discriminate.
Defined.

Section SplitFacts.
Import Ingest Csv.

Lemma rev_append_app (s acc : string) :
  (Js.rev_append s acc = Js.rev_append s EmptyString ++ acc)%string.
Proof.
  revert acc. induction s as [|c s IH]; intros acc; [reflexivity|].
  cbn [Js.rev_append]. rewrite (IH (String c acc)), (IH (String c EmptyString)).
  now rewrite string_app_assoc, string_app_cons, string_app_nil_l.
Qed.

Lemma reverse_cons c acc : Js.reverse (String c acc) = push_char (Js.reverse acc) c.
Proof. unfold Js.reverse, push_char. cbn [Js.rev_append]. apply rev_append_app. Qed.

Lemma parse_unquoted line :
  forall result acc,
    has_char DQUOTE line = false ->
    parseCSVLine_loop line result (Js.reverse acc) false
    = result ++ Fallback.split_commas_from line acc.
Proof.
  induction line as [|c line IH]; intros result acc H; [reflexivity|].
  cbn [has_char] in H. apply orb_false_iff in H as [Hc H].
  cbn [parseCSVLine_loop Fallback.split_commas_from]. rewrite Hc. cbn [andb negb].
  rewrite andb_true_r. destruct (Ascii.eqb c COMMA).
  - change EmptyString with (Js.reverse EmptyString) at 1.
    rewrite IH by exact H. now rewrite <- app_assoc.
  - rewrite <- reverse_cons. now apply IH.
Qed.

Lemma split_commas_from_length line :
  forall acc,
    length (Fallback.split_commas_from line acc)
    = S (length (List.filter (Ascii.eqb COMMA) (list_ascii_of_string line))).
Proof.
  induction line as [|c line IH]; intros acc; [reflexivity|].
  cbn [Fallback.split_commas_from list_ascii_of_string List.filter].
  rewrite (Ascii.eqb_sym COMMA c). destruct (Ascii.eqb c COMMA); simpl; now rewrite IH.
Qed.

End SplitFacts.

(** X2. On a line without double quotes the quote-aware parser of the
    build and the plain [split(",")] of [importCSVFallback] cut the same
    fields, one more than the line has commas. *)
Theorem X2_parsers_agree_without_quotes :
  forall line : string,
    Csv.has_char Ingest.DQUOTE line = false ->
    Ingest.parseCSVLine line = Fallback.split_commas line
    /\ length (Ingest.parseCSVLine line)
       = S (length (List.filter (Ascii.eqb Ingest.COMMA) (list_ascii_of_string line))).
Proof.
  intros line H.
  assert (E : Ingest.parseCSVLine line = Fallback.split_commas line).
  { unfold Ingest.parseCSVLine, Fallback.split_commas.
    change EmptyString with (Js.reverse EmptyString) at 1.
    now rewrite parse_unquoted. }
  split; [exact E|]. rewrite E. apply split_commas_from_length.
Qed.

Lemma X2_witness :
  Ingest.parseCSVLine "A@a.js:1,B@a.js:5,a.js,2" = Fallback.split_commas "A@a.js:1,B@a.js:5,a.js,2"
  /\ length (Ingest.parseCSVLine "A@a.js:1,B@a.js:5,a.js,2")
     = S (length (List.filter (Ascii.eqb Ingest.COMMA)
                    (list_ascii_of_string "A@a.js:1,B@a.js:5,a.js,2"))).
Proof.
  apply (X2_parsers_agree_without_quotes "A@a.js:1,B@a.js:5,a.js,2"). reflexivity.
Defined.

(** ** The ingestion loop *)

Section IngestInvariant.
Import Ingest Csv.

Lemma parseCSVLine_loop_extends n :
  forall line result cur q,
    (String.length line <= n)%nat ->
    exists fields,
      fields <> [] /\ parseCSVLine_loop line result cur q = result ++ fields.
Proof.
  induction n as [|n IH]; intros line result cur q Hn.
  - destruct line; [|simpl in Hn; lia]. exists [cur]. split; [discriminate | reflexivity].
  - destruct line as [|c line]; [exists [cur]; split; [discriminate | reflexivity]|].
    simpl in Hn. assert (Hl : (String.length line <= n)%nat) by lia.
    cbn [parseCSVLine_loop].
    destruct (Ascii.eqb c DQUOTE && negb q); [now apply IH|].
    destruct (Ascii.eqb c DQUOTE && q).
    + destruct line as [|d line']; [now apply IH|].
      destruct (Ascii.eqb d DQUOTE); [|now apply IH].
      apply IH. simpl in Hl. lia.
    + destruct (Ascii.eqb c COMMA && negb q); [|now apply IH].
      destruct (IH line (result ++ [cur]) EmptyString q Hl) as (fields & Hne & E).
      exists (cur :: fields). split; [discriminate|].
      rewrite E. now rewrite <- app_assoc.
Qed.

Lemma parse_parts_not_nil line : parse_parts line <> [].
Proof.
  unfold parse_parts, parseCSVLine.
  destruct (parseCSVLine_loop_extends (String.length line) line [] EmptyString false
              (Nat.le_refl _)) as (fields & Hne & E).
  rewrite E. simpl. destruct fields; [congruence | discriminate].
Qed.

(** The key of a pushed row is the first parsed column of its line. *)
Lemma row_key db e line :
  In e extractions -> at_index (row_of db (processRow e) line) 1 = uniqueId_of line.
Proof.
  intros He. unfold row_of, uniqueId_of, at_index.
  pose proof (parse_parts_not_nil line) as Hne.
  destruct (parse_parts line) as [|p ps] eqn:E; [congruence|].
  destruct He as [<-|[<-|[<-|[<-|[]]]]]; reflexivity.
Qed.

Lemma pushed_keys_app v1 v2 : pushed_keys (v1 ++ v2) = pushed_keys v1 ++ pushed_keys v2.
Proof. unfold pushed_keys. apply flat_map_app. Qed.

Lemma non_blank_snoc read l :
  non_blank (read ++ [l])
  = non_blank read ++ (if Js.truthy (Js.trim l) then [l] else []).
Proof. unfold non_blank. rewrite List.filter_app. reflexivity. Qed.

Lemma loop_invariant_step db e a read l :
  In e extractions ->
  loop_invariant a read ->
  loop_invariant (ingest_line db (processRow e) a l) (read ++ [l]).
Proof.
  intros He (Hnd & Hseen & Hcount & Hall). unfold loop_invariant.
  rewrite non_blank_snoc.
  destruct (Js.truthy (Js.trim l)) eqn:Hl.
  2:{ rewrite (ingest_line_blank db (processRow e) a l Hl), app_nil_r. auto. }
  destruct (uniqueId_of l) as [u|] eqn:Hu.
  - destruct (decide (u ∈ seenIds a)) as [Hin|Hin].
    + rewrite (ingest_line_seen db (processRow e) a l u Hl Hu Hin). simpl.
      repeat split; try assumption; try apply Hseen.
      * rewrite length_app. simpl. lia.
      * intros l0 u0 Hl0 Hu0. apply in_app_or in Hl0 as [Hl0|[<-|[]]]; [eauto|].
        congruence.
    + rewrite (ingest_line_fresh db (processRow e) a l u Hl Hu Hin). simpl.
      assert (Hk : pushed_keys [row_of db (processRow e) l] = [u]).
      { unfold pushed_keys. simpl. rewrite (row_key db e l He), Hu. reflexivity. }
      rewrite pushed_keys_app, Hk. repeat split.
      * apply List.NoDup_app; [exact Hnd | repeat constructor; auto |].
        intros k Hk1 [<-|[]]. apply Hin. now apply Hseen.
      * rewrite elem_of_union, elem_of_singleton, in_app_iff, Hseen. simpl.
        intros [->|H]; auto.
      * rewrite elem_of_union, elem_of_singleton, in_app_iff, Hseen. simpl.
        intros [H|[->|[]]]; auto.
      * rewrite !length_app. simpl. lia.
      * intros l0 u0 Hl0 Hu0. rewrite elem_of_union, elem_of_singleton.
        apply in_app_or in Hl0 as [Hl0|[<-|[]]]; [right; eauto | left; congruence].
  - rewrite (ingest_line_null db (processRow e) a l Hl Hu). simpl.
    assert (Hk : pushed_keys [row_of db (processRow e) l] = []).
    { unfold pushed_keys. simpl. rewrite (row_key db e l He), Hu. reflexivity. }
    rewrite pushed_keys_app, Hk, app_nil_r. repeat split; try assumption; try apply Hseen.
    + rewrite !length_app. simpl. lia.
    + intros l0 u0 Hl0 Hu0. apply in_app_or in Hl0 as [Hl0|[<-|[]]]; [eauto|].
      congruence.
Qed.

Lemma loop_invariant_run db e lines :
  In e extractions ->
  forall a read,
    loop_invariant a read ->
    loop_invariant (ingest_from db (processRow e) a lines) (read ++ lines).
Proof.
  intros He. induction lines as [|l lines IH]; intros a read Ha.
  - now rewrite app_nil_r.
  - rewrite ingest_from_cons.
    replace (read ++ l :: lines) with ((read ++ [l]) ++ lines)
      by (rewrite <- app_assoc; reflexivity).
    apply IH. now apply loop_invariant_step.
Qed.

Lemma loop_invariant_start : loop_invariant acc0 [].
Proof.
  repeat split; simpl; try constructor; try easy;
    intros H; now apply elem_of_empty in H.
Qed.

End IngestInvariant.

(** X3. After the ingestion of one fact type, the non-empty natural keys
    of the rows handed to the INSERT are pairwise distinct, every key
    that occurs in a non-blank data line is the key of one of those rows,
    and the rows kept and the duplicates skipped add up to the non-blank
    data lines. *)
Theorem X3_ingested_keys_are_distinct_and_complete :
  forall (database_name : string) (e : Ingest.extraction) (csvContent : string),
    In e Ingest.extractions ->
    let a := Ingest.ingest database_name e csvContent in
    let lines := Csv.non_blank (Ingest.dataLines_of csvContent) in
    List.NoDup (Csv.pushed_keys (Ingest.values a))
    /\ (forall l u, In l lines -> Ingest.uniqueId_of l = Some u ->
                    In u (Csv.pushed_keys (Ingest.values a)))
    /\ (length (Ingest.values a) + Ingest.skippedDuplicates a = length lines)%nat.
Proof.
  intros db e csv He. cbv zeta.
  pose proof (loop_invariant_run db e (Ingest.dataLines_of csv) He _ _ loop_invariant_start)
    as (Hnd & Hseen & Hcount & Hall).
  simpl in Hcount, Hall. repeat split; try assumption.
  intros l u Hl Hu. apply Hseen. eauto.
Qed.

Lemma X3_witness :
  let a := Ingest.ingest "sample" Ingest.extract_calls Samples.hot_calls_csv in
  let lines := Csv.non_blank (Ingest.dataLines_of Samples.hot_calls_csv) in
  List.NoDup (Csv.pushed_keys (Ingest.values a))
  /\ (forall l u, In l lines -> Ingest.uniqueId_of l = Some u ->
                  In u (Csv.pushed_keys (Ingest.values a)))
  /\ (length (Ingest.values a) + Ingest.skippedDuplicates a = length lines)%nat.
Proof.
  apply (X3_ingested_keys_are_distinct_and_complete "sample" Ingest.extract_calls
           Samples.hot_calls_csv).
  right. left. reflexivity.
Defined.

(** ** The callee name of a call edge *)

Section CalleeName.
Import Ingest Csv.

Lemma before_at_spec s p :
  before_at s = Some p ->
  has_char AT p = false /\ exists rest, s = (p ++ String AT rest)%string.
Proof.
  revert p. induction s as [|c s IH]; intros p; cbn [before_at]; [discriminate|].
  destruct (Ascii.eqb c AT) eqn:E.
  - intros [= <-]. apply Ascii.eqb_eq in E. subst c. split; [reflexivity|]. now exists s.
  - destruct (before_at s) as [q|]; [|discriminate]. intros [= <-].
    destruct (IH q eq_refl) as (Hq & rest & ->). split.
    + cbn [has_char]. now rewrite E, Hq.
    + now exists rest.
Qed.

Lemma match_name_at_spec s n :
  match_name_at s = Some n ->
  n <> EmptyString /\ has_char AT n = false
  /\ exists rest, s = (n ++ String AT rest)%string.
Proof.
  unfold match_name_at. destruct (before_at s) as [p|] eqn:E; [|discriminate].
  destruct p as [|c p]; [discriminate|]. intros [= <-].
  destruct (before_at_spec _ _ E) as (H & rest & ->).
  split; [discriminate|]. split; [exact H|]. now exists rest.
Qed.

Lemma startsWith_spec p s :
  Js.startsWith p s = true -> s = (p ++ drop_prefix p s)%string.
Proof.
  revert s. induction p as [|a p IH]; intros s; [destruct s; reflexivity|].
  destruct s as [|b s]; cbn [Js.startsWith]; [discriminate|].
  intros H. apply andb_true_iff in H as [E H]. apply Ascii.eqb_eq in E. subst b.
  cbn [drop_prefix]. rewrite string_app_cons. f_equal. now apply IH.
Qed.

End CalleeName.

(** X4. The row processor of the call edges appends exactly one value,
    the callee name, to the parsed columns.  When it is not null the name
    is non-empty, holds no [@] and is the text the callee reference
    carries before its first [@], after the prefix [unresolved:] if the
    reference begins with it; a row without callee reference gets a null
    name. *)
Theorem X4_callee_name_is_the_text_before_the_at_sign :
  forall parts : list Ingest.field,
    exists calleeName,
      Ingest.processRow_calls parts = parts ++ [calleeName]
      /\ (Ingest.at_index parts 1 = None -> calleeName = None)
      /\ (forall n,
            calleeName = Some n ->
            n <> EmptyString
            /\ Csv.has_char Ingest.AT n = false
            /\ exists id rest,
                 Ingest.at_index parts 1 = Some id
                 /\ (if Js.startsWith Ingest.unresolved_prefix id
                     then id = (Ingest.unresolved_prefix ++ n ++ String Ingest.AT rest)%string
                     else id = (n ++ String Ingest.AT rest)%string)).
Proof.
  intros parts. unfold Ingest.processRow_calls.
  destruct (Ingest.at_index parts 1) as [id|] eqn:Hid.
  2:{ exists None. repeat split; [discriminate..]. }
  destruct (Js.startsWith Ingest.unresolved_prefix id) eqn:Hs.
  - exists (Ingest.match_name_at (Ingest.drop_prefix Ingest.unresolved_prefix id)).
    split; [reflexivity|]. split; [discriminate|]. intros n Hn.
    destruct (match_name_at_spec _ _ Hn) as (H1 & H2 & rest & E).
    split; [exact H1|]. split; [exact H2|]. exists id, rest. split; [reflexivity|].
    rewrite Hs. rewrite <- E. now apply startsWith_spec.
  - exists (Ingest.match_name_at id).
    split; [reflexivity|]. split; [discriminate|]. intros n Hn.
    destruct (match_name_at_spec _ _ Hn) as (H1 & H2 & rest & E).
    split; [exact H1|]. split; [exact H2|]. exists id, rest. split; [reflexivity|].
    now rewrite Hs.
Qed.

(** ** The batched INSERT *)

Section Batches.
Import Store Postgres Ingest Indexer Rows.

Lemma build_rows_length {R} (mk : Z -> list field -> result R) tuples :
  forall seq rows, build_rows mk seq tuples = Ok rows -> length rows = length tuples.
Proof.
  induction tuples as [|t ts IH]; intros seq rows; simpl.
  - now intros [= <-].
  - destruct (mk seq t); [|discriminate].
    destruct (build_rows mk (seq + 1) ts) eqn:E; [|discriminate].
    intros [= <-]. simpl. f_equal. eauto.
Qed.

Lemma tuples_of_length ncols nrows params : length (tuples_of ncols nrows params) = nrows.
Proof.
  revert params. induction nrows as [|n IH]; intros params; simpl; [reflexivity|].
  now rewrite IH.
Qed.

Lemma insert_statement_rows table ncols nrows params s s' :
  insert_statement table ncols nrows params s = Ok s' ->
  rows_in table s' = (rows_in table s + nrows)%nat.
Proof.
  unfold insert_statement, rows_in.
  destruct (negb (length params =? nrows * ncols)%nat); [discriminate|].
  destruct (String.eqb table "functions").
  { destruct (build_rows mk_function _ _) as [rows|] eqn:E; [|discriminate].
    destruct (unique_keys _ _); [|discriminate]. intros [= <-]. simpl.
    rewrite length_app, (build_rows_length _ _ _ _ E), tuples_of_length. reflexivity. }
  destruct (String.eqb table "function_calls").
  { destruct (build_rows mk_call _ _) as [rows|] eqn:E; [|discriminate].
    intros [= <-]. simpl.
    rewrite length_app, (build_rows_length _ _ _ _ E), tuples_of_length. reflexivity. }
  destruct (String.eqb table "classes").
  { destruct (build_rows mk_class _ _) as [rows|] eqn:E; [|discriminate].
    destruct (unique_keys _ _); [|discriminate]. intros [= <-]. simpl.
    rewrite length_app, (build_rows_length _ _ _ _ E), tuples_of_length. reflexivity. }
  destruct (build_rows mk_method _ _) as [rows|] eqn:E; [|discriminate].
  intros [= <-]. simpl.
  rewrite length_app, (build_rows_length _ _ _ _ E), tuples_of_length. reflexivity.
Qed.

Lemma slice_length {A} i n (l : list A) :
  length (Js.slice i n l) = Nat.min n (length l - i).
Proof. unfold Js.slice. now rewrite length_firstn, length_skipn. Qed.

Variable table : string.
Variables ncols bs : nat.
Variable values : list (list field).
Hypothesis bs_pos : (1 <= bs)%nat.

Lemma batch_loop_rows fuel :
  forall i s r s',
    (length values <= i + fuel * bs)%nat ->
    batch_loop fuel table ncols bs values i s = (r, s') ->
    (r = Returned tt -> rows_in table s' = (rows_in table s + (length values - i))%nat)
    /\ (forall e, r = Thrown e ->
          exists k, rows_in table s' = (rows_in table s + k * bs)%nat
                    /\ (i + k * bs < length values)%nat).
Proof using bs_pos.
  induction fuel as [|fuel IH]; intros i s r s' Hf H; cbn [batch_loop] in H.
  - inversion H; subst. split; [intros _; lia | discriminate].
  - destruct (Nat.ltb_spec i (length values)) as [Hi|Hi].
    2:{ inversion H; subst. split; [intros _; lia | discriminate]. }
    unfold bind, executeQuery in H.
    destruct (insert_statement table ncols _ _ s) as [s1|err] eqn:E.
    + apply insert_statement_rows in E. rewrite slice_length in E.
      destruct (IH (i + bs)%nat s1 r s' ltac:(lia) H) as [Hret Hthr]. split.
      * intros Hr. rewrite (Hret Hr), E. lia.
      * intros e Hr. destruct (Hthr e Hr) as (k & Hk & Hlt).
        exists (S k). split; [rewrite Hk, E; lia | lia].
    + inversion H; subst. split; [discriminate|]. intros e _. exists 0%nat. lia.
Qed.

Lemma batch_loop_fuel fuel extra :
  forall i s,
    (length values <= i + fuel * bs)%nat ->
    batch_loop (fuel + extra) table ncols bs values i s
    = batch_loop fuel table ncols bs values i s.
Proof using bs_pos.
  induction fuel as [|fuel IH]; intros i s Hf.
  - simpl in Hf. destruct extra as [|extra]; [reflexivity|]. cbn [Nat.add batch_loop].
    destruct (Nat.ltb_spec i (length values)); [lia | reflexivity].
  - cbn [Nat.add batch_loop]. destruct (i <? length values)%nat; [|reflexivity].
    unfold bind. destruct (executeQuery _ s) as [[[]|e] s1]; [|reflexivity].
    apply IH. lia.
Qed.

End Batches.

(** X5. The batched INSERT of one fact type stores every row it is given:
    when the loop returns, the table has grown by exactly the number of
    rows pushed, the number the handler reports.  When a batch is
    rejected the loop throws with the earlier batches left in the table,
    a whole number of full batches.  A batch never has more than 8000
    parameters' worth of rows, and the rounds the loop is given suffice,
    more rounds changing nothing. *)
Theorem X5_batches_store_every_row :
  forall (e : Ingest.extraction) (values : list (list Ingest.field))
         (s s' : Store.store) (r : Postgres.outcome unit),
    In e Ingest.extractions ->
    Indexer.insert_batches e values s = (r, s') ->
    (r = Postgres.Returned tt ->
     Rows.rows_in (Ingest.table e) s' = (Rows.rows_in (Ingest.table e) s + length values)%nat)
    /\ (forall err, r = Postgres.Thrown err ->
          exists k, Rows.rows_in (Ingest.table e) s'
                    = (Rows.rows_in (Ingest.table e) s + k * Ingest.batchSize e)%nat
                    /\ (k * Ingest.batchSize e < length values)%nat)
    /\ (1 <= Ingest.batchSize e)%nat
    /\ Z.of_nat (Ingest.batchSize e * length (Ingest.actualColumns e)) <= Ingest.maxParams
    /\ (forall extra,
          Indexer.batch_loop (length values + extra) (Ingest.table e)
            (length (Ingest.actualColumns e)) (Ingest.batchSize e) values 0 s
          = Indexer.insert_batches e values s).
Proof.
  intros e values s s' r He H.
  assert (Hbs : (1 <= Ingest.batchSize e)%nat)
    by (destruct He as [<-|[<-|[<-|[<-|[]]]]]; vm_compute; lia).
  assert (Hfuel : (length values <= 0 + length values * Ingest.batchSize e)%nat) by nia.
  unfold Indexer.insert_batches in *.
  destruct (batch_loop_rows (Ingest.table e) (length (Ingest.actualColumns e))
              (Ingest.batchSize e) values Hbs (length values) 0%nat s r s' Hfuel H)
    as [Hret Hthr].
  split; [|split; [|split; [exact Hbs|split]]].
  - intros Hr. rewrite (Hret Hr). lia.
  - intros err Hr. destruct (Hthr err Hr) as (k & Hk & Hlt). exists k. split; [exact Hk | lia].
  - destruct He as [<-|[<-|[<-|[<-|[]]]]]; vm_compute; discriminate.
  - intros extra. now apply batch_loop_fuel.
Qed.

Lemma X5_witness :
  Rows.rows_in "functions" Samples.underscore_store
  = (Rows.rows_in "functions" Store.empty + 2)%nat.
Proof.
  refine (proj1 (X5_batches_store_every_row Ingest.extract_functions
                   (Ingest.values (Ingest.ingest "sample" Ingest.extract_functions
                                     Samples.underscore_functions_csv))
                   Store.empty Samples.underscore_store (Postgres.Returned tt) _ _) eq_refl).
  - left. reflexivity.
  - vm_compute. reflexivity.
Defined.

(** ** What every INSERT keeps, the loops of the build keep *)

Section BuildInvariant.
Import Store Postgres Ingest Indexer.

Variable P : store -> Prop.
Hypothesis insert_keeps :
  forall table ncols nrows params s s',
    insert_statement table ncols nrows params s = Ok s' -> P s -> P s'.

Lemma batch_loop_keeps fuel table ncols bs values :
  forall i s r s', batch_loop fuel table ncols bs values i s = (r, s') -> P s -> P s'.
Proof using insert_keeps.
  induction fuel as [|fuel IH]; intros i s r s' H H0; simpl in H.
  - now inversion H; subst.
  - destruct (i <? length values)%nat; [|now inversion H; subst].
    unfold bind, executeQuery in H.
    destruct (insert_statement _ _ _ _ s) as [s1|e] eqn:E.
    + eapply IH; [exact H|]. eapply insert_keeps; eauto.
    + now inversion H; subst.
Qed.

Lemma run_extraction_keeps env db name ld stats e s r s' :
  run_extraction env db name ld stats e s = (r, s') -> P s -> P s'.
Proof using insert_keeps.
  unfold run_extraction. intros H H0.
  destruct (negb (access env ld (query e))).
  { destruct (required e); inversion H; now subst. }
  destruct (run_and_decode env db ld (query e)) as [csv|].
  2:{ inversion H. now subst. }
  unfold bind in H.
  destruct (0 <? length (values (ingest name e csv)))%nat.
  - unfold insert_batches in H.
    destruct (batch_loop _ _ _ _ _ _ s) as [[[]|err] s1] eqn:E;
      inversion H; subst; eapply batch_loop_keeps; eauto.
  - inversion H. now subst.
Qed.

Lemma for_each_keeps {A B} (body : A -> B -> M A) l :
  (forall a x s r s', body a x s = (r, s') -> P s -> P s') ->
  forall a s r s', for_each body a l s = (r, s') -> P s -> P s'.
Proof.
  intros Hbody. induction l as [|x xs IH]; intros a s r s' H H0; simpl in H.
  - now inversion H; subst.
  - unfold bind in H. destruct (body a x s) as [[a'|e] s1] eqn:E.
    + eapply IH; [exact H|]. eapply Hbody; eauto.
    + inversion H. subst. eapply Hbody; eauto.
Qed.

End BuildInvariant.

(** ** The resolved ids stay valid *)

Section ReferentialIntegrity.
Import Store Postgres Ingest Indexer Integrity.

Variable agree : string -> option string -> Prop.
Hypothesis agree_same : forall k, agree k (Some k).

Local Abbreviation points_to := (Integrity.points_to agree).
Local Abbreviation to_function := (Integrity.to_function agree).
Local Abbreviation to_class := (Integrity.to_class agree).
Local Abbreviation linked := (Integrity.linked agree).

Lemma points_to_none {R} (id : R -> Z) key rows k : points_to id key rows None k.
Proof. intros i [=]. Qed.

Lemma points_to_incl {R} (id : R -> Z) key rows rows' x k :
  incl rows rows' -> points_to id key rows x k -> points_to id key rows' x k.
Proof. intros Hi H i E. destruct (H i E) as (r & Hr & Hid). exists r. split; auto. Qed.

Lemma points_to_map {R} (id : R -> Z) key (g : R -> R) rows x k :
  (forall r, id (g r) = id r) -> (forall r, key (g r) = key r) ->
  points_to id key rows x k -> points_to id key (map g rows) x k.
Proof.
  intros Gi Gk H i E. destruct (H i E) as (r & Hr & Hid & Hk). exists (g r).
  split; [now apply in_map|]. now rewrite Gi, Gk.
Qed.

(** A row that does not reference a deleted row still points to a row
    that is kept. *)
Lemma points_to_kept {R} (id : R -> Z) key (p : R -> bool) rows x k :
  points_to id key rows x k ->
  refers_to x (map id (List.filter p rows)) = false ->
  points_to id key (List.filter (fun r => negb (p r)) rows) x k.
Proof.
  intros H Hr i E. destruct (H i E) as (r & Hin & Hid & Hk). exists r.
  split; [|now split]. apply filter_In. split; [exact Hin|].
  destruct (p r) eqn:Ep; [|reflexivity]. exfalso. subst x. simpl in Hr.
  assert (X : existsb (Z.eqb i) (map id (List.filter p rows)) = true).
  { apply existsb_exists. exists i. split; [|apply Z.eqb_refl].
    rewrite <- Hid. apply in_map, filter_In. now split. }
  congruence.
Qed.

(** The DELETE statements. *)
Lemma delete_class_methods_ok db s : linked s -> linked (delete_class_methods db s).
Proof.
  intros (H1 & H2 & H3). split; [|split]; simpl; [exact H1|exact H2|].
  intros m Hm. apply filter_In in Hm. now apply H3.
Qed.

Lemma delete_function_calls_ok db s : linked s -> linked (delete_function_calls db s).
Proof.
  intros (H1 & H2 & H3). split; [|split]; simpl; [|exact H2|exact H3].
  intros fc Hfc. apply filter_In in Hfc. now apply H1.
Qed.

Lemma delete_variables_ok db s : linked s -> linked (delete_variables db s).
Proof. intros H. exact H. Qed.

Lemma delete_classes_ok db s : linked s -> linked (delete_classes db s).
Proof.
  intros (H1 & H2 & H3). unfold delete_classes. cbv zeta.
  set (deleted := map c_id (List.filter (fun c => tagged db (c_database_name c)) (classes s))).
  set (kept := List.filter (fun c => negb (tagged db (c_database_name c))) (classes s)).
  set (f := fun c => if refers_to (c_parent_id c) deleted then set_parent_id c None else c).
  assert (Fi : forall c, c_id (f c) = c_id c) by (intros c; unfold f; now destruct (refers_to _ _)).
  assert (Fk : forall c, c_codeql_id (f c) = c_codeql_id c)
    by (intros c; unfold f; now destruct (refers_to _ _)).
  assert (K : forall x k, to_class s x k -> refers_to x deleted = false ->
                          points_to c_id c_codeql_id (map f kept) x k).
  { intros x k Hx Hr. apply points_to_map; auto. now apply points_to_kept. }
  split; [|split].
  - simpl. intros fc Hfc. now apply H1.
  - simpl. unfold Integrity.to_class. simpl. intros c Hc.
    apply in_map_iff in Hc. destruct Hc as (c0 & <- & Hc0).
    apply filter_In in Hc0. destruct Hc0 as [Hc0 _].
    assert (Ef : f c0 = if refers_to (c_parent_id c0) deleted then set_parent_id c0 None else c0)
      by reflexivity.
    rewrite Ef.
    destruct (refers_to (c_parent_id c0) deleted) eqn:E; [apply points_to_none|].
    apply K; [now apply H2 | exact E].
  - simpl. unfold Integrity.to_class, Integrity.to_function. simpl. intros m Hm.
    apply filter_In in Hm. destruct Hm as [Hm Hr]. apply negb_true_iff in Hr.
    destruct (H3 m Hm) as [Hc Hf]. split; [|exact Hf]. apply K; auto.
Qed.

Lemma delete_functions_ok db s : linked s -> linked (delete_functions db s).
Proof.
  intros (H1 & H2 & H3). unfold delete_functions. cbv zeta.
  set (deleted := map f_id (List.filter (fun f => tagged db (f_database_name f)) (functions s))).
  set (kept := List.filter (fun f => negb (tagged db (f_database_name f))) (functions s)).
  assert (K : forall x k, to_function s x k -> refers_to x deleted = false ->
                          points_to f_id f_codeql_id kept x k).
  { intros x k Hx Hr. now apply points_to_kept. }
  split; [|split].
  - simpl. unfold Integrity.to_function. simpl. intros fc Hfc.
    apply filter_In in Hfc. destruct Hfc as [Hfc Hr].
    apply andb_true_iff in Hr. destruct Hr as [Hr1 Hr2].
    apply negb_true_iff in Hr1, Hr2. destruct (H1 fc Hfc) as [Ha Hb].
    split; apply K; auto.
  - simpl. intros c Hc. now apply H2.
  - simpl. unfold Integrity.to_function, Integrity.to_class. simpl. intros m Hm.
    apply filter_In in Hm. destruct Hm as [Hm Hr]. apply negb_true_iff in Hr.
    destruct (H3 m Hm) as [Hc Hf]. split; [exact Hc|]. apply K; auto.
Qed.

Lemma cleared_ok db s : linked s -> linked (cleared db s).
Proof.
  intros H. unfold cleared.
  now apply delete_functions_ok, delete_classes_ok, delete_variables_ok,
    delete_function_calls_ok, delete_class_methods_ok.
Qed.

(** The INSERT statement: the rows it adds have no id resolved yet. *)
Lemma build_rows_all {R} (mk : Z -> list field -> result R) (P : R -> Prop) :
  (forall id t r, mk id t = Ok r -> P r) ->
  forall tuples seq rows, build_rows mk seq tuples = Ok rows -> forall r, In r rows -> P r.
Proof.
  intros Hmk. induction tuples as [|t ts IH]; intros seq rows; simpl.
  - intros [= <-] r [].
  - destruct (mk seq t) as [r0|] eqn:E0; [|discriminate].
    destruct (build_rows mk (seq + 1) ts) as [rs|] eqn:E; [|discriminate].
    intros [= <-] r [<-|Hr]; [eapply Hmk; eauto | eapply IH; eauto].
Qed.

Lemma mk_call_unresolved id t r :
  mk_call id t = Ok r -> fc_caller_id r = None /\ fc_callee_id r = None.
Proof.
  unfold mk_call.
  destruct t as [|[db|] [|[caller|] [|[callee|] [|[file|] [|[line|] [|nm [|]]]]]]]; try discriminate.
  destruct (integer_column line); [|discriminate]. now intros [= <-].
Qed.

Lemma mk_class_unresolved id t r : mk_class id t = Ok r -> c_parent_id r = None.
Proof.
  unfold mk_class.
  destruct t as [|[db|] [|[cid|] [|[name|] [|[file|] [|[line|] [|parent [|]]]]]]]; try discriminate.
  destruct (integer_column line); [|discriminate]. now intros [= <-].
Qed.

Lemma mk_method_unresolved id t r :
  mk_method id t = Ok r -> cm_class_id r = None /\ cm_method_id r = None.
Proof.
  unfold mk_method.
  destruct t as [|[db|] [|[cls|] [|[meth|] [|nm [|]]]]]; try discriminate.
  now intros [= <-].
Qed.

Lemma insert_statement_ok table ncols nrows params s s' :
  insert_statement table ncols nrows params s = Ok s' -> linked s -> linked s'.
Proof.
  unfold insert_statement. intros H (H1 & H2 & H3).
  destruct (negb (length params =? nrows * ncols)%nat); [discriminate|].
  destruct (String.eqb table "functions").
  { destruct (build_rows mk_function _ _) as [rows|]; [|discriminate].
    destruct (unique_keys _ _); [|discriminate]. injection H as <-.
    assert (Hi : incl (functions s) (functions s ++ rows)) by now apply incl_appl.
    split; [|split]; simpl; unfold Integrity.to_function; simpl.
    - intros fc Hfc. destruct (H1 fc Hfc). split; eapply points_to_incl; eauto.
    - exact H2.
    - intros m Hm. destruct (H3 m Hm). split; [assumption|]. eapply points_to_incl; eauto. }
  destruct (String.eqb table "function_calls").
  { destruct (build_rows mk_call _ _) as [rows|] eqn:E; [|discriminate]. injection H as <-.
    split; [|split]; simpl; [|exact H2|exact H3].
    intros fc Hfc. apply in_app_or in Hfc. destruct Hfc as [Hfc|Hfc]; [now apply H1|].
    destruct (build_rows_all mk_call _ mk_call_unresolved _ _ _ E fc Hfc) as [-> ->].
    split; apply points_to_none. }
  destruct (String.eqb table "classes").
  { destruct (build_rows mk_class _ _) as [rows|] eqn:E; [|discriminate].
    destruct (unique_keys _ _); [|discriminate]. injection H as <-.
    assert (Hi : incl (classes s) (classes s ++ rows)) by now apply incl_appl.
    split; [|split]; simpl; unfold Integrity.to_class; simpl.
    - exact H1.
    - intros c Hc. apply in_app_or in Hc. destruct Hc as [Hc|Hc].
      + eapply points_to_incl; eauto. now apply H2.
      + rewrite (build_rows_all mk_class _ mk_class_unresolved _ _ _ E c Hc).
        apply points_to_none.
    - intros m Hm. destruct (H3 m Hm). split; [|assumption]. eapply points_to_incl; eauto. }
  destruct (build_rows mk_method _ _) as [rows|] eqn:E; [|discriminate]. injection H as <-.
  split; [|split]; simpl; [exact H1|exact H2|].
  intros m Hm. apply in_app_or in Hm. destruct Hm as [Hm|Hm]; [now apply H3|].
  destruct (build_rows_all mk_method _ mk_method_unresolved _ _ _ E m Hm) as [-> ->].
  split; apply points_to_none.
Qed.

(** The UPDATE statements write the id of the row they found by its key. *)
Lemma lookup_function_found key s f :
  lookup_function key s = Some f -> to_function s (Some (f_id f)) (Some key).
Proof using agree_same.
  intros H. apply find_some in H. destruct H as [Hin Hk]. apply String.eqb_eq in Hk.
  intros i [= <-]. exists f. repeat split; auto. rewrite <- Hk. apply agree_same.
Qed.

Lemma lookup_class_found key s c :
  lookup_class key s = Some c -> to_class s (Some (c_id c)) (Some key).
Proof using agree_same.
  intros H. apply find_some in H. destruct H as [Hin Hk]. apply String.eqb_eq in Hk.
  intros i [= <-]. exists c. repeat split; auto. rewrite <- Hk. apply agree_same.
Qed.

Lemma set_caller_ids_ok db s : linked s -> linked (set_caller_ids db s).
Proof using agree_same.
  intros (H1 & H2 & H3). split; [|split]; simpl; [|exact H2|exact H3].
  intros fc Hfc. apply in_map_iff in Hfc. destruct Hfc as (fc0 & <- & Hfc0).
  destruct (H1 fc0 Hfc0) as [Ha Hb]. unfold resolve_caller.
  destruct (_ && _); [|now split].
  destruct (lookup_function _ s) as [f|] eqn:E; [|now split].
  split; [|exact Hb]. simpl. eapply lookup_function_found; eauto.
Qed.

Lemma set_callee_ids_ok db s : linked s -> linked (set_callee_ids db s).
Proof using agree_same.
  intros (H1 & H2 & H3). split; [|split]; simpl; [|exact H2|exact H3].
  intros fc Hfc. apply in_map_iff in Hfc. destruct Hfc as (fc0 & <- & Hfc0).
  destruct (H1 fc0 Hfc0) as [Ha Hb]. unfold resolve_callee.
  destruct (_ && _); [|now split].
  destruct (lookup_function _ s) as [f|] eqn:E; [|now split].
  split; [exact Ha|]. simpl. eapply lookup_function_found; eauto.
Qed.

Lemma resolve_parent_c_parent_key db s c :
  c_parent_codeql_id (resolve_parent db s c) = c_parent_codeql_id c.
Proof.
  unfold resolve_parent. destruct (_ && _); [|reflexivity].
  destruct (c_parent_codeql_id c) eqn:E; [|now rewrite E].
  destruct (lookup_class _ _); [simpl|]; now rewrite E.
Qed.

Lemma set_parent_ids_ok db s : linked s -> linked (set_parent_ids db s).
Proof using agree_same.
  intros (H1 & H2 & H3).
  assert (K : forall x k, to_class s x k ->
                points_to c_id c_codeql_id (map (resolve_parent db s) (classes s)) x k).
  { intros x k Hx. apply points_to_map; auto using resolve_parent_id, resolve_parent_key. }
  split; [|split]; simpl; unfold Integrity.to_class; simpl; [exact H1| |].
  - intros c Hc. apply in_map_iff in Hc. destruct Hc as (c0 & <- & Hc0).
    rewrite resolve_parent_c_parent_key. pose proof (H2 c0 Hc0) as Hp.
    unfold resolve_parent.
    destruct (_ && _); [|now apply K].
    destruct (c_parent_codeql_id c0) as [key|]; [|now apply K].
    destruct (lookup_class key s) as [p|] eqn:E; [|now apply K].
    simpl. apply K. eapply lookup_class_found; eauto.
  - intros m Hm. destruct (H3 m Hm) as [Ha Hb]. split; [now apply K | exact Hb].
Qed.

Lemma update_class_ok db s s' :
  update_class_methods (resolve_class db) s = Ok s' -> linked s -> linked s'.
Proof using agree_same.
  unfold update_class_methods. destruct (_ && _); [discriminate|]. intros [= <-] (H1 & H2 & H3).
  split; [|split]; simpl; [exact H1|exact H2|].
  intros m Hm. apply in_map_iff in Hm. destruct Hm as (m0 & <- & Hm0).
  destruct (H3 m0 Hm0) as [Ha Hb]. unfold resolve_class.
  destruct (_ && _); [|now split].
  destruct (lookup_class _ s) as [c|] eqn:E; [|now split].
  split; [|exact Hb]. simpl. eapply lookup_class_found; eauto.
Qed.

Lemma update_method_ok db s s' :
  update_class_methods (resolve_method db) s = Ok s' -> linked s -> linked s'.
Proof using agree_same.
  unfold update_class_methods. destruct (_ && _); [discriminate|]. intros [= <-] (H1 & H2 & H3).
  split; [|split]; simpl; [exact H1|exact H2|].
  intros m Hm. apply in_map_iff in Hm. destruct Hm as (m0 & <- & Hm0).
  destruct (H3 m0 Hm0) as [Ha Hb]. unfold resolve_method.
  destruct (_ && _); [|now split].
  destruct (lookup_function _ s) as [f|] eqn:E; [|now split].
  split; [exact Ha|]. simpl. eapply lookup_function_found; eauto.
Qed.

Lemma updateForeignKeys_ok db s r s' :
  updateForeignKeys db s = (r, s') -> linked s -> linked s'.
Proof using agree_same.
  rewrite updateForeignKeys_unfold. cbv zeta. intros H H0.
  assert (K3 : linked (set_parent_ids db (set_callee_ids db (set_caller_ids db s))))
    by now apply set_parent_ids_ok, set_callee_ids_ok, set_caller_ids_ok.
  destruct (update_class_methods (resolve_class db) _) as [s4|e] eqn:E4.
  2:{ injection H as _ <-. exact K3. }
  pose proof (update_class_ok _ _ _ E4 K3) as K4.
  destruct (update_class_methods (resolve_method db) s4) as [s5|e] eqn:E5.
  2:{ injection H as _ <-. exact K4. }
  injection H as _ <-. eapply update_method_ok; eauto.
Qed.

Lemma handleBuildGraphIndex_ok env name s :
  linked s -> linked (snd (handleBuildGraphIndex env name s)).
Proof using agree_same.
  intros H0.
  destruct (databases env !! name) as [db|] eqn:Hdb.
  2:{ unfold handleBuildGraphIndex. now rewrite Hdb. }
  destruct (testConnection env) eqn:Hconn.
  2:{ unfold handleBuildGraphIndex. now rewrite Hdb, Hconn. }
  destruct (languageDir_of (db_language db)) as [ld|] eqn:Hld.
  2:{ unfold handleBuildGraphIndex. rewrite Hdb, Hconn, Hld. now apply cleared_ok. }
  rewrite (handleBuildGraphIndex_cleared env name db ld s Hdb Hconn Hld).
  unfold try_rethrow, bind.
  destruct (for_each (run_extraction env db name ld) ∅ extractions (cleared name s))
    as [[stats|e] s1] eqn:E1;
    pose proof (for_each_keeps linked _ _
                  (run_extraction_keeps linked insert_statement_ok env db name ld)
                  _ _ _ _ E1 (cleared_ok name s H0)) as G.
  - destruct (updateForeignKeys name s1) as [[[]|e] s2] eqn:E2; simpl;
      eapply updateForeignKeys_ok; eauto.
  - exact G.
Qed.

End ReferentialIntegrity.

(** X6. Two invariants of the build, kept whether the handler returns or
    throws and at whichever statement it stops.  Referential integrity:
    when every caller_id, callee_id, parent_id, class_id and method_id
    that is not NULL is the id of a stored function or class, so it is
    in the store the handler leaves.  Agreement of ids and keys: when
    moreover each such id is the id of a row whose codeql_id is the key
    the referencing row names, so it is afterwards.  The DELETE
    statements take the referencing rows with them (or null the parent
    link), the INSERT statements add rows with no link, and the resolver
    writes the id of the row it found by that key. *)
Theorem X6_build_keeps_resolved_ids_valid :
  forall (env : Indexer.environment) (database_name : string) (s s' : Store.store)
         (r : Postgres.outcome (gmap string nat)),
    Indexer.handleBuildGraphIndex env database_name s = (r, s') ->
    (Integrity.references_ok s -> Integrity.references_ok s')
    /\ (Integrity.keys_agree s -> Integrity.keys_agree s').
Proof.
  intros env name s s' r H. split; intros H0.
  - pose proof (handleBuildGraphIndex_ok (fun _ _ => True) (fun _ => I) env name s H0) as K.
    now rewrite H in K.
  - pose proof (handleBuildGraphIndex_ok (fun k key => key = Some k) (fun _ => eq_refl)
                  env name s H0) as K.
    now rewrite H in K.
Qed.

Lemma X6_witness : Integrity.keys_agree Samples.hot_store.
Proof.
  refine (proj2 (X6_build_keeps_resolved_ids_valid Samples.hot_env "sample" Store.empty
                   Samples.hot_store
                   (fst (Indexer.handleBuildGraphIndex Samples.hot_env "sample" Store.empty))
                   _) _).
  - vm_compute. reflexivity.
  - split; [|split]; intros ? [].
Defined.

(** ** What the resolver leaves unresolved *)

Section ResolverCompleteness.
Import Store Postgres.

Variable db : string.

Lemma lookup_function_none key s :
  lookup_function key s = None -> forall f, In f (functions s) -> f_codeql_id f <> key.
Proof.
  intros H f Hf E. pose proof (find_none _ _ H f Hf) as X. simpl in X.
  rewrite E, String.eqb_refl in X. discriminate.
Qed.

Lemma lookup_class_none key s :
  lookup_class key s = None -> forall c, In c (classes s) -> c_codeql_id c <> key.
Proof.
  intros H c Hc E. pose proof (find_none _ _ H c Hc) as X. simpl in X.
  rewrite E, String.eqb_refl in X. discriminate.
Qed.

Lemma tagged_same : tagged db db = true.
Proof. apply String.eqb_refl. Qed.

Lemma caller_settled s fc :
  resolve_caller db s fc = fc -> fc_database_name fc = db -> fc_caller_id fc = None ->
  lookup_function (fc_caller_codeql_id fc) s = None.
Proof.
  unfold resolve_caller. intros H Ht Hn. rewrite Ht, tagged_same, Hn in H. simpl in H.
  destruct (lookup_function _ s) as [f|]; [|reflexivity].
  apply (f_equal fc_caller_id) in H. simpl in H. congruence.
Qed.

Lemma callee_settled s fc :
  resolve_callee db s fc = fc -> fc_database_name fc = db -> fc_callee_id fc = None ->
  lookup_function (fc_callee_codeql_id fc) s = None.
Proof.
  unfold resolve_callee. intros H Ht Hn. rewrite Ht, tagged_same, Hn in H. simpl in H.
  destruct (lookup_function _ s) as [f|]; [|reflexivity].
  apply (f_equal fc_callee_id) in H. simpl in H. congruence.
Qed.

Lemma parent_settled s c key :
  resolve_parent db s c = c -> c_database_name c = db -> c_parent_id c = None ->
  c_parent_codeql_id c = Some key -> lookup_class key s = None.
Proof.
  unfold resolve_parent. intros H Ht Hn Hk. rewrite Ht, tagged_same, Hn, Hk in H. simpl in H.
  destruct (lookup_class _ s) as [p|]; [|reflexivity].
  apply (f_equal c_parent_id) in H. simpl in H. congruence.
Qed.

Lemma class_settled s m :
  resolve_class db s m = m -> cm_database_name m = db -> cm_class_id m = None ->
  lookup_class (cm_class_codeql_id m) s = None.
Proof.
  unfold resolve_class. intros H Ht Hn. rewrite Ht, tagged_same, Hn in H. simpl in H.
  destruct (lookup_class _ s) as [c|]; [|reflexivity].
  apply (f_equal cm_class_id) in H. simpl in H. congruence.
Qed.

Lemma method_settled s m :
  resolve_method db s m = m -> cm_database_name m = db -> cm_method_id m = None ->
  lookup_function (cm_method_codeql_id m) s = None.
Proof.
  unfold resolve_method. intros H Ht Hn. rewrite Ht, tagged_same, Hn in H. simpl in H.
  destruct (lookup_function _ s) as [f|]; [|reflexivity].
  apply (f_equal cm_method_id) in H. simpl in H. congruence.
Qed.

(** The store a pass that returned leaves is settled for each of the
    five statements. *)
Lemma updateForeignKeys_settled s s' :
  updateForeignKeys db s = (Returned tt, s') ->
  functions s' = functions s
  /\ map c_codeql_id (classes s') = map c_codeql_id (classes s)
  /\ map (resolve_caller db s') (function_calls s') = function_calls s'
  /\ map (resolve_callee db s') (function_calls s') = function_calls s'
  /\ map (resolve_parent db s') (classes s') = classes s'
  /\ map (resolve_class db s') (class_methods s') = class_methods s'
  /\ map (resolve_method db s') (class_methods s') = class_methods s'.
Proof.
  rewrite updateForeignKeys_unfold. cbv zeta.
  set (s3 := set_parent_ids db (set_callee_ids db (set_caller_ids db s))).
  destruct (fixed123_after_three db s) as (F1 & F2 & F3). fold s3 in F1, F2, F3.
  destruct (update_class_methods (resolve_class db) s3) as [s4|e] eqn:E4; [|discriminate].
  destruct (update_class_pass db _ _ E4) as (Hf4 & Hc4 & Hfc4 & F4).
  destruct (update_class_methods (resolve_method db) s4) as [s5|e] eqn:E5; [|discriminate].
  destruct (update_method_pass db _ _ F4 E5) as (Hf5 & Hc5 & Hfc5 & G4 & G5).
  intros [= <-].
  assert (Hf : functions s5 = functions s3) by congruence.
  assert (Hc : classes s5 = classes s3) by congruence.
  assert (Hfc : function_calls s5 = function_calls s3) by congruence.
  split; [rewrite Hf; reflexivity|].
  split.
  { rewrite Hc. unfold s3. simpl. rewrite map_map. apply map_ext.
    intros c. apply resolve_parent_key. }
  split.
  { rewrite Hfc. etransitivity; [|exact F1].
    apply map_ext. intros fc. now apply resolve_caller_ext. }
  split.
  { rewrite Hfc. etransitivity; [|exact F2].
    apply map_ext. intros fc. now apply resolve_callee_ext. }
  split.
  { rewrite Hc. etransitivity; [|exact F3].
    apply map_ext. intros c. unfold resolve_parent, lookup_class. now rewrite Hc. }
  split; assumption.
Qed.

End ResolverCompleteness.

(** X7. The resolver is complete.  After a pass that returned, an id the
    pass left NULL in a row of its corpus is one that cannot be
    resolved: no stored function, of any corpus, has the caller key
    (callee key, method key) of the row, and no stored class has its
    parent key (class key).  The pass changes no function and no class
    key. *)
Theorem X7_resolver_leaves_only_unresolvable_links :
  forall (db : string) (s s' : Store.store),
    Postgres.updateForeignKeys db s = (Postgres.Returned tt, s') ->
    Store.functions s' = Store.functions s
    /\ map Store.c_codeql_id (Store.classes s') = map Store.c_codeql_id (Store.classes s)
    /\ (forall fc, In fc (Store.function_calls s') -> Store.fc_database_name fc = db ->
          (Store.fc_caller_id fc = None ->
           forall f, In f (Store.functions s') ->
                     Store.f_codeql_id f <> Store.fc_caller_codeql_id fc)
          /\ (Store.fc_callee_id fc = None ->
              forall f, In f (Store.functions s') ->
                        Store.f_codeql_id f <> Store.fc_callee_codeql_id fc))
    /\ (forall c, In c (Store.classes s') -> Store.c_database_name c = db ->
          Store.c_parent_id c = None ->
          forall p, In p (Store.classes s') ->
                    Store.c_parent_codeql_id c <> Some (Store.c_codeql_id p))
    /\ (forall m, In m (Store.class_methods s') -> Store.cm_database_name m = db ->
          (Store.cm_class_id m = None ->
           forall c, In c (Store.classes s') ->
                     Store.c_codeql_id c <> Store.cm_class_codeql_id m)
          /\ (Store.cm_method_id m = None ->
              forall f, In f (Store.functions s') ->
                        Store.f_codeql_id f <> Store.cm_method_codeql_id m)).
Proof.
  intros db s s' H.
  destruct (updateForeignKeys_settled db s s' H) as (Hf & Hc & F1 & F2 & F3 & F4 & F5).
  split; [exact Hf|]. split; [exact Hc|]. split; [|split].
  - intros fc Hfc Ht. split; intros Hn.
    + apply lookup_function_none. apply (caller_settled db); auto.
      now apply (proj1 (map_fixed _ _) F1).
    + apply lookup_function_none. apply (callee_settled db); auto.
      now apply (proj1 (map_fixed _ _) F2).
  - intros c Hin Ht Hn p Hp E.
    refine (lookup_class_none (Store.c_codeql_id p) s' _ p Hp eq_refl).
    apply (parent_settled db s' c); auto.
    now apply (proj1 (map_fixed _ _) F3).
  - intros m Hm Ht. split; intros Hn.
    + apply lookup_class_none. apply (class_settled db); auto.
      now apply (proj1 (map_fixed _ _) F4).
    + apply lookup_function_none. apply (method_settled db); auto.
      now apply (proj1 (map_fixed _ _) F5).
Qed.

Lemma X7_witness : Store.functions Samples.abc_store = Store.functions Samples.abc_unresolved.
Proof.
  refine (proj1 (X7_resolver_leaves_only_unresolvable_links "sample" Samples.abc_unresolved
                   Samples.abc_store _)).
  vm_compute. reflexivity.
Defined.

(** ** The counts the build reports *)

Section ReportedCounts.
Import Store Postgres Ingest Indexer Rows.

Variable name : string.

Local Abbreviation shaped := (Rows.shaped name).

Lemma ingest_from_values (pr : option (list field -> list field)) (P : list field -> Prop) :
  forall lines a,
    (forall line, In line lines -> Js.truthy (Js.trim line) = true -> P (row_of name pr line)) ->
    List.Forall P (values a) ->
    List.Forall P (values (ingest_from name pr a lines)).
Proof.
  induction lines as [|l ls IH]; intros a Hl Ha; [exact Ha|].
  rewrite ingest_from_cons. apply IH; [intros; apply Hl; simpl; auto|].
  unfold ingest_line. destruct (Js.truthy (Js.trim l)) eqn:T; [|exact Ha].
  assert (Hrow : P (row_of name pr l)) by (apply Hl; simpl; auto).
  cbv zeta. destruct (at_index (parse_parts l) 0) as [u|].
  - destruct (bool_decide _); simpl; [exact Ha|].
    apply List.Forall_app. split; [exact Ha | now constructor].
  - simpl. apply List.Forall_app. split; [exact Ha | now constructor].
Qed.

Lemma ingest_values_shaped e csv :
  In e extractions -> well_formed e csv ->
  List.Forall (shaped (length (actualColumns e))) (values (ingest name e csv)).
Proof.
  intros He Hw. unfold ingest. apply ingest_from_values; [|constructor].
  intros line Hin T. pose proof (Hw line Hin T) as Hlen.
  unfold Rows.shaped, row_of, parse_parts.
  destruct He as [<-|[<-|[<-|[<-|[]]]]]; simpl in *; split; try reflexivity;
    unfold processRow_calls; rewrite ?length_app, ?length_map, Hlen; reflexivity.
Qed.

Lemma tuples_of_concat ncols (batch : list (list field)) :
  List.Forall (fun row => length row = ncols) batch ->
  tuples_of ncols (length batch) (concat batch) = batch.
Proof.
  induction 1 as [|row rows Hrow _ IH]; simpl; [reflexivity|].
  assert (F : firstn ncols (row ++ concat rows) = row).
  { rewrite <- Hrow. rewrite firstn_app, Nat.sub_diag, firstn_all. apply app_nil_r. }
  assert (S : skipn ncols (row ++ concat rows) = concat rows).
  { rewrite <- Hrow. rewrite skipn_app, Nat.sub_diag, skipn_all. reflexivity. }
  now rewrite F, S, IH.
Qed.

Lemma build_rows_tagged {R} (mk : Z -> list field -> result R) (tag : R -> string) :
  (forall id t r, mk id t = Ok r -> hd_error t = Some (Some (tag r))) ->
  forall tuples seq rows,
    build_rows mk seq tuples = Ok rows ->
    List.Forall (fun t => hd_error t = Some (Some name)) tuples ->
    length rows = length tuples /\ forall r, In r rows -> tag r = name.
Proof.
  intros Hmk. induction tuples as [|t ts IH]; intros seq rows; simpl.
  - intros [= <-] _. split; [reflexivity | intros r []].
  - destruct (mk seq t) as [r0|] eqn:E0; [|discriminate].
    destruct (build_rows mk (seq + 1) ts) as [rs|] eqn:E; [|discriminate].
    intros [= <-] Hts.
    pose proof (List.Forall_inv Hts) as Ht. pose proof (List.Forall_inv_tail Hts) as Hts'.
    destruct (IH _ _ E Hts') as [Hlen Hall]. split; [simpl; now rewrite Hlen|].
    intros r [<-|Hr]; [|now apply Hall].
    apply Hmk in E0. unfold field in *. rewrite E0 in Ht. now injection Ht.
Qed.

Lemma mk_function_tag id t r :
  mk_function id t = Ok r -> hd_error t = Some (Some (f_database_name r)).
Proof.
  unfold mk_function.
  destruct t as [|[db|] [|[cid|] [|[nm|] [|[file|] [|[line|] [|np [|sg [|]]]]]]]];
    try discriminate.
  destruct (integer_column line); [|discriminate].
  destruct (nullable_integer_column np); [|discriminate]. now intros [= <-].
Qed.

Lemma mk_call_tag id t r :
  mk_call id t = Ok r -> hd_error t = Some (Some (fc_database_name r)).
Proof.
  unfold mk_call.
  destruct t as [|[db|] [|[caller|] [|[callee|] [|[file|] [|[line|] [|nm [|]]]]]]];
    try discriminate.
  destruct (integer_column line); [|discriminate]. now intros [= <-].
Qed.

Lemma mk_class_tag id t r :
  mk_class id t = Ok r -> hd_error t = Some (Some (c_database_name r)).
Proof.
  unfold mk_class.
  destruct t as [|[db|] [|[cid|] [|[nm|] [|[file|] [|[line|] [|parent [|]]]]]]];
    try discriminate.
  destruct (integer_column line); [|discriminate]. now intros [= <-].
Qed.

Lemma mk_method_tag id t r :
  mk_method id t = Ok r -> hd_error t = Some (Some (cm_database_name r)).
Proof.
  unfold mk_method.
  destruct t as [|[db|] [|[cls|] [|[meth|] [|nm [|]]]]]; try discriminate.
  now intros [= <-].
Qed.

Lemma count_where_app_tagged {A} (tag : A -> string) l rows :
  (forall r, In r rows -> tag r = name) ->
  count_where (fun r => tagged name (tag r)) (l ++ rows)
  = (count_where (fun r => tagged name (tag r)) l + length rows)%nat.
Proof.
  intros H. unfold count_where. rewrite List.filter_app, length_app. f_equal.
  induction rows as [|r rs IH]; simpl; [reflexivity|].
  rewrite (H r) by (simpl; auto). unfold tagged at 1. rewrite String.eqb_refl. simpl.
  f_equal. apply IH. intros; apply H; simpl; auto.
Qed.

Lemma insert_statement_stats table ncols batch s s' :
  List.Forall (shaped ncols) batch ->
  insert_statement table ncols (length batch) (concat batch) s = Ok s' ->
  getDatabaseStats name s' = add_rows table (length batch) (getDatabaseStats name s).
Proof.
  intros Hb. unfold insert_statement, add_rows.
  assert (Hlen : List.Forall (fun row => length row = ncols) batch)
    by (eapply List.Forall_impl; [|exact Hb]; now intros ? []).
  assert (Htag : List.Forall (fun t => hd_error t = Some (Some name)) batch)
    by (eapply List.Forall_impl; [|exact Hb]; now intros ? []).
  rewrite (tuples_of_concat _ _ Hlen).
  destruct (negb _); [discriminate|].
  destruct (String.eqb table "functions").
  { destruct (build_rows mk_function _ _) as [rows|] eqn:E; [|discriminate].
    destruct (unique_keys _ _); [|discriminate]. intros [= <-].
    destruct (build_rows_tagged _ _ mk_function_tag _ _ _ E Htag) as [L T].
    unfold getDatabaseStats. simpl. f_equal.
    rewrite (count_where_app_tagged f_database_name) by exact T. now rewrite L. }
  destruct (String.eqb table "function_calls").
  { destruct (build_rows mk_call _ _) as [rows|] eqn:E; [|discriminate]. intros [= <-].
    destruct (build_rows_tagged _ _ mk_call_tag _ _ _ E Htag) as [L T].
    unfold getDatabaseStats. simpl. f_equal.
    rewrite (count_where_app_tagged fc_database_name) by exact T. now rewrite L. }
  destruct (String.eqb table "classes").
  { destruct (build_rows mk_class _ _) as [rows|] eqn:E; [|discriminate].
    destruct (unique_keys _ _); [|discriminate]. intros [= <-].
    destruct (build_rows_tagged _ _ mk_class_tag _ _ _ E Htag) as [L T].
    unfold getDatabaseStats. simpl. f_equal.
    rewrite (count_where_app_tagged c_database_name) by exact T. now rewrite L. }
  destruct (build_rows mk_method _ _) as [rows|] eqn:E; [|discriminate]. intros [= <-].
  destruct (build_rows_tagged _ _ mk_method_tag _ _ _ E Htag) as [L T].
  unfold getDatabaseStats. simpl. f_equal.
  rewrite (count_where_app_tagged cm_database_name) by exact T. now rewrite L.
Qed.

Lemma add_rows_zero table st : add_rows table 0 st = st.
Proof.
  unfold add_rows. destruct st.
  repeat (destruct (String.eqb table _)); simpl; f_equal; lia.
Qed.

Lemma add_rows_add table a b st :
  add_rows table b (add_rows table a st) = add_rows table (a + b) st.
Proof.
  unfold add_rows. destruct st.
  repeat (destruct (String.eqb table _)); simpl; f_equal; lia.
Qed.

Lemma in_skipn {A} n (l : list A) x : In x (skipn n l) -> In x l.
Proof.
  revert l. induction n as [|n IH]; intros [|y l]; simpl; auto.
Qed.

Lemma Forall_slice {A} (P : A -> Prop) i n l :
  List.Forall P l -> List.Forall P (Js.slice i n l).
Proof.
  intros H. unfold Js.slice. apply List.Forall_forall. intros x Hx.
  apply (proj1 (List.Forall_forall P l) H).
  eapply in_skipn, in_firstn, Hx.
Qed.

Lemma batch_loop_stats table ncols bs values (Hbs : (1 <= bs)%nat) :
  List.Forall (shaped ncols) values ->
  forall fuel i s s',
    (length values <= i + fuel * bs)%nat ->
    batch_loop fuel table ncols bs values i s = (Returned tt, s') ->
    getDatabaseStats name s'
    = add_rows table (length values - i) (getDatabaseStats name s).
Proof.
  intros Hv. induction fuel as [|fuel IH]; intros i s s' Hf H; cbn [batch_loop] in H.
  - inversion H; subst. replace (length values - i)%nat with 0%nat by lia.
    now rewrite add_rows_zero.
  - destruct (Nat.ltb_spec i (length values)) as [Hi|Hi].
    2:{ inversion H; subst. replace (length values - i)%nat with 0%nat by lia.
        now rewrite add_rows_zero. }
    unfold bind, executeQuery in H.
    destruct (insert_statement table ncols _ _ s) as [s1|err] eqn:E; [|discriminate].
    apply insert_statement_stats in E; [|now apply Forall_slice].
    rewrite slice_length in E.
    rewrite (IH (i + bs)%nat s1 s' ltac:(lia) H), E, add_rows_add. f_equal. lia.
Qed.

Lemma run_extraction_stats env db ld stats e s stats' s' :
  In e extractions ->
  (forall csv, run_and_decode env db ld (query e) = Some csv -> well_formed e csv) ->
  run_extraction env db name ld stats e s = (Returned stats', s') ->
  exists n, stats' = <[table e := n]> stats
            /\ getDatabaseStats name s' = add_rows (table e) n (getDatabaseStats name s).
Proof.
  intros He Hw. unfold run_extraction.
  destruct (negb (access env ld (query e))).
  { destruct (required e); [discriminate|]. intros [= <- <-]. exists 0%nat.
    now rewrite add_rows_zero. }
  destruct (run_and_decode env db ld (query e)) as [csv|]; [|discriminate].
  specialize (Hw csv eq_refl). unfold bind.
  pose proof (ingest_values_shaped e csv He Hw) as Hs.
  destruct (0 <? length (values (ingest name e csv)))%nat eqn:Hpos.
  - unfold insert_batches.
    destruct (batch_loop _ _ _ _ _ _ s) as [[[]|err] s1] eqn:E; [|discriminate].
    intros [= <- <-]. eexists. split; [reflexivity|].
    assert (Hbs : (1 <= batchSize e)%nat)
      by (destruct He as [<-|[<-|[<-|[<-|[]]]]]; vm_compute; lia).
    assert (Hfuel : (length (values (ingest name e csv))
                     <= 0 + length (values (ingest name e csv)) * batchSize e)%nat) by nia.
    rewrite (batch_loop_stats _ _ _ _ Hbs Hs _ _ _ _ Hfuel E).
    f_equal. lia.
  - intros [= <- <-]. apply Nat.ltb_ge in Hpos. exists 0%nat. split.
    + f_equal. lia.
    + now rewrite add_rows_zero.
Qed.

End ReportedCounts.

(** X8. The counts the build reports are the rows it stored.  When every
    data line of the four CSV files has as many fields as its fact type
    has columns and the build returns, the store holds, for the corpus,
    exactly the numbers of functions, classes, call edges and method
    memberships of the response, and no variable: what
    [getDatabaseStats] would count afterwards. *)
Theorem X8_reported_counts_are_the_stored_rows :
  forall (env : Indexer.environment) (database_name : string)
         (db : Indexer.CodeQLDatabase) (languageDir : string)
         (s s' : Store.store) (stats : gmap string nat),
    Indexer.databases env !! database_name = Some db ->
    Indexer.languageDir_of (Indexer.db_language db) = Some languageDir ->
    (forall e csv, In e Ingest.extractions ->
                   Indexer.run_and_decode env db languageDir (Ingest.query e) = Some csv ->
                   Rows.well_formed e csv) ->
    Indexer.handleBuildGraphIndex env database_name s = (Postgres.Returned stats, s') ->
    Postgres.getDatabaseStats database_name s'
    = {| Postgres.stat_functions := Indexer.reported stats "functions";
         Postgres.stat_classes := Indexer.reported stats "classes";
         Postgres.stat_calls := Indexer.reported stats "function_calls";
         Postgres.stat_methods := Indexer.reported stats "class_methods";
         Postgres.stat_variables := 0 |}.
Proof.
  intros env name db ld s s' stats Hdb Hld Hw H.
  destruct (Indexer.testConnection env) eqn:Hconn.
  2:{ unfold Indexer.handleBuildGraphIndex in H. rewrite Hdb, Hconn in H. discriminate. }
  rewrite (handleBuildGraphIndex_cleared env name db ld s Hdb Hconn Hld) in H.
  unfold Postgres.try_rethrow in H.
  match type of H with
  | match ?m with _ => _ end = _ => destruct m as [[a|err] s2] eqn:E; [|discriminate]
  end.
  injection H as -> ->.
  unfold Postgres.bind in E.
  destruct (Indexer.for_each _ _ _ _) as [[st4|err] s4] eqn:E4; [|discriminate].
  destruct (Postgres.updateForeignKeys name s4) as [[[]|err] s5] eqn:E5; [|discriminate].
  injection E as -> ->.
  rewrite (updateForeignKeys_stats _ _ _ _ E5).
  pose proof (cleared_stats_zero name s) as Z0. cbv zeta in Z0.
  unfold Ingest.extractions in E4. cbn [Indexer.for_each] in E4. unfold Postgres.bind in E4.
  destruct (Indexer.run_extraction env db name ld ∅ Ingest.extract_functions _)
    as [[st1|?] s1] eqn:R1; [|discriminate].
  destruct (Indexer.run_extraction env db name ld st1 Ingest.extract_calls s1)
    as [[st2|?] s2] eqn:R2; [|discriminate].
  destruct (Indexer.run_extraction env db name ld st2 Ingest.extract_classes s2)
    as [[st3|?] s3] eqn:R3; [|discriminate].
  destruct (Indexer.run_extraction env db name ld st3 Ingest.extract_methods s3)
    as [[st4'|?] s4'] eqn:R4; [|discriminate].
  injection E4 as -> ->.
  apply run_extraction_stats in R1; [|simpl; tauto|intros csv; apply Hw; simpl; tauto].
  apply run_extraction_stats in R2; [|simpl; tauto|intros csv; apply Hw; simpl; tauto].
  apply run_extraction_stats in R3; [|simpl; tauto|intros csv; apply Hw; simpl; tauto].
  apply run_extraction_stats in R4; [|simpl; tauto|intros csv; apply Hw; simpl; tauto].
  destruct R1 as (n1 & -> & G1), R2 as (n2 & -> & G2), R3 as (n3 & -> & G3),
    R4 as (n4 & -> & G4).
  rewrite G4, G3, G2, G1.
  destruct (Postgres.getDatabaseStats name (Postgres.cleared name s)) as [a b c d v].
  simpl in Z0. destruct Z0 as (-> & -> & -> & -> & ->).
  unfold Indexer.reported. simpl.
  rewrite !lookup_insert_ne by discriminate. rewrite ?lookup_insert. simpl.
  unfold Rows.add_rows. simpl. reflexivity.
Qed.

Lemma X8_witness :
  Postgres.getDatabaseStats "sample" Samples.hot_store
  = {| Postgres.stat_functions := 6; Postgres.stat_classes := 0;
       Postgres.stat_calls := 4; Postgres.stat_methods := 0;
       Postgres.stat_variables := 0 |}.
Proof.
  set (stats := match fst (Indexer.handleBuildGraphIndex Samples.hot_env "sample" Store.empty)
                with
                | Postgres.Returned st => st
                | Postgres.Thrown _ => ∅
                end).
  refine (X8_reported_counts_are_the_stored_rows Samples.hot_env "sample"
            (Samples.corpus "sample") "javascript" Store.empty Samples.hot_store stats
            _ _ _ _).
  - vm_compute. reflexivity.
  - vm_compute. reflexivity.
  - intros e csv He Hcsv line Hin _.
    destruct He as [<-|[<-|[<-|[<-|[]]]]]; simpl in Hcsv;
      try discriminate; injection Hcsv as <-;
      vm_compute in Hin;
      repeat (destruct Hin as [<-|Hin]; [vm_compute; reflexivity|]);
      destruct Hin.
  - vm_compute. reflexivity.
Defined.

(** ** The answer of the call-chain search *)

Section CallChainAnswer.
Import Store Postgres Query CallGraph.

Variable s : store.
Variable db from to : string.

Local Abbreviation by_depth := (fun a b : chain_row => cc_depth a <=? cc_depth b).

Lemma by_depth_total (a b : chain_row) : by_depth a b = true \/ by_depth b a = true.
Proof. rewrite !Z.leb_le. lia. Qed.

Lemma by_depth_trans (a b c : chain_row) :
  by_depth a b = true -> by_depth b c = true -> by_depth a c = true.
Proof. rewrite !Z.leb_le. lia. Qed.

(** The rows the outer SELECT keeps. *)
Local Abbreviation found md :=
  (List.filter (fun r => String.eqb (cc_name r) to) (call_chain from db md s)).

Lemma in_found md r :
  In r (found md) <->
  exists p g, call_path s db from p g /\ r = row_of_path p g
              /\ Z.of_nat (length p) <= Z.max 0 md /\ f_name g = to.
Proof.
  rewrite filter_In, in_call_chain, String.eqb_eq. split.
  - intros ((p & g & Hp & -> & Hb) & Hn). exists p, g. auto.
  - intros (p & g & Hp & -> & Hb & Hn). split; [|exact Hn]. exists p, g. auto.
Qed.

(** The answer is the row of least depth, when there is a row. *)
Lemma find_call_chain_least md hit :
  find_call_chain db from to md s = Some hit <->
  exists row t,
    order_by by_depth (found md) = row :: t
    /\ hit = {| path := cc_path row; depth := cc_depth row; file := cc_file row |}.
Proof.
  unfold find_call_chain. cbv zeta.
  destruct (order_by by_depth (found md)) as [|row t]; simpl.
  - split; [discriminate | now intros (? & ? & [=] & _)].
  - split.
    + intros [= <-]. now exists row, t.
    + intros (r & t' & [= <- <-] & ->). reflexivity.
Qed.

Lemma head_least md row t r :
  order_by by_depth (found md) = row :: t -> In r (found md) ->
  In row (found md) /\ cc_depth row <= cc_depth r.
Proof.
  intros E Hr. split.
  - apply (order_by_In by_depth). rewrite E. now left.
  - apply Z.leb_le.
    exact (order_by_head by_depth by_depth_total by_depth_trans _ _ _ _ E Hr).
Qed.

End CallChainAnswer.

(** X9. The path [find_call_chain] answers with names no function twice,
    starts with the name asked for as the start and ends with the name
    asked for as the end, and has one name more than its depth.  Raising
    [max_depth] within the 32-bit integers never loses an answer nor
    changes its depth, while a [max_depth] beyond them makes the store
    reject the query; and when start and end are the same name, borne
    by a function of the corpus, the answer is that name alone at depth
    0, whatever the bound. *)
Theorem X9_call_chain_answer_shape_and_monotonicity :
  forall (database_name from_function to_function : string) (max_depth : Z)
         (s : Store.store) (hit : Query.chain_hit),
    Query.handleFindCallChain database_name from_function to_function (Some max_depth) s
    = Postgres.Returned (Some hit) ->
    (List.NoDup (Query.path hit)
     /\ hd_error (Query.path hit) = Some from_function
     /\ List.last (Query.path hit) EmptyString = to_function
     /\ Z.of_nat (length (Query.path hit)) = Query.depth hit + 1
     /\ 0 <= Query.depth hit <= Z.max 0 max_depth
     /\ -2147483648 <= max_depth <= 2147483647)
    /\ (forall larger,
          max_depth <= larger -> larger <= 2147483647 ->
          exists hit',
            Query.handleFindCallChain database_name from_function to_function
              (Some larger) s = Postgres.Returned (Some hit')
            /\ Query.depth hit' = Query.depth hit)
    /\ (forall larger,
          2147483647 < larger ->
          Query.handleFindCallChain database_name from_function to_function
            (Some larger) s
          = Postgres.Thrown (Postgres.StoreError Store.bad_integer_parameter))
    /\ (from_function = to_function ->
        Query.path hit = [from_function] /\ Query.depth hit = 0).
Proof.
  intros db from to md s hit H.
  unfold Query.handleFindCallChain in H.
  destruct (Store.in_int4 md) eqn:Hrange; [|discriminate]. injection H as H.
  apply andb_true_iff in Hrange. rewrite !Z.leb_le in Hrange.
  apply find_call_chain_least in H. destruct H as (row & t & E & ->). simpl.
  assert (Hrow : In row (List.filter (fun r => String.eqb (Query.cc_name r) to)
                           (Query.call_chain from db md s)))
    by (apply (order_by_In (fun a b => Query.cc_depth a <=? Query.cc_depth b));
        rewrite E; now left).
  pose proof Hrow as Hrow'.
  apply in_found in Hrow' as (p & g & Hp & -> & Hb & Hn).
  destruct (call_path_names _ _ _ _ _ Hp) as [Hnd Hhd]. simpl.
  split; [|split; [|split]].
  - repeat split; try assumption; try lia.
    + rewrite map_app. simpl. now rewrite last_last.
    + rewrite length_map, length_app. simpl. lia.
  - intros larger Hle Hmax.
    assert (Hrange' : Store.in_int4 larger = true)
      by (apply andb_true_iff; rewrite !Z.leb_le; lia).
    unfold Query.handleFindCallChain. rewrite Hrange'.
    assert (Hin : In (CallGraph.row_of_path p g)
                    (List.filter (fun r => String.eqb (Query.cc_name r) to)
                       (Query.call_chain from db larger s))).
    { apply in_found. exists p, g. repeat split; auto. lia. }
    destruct (Query.order_by (fun a b => Query.cc_depth a <=? Query.cc_depth b)
                (List.filter (fun r => String.eqb (Query.cc_name r) to)
                   (Query.call_chain from db larger s))) as [|row' t'] eqn:E'.
    { apply (order_by_In (fun a b => Query.cc_depth a <=? Query.cc_depth b)) in Hin.
      rewrite E' in Hin. destruct Hin. }
    exists {| Query.path := Query.cc_path row'; Query.depth := Query.cc_depth row';
              Query.file := Query.cc_file row' |}.
    split; [f_equal; apply find_call_chain_least; now exists row', t'|]. simpl.
    destruct (head_least _ _ _ _ _ _ _ _ E' Hin) as [Hin' Hle'].
    apply in_found in Hin' as (p' & g' & Hp' & -> & Hb' & Hn'). simpl in *.
    assert (Hsmall : In (CallGraph.row_of_path p' g')
                       (List.filter (fun r => String.eqb (Query.cc_name r) to)
                          (Query.call_chain from db md s))).
    { apply in_found. exists p', g'. repeat split; auto. lia. }
    destruct (head_least _ _ _ _ _ _ _ _ E Hsmall) as [_ Hge]. simpl in Hge. lia.
  - intros larger Hbig. unfold Query.handleFindCallChain.
    assert (Hout : Store.in_int4 larger = false)
      by (apply andb_false_iff; right; apply Z.leb_gt; lia).
    now rewrite Hout.
  - intros ->.
    destruct p as [|f0 p0].
    + simpl. now rewrite Hn.
    + exfalso.
      assert (Hf : exists f, CallGraph.call_path s db to [] f).
      { clear - Hp. remember (f0 :: p0) as q. clear Heqq.
        induction Hp as [f Hf Hn Hd | p f g Hp IH Hg Hd Hc Hnot]; [|exact IH].
        exists f. now constructor. }
      destruct Hf as (f & Hf).
      assert (Hn0 : Store.f_name f = to)
        by (inversion Hf as [? ? Hname ? | ? ? ? ? ? ? ? ? Habs]; [exact Hname | now destruct p]).
      assert (Hzero : In (CallGraph.row_of_path [] f)
                        (List.filter (fun r => String.eqb (Query.cc_name r) to)
                           (Query.call_chain to db md s))).
      { apply in_found. exists [], f. repeat split; auto. simpl. lia. }
      destruct (head_least _ _ _ _ _ _ _ _ E Hzero) as [_ Hge]. simpl in Hge. lia.
Qed.

Lemma X9_witness :
  exists hit',
    Query.handleFindCallChain "sample" "A" "C" (Some 7) Samples.abc_store
    = Postgres.Returned (Some hit')
    /\ Query.depth hit' = 2.
Proof.
  refine (proj1 (proj2 (X9_call_chain_answer_shape_and_monotonicity "sample" "A" "C" 5
                          Samples.abc_store
                          {| Query.path := ["A"; "B"; "C"]; Query.depth := 2;
                             Query.file := "a.js" |} _)) 7 _ _).
  - vm_compute. reflexivity.
  - lia.
  - lia.
Defined.

(** ** The caller lookup *)

Section CallerLookup.
Import Store Postgres Query.

Variable text_leb : string -> string -> bool.
Hypothesis text_leb_total : forall a b, text_leb a b = true \/ text_leb b a = true.
Hypothesis text_leb_trans :
  forall a b c, text_leb a b = true -> text_leb b c = true -> text_leb a c = true.
Hypothesis text_leb_antisym :
  forall a b, text_leb a b = true -> text_leb b a = true -> a = b.

Local Abbreviation sorts := (by_file_then_line text_leb).

Lemma sorts_total a b : sorts a b = true \/ sorts b a = true.
Proof using text_leb_total.
  destruct a as [[fca ca] ?], b as [[fcb cb] ?]. simpl.
  rewrite (String.eqb_sym (f_file cb)).
  destruct (String.eqb (f_file ca) (f_file cb)); [|apply text_leb_total].
  rewrite !Z.leb_le. lia.
Qed.

Lemma sorts_trans a b c : sorts a b = true -> sorts b c = true -> sorts a c = true.
Proof using text_leb_trans text_leb_antisym.
  destruct a as [[fca ca] ?], b as [[fcb cb] ?], c as [[fcc cc] ?]. simpl.
  destruct (String.eqb_spec (f_file ca) (f_file cb)) as [Eab|Nab];
    destruct (String.eqb_spec (f_file cb) (f_file cc)) as [Ebc|Nbc];
    destruct (String.eqb_spec (f_file ca) (f_file cc)) as [Eac|Nac];
    rewrite ?Z.leb_le; intros H1 H2.
  - lia.
  - congruence.
  - congruence.
  - now rewrite Eab.
  - congruence.
  - now rewrite <- Ebc.
  - rewrite <- Eac in H2. elim Nab. now apply text_leb_antisym.
  - eapply text_leb_trans; eauto.
Qed.

Lemma StronglySorted_map {A B} (f : A -> B) (R : B -> B -> Prop) l :
  StronglySorted (fun a b => R (f a) (f b)) l -> StronglySorted R (map f l).
Proof.
  induction 1 as [|x l Hs IH Hx]; simpl; constructor; [exact IH|].
  rewrite List.Forall_forall in *. intros y Hy.
  apply in_map_iff in Hy. destruct Hy as (z & <- & Hz). now apply Hx.
Qed.

Lemma in_callers_join s fc caller callee :
  In (fc, caller, callee) (callers_join s) ->
  In fc (function_calls s) /\ In caller (functions s)
  /\ fc_caller_id fc = Some (f_id caller)
  /\ (forall c, callee = Some c -> In c (functions s) /\ fc_callee_id fc = Some (f_id c)).
Proof.
  unfold callers_join. rewrite in_flat_map. intros (fc0 & Hfc & H).
  apply in_flat_map in H. destruct H as (caller0 & Hc & H).
  apply in_map_iff in H. destruct H as (callee0 & [= -> -> ->] & Hj).
  apply filter_In in Hc. destruct Hc as [Hc Hid]. apply eq_id_true in Hid.
  repeat split; auto; subst callee.
  - apply (in_left_join s) in Hj. tauto.
  - apply (in_left_join s) in Hj. destruct Hj as [_ Hj]. now apply eq_id_true in Hj.
Qed.

Lemma callers_join_complete s fc caller :
  In fc (function_calls s) -> In caller (functions s) ->
  fc_caller_id fc = Some (f_id caller) ->
  (forall callee, In callee (functions s) -> fc_callee_id fc = Some (f_id callee) ->
                  In (fc, caller, Some callee) (callers_join s))
  /\ exists callee, In (fc, caller, callee) (callers_join s).
Proof.
  intros Hfc Hc Hid.
  assert (K : forall callee,
             In callee (left_join_functions (fun f => eq_id (fc_callee_id fc) (f_id f)) s) ->
             In (fc, caller, callee) (callers_join s)).
  { intros callee Hj. unfold callers_join. apply in_flat_map. exists fc.
    split; [exact Hfc|]. apply in_flat_map. exists caller. split.
    - apply filter_In. split; [exact Hc|]. now apply eq_id_true.
    - apply in_map_iff. now exists callee. }
  split.
  - intros callee Hin Hcal. apply K. apply in_left_join. split; [exact Hin|].
    now apply eq_id_true.
  - unfold left_join_functions in K.
    destruct (List.filter _ (functions s)) as [|x l].
    + exists None. apply K. now left.
    + exists (Some x). apply K. now left.
Qed.

End CallerLookup.

(** X10. What [find_callers] returns, for a store whose text ordering is
    a total order.  At most 200 call sites, ordered by the caller's file
    and then by line.  Each is a stored call edge of the corpus whose
    caller id is resolved to a stored function, and which names the
    function asked for either in its callee name or through its resolved
    callee; it is marked unresolved exactly when its callee id is NULL.
    An edge whose caller is not resolved is never returned.  As long as
    no more than 200 rows are selected, every such edge is returned. *)
Theorem X10_find_callers_sound_capped_ordered_complete :
  forall (text_leb : string -> string -> bool)
         (database_name function_name : string) (s : Store.store),
    (forall a b, text_leb a b = true \/ text_leb b a = true) ->
    (forall a b c, text_leb a b = true -> text_leb b c = true -> text_leb a c = true) ->
    (forall a b, text_leb a b = true -> text_leb b a = true -> a = b) ->
    let hits := Query.handleFindCallers text_leb database_name function_name s in
    (length hits <= 200)%nat
    /\ StronglySorted
         (fun a b =>
            (if String.eqb (Query.caller_file a) (Query.caller_file b)
             then Query.call_line a <=? Query.call_line b
             else text_leb (Query.caller_file a) (Query.caller_file b)) = true)
         hits
    /\ (forall h, In h hits ->
          exists fc caller,
            In fc (Store.function_calls s) /\ In caller (Store.functions s)
            /\ Store.fc_database_name fc = database_name
            /\ Store.fc_caller_id fc = Some (Store.f_id caller)
            /\ (Store.fc_callee_name fc = Some function_name
                \/ exists callee,
                     In callee (Store.functions s)
                     /\ Store.fc_callee_id fc = Some (Store.f_id callee)
                     /\ Store.f_name callee = function_name)
            /\ h = {| Query.caller_name := Store.f_name caller;
                      Query.caller_file := Store.f_file caller;
                      Query.call_line := Store.fc_line fc;
                      Query.call_type := if Postgres.is_null (Store.fc_callee_id fc)
                                         then "unresolved" else "resolved" |})
    /\ ((length (Query.callers_selected function_name database_name s) <= 200)%nat ->
        forall fc caller,
          In fc (Store.function_calls s) -> In caller (Store.functions s) ->
          Store.fc_database_name fc = database_name ->
          Store.fc_caller_id fc = Some (Store.f_id caller) ->
          (Store.fc_callee_name fc = Some function_name
           \/ exists callee,
                In callee (Store.functions s)
                /\ Store.fc_callee_id fc = Some (Store.f_id callee)
                /\ Store.f_name callee = function_name) ->
          In {| Query.caller_name := Store.f_name caller;
                Query.caller_file := Store.f_file caller;
                Query.call_line := Store.fc_line fc;
                Query.call_type := if Postgres.is_null (Store.fc_callee_id fc)
                                   then "unresolved" else "resolved" |} hits).
Proof.
  intros text_leb db name s Htot Htr Hanti hits. unfold hits, Query.handleFindCallers.
  split; [|split; [|split]].
  - rewrite length_map. unfold Query.limit. rewrite length_firstn. lia.
  - apply StronglySorted_map. apply StronglySorted_firstn.
    pose proof (order_by_sorted (Query.by_file_then_line text_leb)
                  (sorts_total text_leb Htot) (sorts_trans text_leb Htr Hanti)
                  (Query.callers_selected name db s)) as S.
    eapply StronglySorted_ind with (P := fun l => StronglySorted _ l); [| |exact S].
    + constructor.
    + intros a l _ IH Ha. constructor; [exact IH|].
      rewrite List.Forall_forall in *. intros b Hb. specialize (Ha b Hb).
      destruct a as [[fca ca] ?], b as [[fcb cb] ?]. exact Ha.
  - intros h Hh. apply in_map_iff in Hh. destruct Hh as ([[fc caller] callee] & <- & Hj).
    apply in_firstn in Hj. apply order_by_In in Hj.
    apply filter_In in Hj. destruct Hj as [Hj Hw].
    apply in_callers_join in Hj. destruct Hj as (Hfc & Hc & Hid & Hcal).
    unfold Query.callers_where in Hw. apply andb_true_iff in Hw. destruct Hw as [Hn Ht].
    apply String.eqb_eq in Ht. apply orb_true_iff in Hn.
    exists fc, caller. repeat split; auto.
    destruct Hn as [Hn|Hn].
    + destruct callee as [c|]; [|discriminate]. apply String.eqb_eq in Hn.
      right. exists c. destruct (Hcal c eq_refl). auto.
    + left. now apply eq_text_true.
  - intros Hcap fc caller Hfc Hc Hdb Hid Hn.
    rewrite limit_all by (now rewrite order_by_length).
    destruct (callers_join_complete s fc caller Hfc Hc Hid) as [Hsome (callee0 & Hany)].
    assert (Ht : Postgres.tagged db (Store.fc_database_name fc) = true)
      by (now apply String.eqb_eq).
    destruct Hn as [Hn|(callee & Hin & Hcal & Hname)].
    + apply in_map_iff. exists (fc, caller, callee0). split; [reflexivity|].
      apply order_by_In. apply filter_In. split; [exact Hany|].
      unfold Query.callers_where. rewrite Ht, Hn. simpl. rewrite String.eqb_refl.
      now rewrite orb_true_r.
    + apply in_map_iff. exists (fc, caller, Some callee). split; [reflexivity|].
      apply order_by_In. apply filter_In. split; [now apply Hsome|].
      unfold Query.callers_where. rewrite Ht, Hname, String.eqb_refl. reflexivity.
Qed.

Lemma X10_witness :
  (length (Query.handleFindCallers String.leb "sample" "D" Samples.hot_store) <= 200)%nat.
Proof.
  refine (proj1 (X10_find_callers_sound_capped_ordered_complete String.leb
                   "sample" "D" Samples.hot_store
                   String.leb_total string_leb_trans String.leb_antisym)).
Defined.

(** ** The class hierarchy *)

Section ClassHierarchy.
Import Store Postgres Query Hierarchy.

Variable s : store.

Local Abbreviation step := (hierarchy_step s).

Lemma in_hierarchy_step r prev :
  In r (step prev) <->
  exists ch c,
    In ch prev /\ In c (classes s) /\ ch_parent_id ch = Some (c_id c)
    /\ ch_level ch < 10 /\ r = hierarchy_row_of c (ch_level ch + 1).
Proof.
  unfold hierarchy_step. rewrite in_flat_map. split.
  - intros (ch & Hch & H). apply in_flat_map in H. destruct H as (c & Hc & H).
    apply filter_In in Hc. destruct Hc as [Hc Hid]. apply eq_id_true in Hid.
    destruct (Z.ltb_spec (ch_level ch) 10) as [Hl|Hl]; [|destruct H].
    destruct H as [<-|[]]. exists ch, c. auto.
  - intros (ch & c & Hch & Hc & Hid & Hl & ->). exists ch. split; [exact Hch|].
    apply in_flat_map. exists c. split.
    + apply filter_In. split; [exact Hc|]. now apply eq_id_true.
    + destruct (Z.ltb_spec (ch_level ch) 10); [now left | lia].
Qed.

Lemma hierarchy_step_nil : step [] = [].
Proof. reflexivity. Qed.

Lemma hierarchy_level_nil k : hierarchy_level k s [] = [].
Proof. induction k; simpl; auto. Qed.

Lemma hierarchy_level_succ k round :
  hierarchy_level (S k) s round = step (hierarchy_level k s round).
Proof.
  revert round. induction k as [|k IH]; intros round; [reflexivity|].
  change (hierarchy_level (S (S k)) s round) with (hierarchy_level (S k) s (step round)).
  now rewrite IH.
Qed.

Lemma in_hierarchy_rounds r fuel :
  forall round,
    In r (hierarchy_rounds fuel s round) <->
    exists k, (k < fuel)%nat /\ In r (hierarchy_level k s round).
Proof.
  induction fuel as [|fuel IH]; intros round; simpl.
  - split; [intros [] | intros (k & Hk & _); lia].
  - destruct round as [|x round'] eqn:E.
    + split; [intros []|]. intros (k & _ & H). now rewrite hierarchy_level_nil in H.
    + rewrite <- E. rewrite in_app_iff, IH. split.
      * intros [H|(k & Hk & H)]; [exists 0%nat; split; [lia|exact H]|].
        exists (S k). split; [lia | exact H].
      * intros ([|k] & Hk & H); [now left|]. right. exists k. split; [lia | exact H].
Qed.

(** The rows of round [k] are at level [k]. *)
Lemma hierarchy_level_levels k round r :
  (forall x, In x round -> ch_level x = 0) ->
  In r (hierarchy_level k s round) -> ch_level r = Z.of_nat k.
Proof.
  intros H0. revert r. induction k as [|k IH]; intros r; [apply H0|].
  rewrite hierarchy_level_succ, in_hierarchy_step.
  intros (ch & c & Hch & _ & _ & _ & ->). simpl. rewrite (IH ch Hch). lia.
Qed.

(** A round that has a row follows rounds that all have one. *)
Lemma hierarchy_level_contiguous k j round :
  (j <= k)%nat -> hierarchy_level k s round <> [] -> hierarchy_level j s round <> [].
Proof.
  intros Hjk. induction Hjk as [|k Hjk IH]; [auto|].
  intros H. apply IH. intros E. apply H. now rewrite hierarchy_level_succ, E.
Qed.

(** Each round that has a row adds at least one to the count. *)
Lemma hierarchy_rounds_length fuel :
  forall round k,
    (k < fuel)%nat -> hierarchy_level k s round <> [] ->
    (k < length (hierarchy_rounds fuel s round))%nat.
Proof.
  induction fuel as [|fuel IH]; intros round k Hk Hne; [lia|]. cbn [hierarchy_rounds].
  destruct round as [|x round'].
  - now rewrite hierarchy_level_nil in Hne.
  - rewrite length_app. change (length (x :: round')) with (S (length round')).
    destruct k as [|k]; [lia|].
    assert (Hk' : (k < fuel)%nat) by lia.
    specialize (IH (step (x :: round')) k Hk' Hne). lia.
Qed.

(** No round past the eleventh has a row. *)
Lemma hierarchy_level_eleven round :
  (forall x, In x round -> ch_level x = 0) -> hierarchy_level 11 s round = [].
Proof.
  intros H0. destruct (hierarchy_level 11 s round) as [|r l] eqn:E; [reflexivity|].
  exfalso. assert (Hr : In r (hierarchy_level 11 s round)) by (rewrite E; now left).
  rewrite hierarchy_level_succ in Hr. apply in_hierarchy_step in Hr.
  destruct Hr as (ch & c & Hch & _ & _ & Hl & _).
  apply (hierarchy_level_levels _ _ _ H0) in Hch. lia.
Qed.

Lemma hierarchy_rounds_enough n m :
  forall round,
    hierarchy_level n s round = [] ->
    hierarchy_rounds (n + m) s round = hierarchy_rounds n s round.
Proof.
  induction n as [|n IH]; intros round H; simpl in *.
  - subst round. now destruct m.
  - destruct round; [reflexivity|]. f_equal. now apply IH.
Qed.

Lemma hierarchy_seed_level name db x :
  In x (hierarchy_seed name db s) -> ch_level x = 0.
Proof. unfold hierarchy_seed. rewrite in_map_iff. now intros (c & <- & _). Qed.

End ClassHierarchy.

(** X11. The ancestors [get_class_hierarchy] lists.  The rows are the
    classes of the corpus that bear the name, at level 0, and, level by
    level, the classes whose id is the parent id of a row one level
    below, up to level 10 and no further, so that the search ends even
    when parent links form a cycle: eleven rounds suffice, more change
    nothing.  The rows come ordered by level, highest first, there is no
    row exactly when the corpus has no class of that name, and the
    indentation count of a row, the number of rows less its level less
    one, is never negative. *)
Theorem X11_class_hierarchy_levels_and_indentation :
  forall (class_name database_name : string) (s : Store.store),
    let rows := Hierarchy.class_hierarchy class_name database_name s in
    (forall r, In r rows ->
       0 <= Hierarchy.ch_level r <= 10
       /\ 0 <= Hierarchy.indent_count rows r
       /\ exists c, In c (Store.classes s)
                    /\ r = Hierarchy.hierarchy_row_of c (Hierarchy.ch_level r)
                    /\ (Hierarchy.ch_level r = 0 ->
                        Store.c_name c = class_name
                        /\ Store.c_database_name c = database_name)
                    /\ (0 < Hierarchy.ch_level r ->
                        exists child,
                          In child rows
                          /\ Hierarchy.ch_level child = Hierarchy.ch_level r - 1
                          /\ Hierarchy.ch_parent_id child = Some (Store.c_id c)))
    /\ (forall c, In c (Store.classes s) -> Store.c_name c = class_name ->
                  Store.c_database_name c = database_name ->
                  In (Hierarchy.hierarchy_row_of c 0) rows)
    /\ (forall child c,
          In child rows -> Hierarchy.ch_level child < 10 ->
          In c (Store.classes s) -> Hierarchy.ch_parent_id child = Some (Store.c_id c) ->
          In (Hierarchy.hierarchy_row_of c (Hierarchy.ch_level child + 1)) rows)
    /\ StronglySorted (fun a b => Hierarchy.ch_level b <= Hierarchy.ch_level a) rows
    /\ (rows = [] <->
        forall c, In c (Store.classes s) -> Store.c_name c = class_name ->
                  Store.c_database_name c <> database_name)
    /\ (forall extra,
          Hierarchy.hierarchy_rounds (11 + extra) s
            (Hierarchy.hierarchy_seed class_name database_name s)
          = Hierarchy.hierarchy_rounds 11 s
              (Hierarchy.hierarchy_seed class_name database_name s)).
Proof.
  intros name db s rows.
  set (seed := Hierarchy.hierarchy_seed name db s).
  set (by_level := fun a b : Hierarchy.hierarchy_row =>
                     Hierarchy.ch_level b <=? Hierarchy.ch_level a).
  assert (H0 : forall x, In x seed -> Hierarchy.ch_level x = 0)
    by (intros x; apply hierarchy_seed_level).
  assert (Hrows : forall r, In r rows <->
                   exists k, (k < 11)%nat /\ In r (Hierarchy.hierarchy_level k s seed)).
  { intros r. unfold rows, Hierarchy.class_hierarchy. fold seed. fold by_level.
    rewrite (order_by_In by_level). apply in_hierarchy_rounds. }
  assert (Hlen : length rows = length (Hierarchy.hierarchy_rounds 11 s seed)).
  { unfold rows, Hierarchy.class_hierarchy. fold seed. fold by_level.
    apply order_by_length. }
  assert (Hseed : forall r, In r seed <->
                    exists c, In c (Store.classes s) /\ Store.c_name c = name
                              /\ Store.c_database_name c = db
                              /\ r = Hierarchy.hierarchy_row_of c 0).
  { intros r. unfold seed, Hierarchy.hierarchy_seed. rewrite in_map_iff. split.
    - intros (c & <- & Hc). apply filter_In in Hc. destruct Hc as [Hc Hw].
      apply andb_true_iff in Hw. destruct Hw as [Hn Ht].
      apply String.eqb_eq in Hn. apply String.eqb_eq in Ht. exists c. auto.
    - intros (c & Hc & Hn & Ht & ->). exists c. split; [reflexivity|].
      apply filter_In. split; [exact Hc|]. apply andb_true_iff.
      split; now apply String.eqb_eq. }
  split; [|split; [|split; [|split; [|split]]]].
  - intros r Hr. pose proof Hr as Hr'. apply Hrows in Hr' as (k & Hk & Hin).
    pose proof (hierarchy_level_levels s k seed r H0 Hin) as Hlev.
    split; [lia|]. split.
    + unfold Hierarchy.indent_count. rewrite Hlen.
      assert (Hne : Hierarchy.hierarchy_level k s seed <> [])
        by (intros E; now rewrite E in Hin).
      pose proof (hierarchy_rounds_length s 11 seed k Hk Hne). lia.
    + destruct k as [|k].
      * simpl in Hin. apply Hseed in Hin as (c & Hc & Hn & Ht & ->).
        exists c. simpl. split; [exact Hc|]. split; [reflexivity|].
        split; [auto | lia].
      * rewrite hierarchy_level_succ in Hin. apply in_hierarchy_step in Hin.
        destruct Hin as (ch & c & Hch & Hc & Hid & Hl & ->).
        pose proof (hierarchy_level_levels s k seed ch H0 Hch) as Hlev'.
        exists c. simpl. split; [exact Hc|]. split; [reflexivity|].
        split; [lia|].
        intros _. exists ch. split; [|split; [lia | exact Hid]].
        apply Hrows. exists k. split; [lia | exact Hch].
  - intros c Hc Hn Ht. apply Hrows. exists 0%nat. split; [lia|]. simpl.
    apply Hseed. exists c. auto.
  - intros child c Hchild Hl Hc Hid. apply Hrows in Hchild as (k & Hk & Hin).
    pose proof (hierarchy_level_levels s k seed child H0 Hin) as Hlev.
    apply Hrows. exists (S k). split; [lia|].
    rewrite hierarchy_level_succ. apply in_hierarchy_step. exists child, c. auto.
  - unfold rows, Hierarchy.class_hierarchy. fold seed. fold by_level.
    assert (Htot : forall a b, by_level a b = true \/ by_level b a = true)
      by (intros a b; unfold by_level; rewrite !Z.leb_le; lia).
    assert (Htr : forall a b c, by_level a b = true -> by_level b c = true ->
                                by_level a c = true)
      by (intros a b c; unfold by_level; rewrite !Z.leb_le; lia).
    pose proof (order_by_sorted by_level Htot Htr (Hierarchy.hierarchy_rounds 11 s seed)) as S.
    induction S as [|a l _ IH Ha]; constructor; [exact IH|].
    rewrite List.Forall_forall in *. intros b Hb. apply Z.leb_le. now apply Ha.
  - split.
    + intros E c Hc Hn Ht.
      assert (Hin : In (Hierarchy.hierarchy_row_of c 0) rows).
      { apply Hrows. exists 0%nat. split; [lia|]. simpl. apply Hseed. exists c. auto. }
      now rewrite E in Hin.
    + intros Hno. destruct rows as [|r l] eqn:E; [reflexivity|]. exfalso.
      assert (Hr : In r (r :: l)) by now left.
      apply Hrows in Hr as (k & Hk & Hin).
      assert (Hne : Hierarchy.hierarchy_level 0 s seed <> []).
      { apply (hierarchy_level_contiguous s k 0 seed); [lia|].
        intros E'. now rewrite E' in Hin. }
      simpl in Hne. destruct seed as [|x seed'] eqn:Es; [now elim Hne|].
      assert (Hx : In x (x :: seed')) by now left.
      apply Hseed in Hx as (c & Hc & Hn & Ht & _). exact (Hno c Hc Hn Ht).
  - intros extra. apply hierarchy_rounds_enough. now apply hierarchy_level_eleven.
Qed.

(** ** The hot spots *)

Section HotSpots.
Import Store Postgres Query.

Lemma in_distinct {A} (eqb : A -> A -> bool) l x : In x (distinct eqb l) -> In x l.
Proof.
  revert x. induction l as [|y l IH]; intros x; simpl; [auto|].
  intros [<-|H]; [now left|]. apply filter_In in H. right. now apply IH.
Qed.

Lemma filter_length_le {A} (p : A -> bool) l : (length (List.filter p l) <= length l)%nat.
Proof. induction l as [|x l IH]; simpl; [lia|]. destruct (p x); simpl; lia. Qed.

Lemma distinct_length {A} (eqb : A -> A -> bool) l : (length (distinct eqb l) <= length l)%nat.
Proof.
  induction l as [|x l IH]; simpl; [lia|].
  pose proof (filter_length_le (fun y => negb (eqb x y)) (distinct eqb l)). lia.
Qed.

Lemma count_distinct_callers_le l : (count_distinct_callers l <= length l)%nat.
Proof.
  unfold count_distinct_callers.
  etransitivity; [apply distinct_length|].
  induction l as [|fc l IH]; simpl; [lia|].
  rewrite length_app. destruct (fc_caller_id fc); simpl; lia.
Qed.

Lemma key_eqb_true a b : key_eqb a b = true <-> a = b.
Proof.
  destruct a as [[ia na] fa], b as [[ib nb] fb]. simpl.
  rewrite !andb_true_iff, Z.eqb_eq, !String.eqb_eq. split.
  - now intros [[-> ->] ->].
  - intros [= -> -> ->]. auto.
Qed.

Lemma NoDup_map_filter {A B} (g : A -> B) (p : A -> bool) l :
  List.NoDup (map g l) -> List.NoDup (map g (List.filter p l)).
Proof.
  induction l as [|x l IH]; simpl; [auto|]. intros H.
  apply List.NoDup_cons_iff in H. destruct H as [Hx Hl].
  destruct (p x); simpl; [|now apply IH]. constructor; [|now apply IH].
  intros Hin. apply Hx. apply in_map_iff in Hin. destruct Hin as (y & E & Hy).
  apply filter_In in Hy. apply in_map_iff. exists y. tauto.
Qed.

Variable s : store.

(** The edges joined to a function. *)
Local Abbreviation edges_to f :=
  (List.filter (fun fc => eq_id (fc_callee_id fc) (f_id f)) (function_calls s)).
Local Abbreviation joined_to l :=
  (flat_map (fun f => map (fun fc => (f, fc)) (edges_to f)) l).
Local Abbreviation of_group f :=
  (fun p : function_row * call_row => key_eqb (key_of f) (key_of (fst p))).

Lemma group_of_others f l :
  (forall f', In f' l -> f_id f' <> f_id f) ->
  List.filter (of_group f) (joined_to l) = [].
Proof.
  intros H. apply filter_all_false. intros [f' fc] Hin.
  apply in_flat_map in Hin. destruct Hin as (f0 & Hf0 & Hin).
  apply in_map_iff in Hin. destruct Hin as (fc0 & [= -> ->] & _).
  change (key_eqb (key_of f) (key_of f') = false).
  destruct (key_eqb (key_of f) (key_of f')) eqn:E; [|reflexivity].
  apply key_eqb_true in E. injection E as E _ _. elim (H f' Hf0). congruence.
Qed.

Lemma group_of_self f (l : list call_row) :
  map snd (List.filter (of_group f) (map (fun fc => (f, fc)) l)) = l.
Proof.
  induction l as [|fc l IH]; [reflexivity|]. cbn [map List.filter].
  change (key_eqb (key_of f) (key_of (fst (f, fc))))
    with (key_eqb (key_of f) (key_of f)).
  rewrite (proj2 (key_eqb_true (key_of f) (key_of f)) eq_refl).
  cbn [map snd]. now rewrite IH.
Qed.

(** With ids that identify the functions, a group holds the edges of one
    function. *)
Lemma group_members f l :
  List.NoDup (map f_id l) -> In f l ->
  map snd (List.filter (of_group f) (joined_to l)) = edges_to f.
Proof.
  induction l as [|a l IH]; [intros _ []|].
  intros H Hin. cbn [map] in H. apply List.NoDup_cons_iff in H. destruct H as [Ha Hl].
  cbn [flat_map]. rewrite List.filter_app, map_app.
  destruct Hin as [->|Hin].
  - rewrite group_of_self. rewrite group_of_others; [apply app_nil_r|].
    intros f' Hf' E. apply Ha. rewrite <- E. now apply in_map.
  - rewrite (IH Hl Hin).
    assert (Hne : f_id a <> f_id f).
    { intros E. apply Ha. rewrite E. now apply in_map. }
    pose proof (group_of_others f [a]) as G. cbn [flat_map] in G. rewrite app_nil_r in G.
    rewrite G; [reflexivity|]. intros f' [<-|[]]. exact Hne.
Qed.

End HotSpots.

(** X12. The hot spots of [get_graph_stats], in a store whose function
    ids are distinct (the primary key).  At most ten are listed, in
    descending order of their call count.  Each is a function of the
    corpus, listed with the number of stored edges whose resolved callee
    it is, which is at least 2; its number of distinct callers does not
    exceed that count. *)
Theorem X12_hot_spots_are_the_most_called_functions :
  forall (database_name : string) (s : Store.store),
    List.NoDup (map Store.f_id (Store.functions s)) ->
    let spots := Query.hot_spots database_name s in
    (length spots <= 10)%nat
    /\ StronglySorted (fun a b => (Query.call_count b <= Query.call_count a)%nat) spots
    /\ (forall h, In h spots ->
          (2 <= Query.call_count h)%nat
          /\ (Query.unique_callers h <= Query.call_count h)%nat
          /\ exists f,
               In f (Store.functions s)
               /\ Store.f_database_name f = database_name
               /\ Query.hs_name h = Store.f_name f
               /\ Query.hs_file h = Store.f_file f
               /\ Query.call_count h
                  = length (List.filter
                              (fun fc => Query.eq_id (Store.fc_callee_id fc) (Store.f_id f))
                              (Store.function_calls s))).
Proof.
  intros db s Hpk spots. unfold spots, Query.hot_spots. cbv zeta.
  set (joined := Query.hot_join db s).
  set (mk := fun k : Query.group_key =>
               {| Query.hs_name := snd (fst k); Query.hs_file := snd k;
                  Query.call_count :=
                    length (map snd (List.filter
                                       (fun p => Query.key_eqb k (Query.key_of (fst p)))
                                       joined));
                  Query.unique_callers :=
                    Query.count_distinct_callers
                      (map snd (List.filter
                                  (fun p => Query.key_eqb k (Query.key_of (fst p)))
                                  joined)) |}).
  set (by_count := fun a b : Query.hot_spot =>
                     (Query.call_count b <=? Query.call_count a)%nat).
  split; [|split].
  - unfold Query.limit. rewrite length_firstn. lia.
  - apply StronglySorted_firstn.
    assert (Htot : forall a b, by_count a b = true \/ by_count b a = true)
      by (intros a b; unfold by_count; rewrite !Nat.leb_le; lia).
    assert (Htr : forall a b c, by_count a b = true -> by_count b c = true ->
                                by_count a c = true)
      by (intros a b c; unfold by_count; rewrite !Nat.leb_le; lia).
    match goal with
    | |- StronglySorted _ (Query.order_by _ ?l) =>
        pose proof (order_by_sorted by_count Htot Htr l) as S;
        induction S as [|a l' _ IH Ha]; constructor; [exact IH|]
    end.
    rewrite List.Forall_forall in *. intros b Hb. apply Nat.leb_le. now apply Ha.
  - intros h Hh. apply in_firstn in Hh. apply (proj1 (order_by_In by_count _ _)) in Hh.
    apply filter_In in Hh. destruct Hh as [Hh Hcount]. apply Nat.ltb_lt in Hcount.
    apply in_map_iff in Hh. destruct Hh as (k & <- & Hk).
    apply in_distinct in Hk. apply in_map_iff in Hk. destruct Hk as ([f fc] & <- & Hp).
    simpl in *. split; [lia|]. split; [apply count_distinct_callers_le|].
    pose proof Hp as Hp'. unfold joined, Query.hot_join in Hp'.
    apply in_flat_map in Hp'. destruct Hp' as (f0 & Hf0 & Hin).
    apply in_map_iff in Hin. destruct Hin as (fc0 & [= -> ->] & _).
    apply filter_In in Hf0. destruct Hf0 as [Hf Ht]. apply String.eqb_eq in Ht.
    exists f. repeat split; auto.
    unfold joined, Query.hot_join.
    rewrite (group_members s f); [reflexivity| |].
    + now apply NoDup_map_filter.
    + apply filter_In. split; [exact Hf|]. now apply String.eqb_eq.
Qed.

Lemma X12_witness : (length (Query.hot_spots "sample" Samples.hot_store) <= 10)%nat.
Proof.
  refine (proj1 (X12_hot_spots_are_the_most_called_functions "sample" Samples.hot_store _)).
  vm_compute. repeat (constructor; [intros H; repeat (destruct H as [H|H]; [discriminate|]); exact H|]).
  constructor.
Defined.

(** ** Duplicate keys and the UNIQUE constraint *)

Section DedupProtects.
Import Store Postgres Ingest Indexer Rows Csv.

Lemma unique_keys_complete old new :
  List.NoDup new -> (forall k, In k new -> ~ In k old) -> unique_keys old new = true.
Proof.
  induction new as [|k ks IH]; simpl; [reflexivity|].
  intros H F. apply List.NoDup_cons_iff in H. destruct H as [Hk Hks].
  rewrite !andb_true_iff, !negb_true_iff, !mem_string_false.
  repeat split; auto.
Qed.

Lemma build_rows_keys {R} (mk : Z -> list field -> result R) (key : R -> string) :
  (forall id t r, mk id t = Ok r -> at_index t 1 = Some (key r)) ->
  forall tuples seq rows,
    build_rows mk seq tuples = Ok rows -> map key rows = pushed_keys tuples.
Proof.
  intros Hmk. induction tuples as [|t ts IH]; intros seq rows; simpl.
  - now intros [= <-].
  - destruct (mk seq t) as [r0|] eqn:E0; [|discriminate].
    destruct (build_rows mk (seq + 1) ts) as [rs|] eqn:E; [|discriminate].
    intros [= <-]. simpl. rewrite (Hmk _ _ _ E0). simpl. f_equal. eauto.
Qed.

Lemma mk_function_key id t r : mk_function id t = Ok r -> at_index t 1 = Some (f_codeql_id r).
Proof.
  unfold mk_function.
  destruct t as [|[db|] [|[cid|] [|[nm|] [|[file|] [|[line|] [|np [|sg [|]]]]]]]];
    try discriminate.
  destruct (integer_column line); [|discriminate].
  destruct (nullable_integer_column np); [|discriminate]. now intros [= <-].
Qed.

Lemma mk_class_key id t r : mk_class id t = Ok r -> at_index t 1 = Some (c_codeql_id r).
Proof.
  unfold mk_class.
  destruct t as [|[db|] [|[cid|] [|[nm|] [|[file|] [|[line|] [|parent [|]]]]]]];
    try discriminate.
  destruct (integer_column line); [|discriminate]. now intros [= <-].
Qed.

Lemma mk_function_not_unique id t : mk_function id t <> Rejected unique_violation.
Proof.
  unfold mk_function, integer_column, nullable_integer_column.
  destruct t as [|[db|] [|[cid|] [|[nm|] [|[file|] [|[line|] [|np [|sg [|]]]]]]]];
    try discriminate.
  destruct (parse_int4 line); [|discriminate].
  destruct np as [n|]; [|discriminate]. destruct (parse_int4 n); discriminate.
Qed.

Lemma mk_class_not_unique id t : mk_class id t <> Rejected unique_violation.
Proof.
  unfold mk_class, integer_column.
  destruct t as [|[db|] [|[cid|] [|[nm|] [|[file|] [|[line|] [|parent [|]]]]]]];
    try discriminate.
  destruct (parse_int4 line); discriminate.
Qed.

Variable name : string.

(** One INSERT of rows whose keys are new. *)
Lemma insert_statement_new_keys e batch s :
  In e extractions ->
  List.Forall (shaped name (length (actualColumns e))) batch ->
  List.NoDup (pushed_keys batch) ->
  (forall k, In k (pushed_keys batch) -> ~ In k (stored_keys (table e) s)) ->
  insert_statement (table e) (length (actualColumns e)) (length batch) (concat batch) s
  <> Rejected unique_violation
  /\ forall s1,
       insert_statement (table e) (length (actualColumns e)) (length batch) (concat batch) s
       = Ok s1 ->
       incl (stored_keys (table e) s1) (stored_keys (table e) s ++ pushed_keys batch).
Proof.
  intros He Hb Hnd Hnew. unfold insert_statement.
  assert (Hlen : List.Forall (fun row => length row = length (actualColumns e)) batch)
    by (eapply List.Forall_impl; [|exact Hb]; now intros ? []).
  rewrite (tuples_of_concat _ _ Hlen).
  destruct (negb _); [split; [discriminate | intros ?; discriminate]|].
  unfold stored_keys in *.
  destruct He as [<-|[<-|[<-|[<-|[]]]]]; simpl (String.eqb _ _) in *; cbv iota in *.
  - pose proof (build_rows_not_unique mk_function batch mk_function_not_unique
                  (functions_id_seq s)) as Hnu.
    destruct (build_rows mk_function _ batch) as [rows|err] eqn:E;
      [|split; [intros [= ->]; now apply Hnu | intros ?; discriminate]].
    rewrite (build_rows_keys _ _ mk_function_key _ _ _ E).
    rewrite (unique_keys_complete _ _ Hnd Hnew).
    split; [discriminate|]. intros s1 [= <-]. simpl. rewrite map_app.
    rewrite (build_rows_keys _ _ mk_function_key _ _ _ E). apply incl_refl.
  - pose proof (build_rows_not_unique mk_call batch mk_call_not_unique
                  (function_calls_id_seq s)) as Hnu.
    destruct (build_rows mk_call _ batch) as [rows|err] eqn:E;
      [|split; [intros [= ->]; now apply Hnu | intros ?; discriminate]].
    split; [discriminate|]. intros s1 _ k [].
  - pose proof (build_rows_not_unique mk_class batch mk_class_not_unique
                  (classes_id_seq s)) as Hnu.
    destruct (build_rows mk_class _ batch) as [rows|err] eqn:E;
      [|split; [intros [= ->]; now apply Hnu | intros ?; discriminate]].
    rewrite (build_rows_keys _ _ mk_class_key _ _ _ E).
    rewrite (unique_keys_complete _ _ Hnd Hnew).
    split; [discriminate|]. intros s1 [= <-]. simpl. rewrite map_app.
    rewrite (build_rows_keys _ _ mk_class_key _ _ _ E). apply incl_refl.
  - pose proof (build_rows_not_unique mk_method batch mk_method_not_unique
                  (class_methods_id_seq s)) as Hnu.
    destruct (build_rows mk_method _ batch) as [rows|err] eqn:E;
      [|split; [intros [= ->]; now apply Hnu | intros ?; discriminate]].
    split; [discriminate|]. intros s1 _ k [].
Qed.

Lemma NoDup_app_disjoint {A} (l1 l2 : list A) :
  List.NoDup (l1 ++ l2) -> forall a, In a l1 -> ~ In a l2.
Proof.
  induction l1 as [|x l1 IH]; simpl; [intros _ a []|].
  intros H a [<-|Ha] Hin; apply List.NoDup_cons_iff in H; destruct H as [Hx Hl].
  - apply Hx. apply in_or_app. now right.
  - exact (IH Hl a Ha Hin).
Qed.

Lemma skipn_slice {A} i n (l : list A) : skipn i l = Js.slice i n l ++ skipn (i + n) l.
Proof.
  unfold Js.slice. rewrite Nat.add_comm, <- skipn_skipn. symmetry. apply firstn_skipn.
Qed.

Lemma batch_loop_new_keys e values (He : In e extractions) :
  List.Forall (shaped name (length (actualColumns e))) values ->
  forall fuel i s r s',
    List.NoDup (pushed_keys (skipn i values)) ->
    (forall k, In k (pushed_keys (skipn i values)) -> ~ In k (stored_keys (table e) s)) ->
    batch_loop fuel (table e) (length (actualColumns e)) (batchSize e) values i s = (r, s') ->
    r <> Thrown (StoreError unique_violation).
Proof.
  intros Hv. induction fuel as [|fuel IH]; intros i s r s' Hnd Hnew H; cbn [batch_loop] in H.
  - inversion H. discriminate.
  - destruct (i <? length values)%nat; [|inversion H; discriminate].
    rewrite (skipn_slice i (batchSize e)), pushed_keys_app in Hnd, Hnew.
    set (batch := Js.slice i (batchSize e) values) in *.
    assert (Hnd1 : List.NoDup (pushed_keys batch)) by (eapply NoDup_app_remove_r; eauto).
    assert (Hnd2 : List.NoDup (pushed_keys (skipn (i + batchSize e) values)))
      by (eapply NoDup_app_remove_l; eauto).
    destruct (insert_statement_new_keys e batch s He
                (Forall_slice _ _ _ _ Hv) Hnd1
                (fun k Hk => Hnew k (in_or_app _ _ _ (or_introl Hk)))) as [Hnu Hkeys].
    unfold bind, executeQuery in H.
    destruct (insert_statement _ _ _ _ s) as [s1|err] eqn:E.
    + eapply IH; [exact Hnd2| |exact H].
      intros k Hk Hin. apply (Hkeys s1 eq_refl) in Hin. apply in_app_or in Hin.
      destruct Hin as [Hin|Hin].
      * apply (Hnew k); [apply in_or_app; now right | exact Hin].
      * exact (NoDup_app_disjoint _ _ Hnd k Hin Hk).
    + inversion H; subst. congruence.
Qed.

End DedupProtects.

(** X13. Dropping the repeated keys is what keeps a file from breaking
    the UNIQUE constraint on its own.  When every data line has as many
    fields as its fact type has columns, and no key of the rows to insert
    is the key of a row already stored, the batched INSERT of a fact type
    is never rejected for a duplicate key: a unique violation during a
    build can only come from a key that was stored before. *)
Theorem X13_a_file_alone_never_violates_the_unique_key :
  forall (database_name : string) (e : Ingest.extraction) (csvContent : string)
         (s s' : Store.store) (r : Postgres.outcome unit),
    In e Ingest.extractions ->
    Rows.well_formed e csvContent ->
    (forall k,
       In k (Csv.pushed_keys (Ingest.values (Ingest.ingest database_name e csvContent))) ->
       ~ In k (Rows.stored_keys (Ingest.table e) s)) ->
    Indexer.insert_batches e (Ingest.values (Ingest.ingest database_name e csvContent)) s
    = (r, s') ->
    r <> Postgres.Thrown (Postgres.StoreError Store.unique_violation).
Proof.
  intros name e csv s s' r He Hw Hnew H. unfold Indexer.insert_batches in H.
  eapply (batch_loop_new_keys name e _ He (ingest_values_shaped name e csv He Hw)
            _ 0%nat s r s'); [| |exact H]; simpl.
  - pose proof (loop_invariant_run name e (Ingest.dataLines_of csv) He _ _
                  loop_invariant_start) as (Hnd & _). exact Hnd.
  - exact Hnew.
Qed.

Lemma X13_witness :
  fst (Indexer.insert_batches Ingest.extract_functions
         (Ingest.values (Ingest.ingest "sample" Ingest.extract_functions
                           Samples.hot_functions_csv)) Store.empty)
  <> Postgres.Thrown (Postgres.StoreError Store.unique_violation).
Proof.
  refine (X13_a_file_alone_never_violates_the_unique_key "sample" Ingest.extract_functions
            Samples.hot_functions_csv Store.empty
            (snd (Indexer.insert_batches Ingest.extract_functions
                    (Ingest.values (Ingest.ingest "sample" Ingest.extract_functions
                                      Samples.hot_functions_csv)) Store.empty))
            _ _ _ _ _).
  - left. reflexivity.
  - intros line Hin _. vm_compute in Hin.
    repeat (destruct Hin as [<-|Hin]; [vm_compute; reflexivity|]). destruct Hin.
  - intros k _ [].
  - apply surjective_pairing.
Defined.

(** ** Clearing a corpus that has no rows *)

Section ClearNothing.
Import Store Postgres.

Lemma count_where_zero {A} (p : A -> bool) l :
  count_where p l = 0%nat -> forall x, In x l -> p x = false.
Proof.
  unfold count_where. intros H x Hx. destruct (p x) eqn:E; [|reflexivity].
  assert (Hin : In x (List.filter p l)) by (apply filter_In; now split).
  destruct (List.filter p l); [destruct Hin | discriminate].
Qed.

Lemma filter_all_true {A} (p : A -> bool) l :
  (forall x, In x l -> p x = true) -> List.filter p l = l.
Proof.
  induction l as [|x l IH]; simpl; [reflexivity|]. intros H.
  rewrite (H x) by now left. f_equal. apply IH. intros y Hy. apply H. now right.
Qed.

Lemma refers_to_nil x : refers_to x [] = false.
Proof. now destruct x. Qed.

Lemma cleared_nothing db s :
  (forall f, In f (functions s) -> tagged db (f_database_name f) = false) ->
  (forall c, In c (classes s) -> tagged db (c_database_name c) = false) ->
  (forall fc, In fc (function_calls s) -> tagged db (fc_database_name fc) = false) ->
  (forall m, In m (class_methods s) -> tagged db (cm_database_name m) = false) ->
  (forall v, In v (variables s) -> tagged db (v_database_name v) = false) ->
  cleared db s = s.
Proof.
  intros Hf Hc Hfc Hm Hv. unfold cleared.
  assert (E1 : delete_class_methods db s = s).
  { unfold delete_class_methods. rewrite filter_all_true; [now destruct s|].
    intros m Hin. now rewrite Hm. }
  rewrite E1.
  assert (E2 : delete_function_calls db s = s).
  { unfold delete_function_calls. rewrite filter_all_true; [now destruct s|].
    intros fc Hin. now rewrite Hfc. }
  rewrite E2.
  assert (E3 : delete_variables db s = s).
  { unfold delete_variables. rewrite filter_all_true; [now destruct s|].
    intros v Hin. now rewrite Hv. }
  rewrite E3.
  assert (E4 : delete_classes db s = s).
  { unfold delete_classes. cbv zeta.
    rewrite (filter_all_false _ _ Hc). simpl map at 1.
    rewrite (filter_all_true (fun c => negb (tagged db (c_database_name c))))
      by (intros c Hin; now rewrite Hc).
    rewrite (map_id_on _ (classes s)) by (intros c _; now rewrite refers_to_nil).
    simpl. rewrite filter_all_true by (intros m _; now rewrite refers_to_nil).
    now destruct s. }
  rewrite E4.
  unfold delete_functions. cbv zeta.
  rewrite (filter_all_false _ _ Hf). simpl map.
  rewrite (filter_all_true (fun f => negb (tagged db (f_database_name f))))
    by (intros f Hin; now rewrite Hf).
  simpl. rewrite !filter_all_true; [now destruct s | |].
  - intros m _. now rewrite refers_to_nil.
  - intros fc _. now rewrite !refers_to_nil.
Qed.

End ClearNothing.

(** X14. Clearing a corpus that has no row in any table leaves the whole
    store as it is, the rows of the other corpora and their resolved ids
    included; and clearing is idempotent: a second [clearDatabase] of the
    same corpus changes nothing. *)
Theorem X14_clearing_an_absent_corpus_changes_nothing :
  forall (database_name : string) (s : Store.store),
    (Postgres.getDatabaseStats database_name s
     = {| Postgres.stat_functions := 0; Postgres.stat_classes := 0;
          Postgres.stat_calls := 0; Postgres.stat_methods := 0;
          Postgres.stat_variables := 0 |} ->
     Postgres.clearDatabase database_name s = (Postgres.Returned tt, s))
    /\ Postgres.clearDatabase database_name (Postgres.cleared database_name s)
       = (Postgres.Returned tt, Postgres.cleared database_name s).
Proof.
  intros db s.
  assert (K : forall s0,
             (let st := Postgres.getDatabaseStats db s0 in
              Postgres.stat_functions st = 0%nat /\ Postgres.stat_classes st = 0%nat
              /\ Postgres.stat_calls st = 0%nat /\ Postgres.stat_methods st = 0%nat
              /\ Postgres.stat_variables st = 0%nat) ->
             Postgres.clearDatabase db s0 = (Postgres.Returned tt, s0)).
  { intros s0 (Hf & Hc & Hfc & Hm & Hv). rewrite clearDatabase_returns. f_equal.
    apply cleared_nothing; now apply count_where_zero. }
  split.
  - intros E. apply K. rewrite E. simpl. auto.
  - apply K. apply cleared_stats_zero.
Qed.

(** ** The functions of a built corpus *)

Section StoredFunctions.
Import Store Postgres Ingest Indexer Rows.

Variable name : string.

(** The tables an INSERT does not name keep their rows. *)
Lemma insert_statement_functions_kept table ncols nrows params s s' :
  String.eqb table "functions" = false ->
  insert_statement table ncols nrows params s = Ok s' -> functions s' = functions s.
Proof.
  intros Ht. unfold insert_statement. rewrite Ht.
  destruct (negb _); [discriminate|].
  destruct (String.eqb table "function_calls").
  { destruct (build_rows mk_call _ _); [|discriminate]. now intros [= <-]. }
  destruct (String.eqb table "classes").
  { destruct (build_rows mk_class _ _); [|discriminate].
    destruct (unique_keys _ _); [|discriminate]. now intros [= <-]. }
  destruct (build_rows mk_method _ _); [|discriminate]. now intros [= <-].
Qed.

Lemma batch_loop_functions_kept table ncols bs values :
  String.eqb table "functions" = false ->
  forall fuel i s r s',
    batch_loop fuel table ncols bs values i s = (r, s') -> functions s' = functions s.
Proof.
  intros Ht. induction fuel as [|fuel IH]; intros i s r s' H; cbn [batch_loop] in H.
  - now inversion H.
  - destruct (i <? length values)%nat; [|now inversion H].
    unfold bind, executeQuery in H.
    destruct (insert_statement _ _ _ _ s) as [s1|e] eqn:E; [|now inversion H].
    rewrite (IH _ _ _ _ H). eapply insert_statement_functions_kept; eauto.
Qed.

Lemma run_extraction_functions_kept env db ld stats e s r s' :
  String.eqb (table e) "functions" = false ->
  run_extraction env db name ld stats e s = (r, s') -> functions s' = functions s.
Proof.
  intros Ht. unfold run_extraction.
  destruct (negb (access env ld (query e))).
  { destruct (required e); intros H; now inversion H. }
  destruct (run_and_decode env db ld (query e)) as [csv|]; [|intros H; now inversion H].
  unfold bind.
  destruct (0 <? length (values (ingest name e csv)))%nat.
  - unfold insert_batches.
    destruct (batch_loop _ _ _ _ _ _ s) as [[[]|err] s1] eqn:E;
      intros H; inversion H; subst; eapply batch_loop_functions_kept; eauto.
  - intros H. now inversion H.
Qed.

(** The rows an INSERT into [functions] builds, tuple by tuple. *)
Lemma build_rows_functions tuples :
  forall seq rows,
    build_rows mk_function seq tuples = Ok rows ->
    Forall2 (fun t f => mk_function (f_id f) t = Ok f) tuples rows.
Proof.
  induction tuples as [|t ts IH]; intros seq rows; simpl.
  - intros [= <-]. constructor.
  - destruct (mk_function seq t) as [r0|] eqn:E0; [|discriminate].
    destruct (build_rows mk_function (seq + 1) ts) as [rs|] eqn:E; [|discriminate].
    intros [= <-]. constructor; [|eauto].
    assert (Hid : f_id r0 = seq).
    { unfold mk_function in E0.
      destruct t as [|[db|] [|[cid|] [|[nm|] [|[file|] [|[line|] [|np [|sg [|]]]]]]]];
        try discriminate.
      destruct (integer_column line); [|discriminate].
      destruct (nullable_integer_column np); [|discriminate]. now injection E0 as <-. }
    now rewrite Hid.
Qed.

Lemma batch_loop_functions ncols bs values (Hbs : (1 <= bs)%nat) :
  List.Forall (shaped name ncols) values ->
  forall fuel i s s',
    (length values <= i + fuel * bs)%nat ->
    batch_loop fuel "functions" ncols bs values i s = (Returned tt, s') ->
    exists rows,
      functions s' = functions s ++ rows
      /\ Forall2 (fun t f => mk_function (f_id f) t = Ok f) (skipn i values) rows.
Proof.
  intros Hv. induction fuel as [|fuel IH]; intros i s s' Hf H; cbn [batch_loop] in H.
  - inversion H; subst. exists []. rewrite app_nil_r, skipn_all2 by lia.
    split; [reflexivity | constructor].
  - destruct (Nat.ltb_spec i (length values)) as [Hi|Hi].
    2:{ inversion H; subst. exists []. rewrite app_nil_r, skipn_all2 by lia.
        split; [reflexivity | constructor]. }
    unfold bind, executeQuery in H.
    destruct (insert_statement "functions" ncols _ _ s) as [s1|err] eqn:E; [|discriminate].
    assert (Hf1 : (length values <= i + bs + fuel * bs)%nat) by lia.
    destruct (IH (i + bs)%nat s1 s' Hf1 H) as (rows2 & E2 & F2).
    unfold insert_statement in E.
    assert (Hlen : List.Forall (fun row => length row = ncols) (Js.slice i bs values)).
    { eapply List.Forall_impl; [|apply Forall_slice; exact Hv]. now intros ? []. }
    rewrite (tuples_of_concat _ _ Hlen) in E.
    destruct (negb _); [discriminate|]. simpl in E.
    destruct (build_rows mk_function _ _) as [rows1|] eqn:B; [|discriminate].
    destruct (unique_keys _ _); [|discriminate]. injection E as <-.
    exists (rows1 ++ rows2). split.
    + rewrite E2. simpl. now rewrite app_assoc.
    + rewrite (skipn_slice i bs). apply Forall2_app; [|exact F2].
      eapply build_rows_functions; eauto.
Qed.

End StoredFunctions.

(** X15. The functions of a corpus that was built are the rows of its
    functions file.  When every data line of that file has six fields and
    the build returns, the functions the store holds for the corpus are,
    in order, the rows that the INSERT builds from the lines kept by the
    ingestion, one function per kept line and nothing else: whatever the
    corpus held before is gone. *)
Theorem X15_stored_functions_are_the_kept_rows :
  forall (env : Indexer.environment) (database_name : string)
         (db : Indexer.CodeQLDatabase) (languageDir csvContent : string)
         (s s' : Store.store) (stats : gmap string nat),
    Indexer.databases env !! database_name = Some db ->
    Indexer.languageDir_of (Indexer.db_language db) = Some languageDir ->
    Indexer.run_and_decode env db languageDir (Ingest.query Ingest.extract_functions)
    = Some csvContent ->
    Rows.well_formed Ingest.extract_functions csvContent ->
    Indexer.handleBuildGraphIndex env database_name s = (Postgres.Returned stats, s') ->
    Forall2 (fun row f => Postgres.mk_function (Store.f_id f) row = Postgres.Ok f)
      (Ingest.values (Ingest.ingest database_name Ingest.extract_functions csvContent))
      (List.filter (fun f => Postgres.tagged database_name (Store.f_database_name f))
         (Store.functions s')).
Proof.
  intros env name db ld csv s s' stats Hdb Hld Hcsv Hw H.
  destruct (Indexer.testConnection env) eqn:Hconn.
  2:{ unfold Indexer.handleBuildGraphIndex in H. rewrite Hdb, Hconn in H. discriminate. }
  rewrite (handleBuildGraphIndex_cleared env name db ld s Hdb Hconn Hld) in H.
  unfold Postgres.try_rethrow in H.
  match type of H with
  | match ?m with _ => _ end = _ => destruct m as [[a|err] s2] eqn:E; [|discriminate]
  end.
  injection H as -> ->.
  unfold Postgres.bind in E.
  destruct (Indexer.for_each _ _ _ _) as [[st4|err] s4] eqn:E4; [|discriminate].
  destruct (Postgres.updateForeignKeys name s4) as [[[]|err] s5] eqn:E5; [|discriminate].
  injection E as -> ->.
  destruct (updateForeignKeys_settled name s4 s' E5) as (-> & _).
  unfold Ingest.extractions in E4. cbn [Indexer.for_each] in E4. unfold Postgres.bind in E4.
  destruct (Indexer.run_extraction env db name ld ∅ Ingest.extract_functions _)
    as [[st1|?] s1] eqn:R1; [|discriminate].
  destruct (Indexer.run_extraction env db name ld st1 Ingest.extract_calls s1)
    as [[st2|?] s2] eqn:R2; [|discriminate].
  destruct (Indexer.run_extraction env db name ld st2 Ingest.extract_classes s2)
    as [[st3|?] s3] eqn:R3; [|discriminate].
  destruct (Indexer.run_extraction env db name ld st3 Ingest.extract_methods s3)
    as [[st4'|?] s4'] eqn:R4; [|discriminate].
  injection E4 as -> ->.
  rewrite (run_extraction_functions_kept name env db ld st3 Ingest.extract_methods
             s3 _ _ eq_refl R4).
  rewrite (run_extraction_functions_kept name env db ld st2 Ingest.extract_classes
             s2 _ _ eq_refl R3).
  rewrite (run_extraction_functions_kept name env db ld st1 Ingest.extract_calls
             s1 _ _ eq_refl R2).
  assert (Hold : List.filter (fun f => Postgres.tagged name (Store.f_database_name f))
                   (Store.functions (Postgres.cleared name s)) = []).
  { apply filter_all_false. apply count_where_zero.
    apply (cleared_stats_zero name s). }
  pose proof (ingest_values_shaped name Ingest.extract_functions csv
                ltac:(simpl; tauto) Hw) as Hs.
  unfold Indexer.run_extraction in R1. rewrite Hcsv in R1.
  destruct (negb _); [discriminate|]. unfold Postgres.bind in R1.
  set (vals := Ingest.values (Ingest.ingest name Ingest.extract_functions csv)) in *.
  assert (Hrows : exists rows,
             Store.functions s1 = Store.functions (Postgres.cleared name s) ++ rows
             /\ Forall2 (fun t f => Postgres.mk_function (Store.f_id f) t = Postgres.Ok f)
                  vals rows).
  { destruct (0 <? length vals)%nat eqn:Hpos.
    - unfold Indexer.insert_batches in R1.
      destruct (Indexer.batch_loop _ _ _ _ _ _ _) as [[[]|err] s1'] eqn:B; [|discriminate].
      injection R1 as _ <-.
      assert (Hbs : (1 <= Ingest.batchSize Ingest.extract_functions)%nat)
        by (vm_compute; lia).
      assert (Hfuel : (length vals <= 0 + length vals
                                          * Ingest.batchSize Ingest.extract_functions)%nat)
        by nia.
      exact (batch_loop_functions name _ _ vals Hbs Hs _ _ _ _ Hfuel B).
    - injection R1 as _ <-. apply Nat.ltb_ge in Hpos.
      destruct vals; [|simpl in Hpos; lia]. exists []. rewrite app_nil_r.
      split; [reflexivity | constructor]. }
  destruct Hrows as (rows & -> & F).
  rewrite List.filter_app, Hold. simpl.
  rewrite filter_all_true; [exact F|].
  intros f Hf. apply String.eqb_eq.
  clear - F Hf Hs. induction F as [|t f0 ts fs Ht _ IH]; [destruct Hf|].
  pose proof (List.Forall_inv Hs) as [_ Hhd]. pose proof (List.Forall_inv_tail Hs) as Hs'.
  destruct Hf as [<-|Hf]; [|now apply IH].
  apply mk_function_tag in Ht. unfold Ingest.field in *. rewrite Ht in Hhd.
  now injection Hhd.
Qed.

Lemma X15_witness :
  Forall2 (fun row f => Postgres.mk_function (Store.f_id f) row = Postgres.Ok f)
    (Ingest.values (Ingest.ingest "sample" Ingest.extract_functions
                      Samples.hot_functions_csv))
    (List.filter (fun f => Postgres.tagged "sample" (Store.f_database_name f))
       (Store.functions Samples.hot_store)).
Proof.
  set (stats := match fst (Indexer.handleBuildGraphIndex Samples.hot_env "sample" Store.empty)
                with
                | Postgres.Returned st => st
                | Postgres.Thrown _ => ∅
                end).
  refine (X15_stored_functions_are_the_kept_rows Samples.hot_env "sample"
            (Samples.corpus "sample") "javascript" Samples.hot_functions_csv
            Store.empty Samples.hot_store stats _ _ _ _ _).
  - vm_compute. reflexivity.
  - vm_compute. reflexivity.
  - reflexivity.
  - intros line Hin _. vm_compute in Hin.
    repeat (destruct Hin as [<-|Hin]; [vm_compute; reflexivity|]). destruct Hin.
  - vm_compute. reflexivity.
Defined.

(** ** The links of a built corpus *)

Section LinksOfABuild.
Import Store Postgres Ingest Indexer Integrity.

Variable db : string.

Lemma cleared_unlinked s : unlinked db (cleared db s).
Proof.
  destruct (cleared_stats_zero db s) as (_ & Hc & Hfc & Hm & _).
  split; [|split].
  - intros fc Hin Ht. pose proof (count_where_zero _ _ Hfc fc Hin) as X. simpl in X.
    rewrite Ht, tagged_same in X. discriminate.
  - intros c Hin Ht. pose proof (count_where_zero _ _ Hc c Hin) as X. simpl in X.
    rewrite Ht, tagged_same in X. discriminate.
  - intros m Hin Ht. pose proof (count_where_zero _ _ Hm m Hin) as X. simpl in X.
    rewrite Ht, tagged_same in X. discriminate.
Qed.

Lemma insert_statement_unlinked table ncols nrows params s s' :
  insert_statement table ncols nrows params s = Ok s' -> unlinked db s -> unlinked db s'.
Proof.
  unfold insert_statement. intros H (H1 & H2 & H3).
  destruct (negb (length params =? nrows * ncols)%nat); [discriminate|].
  destruct (String.eqb table "functions").
  { destruct (build_rows mk_function _ _) as [rows|]; [|discriminate].
    destruct (unique_keys _ _); [|discriminate]. injection H as <-.
    split; [|split]; simpl; assumption. }
  destruct (String.eqb table "function_calls").
  { destruct (build_rows mk_call _ _) as [rows|] eqn:E; [|discriminate]. injection H as <-.
    split; [|split]; simpl; [|exact H2|exact H3].
    intros fc Hfc Ht. apply in_app_or in Hfc. destruct Hfc as [Hfc|Hfc]; [now apply H1|].
    exact (build_rows_all mk_call _ mk_call_unresolved _ _ _ E fc Hfc). }
  destruct (String.eqb table "classes").
  { destruct (build_rows mk_class _ _) as [rows|] eqn:E; [|discriminate].
    destruct (unique_keys _ _); [|discriminate]. injection H as <-.
    split; [|split]; simpl; [exact H1| |exact H3].
    intros c Hc Ht. apply in_app_or in Hc. destruct Hc as [Hc|Hc]; [now apply H2|].
    exact (build_rows_all mk_class _ mk_class_unresolved _ _ _ E c Hc). }
  destruct (build_rows mk_method _ _) as [rows|] eqn:E; [|discriminate]. injection H as <-.
  split; [|split]; simpl; [exact H1|exact H2|].
  intros m Hm Ht. apply in_app_or in Hm. destruct Hm as [Hm|Hm]; [now apply H3|].
  exact (build_rows_all mk_method _ mk_method_unresolved _ _ _ E m Hm).
Qed.

(** What each UPDATE leaves of a row it may write. *)
Lemma resolve_caller_row s fc :
  let fc' := resolve_caller db s fc in
  fc_database_name fc' = fc_database_name fc
  /\ fc_caller_codeql_id fc' = fc_caller_codeql_id fc
  /\ fc_callee_codeql_id fc' = fc_callee_codeql_id fc
  /\ fc_callee_id fc' = fc_callee_id fc
  /\ (fc_database_name fc = db -> fc_caller_id fc = None ->
      fc_caller_id fc' = function_id_of (fc_caller_codeql_id fc) s).
Proof.
  cbv zeta. rewrite resolve_caller_by_id.
  destruct (tagged db (fc_database_name fc) && is_null (fc_caller_id fc)) eqn:G.
  - destruct (function_id_of _ s) as [i|] eqn:L; simpl; repeat split; auto.
  - repeat split. intros Ht Hn. rewrite Ht, tagged_same, Hn in G. discriminate.
Qed.

Lemma resolve_callee_row s fc :
  let fc' := resolve_callee db s fc in
  fc_database_name fc' = fc_database_name fc
  /\ fc_caller_codeql_id fc' = fc_caller_codeql_id fc
  /\ fc_callee_codeql_id fc' = fc_callee_codeql_id fc
  /\ fc_caller_id fc' = fc_caller_id fc
  /\ (fc_database_name fc = db -> fc_callee_id fc = None ->
      fc_callee_id fc' = function_id_of (fc_callee_codeql_id fc) s).
Proof.
  cbv zeta. rewrite resolve_callee_by_id.
  destruct (tagged db (fc_database_name fc) && is_null (fc_callee_id fc)) eqn:G.
  - destruct (function_id_of _ s) as [i|] eqn:L; simpl; repeat split; auto.
  - repeat split. intros Ht Hn. rewrite Ht, tagged_same, Hn in G. discriminate.
Qed.

Lemma resolve_parent_row s c :
  let c' := resolve_parent db s c in
  c_database_name c' = c_database_name c
  /\ c_parent_codeql_id c' = c_parent_codeql_id c
  /\ (c_database_name c = db -> c_parent_id c = None ->
      c_parent_id c' = match c_parent_codeql_id c with
                       | Some key => class_id_of key s
                       | None => None
                       end).
Proof.
  cbv zeta. rewrite resolve_parent_by_id.
  destruct (tagged db (c_database_name c) && is_null (c_parent_id c)) eqn:G.
  - destruct (c_parent_codeql_id c) as [key|] eqn:K.
    + destruct (class_id_of key s) as [i|] eqn:L; simpl; rewrite ?K; repeat split; auto.
    + rewrite K. repeat split; auto.
  - repeat split. intros Ht Hn. rewrite Ht, tagged_same, Hn in G. discriminate.
Qed.

Lemma resolve_class_row s m :
  let m' := resolve_class db s m in
  cm_database_name m' = cm_database_name m
  /\ cm_class_codeql_id m' = cm_class_codeql_id m
  /\ cm_method_codeql_id m' = cm_method_codeql_id m
  /\ cm_method_id m' = cm_method_id m
  /\ (cm_database_name m = db -> cm_class_id m = None ->
      cm_class_id m' = class_id_of (cm_class_codeql_id m) s).
Proof.
  cbv zeta. rewrite resolve_class_by_id.
  destruct (tagged db (cm_database_name m) && is_null (cm_class_id m)) eqn:G.
  - destruct (class_id_of _ s) as [i|] eqn:L; simpl; repeat split; auto.
  - repeat split. intros Ht Hn. rewrite Ht, tagged_same, Hn in G. discriminate.
Qed.

Lemma resolve_method_row s m :
  let m' := resolve_method db s m in
  cm_database_name m' = cm_database_name m
  /\ cm_class_codeql_id m' = cm_class_codeql_id m
  /\ cm_method_codeql_id m' = cm_method_codeql_id m
  /\ cm_class_id m' = cm_class_id m
  /\ (cm_database_name m = db -> cm_method_id m = None ->
      cm_method_id m' = function_id_of (cm_method_codeql_id m) s).
Proof.
  cbv zeta. rewrite resolve_method_by_id.
  destruct (tagged db (cm_database_name m) && is_null (cm_method_id m)) eqn:G.
  - destruct (function_id_of _ s) as [i|] eqn:L; simpl; repeat split; auto.
  - repeat split. intros Ht Hn. rewrite Ht, tagged_same, Hn in G. discriminate.
Qed.

(** The pass on rows none of which is linked yet. *)
Lemma updateForeignKeys_links s s' :
  unlinked db s ->
  updateForeignKeys db s = (Returned tt, s') ->
  (forall fc, In fc (function_calls s') -> fc_database_name fc = db ->
     fc_caller_id fc = function_id_of (fc_caller_codeql_id fc) s'
     /\ fc_callee_id fc = function_id_of (fc_callee_codeql_id fc) s')
  /\ (forall c, In c (classes s') -> c_database_name c = db ->
        c_parent_id c = match c_parent_codeql_id c with
                        | Some key => class_id_of key s'
                        | None => None
                        end)
  /\ (forall m, In m (class_methods s') -> cm_database_name m = db ->
        cm_class_id m = class_id_of (cm_class_codeql_id m) s'
        /\ cm_method_id m = function_id_of (cm_method_codeql_id m) s').
Proof.
  intros (U1 & U2 & U3). rewrite updateForeignKeys_unfold. cbv zeta.
  set (s1 := set_caller_ids db s). set (s2 := set_callee_ids db s1).
  set (s3 := set_parent_ids db s2).
  destruct (update_class_methods (resolve_class db) s3) as [s4|e] eqn:E4; [|discriminate].
  destruct (update_class_methods (resolve_method db) s4) as [s5|e] eqn:E5; [|discriminate].
  intros [= <-].
  unfold update_class_methods in E4, E5.
  destruct (_ && _) in E4; [discriminate|]. injection E4 as <-.
  destruct (_ && _) in E5; [discriminate|]. injection E5 as <-.
  assert (Fid : forall key,
             function_id_of key
               (with_class_methods
                  (with_class_methods s3 (map (resolve_class db s3) (class_methods s3))
                     (class_methods_id_seq s3))
                  (map (resolve_method db
                          (with_class_methods s3
                             (map (resolve_class db s3) (class_methods s3))
                             (class_methods_id_seq s3)))
                     (class_methods
                        (with_class_methods s3
                           (map (resolve_class db s3) (class_methods s3))
                           (class_methods_id_seq s3))))
                  (class_methods_id_seq
                     (with_class_methods s3
                        (map (resolve_class db s3) (class_methods s3))
                        (class_methods_id_seq s3))))
             = function_id_of key s) by (intros key; now apply function_id_of_ext).
  assert (Cid : forall key s0,
             classes s0 = map (resolve_parent db s2) (classes s) ->
             class_id_of key s0 = class_id_of key s2).
  { intros key s0 E. apply class_id_of_map with (g := resolve_parent db s2);
      [apply resolve_parent_key | apply resolve_parent_id | exact E]. }
  split; [|split].
  - intros fc Hin Ht. rewrite !Fid. simpl in Hin.
    apply in_map_iff in Hin. destruct Hin as (fc1 & <- & Hin).
    apply in_map_iff in Hin. destruct Hin as (fc0 & <- & Hin).
    destruct (resolve_caller_row s fc0) as (A1 & A2 & A3 & A4 & A5).
    destruct (resolve_callee_row s1 (resolve_caller db s fc0)) as (B1 & B2 & B3 & B4 & B5).
    rewrite B1, A1 in Ht. destruct (U1 fc0 Hin Ht) as [N1 N2].
    rewrite B4, B2, A2, (A5 Ht N1). split; [reflexivity|].
    rewrite B5 by congruence. rewrite B3, A3. now apply function_id_of_ext.
  - intros c Hin Ht. simpl in Hin.
    apply in_map_iff in Hin. destruct Hin as (c0 & <- & Hin).
    destruct (resolve_parent_row s2 c0) as (A1 & A2 & A3).
    rewrite A1 in Ht. rewrite A2, (A3 Ht (U2 c0 Hin Ht)).
    destruct (c_parent_codeql_id c0) as [key|]; [|reflexivity].
    symmetry. now apply Cid.
  - intros m Hin Ht. rewrite Fid. simpl in Hin.
    apply in_map_iff in Hin. destruct Hin as (m1 & <- & Hin).
    apply in_map_iff in Hin. destruct Hin as (m0 & <- & Hin).
    destruct (resolve_class_row s3 m0) as (A1 & A2 & A3 & A4 & A5).
    match goal with
    | |- context [resolve_method db ?s4 (resolve_class db s3 m0)] =>
        destruct (resolve_method_row s4 (resolve_class db s3 m0))
          as (B1 & B2 & B3 & B4 & B5)
    end.
    rewrite B1, A1 in Ht. destruct (U3 m0 Hin Ht) as [N1 N2].
    rewrite B4, B2, A2, (A5 Ht N1). split.
    + rewrite (Cid _ s3) by reflexivity. symmetry. now apply Cid.
    + rewrite B5 by congruence. rewrite B3, A3. now apply function_id_of_ext.
Qed.

End LinksOfABuild.

(** X16. The links of a corpus that was built.  When the build returns,
    every call edge of the corpus has as its caller id the id of the
    first stored function whose key is the edge's caller key, of
    whichever corpus, and NULL when no stored function has that key;
    likewise its callee id, the parent id of every class of the corpus
    and the class id and method id of every method membership.  No link
    of an earlier build survives. *)
Theorem X16_links_of_a_built_corpus_are_the_key_lookups :
  forall (env : Indexer.environment) (database_name : string)
         (s s' : Store.store) (stats : gmap string nat),
    Indexer.handleBuildGraphIndex env database_name s = (Postgres.Returned stats, s') ->
    (forall fc, In fc (Store.function_calls s') ->
       Store.fc_database_name fc = database_name ->
       Store.fc_caller_id fc = Postgres.function_id_of (Store.fc_caller_codeql_id fc) s'
       /\ Store.fc_callee_id fc = Postgres.function_id_of (Store.fc_callee_codeql_id fc) s')
    /\ (forall c, In c (Store.classes s') -> Store.c_database_name c = database_name ->
          Store.c_parent_id c = match Store.c_parent_codeql_id c with
                                | Some key => Postgres.class_id_of key s'
                                | None => None
                                end)
    /\ (forall m, In m (Store.class_methods s') ->
          Store.cm_database_name m = database_name ->
          Store.cm_class_id m = Postgres.class_id_of (Store.cm_class_codeql_id m) s'
          /\ Store.cm_method_id m
             = Postgres.function_id_of (Store.cm_method_codeql_id m) s').
Proof.
  intros env name s s' stats H.
  destruct (Indexer.databases env !! name) as [db|] eqn:Hdb.
  2:{ unfold Indexer.handleBuildGraphIndex in H. rewrite Hdb in H. discriminate. }
  destruct (Indexer.testConnection env) eqn:Hconn.
  2:{ unfold Indexer.handleBuildGraphIndex in H. rewrite Hdb, Hconn in H. discriminate. }
  destruct (Indexer.languageDir_of (Indexer.db_language db)) as [ld|] eqn:Hld.
  2:{ unfold Indexer.handleBuildGraphIndex in H. rewrite Hdb, Hconn, Hld in H.
      discriminate. }
  rewrite (handleBuildGraphIndex_cleared env name db ld s Hdb Hconn Hld) in H.
  unfold Postgres.try_rethrow in H.
  match type of H with
  | match ?m with _ => _ end = _ => destruct m as [[a|err] s2] eqn:E; [|discriminate]
  end.
  injection H as -> ->.
  unfold Postgres.bind in E.
  destruct (Indexer.for_each _ _ _ _) as [[st4|err] s4] eqn:E4; [|discriminate].
  destruct (Postgres.updateForeignKeys name s4) as [[[]|err] s5] eqn:E5; [|discriminate].
  injection E as -> ->.
  apply (updateForeignKeys_links name s4 s'); [|exact E5].
  exact (for_each_keeps (Integrity.unlinked name) _ _
           (run_extraction_keeps (Integrity.unlinked name)
              (insert_statement_unlinked name) env db name ld)
           _ _ _ _ E4 (cleared_unlinked name s)).
Qed.

Lemma X16_witness :
  Some 1 = Postgres.function_id_of "A@a.js:1" Samples.hot_store
  /\ None = Postgres.function_id_of "unresolved:C@a.js:2" Samples.hot_store.
Proof.
  refine (proj1 (X16_links_of_a_built_corpus_are_the_key_lookups Samples.hot_env "sample"
                   Store.empty Samples.hot_store
                   (match fst (Indexer.handleBuildGraphIndex Samples.hot_env "sample"
                                 Store.empty) with
                    | Postgres.Returned st => st
                    | Postgres.Thrown _ => ∅
                    end) _)
            {| Store.fc_id := 1; Store.fc_database_name := "sample";
               Store.fc_caller_codeql_id := "A@a.js:1";
               Store.fc_callee_codeql_id := "unresolved:C@a.js:2";
               Store.fc_caller_id := Some 1; Store.fc_callee_id := None;
               Store.fc_callee_name := Some "C"; Store.fc_file := "a.js";
               Store.fc_line := 2 |} _ eq_refl).
  - vm_compute. reflexivity.
  - vm_compute. left. reflexivity.
Defined.

(** * Properties that rest on the invariants above *)

(** ** Fuzzy function search: the exact match *)

Section TrigramFacts.
Import Store Query.

Lemma distinct_NoDup {A} (eqb : A -> A -> bool) l :
  (forall x y, eqb x y = true <-> x = y) -> List.NoDup (distinct eqb l).
Proof.
  intros Heq. induction l as [|x l IH]; simpl; constructor.
  - rewrite filter_In. intros [_ H]. apply negb_true_iff in H.
    rewrite (proj2 (Heq x x) eq_refl) in H. discriminate.
  - now apply List.NoDup_filter.
Qed.

Lemma trigrams_NoDup s : List.NoDup (Trgm.trigrams s).
Proof. apply distinct_NoDup. intros x y. apply String.eqb_eq. Qed.

(** The trigrams two texts share are no more than those of either. *)
Lemma shared_trigrams_le (ta tb : list string) :
  List.NoDup ta ->
  (length (List.filter (fun t => mem_string t tb) ta) <= length ta)%nat
  /\ (length (List.filter (fun t => mem_string t tb) ta) <= length tb)%nat.
Proof.
  intros Hnd. split; [apply filter_length_le|].
  apply NoDup_incl_length; [now apply List.NoDup_filter|].
  intros t Ht. apply filter_In in Ht. now apply mem_string_In.
Qed.

Lemma Zpos_of_nat d : d <> 0%nat -> Z.pos (Pos.of_nat d) = Z.of_nat d.
Proof. intros H. rewrite <- positive_nat_Z. now rewrite Nat2Pos.id. Qed.

Lemma similarity_le_1 a b : (Trgm.similarity a b <= 1)%Q.
Proof.
  unfold Trgm.similarity. cbv zeta.
  pose proof (shared_trigrams_le (Trgm.trigrams a) (Trgm.trigrams b) (trigrams_NoDup a))
    as [Ha Hb].
  destruct (Trgm.trigrams a) as [|x ta] eqn:Ea; [discriminate|].
  destruct (Trgm.trigrams b) as [|y tb] eqn:Eb; [discriminate|].
  set (shared := length (List.filter (fun t => mem_string t (y :: tb)) (x :: ta))) in *.
  unfold Qle. simpl Qnum. simpl Qden.
  rewrite Zpos_of_nat by (simpl in *; lia). simpl in *. lia.
Qed.

Lemma similarity_refl p : Trgm.trigrams p <> [] -> (Trgm.similarity p p == 1)%Q.
Proof.
  intros Hne. unfold Trgm.similarity. cbv zeta.
  rewrite (filter_all_true (fun t => mem_string t (Trgm.trigrams p)))
    by (intros t Ht; now apply mem_string_In).
  destruct (Trgm.trigrams p) as [|x tp] eqn:E; [congruence|].
  unfold Qeq. simpl Qnum. simpl Qden.
  rewrite Zpos_of_nat by (simpl; lia). simpl length. lia.
Qed.

Lemma similar_refl p : Trgm.trigrams p <> [] -> Trgm.similar p p = true.
Proof.
  intros Hne. unfold Trgm.similar. apply Qle_bool_iff.
  rewrite (similarity_refl p Hne). unfold Trgm.similarity_threshold, Qle. simpl. lia.
Qed.

Lemma similar_without_trigram a p : Trgm.trigrams p = [] -> Trgm.similar a p = false.
Proof.
  intros E. unfold Trgm.similar, Trgm.similarity. cbv zeta. rewrite E.
  now destruct (Trgm.trigrams a).
Qed.

End TrigramFacts.

Section ExactMatch.
Import Store Postgres Query.

Variable text_leb : string -> string -> bool.
Variable similarity : string -> string -> Q.
Variable similar : string -> string -> bool.
Variable pattern : string.

Hypothesis text_leb_total : forall a b, text_leb a b = true \/ text_leb b a = true.
Hypothesis text_leb_trans :
  forall a b c, text_leb a b = true -> text_leb b c = true -> text_leb a c = true.
Hypothesis similarity_max : forall a, (similarity a pattern <= 1)%Q.
Hypothesis similarity_exact : (similarity pattern pattern == 1)%Q.
Hypothesis similar_exact : similar pattern pattern = true.

(** With a stored exact match, the first row is as similar as a text can
    be and its name sorts no later than the pattern. *)
Lemma find_function_rows_first db n s f :
  In f (functions s) -> f_database_name f = db -> f_name f = pattern -> (1 <= n)%nat ->
  exists h rest,
    find_function_rows text_leb similarity similar db pattern n s = h :: rest
    /\ (similarity (f_name h) pattern == 1)%Q
    /\ text_leb (f_name h) pattern = true.
Proof using text_leb_total text_leb_trans similarity_max similarity_exact similar_exact.
  intros Hf Hdb Hname Hn.
  assert (Hm : In f (matching_functions similar db pattern s))
    by (apply (proj2 (in_matching_functions similarity similar pattern db s f));
        rewrite Hname; auto).
  unfold find_function_rows, limit.
  set (ranks := by_similarity_then_name text_leb similarity pattern).
  destruct (order_by ranks (matching_functions similar db pattern s)) as [|h t] eqn:E.
  { apply (order_by_In ranks) in Hm. rewrite E in Hm. contradiction. }
  destruct n as [|n]; [lia|]. simpl. exists h, (firstn n t). split; [reflexivity|].
  pose proof (order_by_head ranks (ranks_total text_leb similarity pattern text_leb_total)
                (ranks_trans text_leb similarity pattern text_leb_trans) _ _ _ _ E Hm)
    as Hle.
  unfold ranks, by_similarity_then_name in Hle. rewrite Hname in Hle.
  pose proof (similarity_max (f_name h)) as Hmax.
  destruct (Qcompare_spec (similarity (f_name h) pattern) (similarity pattern pattern))
    as [He|Hl|Hg]; [|discriminate|].
  - split; [now rewrite He | exact Hle].
  - exfalso. rewrite similarity_exact in Hg. lra.
Qed.

End ExactMatch.

(** C10 (as stated) fails in two ways.  A name without letters or digits
    has no trigram, its similarity to itself is 0, and the filter
    [name % pattern] of the query rejects it: the function [_] is stored
    for the corpus, and the search for [_] returns nothing.  And a name
    with the same trigrams as the pattern is as similar to it as the
    pattern itself, so that the name alone decides: [init] and [init_]
    are stored, and the search for [init_] lists [init] first. *)
Lemma C10_counterexample :
  (map (fun f => (Store.f_database_name f, Store.f_name f))
     (Store.functions Samples.underscore_store)
   = [("sample", "_"); ("sample", "translate")]
   /\ Trgm.trigrams "_" = []
   /\ Trgm.similar "_" "_" = false
   /\ Query.handleFindFunctionFast String.leb Trgm.similarity Trgm.similar
        "sample" "_" (Some 50) Samples.underscore_store
      = Postgres.Returned [])
  /\ (map (fun f => (Store.f_database_name f, Store.f_name f))
        (Store.functions Samples.init_store)
      = [("sample", "init_"); ("sample", "init")]
      /\ Trgm.trigrams "init_" = Trgm.trigrams "init"
      /\ String.leb "init" "init_" = true
      /\ exists hits,
           Query.handleFindFunctionFast String.leb Trgm.similarity Trgm.similar
             "sample" "init_" (Some 50) Samples.init_store
           = Postgres.Returned hits
           /\ map Query.hit_name hits = ["init"; "init_"]).
Proof.
  split.
  - vm_compute. repeat split.
  - split; [vm_compute; reflexivity|]. split; [vm_compute; reflexivity|].
    split; [vm_compute; reflexivity|].
    eexists. split; vm_compute; reflexivity.
Qed.

(** C10, amended. For every corpus, pattern and limit that is a 64-bit
    integer and not negative, and whatever the store's similarity
    function, similarity filter and text ordering, the fuzzy function
    search returns at most [limit] functions of the corpus, all of which
    pass the similarity filter, ordered by similarity to the pattern
    descending and then by name ascending; a limit that is negative or
    not a 64-bit integer is rejected by the store.  A stored function
    whose name equals the pattern is given no precedence of its own.
    When no text is more similar to the pattern than the pattern itself
    and the pattern passes the filter, as is the case with the trigram
    extension for a pattern that has a trigram, then with a limit of at
    least 1 the first result is as similar to the pattern as the pattern
    itself and its name sorts no later than the pattern; it bears the
    pattern as its name whenever the other stored names of that
    similarity sort strictly after the pattern.  With the trigram
    extension a pattern without letters or digits matches nothing.  The
    limit is 50 when the caller gives none. *)
Theorem C10_fuzzy_search_capped_and_ordered :
  forall (text_leb : string -> string -> bool)
         (similarity : string -> string -> Q) (similar : string -> string -> bool),
    (forall a b, text_leb a b = true \/ text_leb b a = true) ->
    (forall a b c, text_leb a b = true -> text_leb b c = true -> text_leb a c = true) ->
    forall (database_name pattern : string) (lim : Z) (s : Store.store),
      let rows := Query.find_function_rows text_leb similarity similar
                    database_name pattern (Z.to_nat lim) s in
      let answer := Query.handleFindFunctionFast text_leb similarity similar
                      database_name pattern (Some lim) s in
      (Store.in_int8 lim = false ->
       answer = Postgres.Thrown (Postgres.StoreError Store.bad_integer_parameter))
      /\ (Store.in_int8 lim = true -> lim < 0 ->
          answer = Postgres.Thrown (Postgres.StoreError Store.negative_limit))
      /\ (Store.in_int8 lim = true -> 0 <= lim ->
          answer = Postgres.Returned (map Query.hit_of rows)
          /\ Z.of_nat (length (map Query.hit_of rows)) <= lim)
      /\ StronglySorted
           (fun a b => Query.by_similarity_then_name text_leb similarity pattern a b = true)
           rows
      /\ (forall f, In f rows ->
            In f (Store.functions s) /\ Store.f_database_name f = database_name
            /\ similar (Store.f_name f) pattern = true)
      /\ ((forall a, (similarity a pattern <= 1)%Q) ->
          (similarity pattern pattern == 1)%Q ->
          similar pattern pattern = true ->
          forall f,
            In f (Store.functions s) -> Store.f_database_name f = database_name ->
            Store.f_name f = pattern -> 1 <= lim ->
            exists h rest,
              rows = h :: rest
              /\ (similarity (Store.f_name h) pattern == 1)%Q
              /\ text_leb (Store.f_name h) pattern = true
              /\ ((forall g, In g (Store.functions s) ->
                             Store.f_database_name g = database_name ->
                             (similarity (Store.f_name g) pattern == 1)%Q ->
                             Store.f_name g <> pattern ->
                             text_leb (Store.f_name g) pattern = false) ->
                  Store.f_name h = pattern))
      /\ (forall a b, (Trgm.similarity a b <= 1)%Q)
      /\ (forall p, Trgm.trigrams p <> [] ->
                    (Trgm.similarity p p == 1)%Q /\ Trgm.similar p p = true)
      /\ (Trgm.trigrams pattern = [] ->
          Query.find_function_rows text_leb Trgm.similarity Trgm.similar
            database_name pattern (Z.to_nat lim) s = [])
      /\ Query.handleFindFunctionFast text_leb similarity similar
           database_name pattern None s
         = Query.handleFindFunctionFast text_leb similarity similar
             database_name pattern (Some 50) s.
Proof.
  intros text_leb similarity similar Htot Htr db pattern lim s rows answer.
  split; [|split; [|split; [|split; [|split; [|split; [|split; [|split; [|split]]]]]]]];
    [| | | | | | | | |reflexivity].
  - intros Hout. unfold answer, Query.handleFindFunctionFast. now rewrite Hout.
  - intros Hin Hneg. unfold answer, Query.handleFindFunctionFast. rewrite Hin. simpl.
    apply Z.ltb_lt in Hneg. now rewrite Hneg.
  - intros Hin Hpos. split.
    + unfold answer, Query.handleFindFunctionFast. rewrite Hin. simpl.
      assert (E : (lim <? 0) = false) by (apply Z.ltb_ge; lia). now rewrite E.
    + rewrite length_map.
      pose proof (find_function_rows_length text_leb similarity similar pattern db
                    (Z.to_nat lim) s) as H.
      fold rows in H. lia.
  - apply find_function_rows_sorted; assumption.
  - intros f Hf. eapply find_function_rows_in; eauto.
  - intros Hmax Hexact Hsim f Hf Hdb Hname Hlim.
    destruct (find_function_rows_first text_leb similarity similar pattern Htot Htr
                Hmax Hexact Hsim db (Z.to_nat lim) s f Hf Hdb Hname ltac:(lia))
      as (h & rest & E & Hone & Hleb).
    exists h, rest. repeat split; try assumption.
    intros Hties.
    destruct (String.eqb_spec (Store.f_name h) pattern) as [Heq|Hne]; [exact Heq|].
    assert (Hh : In h rows) by (unfold rows; rewrite E; now left).
    apply (find_function_rows_in text_leb similarity similar pattern) in Hh
      as (Hh1 & Hh2 & _).
    rewrite (Hties h Hh1 Hh2 Hone Hne) in Hleb. discriminate.
  - apply similarity_le_1.
  - intros p Hp. split; [now apply similarity_refl | now apply similar_refl].
  - intros Hnone.
    destruct (Query.find_function_rows text_leb Trgm.similarity Trgm.similar db pattern
                (Z.to_nat lim) s) as [|f l] eqn:E; [reflexivity|].
    assert (Hf : In f (f :: l)) by now left. rewrite <- E in Hf.
    apply (find_function_rows_in text_leb Trgm.similarity Trgm.similar pattern) in Hf
      as (_ & _ & Hsim).
    rewrite (similar_without_trigram _ _ Hnone) in Hsim. discriminate.
Qed.

Lemma C10_witness :
  exists h rest,
    Query.find_function_rows String.leb Trgm.similarity Trgm.similar
      "sample" "init" (Z.to_nat 50) Samples.init_store = h :: rest
    /\ Store.f_name h = "init".
Proof.
  assert (Htri : Trgm.trigrams "init" <> []) by (vm_compute; discriminate).
  destruct (C10_fuzzy_search_capped_and_ordered String.leb Trgm.similarity Trgm.similar
              String.leb_total string_leb_trans "sample" "init" 50
              Samples.init_store) as (_ & _ & _ & _ & _ & H & _).
  destruct (H (fun a => similarity_le_1 a "init") (similarity_refl "init" Htri)
              (similar_refl "init" Htri)
              {| Store.f_id := 2; Store.f_codeql_id := "init@u.js:9";
                 Store.f_database_name := "sample"; Store.f_name := "init";
                 Store.f_file := "u.js"; Store.f_line := 9;
                 Store.f_num_params := Some 0;
                 Store.f_signature := Some "function init" |})
    as (h & rest & E & _ & _ & Hfirst).
  - vm_compute. right. left. reflexivity.
  - reflexivity.
  - reflexivity.
  - lia.
  - exists h, rest. split; [exact E|]. apply Hfirst.
    intros g Hg _ _ Hne. vm_compute in Hg.
    destruct Hg as [<-|[<-|[]]]; [vm_compute; reflexivity | now elim Hne].
Defined.

(** ** Duplicates within one ingestion run *)

Section SeenKeys.
Import Ingest.

Variable database_name : string.
Variable pr : option (list field -> list field).

(** A key is in [seenIds] only when the loop has read a non-blank line
    that bears it. *)
Lemma seenIds_origin lines :
  forall a u,
    u ∈ seenIds (ingest_from database_name pr a lines) ->
    u ∈ seenIds a
    \/ exists l, In l (Csv.non_blank lines) /\ uniqueId_of l = Some u.
Proof.
  induction lines as [|l ls IH]; intros a u Hin; [now left|].
  rewrite ingest_from_cons in Hin. apply IH in Hin.
  unfold Csv.non_blank in *. cbn [List.filter].
  destruct Hin as [Hin|(l' & Hl' & Hu)].
  2:{ right. exists l'. split; [|exact Hu].
      destruct (Js.truthy (Js.trim l)); [now right | exact Hl']. }
  destruct (Js.truthy (Js.trim l)) eqn:T.
  2:{ left. now rewrite (ingest_line_blank database_name pr a l T) in Hin. }
  destruct (uniqueId_of l) as [k|] eqn:K.
  - destruct (decide (k ∈ seenIds a)) as [Hk|Hk].
    + rewrite (ingest_line_seen database_name pr a l k T K Hk) in Hin. now left.
    + rewrite (ingest_line_fresh database_name pr a l k T K Hk) in Hin. simpl in Hin.
      apply elem_of_union in Hin as [Hin|Hin]; [|now left].
      apply elem_of_singleton in Hin as ->. right. exists l. split; [now left | exact K].
  - rewrite (ingest_line_null database_name pr a l T K) in Hin. now left.
Qed.

Lemma seenIds_spec lines u :
  u ∈ seenIds (ingest_from database_name pr acc0 lines)
  <-> exists l, In l (Csv.non_blank lines) /\ uniqueId_of l = Some u.
Proof.
  split.
  - intros Hin. apply seenIds_origin in Hin as [Hin|Hin]; [|exact Hin].
    now apply elem_of_empty in Hin.
  - intros (l & Hl & Hu). unfold Csv.non_blank in Hl. apply filter_In in Hl as [Hl T].
    apply in_split in Hl as (l1 & l2 & ->).
    now apply seenIds_of_earlier_line with (l := l).
Qed.

(** The rows pushed and the lines skipped add up to the non-blank lines. *)
Lemma ingest_from_accounts lines :
  forall a,
    (length (values (ingest_from database_name pr a lines))
     + skippedDuplicates (ingest_from database_name pr a lines)
     = length (values a) + skippedDuplicates a + length (Csv.non_blank lines))%nat.
Proof.
  induction lines as [|l ls IH]; intros a; [simpl; lia|].
  rewrite ingest_from_cons, IH. unfold Csv.non_blank. cbn [List.filter].
  unfold ingest_line. destruct (Js.truthy (Js.trim l)); [|lia]. cbv zeta.
  destruct (at_index (parse_parts l) 0) as [k|].
  - destruct (bool_decide _); simpl; rewrite ?length_app; simpl; lia.
  - simpl. rewrite length_app. simpl. lia.
Qed.

End SeenKeys.

(** C5. Within one ingestion run of one fact type, a row whose tracked
    natural key (its non-empty first column) has already been seen is
    dropped, counted and reported instead of being pushed for insertion,
    and a row whose key has not been seen is pushed and its key tracked.
    A key has been seen exactly when an earlier non-blank line of the run
    bears it.  In particular, a run that reads the same line twice pushes
    its row once, counts one skipped duplicate and reports it, where the
    run that reads it once reports none; reading a line a second time
    adds exactly one to the skipped-duplicate counter and nothing to the
    rows pushed, and so nothing to the rows the INSERT stores.  The rows
    pushed and the duplicates skipped add up to the non-blank lines. *)
Theorem C5_repeated_key_dropped_counted_reported :
  forall (database_name : string)
         (pr : option (list Ingest.field -> list Ingest.field))
         (pre mid : list string) (l u : string),
    Js.truthy (Js.trim l) = true ->
    Ingest.uniqueId_of l = Some u ->
    let run := Ingest.ingest_from database_name pr Ingest.acc0 in
    (forall a, u ∈ Ingest.seenIds a ->
       let a' := Ingest.ingest_line database_name pr a l in
       Ingest.values a' = Ingest.values a
       /\ Ingest.skippedDuplicates a' = S (Ingest.skippedDuplicates a)
       /\ Ingest.duplicates_reported a' = Some (S (Ingest.skippedDuplicates a)))
    /\ (Ingest.values (run (pre ++ l :: mid ++ [l])) = Ingest.values (run (pre ++ l :: mid))
        /\ length (Ingest.values (run (pre ++ l :: mid ++ [l])))
           = length (Ingest.values (run (pre ++ l :: mid)))
        /\ Ingest.skippedDuplicates (run (pre ++ l :: mid ++ [l]))
           = S (Ingest.skippedDuplicates (run (pre ++ l :: mid))))
    /\ (u ∈ Ingest.seenIds (run pre)
        <-> exists l', In l' (Csv.non_blank pre) /\ Ingest.uniqueId_of l' = Some u)
    /\ ((forall l', In l' (Csv.non_blank pre) -> Ingest.uniqueId_of l' <> Some u) ->
        Ingest.values (run (pre ++ [l]))
        = Ingest.values (run pre) ++ [Ingest.row_of database_name pr l]
        /\ Ingest.skippedDuplicates (run (pre ++ [l])) = Ingest.skippedDuplicates (run pre)
        /\ u ∈ Ingest.seenIds (run (pre ++ [l])))
    /\ ((exists l', In l' (Csv.non_blank pre) /\ Ingest.uniqueId_of l' = Some u) ->
        Ingest.values (run (pre ++ [l])) = Ingest.values (run pre)
        /\ Ingest.skippedDuplicates (run (pre ++ [l]))
           = S (Ingest.skippedDuplicates (run pre))
        /\ Ingest.duplicates_reported (run (pre ++ [l]))
           = Some (S (Ingest.skippedDuplicates (run pre))))
    /\ (Ingest.values (run [l]) = [Ingest.row_of database_name pr l]
        /\ Ingest.skippedDuplicates (run [l]) = 0%nat
        /\ Ingest.duplicates_reported (run [l]) = None
        /\ Ingest.values (run [l; l]) = [Ingest.row_of database_name pr l]
        /\ Ingest.skippedDuplicates (run [l; l]) = 1%nat
        /\ Ingest.duplicates_reported (run [l; l]) = Some 1%nat)
    /\ (forall lines,
          (length (Ingest.values (run lines)) + Ingest.skippedDuplicates (run lines)
           = length (Csv.non_blank lines))%nat)
    /\ (forall e s s',
          In e Ingest.extractions -> Ingest.processRow e = pr ->
          Indexer.insert_batches e (Ingest.values (run (pre ++ l :: mid ++ [l]))) s
          = (Postgres.Returned tt, s') ->
          Rows.rows_in (Ingest.table e) s'
          = (Rows.rows_in (Ingest.table e) s
             + length (Ingest.values (run (pre ++ l :: mid))))%nat).
Proof.
  intros db pr pre mid l u Hl Hu run.
  assert (Hseen : forall a, u ∈ Ingest.seenIds a ->
            Ingest.ingest_line db pr a l
            = {| Ingest.seenIds := Ingest.seenIds a;
                 Ingest.skippedDuplicates := S (Ingest.skippedDuplicates a);
                 Ingest.values := Ingest.values a |})
    by (intros a Hin; exact (ingest_line_seen db pr a l u Hl Hu Hin)).
  assert (Hfresh : forall a, u ∉ Ingest.seenIds a ->
            Ingest.ingest_line db pr a l
            = {| Ingest.seenIds := {[u]} ∪ Ingest.seenIds a;
                 Ingest.skippedDuplicates := Ingest.skippedDuplicates a;
                 Ingest.values := Ingest.values a ++ [Ingest.row_of db pr l] |})
    by (intros a Hin; exact (ingest_line_fresh db pr a l u Hl Hu Hin)).
  assert (Hlast : forall ls, run (ls ++ [l]) = Ingest.ingest_line db pr (run ls) l)
    by (intros ls; unfold run; now rewrite ingest_from_app).
  assert (Htwice : Ingest.values (run (pre ++ l :: mid ++ [l]))
                   = Ingest.values (run (pre ++ l :: mid))
                   /\ Ingest.skippedDuplicates (run (pre ++ l :: mid ++ [l]))
                      = S (Ingest.skippedDuplicates (run (pre ++ l :: mid)))).
  { replace (pre ++ l :: mid ++ [l]) with ((pre ++ l :: mid) ++ [l])
      by (rewrite <- app_assoc; reflexivity).
    rewrite Hlast, Hseen; [simpl; auto|].
    unfold run. now apply seenIds_of_earlier_line with (l := l). }
  assert (Hone : run [l] = {| Ingest.seenIds := {[u]} ∪ ∅;
                              Ingest.skippedDuplicates := 0;
                              Ingest.values := [Ingest.row_of db pr l] |}).
  { change (run [l]) with (Ingest.ingest_line db pr Ingest.acc0 l).
    rewrite Hfresh; [reflexivity|]. simpl. apply not_elem_of_empty. }
  unfold run in *. clear run.
  split; [|split; [|split; [|split; [|split; [|split; [|split]]]]]].
  - intros a Hin. simpl. rewrite (Hseen a Hin). simpl. auto.
  - destruct Htwice as [E1 E2]. rewrite E1, E2. auto.
  - apply seenIds_spec.
  - intros Hnew. rewrite Hlast, Hfresh.
    + simpl. repeat split; try reflexivity. apply elem_of_union_l. now apply elem_of_singleton.
    + intros Hin. apply (proj1 (seenIds_spec db pr pre u)) in Hin as (l' & Hl' & Hu').
      exact (Hnew l' Hl' Hu').
  - intros Hold. apply (proj2 (seenIds_spec db pr pre u)) in Hold.
    rewrite Hlast, (Hseen _ Hold). simpl. auto.
  - change (Ingest.ingest_from db pr Ingest.acc0 [l; l])
      with (Ingest.ingest_line db pr (Ingest.ingest_from db pr Ingest.acc0 [l]) l).
    rewrite Hseen; rewrite Hone; simpl.
    + repeat split.
    + apply elem_of_union_l. now apply elem_of_singleton.
  - intros lines. rewrite ingest_from_accounts. simpl. lia.
  - intros e s s' He _ H. destruct Htwice as [E1 _]. rewrite E1 in H.
    assert (Hbs : (1 <= Ingest.batchSize e)%nat)
      by (destruct He as [<-|[<-|[<-|[<-|[]]]]]; vm_compute; lia).
    set (values := Ingest.values (Ingest.ingest_from db pr Ingest.acc0 (pre ++ l :: mid))) in *.
    assert (Hfuel : (length values <= 0 + length values * Ingest.batchSize e)%nat) by nia.
    unfold Indexer.insert_batches in H.
    destruct (batch_loop_rows (Ingest.table e) (length (Ingest.actualColumns e))
                (Ingest.batchSize e) values Hbs (length values) 0%nat s _ s' Hfuel H)
      as [Hret _].
    rewrite (Hret eq_refl). lia.
Qed.

Lemma C5_witness :
  let run := Ingest.ingest_from "sample" (Some Ingest.processRow_calls) Ingest.acc0 in
  Ingest.values (run [Samples.sample_call_line])
  = [Ingest.row_of "sample" (Some Ingest.processRow_calls) Samples.sample_call_line]
  /\ Ingest.skippedDuplicates (run [Samples.sample_call_line]) = 0%nat
  /\ Ingest.duplicates_reported (run [Samples.sample_call_line]) = None
  /\ Ingest.values (run [Samples.sample_call_line; Samples.sample_call_line])
     = [Ingest.row_of "sample" (Some Ingest.processRow_calls) Samples.sample_call_line]
  /\ Ingest.skippedDuplicates (run [Samples.sample_call_line; Samples.sample_call_line])
     = 1%nat
  /\ Ingest.duplicates_reported (run [Samples.sample_call_line; Samples.sample_call_line])
     = Some 1%nat.
Proof.
  refine (proj1 (proj2 (proj2 (proj2 (proj2 (proj2
    (C5_repeated_key_dropped_counted_reported "sample" (Some Ingest.processRow_calls)
       [] [] Samples.sample_call_line "f@function f@a.js:1:1" _ _))))))).
  - vm_compute. reflexivity.
  - vm_compute. reflexivity.
Defined.

(** ** Natural keys across corpora *)

Section StoredKeys.
Import Store Postgres Ingest Indexer.

Lemma pushed_key_in (tuples : list (list field)) t k :
  In t tuples -> at_index t 1 = Some k -> In k (Csv.pushed_keys tuples).
Proof.
  intros Ht Hk. unfold Csv.pushed_keys. apply in_flat_map. exists t.
  split; [exact Ht|]. rewrite Hk. now left.
Qed.

Lemma pushed_key_of (tuples : list (list field)) k :
  In k (Csv.pushed_keys tuples) -> exists t, In t tuples /\ at_index t 1 = Some k.
Proof.
  unfold Csv.pushed_keys. intros H. apply in_flat_map in H as (t & Ht & Hk).
  exists t. split; [exact Ht|].
  destruct (at_index t 1) as [k'|]; [|contradiction]. destruct Hk as [->|[]]. reflexivity.
Qed.

(** The INSERT into [functions], in full. *)
Lemma insert_functions_iff ncols nrows params s s' :
  insert_statement "functions" ncols nrows params s = Ok s'
  <-> length params = (nrows * ncols)%nat
      /\ exists rows,
           build_rows mk_function (functions_id_seq s) (tuples_of ncols nrows params) = Ok rows
           /\ map f_codeql_id rows = Csv.pushed_keys (tuples_of ncols nrows params)
           /\ List.NoDup (map f_codeql_id rows)
           /\ (forall r r0, In r rows -> In r0 (functions s) ->
                 f_codeql_id r0 <> f_codeql_id r)
           /\ s' = with_functions s (functions s ++ rows)
                     (functions_id_seq s + Z.of_nat nrows).
Proof.
  unfold insert_statement. split.
  - destruct (Nat.eqb_spec (length params) (nrows * ncols)) as [Hlen|]; [|discriminate].
    simpl. destruct (build_rows mk_function _ _) as [rows|] eqn:E; [|discriminate].
    destruct (unique_keys _ _) eqn:U; [|discriminate]. intros [= <-].
    split; [exact Hlen|]. exists rows. apply unique_keys_spec in U as [Hnd Hnew].
    split; [reflexivity|].
    split; [exact (build_rows_keys mk_function f_codeql_id mk_function_key _ _ _ E)|].
    split; [exact Hnd|]. split; [|reflexivity].
    intros r r0 Hr Hr0 Heq. apply (Hnew (f_codeql_id r)); [now apply in_map|].
    rewrite <- Heq. now apply in_map.
  - intros (Hlen & rows & E & _ & Hnd & Hnew & ->).
    rewrite (proj2 (Nat.eqb_eq _ _) Hlen). simpl. rewrite E.
    rewrite unique_keys_complete; [reflexivity | exact Hnd|].
    intros k Hk Hold. apply in_map_iff in Hk as (r & <- & Hr).
    apply in_map_iff in Hold as (r0 & Heq & Hr0). exact (Hnew r r0 Hr Hr0 Heq).
Qed.

Lemma insert_classes_iff ncols nrows params s s' :
  insert_statement "classes" ncols nrows params s = Ok s'
  <-> length params = (nrows * ncols)%nat
      /\ exists rows,
           build_rows mk_class (classes_id_seq s) (tuples_of ncols nrows params) = Ok rows
           /\ map c_codeql_id rows = Csv.pushed_keys (tuples_of ncols nrows params)
           /\ List.NoDup (map c_codeql_id rows)
           /\ (forall r r0, In r rows -> In r0 (classes s) ->
                 c_codeql_id r0 <> c_codeql_id r)
           /\ s' = with_classes s (classes s ++ rows)
                     (classes_id_seq s + Z.of_nat nrows).
Proof.
  unfold insert_statement. split.
  - destruct (Nat.eqb_spec (length params) (nrows * ncols)) as [Hlen|]; [|discriminate].
    simpl. destruct (build_rows mk_class _ _) as [rows|] eqn:E; [|discriminate].
    destruct (unique_keys _ _) eqn:U; [|discriminate]. intros [= <-].
    split; [exact Hlen|]. exists rows. apply unique_keys_spec in U as [Hnd Hnew].
    split; [reflexivity|].
    split; [exact (build_rows_keys mk_class c_codeql_id mk_class_key _ _ _ E)|].
    split; [exact Hnd|]. split; [|reflexivity].
    intros r r0 Hr Hr0 Heq. apply (Hnew (c_codeql_id r)); [now apply in_map|].
    rewrite <- Heq. now apply in_map.
  - intros (Hlen & rows & E & _ & Hnd & Hnew & ->).
    rewrite (proj2 (Nat.eqb_eq _ _) Hlen). simpl. rewrite E.
    rewrite unique_keys_complete; [reflexivity | exact Hnd|].
    intros k Hk Hold. apply in_map_iff in Hk as (r & <- & Hr).
    apply in_map_iff in Hold as (r0 & Heq & Hr0). exact (Hnew r r0 Hr Hr0 Heq).
Qed.

(** A key that is stored, under whatever corpus tag, makes the INSERT fail. *)
Lemma insert_statement_stored_key table ncols nrows params s k :
  In k (Csv.pushed_keys (tuples_of ncols nrows params)) ->
  In k (Rows.stored_keys table s) ->
  exists e,
    insert_statement table ncols nrows params s = Rejected e
    /\ (length params = (nrows * ncols)%nat ->
        (String.eqb table "functions" = true ->
         exists rows, build_rows mk_function (functions_id_seq s)
                        (tuples_of ncols nrows params) = Ok rows) ->
        (String.eqb table "classes" = true ->
         exists rows, build_rows mk_class (classes_id_seq s)
                        (tuples_of ncols nrows params) = Ok rows) ->
        e = unique_violation).
Proof.
  intros Hk Hold. unfold Rows.stored_keys in Hold.
  destruct (String.eqb_spec table "functions") as [->|Hf].
  { unfold insert_statement.
    destruct (Nat.eqb_spec (length params) (nrows * ncols)) as [Hlen|Hlen]; simpl.
    2:{ eexists. split; [reflexivity|]. intros H. now elim Hlen. }
    destruct (build_rows mk_function _ _) as [rows|e] eqn:E.
    - destruct (unique_keys _ _) eqn:U; [|eexists; split; [reflexivity|auto]].
      apply unique_keys_spec in U as [_ Hnew]. exfalso. apply (Hnew k); [|exact Hold].
      now rewrite (build_rows_keys mk_function f_codeql_id mk_function_key _ _ _ E).
    - exists e. split; [reflexivity|]. intros _ H _. destruct (H eq_refl). discriminate. }
  destruct (String.eqb_spec table "classes") as [->|Hc]; [|contradiction].
  unfold insert_statement.
  destruct (Nat.eqb_spec (length params) (nrows * ncols)) as [Hlen|Hlen]; simpl.
  2:{ eexists. split; [reflexivity|]. intros H. now elim Hlen. }
  destruct (build_rows mk_class _ _) as [rows|e] eqn:E.
  - destruct (unique_keys _ _) eqn:U; [|eexists; split; [reflexivity|auto]].
    apply unique_keys_spec in U as [_ Hnew]. exfalso. apply (Hnew k); [|exact Hold].
    now rewrite (build_rows_keys mk_class c_codeql_id mk_class_key _ _ _ E).
  - exists e. split; [reflexivity|]. intros _ _ H. destruct (H eq_refl). discriminate.
Qed.

(** An INSERT takes no key away. *)
Lemma insert_statement_keys_kept table t ncols nrows params s s' :
  insert_statement table ncols nrows params s = Ok s' ->
  incl (Rows.stored_keys t s) (Rows.stored_keys t s').
Proof.
  unfold insert_statement, Rows.stored_keys.
  destruct (negb (length params =? nrows * ncols)%nat); [discriminate|].
  destruct (String.eqb table "functions").
  { destruct (build_rows mk_function _ _) as [rows|]; [|discriminate].
    destruct (unique_keys _ _); [|discriminate]. intros [= <-]. simpl.
    destruct (String.eqb t "functions"); [|apply incl_refl].
    rewrite map_app. apply incl_appl, incl_refl. }
  destruct (String.eqb table "function_calls").
  { destruct (build_rows mk_call _ _) as [rows|]; [|discriminate].
    intros [= <-]. apply incl_refl. }
  destruct (String.eqb table "classes").
  { destruct (build_rows mk_class _ _) as [rows|]; [|discriminate].
    destruct (unique_keys _ _); [|discriminate]. intros [= <-]. simpl.
    destruct (String.eqb t "functions"); [apply incl_refl|].
    destruct (String.eqb t "classes"); [|apply incl_refl].
    rewrite map_app. apply incl_appl, incl_refl. }
  destruct (build_rows mk_method _ _) as [rows|]; [|discriminate].
  intros [= <-]. apply incl_refl.
Qed.

(** The batches of a well-formed file: the one that brings a stored key
    is rejected, unless an earlier one was. *)
Lemma batch_loop_stored_key table ncols bs (values : list (list field)) k :
  (1 <= bs)%nat ->
  List.Forall (fun row => length row = ncols) values ->
  forall fuel i s,
    (length values <= i + fuel * bs)%nat ->
    In k (Csv.pushed_keys (skipn i values)) ->
    In k (Rows.stored_keys table s) ->
    exists e s', batch_loop fuel table ncols bs values i s = (Thrown (StoreError e), s').
Proof.
  intros Hbs Hv. induction fuel as [|fuel IH]; intros i s Hf Hk Hold.
  - rewrite skipn_all2 in Hk by lia. contradiction.
  - cbn [batch_loop]. destruct (Nat.ltb_spec i (length values)) as [Hi|Hi].
    2:{ rewrite skipn_all2 in Hk by lia. contradiction. }
    assert (Hlen : List.Forall (fun row => length row = ncols) (Js.slice i bs values))
      by now apply Forall_slice.
    unfold bind, executeQuery.
    destruct (insert_statement table ncols _ _ s) as [s1|e] eqn:E; [|eauto].
    rewrite (skipn_slice i bs) in Hk. rewrite pushed_keys_app in Hk.
    apply in_app_or in Hk as [Hk|Hk].
    + rewrite <- (tuples_of_concat _ _ Hlen) in Hk.
      destruct (insert_statement_stored_key _ _ _ _ _ _ Hk Hold) as (e & E' & _).
      rewrite E in E'. discriminate.
    + apply (IH (i + bs)%nat s1); [lia | exact Hk|].
      exact (insert_statement_keys_kept _ _ _ _ _ _ _ E _ Hold).
Qed.

Lemma run_extraction_stored_key env db name ld stats e csv line k s :
  In e extractions ->
  access env ld (query e) = true ->
  run_and_decode env db ld (query e) = Some csv ->
  Rows.well_formed e csv ->
  In line (dataLines_of csv) -> Js.truthy (Js.trim line) = true ->
  uniqueId_of line = Some k ->
  In k (Rows.stored_keys (table e) s) ->
  exists err s',
    run_extraction env db name ld stats e s = (Thrown (StoreError err), s').
Proof.
  intros He Ha Hcsv Hw Hline T Hu Hold. unfold run_extraction. rewrite Ha, Hcsv. simpl.
  pose proof (loop_invariant_run name e (dataLines_of csv) He acc0 []
                loop_invariant_start) as (_ & Hseen & _ & Hall).
  fold (ingest name e csv) in Hseen, Hall. simpl in Hall.
  assert (Hk : In k (Csv.pushed_keys (values (ingest name e csv)))).
  { apply Hseen. apply (Hall line); [|exact Hu].
    unfold Csv.non_blank. apply filter_In. now split. }
  assert (Hpos : (0 <? length (values (ingest name e csv)))%nat = true).
  { apply Nat.ltb_lt. destruct (values (ingest name e csv)); [contradiction | simpl; lia]. }
  unfold bind. rewrite Hpos. unfold insert_batches.
  assert (Hbs : (1 <= batchSize e)%nat)
    by (destruct He as [<-|[<-|[<-|[<-|[]]]]]; vm_compute; lia).
  assert (Hshape : List.Forall (fun row => length row = length (actualColumns e))
                     (values (ingest name e csv))).
  { eapply List.Forall_impl; [|exact (ingest_values_shaped name e csv He Hw)]. now intros ? []. }
  destruct (batch_loop_stored_key (table e) (length (actualColumns e)) (batchSize e)
              (values (ingest name e csv)) k Hbs Hshape
              (length (values (ingest name e csv))) 0%nat s ltac:(nia) Hk Hold)
    as (err & s' & E).
  rewrite E. eauto.
Qed.

Lemma run_extraction_keys_kept t env db name ld stats e s r s' :
  run_extraction env db name ld stats e s = (r, s') ->
  incl (Rows.stored_keys t s) (Rows.stored_keys t s').
Proof.
  intros H.
  apply (run_extraction_keeps (fun x => incl (Rows.stored_keys t s) (Rows.stored_keys t x)))
    with (1 := fun table ncols nrows params s0 s1 E H0 =>
                 incl_tran H0 (insert_statement_keys_kept table t ncols nrows params s0 s1 E))
    in H; [exact H | apply incl_refl].
Qed.

(** The loop over the fact types throws when one of them does. *)
Lemma for_each_throws env db name ld t k :
  forall l1 e l2,
    (forall stats s, In k (Rows.stored_keys t s) ->
       exists err s', run_extraction env db name ld stats e s = (Thrown err, s')) ->
    forall stats s,
      In k (Rows.stored_keys t s) ->
      exists err s',
        for_each (run_extraction env db name ld) stats (l1 ++ e :: l2) s = (Thrown err, s').
Proof.
  induction l1 as [|x l1 IH]; intros e l2 He stats s Hk; simpl.
  - destruct (He stats s Hk) as (err & s' & E). unfold bind. rewrite E. eauto.
  - unfold bind. destruct (run_extraction env db name ld stats x s) as [[stats'|err] s1] eqn:E.
    + apply IH; [exact He|].
      exact (run_extraction_keys_kept t _ _ _ _ _ _ _ _ _ E _ Hk).
    + eauto.
Qed.

Lemma cleared_keeps_function_key name s f0 :
  In f0 (functions s) -> f_database_name f0 <> name ->
  In (f_codeql_id f0) (Rows.stored_keys "functions" (cleared name s)).
Proof.
  intros Hin Htag. unfold Rows.stored_keys. simpl. apply in_map.
  now apply (proj1 (cleared_unreferencing_kept name s)).
Qed.

Lemma cleared_keeps_class_key name s c0 :
  In c0 (classes s) -> c_database_name c0 <> name ->
  In (c_codeql_id c0) (Rows.stored_keys "classes" (cleared name s)).
Proof.
  intros Hin Htag. unfold Rows.stored_keys. simpl.
  unfold cleared, delete_functions, delete_classes. simpl.
  apply in_map_iff.
  set (g := fun c : class_row => if refers_to (c_parent_id c) _ then set_parent_id c None else c).
  exists (g c0). split.
  - unfold g. now destruct (refers_to _ _).
  - apply in_map. apply filter_In. split; [exact Hin|]. now rewrite tagged_false.
Qed.

(** A build whose functions or classes file brings a key that another
    corpus has stored throws. *)
Lemma build_rejected_on_stored_key env name db ld e csv line k s :
  In e extractions ->
  databases env !! name = Some db -> testConnection env = true ->
  languageDir_of (db_language db) = Some ld ->
  access env ld (query e) = true ->
  run_and_decode env db ld (query e) = Some csv ->
  Rows.well_formed e csv ->
  In line (dataLines_of csv) -> Js.truthy (Js.trim line) = true ->
  uniqueId_of line = Some k ->
  In k (Rows.stored_keys (table e) (cleared name s)) ->
  exists err s', handleBuildGraphIndex env name s = (Thrown (BuildFailed err), s').
Proof.
  intros He Hdb Hconn Hld Ha Hcsv Hw Hline T Hu Hold.
  rewrite (handleBuildGraphIndex_cleared env name db ld s Hdb Hconn Hld).
  apply in_split in He as (l1 & l2 & Hsplit).
  assert (He : In e extractions) by (rewrite Hsplit; apply in_elt).
  destruct (for_each_throws env db name ld (table e) k l1 e l2) with (stats := (∅ : gmap string nat))
    (s := cleared name s) as (err & s' & E); [|exact Hold|].
  - intros stats s0 Hk.
    destruct (run_extraction_stored_key env db name ld stats e csv line k s0
                He Ha Hcsv Hw Hline T Hu Hk) as (pe & s1 & E). eauto.
  - rewrite <- Hsplit in E. exists err, s'.
    apply try_rethrow_thrown. now apply bind_thrown.
Qed.

End StoredKeys.
(** C1 (as stated) fails: [codeql_id] is declared UNIQUE on the whole
    [functions] table.  Two corpora analysed from the same sources yield
    the same key; the first is built, the build of the second is rejected
    by the store and leaves it without any function row. *)
Lemma C1_counterexample :
  let '(ra, sa) := Indexer.handleBuildGraphIndex Samples.twin_env "a" Store.empty in
  let '(rb, sb) := Indexer.handleBuildGraphIndex Samples.twin_env "b" sa in
  (exists stats, ra = Postgres.Returned stats)
  /\ map Store.f_database_name (Store.functions sa) = ["a"]
  /\ rb = Postgres.Thrown (Postgres.BuildFailed (Postgres.StoreError Store.unique_violation))
  /\ map Store.f_database_name (Store.functions sb) = ["a"].
Proof. vm_compute. repeat split. eexists. reflexivity. Qed.

(** C1, amended. The natural key ([codeql_id]) of a function and of a
    class is unique across the whole store, whatever the corpus tags.
    An INSERT into [functions] or [classes] succeeds exactly when its
    parameters fill its rows, the rows can be built, their keys (the
    second value of each tuple) are pairwise distinct and none of them is
    the key of a stored row of any corpus; it then appends those rows.
    An INSERT that brings the key of a stored row is rejected, with a
    uniqueness violation when its rows could be built.  So the build of a
    corpus whose functions file, or classes file, is well formed and
    bears the key of a row that another corpus has stored throws, and
    leaves the row of the other corpus in place.  The natural keys of
    call edges and method memberships carry no uniqueness constraint: an
    INSERT into those tables stores whatever rows can be built. *)
Theorem C1_natural_keys_unique_across_the_store :
  forall (s : Store.store),
    (forall ncols nrows params s',
       Postgres.insert_statement "functions" ncols nrows params s = Postgres.Ok s'
       <-> length params = (nrows * ncols)%nat
           /\ exists rows,
                Postgres.build_rows Postgres.mk_function (Store.functions_id_seq s)
                  (Postgres.tuples_of ncols nrows params) = Postgres.Ok rows
                /\ map Store.f_codeql_id rows
                   = Csv.pushed_keys (Postgres.tuples_of ncols nrows params)
                /\ List.NoDup (map Store.f_codeql_id rows)
                /\ (forall r r0, In r rows -> In r0 (Store.functions s) ->
                      Store.f_codeql_id r0 <> Store.f_codeql_id r)
                /\ s' = Store.with_functions s (Store.functions s ++ rows)
                          (Store.functions_id_seq s + Z.of_nat nrows))
    /\ (forall ncols nrows params t f0,
          In t (Postgres.tuples_of ncols nrows params) ->
          Ingest.at_index t 1 = Some (Store.f_codeql_id f0) ->
          In f0 (Store.functions s) ->
          exists e,
            Postgres.insert_statement "functions" ncols nrows params s = Postgres.Rejected e
            /\ (length params = (nrows * ncols)%nat ->
                (exists rows,
                   Postgres.build_rows Postgres.mk_function (Store.functions_id_seq s)
                     (Postgres.tuples_of ncols nrows params) = Postgres.Ok rows) ->
                e = Store.unique_violation))
    /\ (forall ncols nrows params s',
          Postgres.insert_statement "classes" ncols nrows params s = Postgres.Ok s'
          <-> length params = (nrows * ncols)%nat
              /\ exists rows,
                   Postgres.build_rows Postgres.mk_class (Store.classes_id_seq s)
                     (Postgres.tuples_of ncols nrows params) = Postgres.Ok rows
                   /\ map Store.c_codeql_id rows
                      = Csv.pushed_keys (Postgres.tuples_of ncols nrows params)
                   /\ List.NoDup (map Store.c_codeql_id rows)
                   /\ (forall r r0, In r rows -> In r0 (Store.classes s) ->
                         Store.c_codeql_id r0 <> Store.c_codeql_id r)
                   /\ s' = Store.with_classes s (Store.classes s ++ rows)
                             (Store.classes_id_seq s + Z.of_nat nrows))
    /\ (forall ncols nrows params t c0,
          In t (Postgres.tuples_of ncols nrows params) ->
          Ingest.at_index t 1 = Some (Store.c_codeql_id c0) ->
          In c0 (Store.classes s) ->
          exists e,
            Postgres.insert_statement "classes" ncols nrows params s = Postgres.Rejected e
            /\ (length params = (nrows * ncols)%nat ->
                (exists rows,
                   Postgres.build_rows Postgres.mk_class (Store.classes_id_seq s)
                     (Postgres.tuples_of ncols nrows params) = Postgres.Ok rows) ->
                e = Store.unique_violation))
    /\ (forall ncols nrows params,
          Postgres.insert_statement "function_calls" ncols nrows params s
          <> Postgres.Rejected Store.unique_violation
          /\ Postgres.insert_statement "class_methods" ncols nrows params s
             <> Postgres.Rejected Store.unique_violation
          /\ (length params = (nrows * ncols)%nat ->
              forall rows,
                Postgres.build_rows Postgres.mk_call (Store.function_calls_id_seq s)
                  (Postgres.tuples_of ncols nrows params) = Postgres.Ok rows ->
                Postgres.insert_statement "function_calls" ncols nrows params s
                = Postgres.Ok (Store.with_function_calls s (Store.function_calls s ++ rows)
                                 (Store.function_calls_id_seq s + Z.of_nat nrows)))
          /\ (length params = (nrows * ncols)%nat ->
              forall rows,
                Postgres.build_rows Postgres.mk_method (Store.class_methods_id_seq s)
                  (Postgres.tuples_of ncols nrows params) = Postgres.Ok rows ->
                Postgres.insert_statement "class_methods" ncols nrows params s
                = Postgres.Ok (Store.with_class_methods s (Store.class_methods s ++ rows)
                                 (Store.class_methods_id_seq s + Z.of_nat nrows))))
    /\ (forall env name db ld csv line f0,
          Indexer.databases env !! name = Some db ->
          Indexer.testConnection env = true ->
          Indexer.languageDir_of (Indexer.db_language db) = Some ld ->
          Indexer.access env ld "extract-functions.ql" = true ->
          Indexer.run_and_decode env db ld "extract-functions.ql" = Some csv ->
          Rows.well_formed Ingest.extract_functions csv ->
          In line (Ingest.dataLines_of csv) -> Js.truthy (Js.trim line) = true ->
          Ingest.uniqueId_of line = Some (Store.f_codeql_id f0) ->
          In f0 (Store.functions s) -> Store.f_database_name f0 <> name ->
          exists err s',
            Indexer.handleBuildGraphIndex env name s
            = (Postgres.Thrown (Postgres.BuildFailed err), s')
            /\ In f0 (Store.functions s'))
    /\ (forall env name db ld csv line c0,
          Indexer.databases env !! name = Some db ->
          Indexer.testConnection env = true ->
          Indexer.languageDir_of (Indexer.db_language db) = Some ld ->
          Indexer.access env ld "extract-classes.ql" = true ->
          Indexer.run_and_decode env db ld "extract-classes.ql" = Some csv ->
          Rows.well_formed Ingest.extract_classes csv ->
          In line (Ingest.dataLines_of csv) -> Js.truthy (Js.trim line) = true ->
          Ingest.uniqueId_of line = Some (Store.c_codeql_id c0) ->
          In c0 (Store.classes s) -> Store.c_database_name c0 <> name ->
          exists err s',
            Indexer.handleBuildGraphIndex env name s
            = (Postgres.Thrown (Postgres.BuildFailed err), s')).
Proof.
  intros s. split; [|split; [|split; [|split; [|split; [|split]]]]].
  - intros ncols nrows params s'. apply insert_functions_iff.
  - intros ncols nrows params t f0 Ht Hk Hf0.
    destruct (insert_statement_stored_key "functions" ncols nrows params s
                (Store.f_codeql_id f0) (pushed_key_in _ _ _ Ht Hk))
      as (e & E & He).
    + unfold Rows.stored_keys. simpl. now apply in_map.
    + exists e. split; [exact E|]. intros Hlen Hrows.
      apply He; [exact Hlen | intros _; exact Hrows | discriminate].
  - intros ncols nrows params s'. apply insert_classes_iff.
  - intros ncols nrows params t c0 Ht Hk Hc0.
    destruct (insert_statement_stored_key "classes" ncols nrows params s
                (Store.c_codeql_id c0) (pushed_key_in _ _ _ Ht Hk))
      as (e & E & He).
    + unfold Rows.stored_keys. simpl. now apply in_map.
    + exists e. split; [exact E|]. intros Hlen Hrows.
      apply He; [exact Hlen | discriminate | intros _; exact Hrows].
  - intros ncols nrows params. unfold Postgres.insert_statement.
    destruct (Nat.eqb_spec (length params) (nrows * ncols)) as [Hlen|Hlen]; simpl.
    2:{ repeat split; try discriminate; intros H; now elim Hlen. }
    pose proof (build_rows_not_unique Postgres.mk_call
                  (Postgres.tuples_of ncols nrows params) mk_call_not_unique
                  (Store.function_calls_id_seq s)) as Hc.
    pose proof (build_rows_not_unique Postgres.mk_method
                  (Postgres.tuples_of ncols nrows params) mk_method_not_unique
                  (Store.class_methods_id_seq s)) as Hm.
    split; [|split; [|split]].
    + destruct (Postgres.build_rows Postgres.mk_call _ _); [discriminate | congruence].
    + destruct (Postgres.build_rows Postgres.mk_method _ _); [discriminate | congruence].
    + intros _ rows E. now rewrite E.
    + intros _ rows E. now rewrite E.
  - intros env name db ld csv line f0 Hdb Hconn Hld Ha Hcsv Hw Hline T Hu Hf0 Htag.
    destruct (build_rejected_on_stored_key env name db ld Ingest.extract_functions csv line
                (Store.f_codeql_id f0) s) as (err & s' & E);
      try assumption; [now left | now apply cleared_keeps_function_key|].
    exists err, s'. split; [exact E|].
    pose proof (proj1 (handleBuildGraphIndex_frame env name s) f0 Hf0 Htag) as Hkept.
    now rewrite E in Hkept.
  - intros env name db ld csv line c0 Hdb Hconn Hld Ha Hcsv Hw Hline T Hu Hc0 Htag.
    apply (build_rejected_on_stored_key env name db ld Ingest.extract_classes csv line
             (Store.c_codeql_id c0) s); try assumption;
      [right; right; now left | now apply cleared_keeps_class_key].
Qed.

Lemma C1_witness :
  let stored := {| Store.f_id := 1; Store.f_codeql_id := "foo@function foo@a.js:3:1";
                   Store.f_database_name := "a"; Store.f_name := "foo";
                   Store.f_file := "a.js"; Store.f_line := 3;
                   Store.f_num_params := Some 0;
                   Store.f_signature := Some "function foo" |} in
  Store.functions (snd (Indexer.handleBuildGraphIndex Samples.twin_env "a" Store.empty))
  = [stored]
  /\ exists err s',
       Indexer.handleBuildGraphIndex Samples.twin_env "b"
         (snd (Indexer.handleBuildGraphIndex Samples.twin_env "a" Store.empty))
       = (Postgres.Thrown (Postgres.BuildFailed err), s')
       /\ In stored (Store.functions s').
Proof.
  split; [vm_compute; reflexivity|].
  refine (proj1 (proj2 (proj2 (proj2 (proj2 (proj2
            (C1_natural_keys_unique_across_the_store
               (snd (Indexer.handleBuildGraphIndex Samples.twin_env "a" Store.empty))))))))
            Samples.twin_env "b" (Samples.corpus "b") "javascript"
            Samples.shared_functions_csv
            "foo@function foo@a.js:3:1,foo,a.js,3,0,function foo" _ _ _ _ _ _ _ _ _ _ _ _).
  - vm_compute. reflexivity.
  - reflexivity.
  - vm_compute. reflexivity.
  - vm_compute. reflexivity.
  - vm_compute. reflexivity.
  - intros line Hin _. vm_compute in Hin. destruct Hin as [<-|[]]. vm_compute. reflexivity.
  - vm_compute. left. reflexivity.
  - vm_compute. reflexivity.
  - vm_compute. reflexivity.
  - vm_compute. left. reflexivity.
  - vm_compute. discriminate.
Defined.

(** ** What a rebuild brings to the other corpora *)

Section RebuildBrings.
Import Store Postgres Ingest Indexer.

Variable name : string.

Lemma others_from_then s0 s s' :
  others_from name s0 s -> others_kept name s' s -> others_from name s0 s'.
Proof.
  intros (A1 & A2 & A3 & A4 & A5) (B1 & B2 & B3 & B4 & B5).
  repeat split; intros r Hr Ht; auto.
Qed.

(** [clearDatabase] leaves rows that were there, a class short of its
    parent id when the parent was deleted. *)
Lemma cleared_others_from s : others_from name s (cleared name s).
Proof.
  unfold others_from, cleared, delete_functions, delete_classes, delete_variables,
    delete_function_calls, delete_class_methods.
  simpl. repeat split.
  - intros f Hf _. now apply filter_In in Hf.
  - intros c Hc _. apply in_map_iff in Hc as (c0 & <- & Hc0).
    apply filter_In in Hc0 as [Hc0 _].
    destruct (refers_to (c_parent_id c0) _) eqn:R; [|now left].
    right. exists c0. split; [exact Hc0|]. split; [|reflexivity].
    intros Hn. rewrite Hn in R. discriminate.
  - intros fc Hfc _. apply filter_In in Hfc as [Hfc _]. now apply filter_In in Hfc.
  - intros m Hm _. apply filter_In in Hm as [Hm _]. apply filter_In in Hm as [Hm _].
    now apply filter_In in Hm.
  - intros v Hv _. now apply filter_In in Hv.
Qed.

Lemma in_app_tagged {R} (tag : R -> string) (l rows : list R) r :
  (forall x, In x rows -> tag x = name) -> In r (l ++ rows) -> tag r <> name -> In r l.
Proof.
  intros Hrows Hr Ht. apply in_app_or in Hr as [Hr|Hr]; [exact Hr|].
  now elim Ht; apply Hrows.
Qed.

(** An INSERT of rows that begin with the corpus name brings rows of that
    corpus only. *)
Lemma insert_statement_brings table ncols batch s s' :
  List.Forall (Rows.shaped name ncols) batch ->
  insert_statement table ncols (length batch) (concat batch) s = Ok s' ->
  others_kept name s' s.
Proof.
  intros Hb. unfold insert_statement.
  assert (Hlen : List.Forall (fun row => length row = ncols) batch)
    by (eapply List.Forall_impl; [|exact Hb]; now intros ? []).
  assert (Htag : List.Forall (fun t => hd_error t = Some (Some name)) batch)
    by (eapply List.Forall_impl; [|exact Hb]; now intros ? []).
  rewrite (tuples_of_concat _ _ Hlen).
  destruct (negb _); [discriminate|].
  destruct (String.eqb table "functions").
  { destruct (build_rows mk_function _ _) as [rows|] eqn:E; [|discriminate].
    destruct (unique_keys _ _); [|discriminate]. intros [= <-].
    destruct (build_rows_tagged name _ _ mk_function_tag _ _ _ E Htag) as [_ T].
    repeat split; simpl; auto. intros r. now apply in_app_tagged. }
  destruct (String.eqb table "function_calls").
  { destruct (build_rows mk_call _ _) as [rows|] eqn:E; [|discriminate]. intros [= <-].
    destruct (build_rows_tagged name _ _ mk_call_tag _ _ _ E Htag) as [_ T].
    repeat split; simpl; auto. intros r. now apply in_app_tagged. }
  destruct (String.eqb table "classes").
  { destruct (build_rows mk_class _ _) as [rows|] eqn:E; [|discriminate].
    destruct (unique_keys _ _); [|discriminate]. intros [= <-].
    destruct (build_rows_tagged name _ _ mk_class_tag _ _ _ E Htag) as [_ T].
    repeat split; simpl; auto. intros r. now apply in_app_tagged. }
  destruct (build_rows mk_method _ _) as [rows|] eqn:E; [|discriminate]. intros [= <-].
  destruct (build_rows_tagged name _ _ mk_method_tag _ _ _ E Htag) as [_ T].
  repeat split; simpl; auto. intros r. now apply in_app_tagged.
Qed.

Lemma batch_loop_brings table ncols bs values :
  List.Forall (Rows.shaped name ncols) values ->
  forall fuel i s r s',
    batch_loop fuel table ncols bs values i s = (r, s') -> others_kept name s' s.
Proof.
  intros Hv. induction fuel as [|fuel IH]; intros i s r s' H; cbn [batch_loop] in H.
  - inversion H. apply others_kept_refl.
  - destruct (i <? length values)%nat; [|inversion H; apply others_kept_refl].
    unfold bind, executeQuery in H.
    destruct (insert_statement table ncols _ _ s) as [s1|e] eqn:E.
    + apply IH in H. apply insert_statement_brings in E; [|now apply Forall_slice].
      eapply others_kept_trans; eauto.
    + inversion H. apply others_kept_refl.
Qed.

Lemma run_extraction_brings env db ld stats e s r s' :
  In e extractions ->
  (forall csv, run_and_decode env db ld (query e) = Some csv -> Rows.well_formed e csv) ->
  run_extraction env db name ld stats e s = (r, s') -> others_kept name s' s.
Proof.
  intros He Hw. unfold run_extraction.
  destruct (negb (access env ld (query e))).
  { destruct (required e); intros H; inversion H; apply others_kept_refl. }
  destruct (run_and_decode env db ld (query e)) as [csv|].
  2:{ intros H. inversion H. apply others_kept_refl. }
  pose proof (ingest_values_shaped name e csv He (Hw csv eq_refl)) as Hs.
  unfold bind.
  destruct (0 <? length (values (ingest name e csv)))%nat.
  - unfold insert_batches.
    destruct (batch_loop _ _ _ _ _ _ s) as [[[]|err] s1] eqn:E;
      intros H; inversion H; subst; eapply batch_loop_brings; eauto.
  - intros H. inversion H. apply others_kept_refl.
Qed.

Lemma for_each_brings env db ld :
  forall l,
    (forall e, In e l -> In e extractions) ->
    (forall e csv, In e l -> run_and_decode env db ld (query e) = Some csv ->
                   Rows.well_formed e csv) ->
    forall stats s r s',
      for_each (run_extraction env db name ld) stats l s = (r, s') -> others_kept name s' s.
Proof.
  induction l as [|x xs IH]; intros Hin Hw stats s r s' H; simpl in H.
  - inversion H. apply others_kept_refl.
  - unfold bind in H.
    destruct (run_extraction env db name ld stats x s) as [[stats'|e] s1] eqn:E.
    + apply run_extraction_brings in E; [|apply Hin; now left|intros csv; apply Hw; now left].
      apply IH in H; [|intros; apply Hin; now right|intros e csv He; apply Hw; now right].
      eapply others_kept_trans; eauto.
    + inversion H; subst.
      eapply run_extraction_brings; [apply Hin; now left|intros csv; apply Hw; now left|eauto].
Qed.

(** The resolver writes rows of its corpus only. *)
Lemma In_map_other {R} (tag : R -> string) (f : R -> R) l r :
  (forall x, tag (f x) = tag x) -> (forall x, tag x <> name -> f x = x) ->
  In r (map f l) -> tag r <> name -> In r l.
Proof.
  intros Htag Hf Hr Ht. apply in_map_iff in Hr as (x & <- & Hx).
  rewrite Htag in Ht. now rewrite (Hf x Ht).
Qed.

Lemma update_class_methods_brings f s s' :
  (forall s0 m, cm_database_name (f s0 m) = cm_database_name m) ->
  (forall s0 m, cm_database_name m <> name -> f s0 m = m) ->
  update_class_methods f s = Ok s' -> others_kept name s' s.
Proof.
  intros Htag Hf. unfold update_class_methods. destruct (_ && _); [discriminate|].
  intros [= <-]. repeat split; simpl; auto.
  intros m. apply (In_map_other cm_database_name); auto.
Qed.

Lemma updateForeignKeys_brings s r s' :
  updateForeignKeys name s = (r, s') -> others_kept name s' s.
Proof.
  rewrite updateForeignKeys_unfold. cbv zeta.
  set (s1 := set_caller_ids name s). set (s2 := set_callee_ids name s1).
  set (s3 := set_parent_ids name s2).
  assert (K1 : others_kept name s1 s).
  { unfold s1, set_caller_ids. repeat split; simpl; auto.
    intros fc. apply (In_map_other fc_database_name); [apply resolve_caller_tag|].
    intros x Ht. unfold resolve_caller. now rewrite (tagged_false _ _ Ht). }
  assert (K2 : others_kept name s2 s1).
  { unfold s2, set_callee_ids. repeat split; simpl; auto.
    intros fc. apply (In_map_other fc_database_name); [apply resolve_callee_tag|].
    intros x Ht. unfold resolve_callee. now rewrite (tagged_false _ _ Ht). }
  assert (K3 : others_kept name s3 s2).
  { unfold s3, set_parent_ids. repeat split; simpl; auto.
    intros c. apply (In_map_other c_database_name); [apply resolve_parent_tag|].
    intros x Ht. unfold resolve_parent. now rewrite (tagged_false _ _ Ht). }
  assert (K : others_kept name s3 s)
    by (eapply others_kept_trans; [exact K3|]; eapply others_kept_trans; eauto).
  assert (Hc : forall s0 m, cm_database_name m <> name -> resolve_class name s0 m = m).
  { intros s0 m Ht. unfold resolve_class. now rewrite (tagged_false _ _ Ht). }
  assert (Hm : forall s0 m, cm_database_name m <> name -> resolve_method name s0 m = m).
  { intros s0 m Ht. unfold resolve_method. now rewrite (tagged_false _ _ Ht). }
  destruct (update_class_methods (resolve_class name) s3) as [s4|e] eqn:E4.
  2:{ intros [= <- <-]. exact K. }
  pose proof (update_class_methods_brings _ _ _ (resolve_class_tag name) Hc E4) as K4.
  destruct (update_class_methods (resolve_method name) s4) as [s5|e] eqn:E5.
  2:{ intros [= <- <-]. eapply others_kept_trans; eauto. }
  pose proof (update_class_methods_brings _ _ _ (resolve_method_tag name) Hm E5) as K5.
  intros [= <- <-]. eapply others_kept_trans; [exact K5|].
  eapply others_kept_trans; eauto.
Qed.

(** The whole handler, when the files it reads are well formed. *)
Lemma handleBuildGraphIndex_brings env s :
  (forall db ld e csv,
     databases env !! name = Some db -> languageDir_of (db_language db) = Some ld ->
     In e extractions -> run_and_decode env db ld (query e) = Some csv ->
     Rows.well_formed e csv) ->
  others_from name s (snd (handleBuildGraphIndex env name s)).
Proof.
  intros Hw.
  assert (Hrefl : others_from name s s).
  { repeat split; auto. }
  destruct (databases env !! name) as [db|] eqn:Hdb.
  2:{ unfold handleBuildGraphIndex. now rewrite Hdb. }
  destruct (testConnection env) eqn:Hconn.
  2:{ unfold handleBuildGraphIndex. now rewrite Hdb, Hconn. }
  destruct (languageDir_of (db_language db)) as [ld|] eqn:Hld.
  2:{ unfold handleBuildGraphIndex. rewrite Hdb, Hconn, Hld. apply cleared_others_from. }
  rewrite (handleBuildGraphIndex_cleared env name db ld s Hdb Hconn Hld).
  unfold try_rethrow, bind.
  destruct (for_each (run_extraction env db name ld) ∅ extractions (cleared name s))
    as [[stats|e] s1] eqn:E1;
    pose proof (for_each_brings env db ld extractions (fun e H => H)
                  (fun e csv He => Hw db ld e csv eq_refl Hld He) _ _ _ _ E1) as G.
  - destruct (updateForeignKeys name s1) as [[[]|e] s2] eqn:E2; simpl;
      (eapply others_from_then; [|eapply updateForeignKeys_brings; eauto];
       eapply others_from_then; [apply cleared_others_from | exact G]).
  - simpl. eapply others_from_then; [apply cleared_others_from | exact G].
Qed.

End RebuildBrings.

(** C7 (as stated) fails in both halves.  A rebuild deletes rows of
    another corpus: the resolver joins on the natural key alone, so the
    call edge of corpus [app] is bound to the function of corpus [lib] it
    names; rebuilding [lib] deletes that function, and the edge of [app]
    goes with it (ON DELETE CASCADE).  And a rebuild can insert a row
    tagged with another corpus: the loop never checks the number of
    fields of a line, so a line with five fields followed by a line with
    seven makes up the parameters of two rows, the second of which begins
    with the first field of the second line; rebuilding [a] stores a
    function tagged [b]. *)
Lemma C7_counterexample :
  (let s1 := snd (Indexer.handleBuildGraphIndex Samples.lib_app_env "lib" Store.empty) in
   let s2 := snd (Indexer.handleBuildGraphIndex Samples.lib_app_env "app" s1) in
   let r3 := Indexer.handleBuildGraphIndex Samples.lib_app_env "lib" s2 in
   map (fun fc => (Store.fc_database_name fc, Store.fc_callee_id fc)) (Store.function_calls s2)
     = [("app", Some 1)]
   /\ map (fun f => (Store.f_database_name f, Store.f_id f)) (Store.functions s2)
      = [("lib", 1); ("app", 2)]
   /\ (exists stats, fst r3 = Postgres.Returned stats)
   /\ Store.function_calls (snd r3) = [])
  /\ (let r := Indexer.handleBuildGraphIndex Samples.shifted_env "a" Store.empty in
      Ingest.dataLines_of Samples.shifted_functions_csv
        = ["f@a.js:1,f,a.js,1,0"; "b,g@b.js:1,g,b.js,1,0,function g"]
      /\ (exists stats, fst r = Postgres.Returned stats)
      /\ map (fun f => (Store.f_database_name f, Store.f_codeql_id f, Store.f_signature f))
           (Store.functions (snd r))
         = [("a", "f@a.js:1", Some "a"); ("b", "g@b.js:1", Some "function g")]).
Proof.
  split.
  - vm_compute. repeat split. eexists. reflexivity.
  - vm_compute. repeat split. eexists. reflexivity.
Qed.

(** C7, amended. Rebuilding one corpus leaves every row of another corpus
    in place with all its fields, except the rows that reference the
    rebuilt corpus through a resolved id: a function of another corpus is
    always kept, whatever its name; a class is kept as it is unless its
    parent id is a class of the rebuilt corpus; a call edge unless its
    caller id or callee id is a function of the rebuilt corpus; a method
    membership unless its class id or method id is a class or function of
    the rebuilt corpus; a variable always.  This holds for the store the
    handler leaves behind whether it returns or throws.  When every file
    the rebuild reads is well formed (each non-blank data line has as
    many fields as its fact type has columns), the rebuild brings no row
    to another corpus: every row tagged with another name afterwards is a
    row that was there before, with all its fields, or, for a class, that
    row short of its parent id. *)
Theorem C7_rebuild_keeps_unreferencing_rows_of_other_corpora :
  forall (env : Indexer.environment) (database_name : string) (s : Store.store),
    let s' := snd (Indexer.handleBuildGraphIndex env database_name s) in
    (forall f, In f (Store.functions s) -> Store.f_database_name f <> database_name ->
       In f (Store.functions s'))
    /\ (forall c, In c (Store.classes s) -> Store.c_database_name c <> database_name ->
          Store.refers_to (Store.c_parent_id c) (Postgres.class_ids_of database_name s) = false ->
          In c (Store.classes s'))
    /\ (forall fc, In fc (Store.function_calls s) ->
          Store.fc_database_name fc <> database_name ->
          Store.refers_to (Store.fc_caller_id fc) (Postgres.function_ids_of database_name s) = false ->
          Store.refers_to (Store.fc_callee_id fc) (Postgres.function_ids_of database_name s) = false ->
          In fc (Store.function_calls s'))
    /\ (forall m, In m (Store.class_methods s) ->
          Store.cm_database_name m <> database_name ->
          Store.refers_to (Store.cm_class_id m) (Postgres.class_ids_of database_name s) = false ->
          Store.refers_to (Store.cm_method_id m) (Postgres.function_ids_of database_name s) = false ->
          In m (Store.class_methods s'))
    /\ (forall v, In v (Store.variables s) -> Store.v_database_name v <> database_name ->
          In v (Store.variables s'))
    /\ ((forall db ld e csv,
           Indexer.databases env !! database_name = Some db ->
           Indexer.languageDir_of (Indexer.db_language db) = Some ld ->
           In e Ingest.extractions ->
           Indexer.run_and_decode env db ld (Ingest.query e) = Some csv ->
           Rows.well_formed e csv) ->
        (forall f, In f (Store.functions s') -> Store.f_database_name f <> database_name ->
           In f (Store.functions s))
        /\ (forall c, In c (Store.classes s') -> Store.c_database_name c <> database_name ->
              In c (Store.classes s)
              \/ exists c0, In c0 (Store.classes s) /\ Store.c_parent_id c0 <> None
                            /\ c = Store.set_parent_id c0 None)
        /\ (forall fc, In fc (Store.function_calls s') ->
              Store.fc_database_name fc <> database_name -> In fc (Store.function_calls s))
        /\ (forall m, In m (Store.class_methods s') ->
              Store.cm_database_name m <> database_name -> In m (Store.class_methods s))
        /\ (forall v, In v (Store.variables s') ->
              Store.v_database_name v <> database_name -> In v (Store.variables s))).
Proof.
  intros env name s s'.
  destruct (handleBuildGraphIndex_frame env name s) as (K1 & K2 & K3 & K4 & K5).
  split; [exact K1|]. split; [exact K2|]. split; [exact K3|]. split; [exact K4|].
  split; [exact K5|].
  intros Hw. exact (handleBuildGraphIndex_brings name env s Hw).
Qed.

Lemma C7_witness :
  let s1 := snd (Indexer.handleBuildGraphIndex Samples.lib_app_env "lib" Store.empty) in
  let s2 := snd (Indexer.handleBuildGraphIndex Samples.lib_app_env "app" s1) in
  let s3 := snd (Indexer.handleBuildGraphIndex Samples.lib_app_env "app" s2) in
  let helper := {| Store.f_id := 1; Store.f_codeql_id := "helper@lib.py:1";
                   Store.f_database_name := "lib"; Store.f_name := "helper";
                   Store.f_file := "lib.py"; Store.f_line := 1;
                   Store.f_num_params := Some 0;
                   Store.f_signature := Some "Function helper" |} in
  In helper (Store.functions s3) /\ In helper (Store.functions s2).
Proof.
  intros s1 s2 s3 helper.
  pose proof (C7_rebuild_keeps_unreferencing_rows_of_other_corpora
                Samples.lib_app_env "app" s2) as (Hkept & _ & _ & _ & _ & Hbrings).
  assert (H3 : In helper (Store.functions s3))
    by (apply Hkept; [vm_compute; left; reflexivity | simpl; discriminate]).
  split; [exact H3|].
  refine (proj1 (Hbrings _) helper H3 _); [|simpl; discriminate].
  - intros db ld e csv Hdb _ He Hcsv line Hline _.
    vm_compute in Hdb. injection Hdb as <-.
    destruct He as [<-|[<-|[<-|[<-|[]]]]]; vm_compute in Hcsv; try discriminate;
      injection Hcsv as <-; vm_compute in Hline;
      repeat (destruct Hline as [<-|Hline]; [vm_compute; reflexivity|]); destruct Hline.
Defined.

(** ** Unresolved call edges in the store *)

Section CalleeNames.
Import Store Postgres Ingest Indexer.

Variable name : string.

(** Every call edge of the corpus bears the name derived from its callee
    reference. *)
Local Abbreviation names_kept s :=
  (forall fc, In fc (function_calls s) -> fc_database_name fc = name ->
     fc_callee_name fc = derived_callee_name (fc_callee_codeql_id fc)).

Local Abbreviation names_row t :=
  (forall id r, mk_call id t = Ok r ->
     fc_callee_name r = derived_callee_name (fc_callee_codeql_id r)).

Lemma derived_callee_name_unresolved (n rest : string) :
  before_at n = None -> n <> EmptyString ->
  derived_callee_name (unresolved_prefix ++ n ++ String AT rest) = Some n.
Proof.
  intros H Hne. unfold derived_callee_name.
  rewrite startsWith_app, drop_prefix_app. now apply match_name_at_app.
Qed.

Lemma processRow_calls_derived parts :
  processRow_calls parts
  = parts ++ [match at_index parts 1 with
              | Some id => derived_callee_name id
              | None => None
              end].
Proof. reflexivity. Qed.

(** The row pushed for a line of four fields. *)
Lemma row_of_call_names line :
  length (parseCSVLine line) = 4%nat ->
  names_row (row_of name (Some processRow_calls) line).
Proof.
  intros Hlen id r. unfold row_of. rewrite processRow_calls_derived.
  unfold parse_parts, at_index.
  destruct (parseCSVLine line) as [|p0 [|p1 [|p2 [|p3 [|]]]]]; try discriminate.
  cbn [map nth_error app]. unfold mk_call.
  destruct (null_if_empty p0); [|discriminate].
  destruct (null_if_empty p1) as [callee|]; [|discriminate].
  destruct (null_if_empty p2); [|discriminate].
  destruct (null_if_empty p3) as [ln|]; [|discriminate].
  destruct (integer_column ln); [|discriminate]. now intros [= <-].
Qed.

Lemma build_rows_each {R} (mk : Z -> list field -> result R) (P : R -> Prop) :
  forall tuples seq rows,
    List.Forall (fun t => forall id r, mk id t = Ok r -> P r) tuples ->
    build_rows mk seq tuples = Ok rows ->
    forall r, In r rows -> P r.
Proof.
  induction tuples as [|t ts IH]; intros seq rows Hts; simpl.
  - intros [= <-] r [].
  - destruct (mk seq t) as [r0|] eqn:E0; [|discriminate].
    destruct (build_rows mk (seq + 1) ts) as [rs|] eqn:E; [|discriminate].
    intros [= <-] r [<-|Hr].
    + exact (List.Forall_inv Hts _ _ E0).
    + exact (IH _ _ (List.Forall_inv_tail Hts) E r Hr).
Qed.

Lemma insert_statement_names table ncols batch s s' :
  (table = "function_calls" ->
   List.Forall (fun row => length row = ncols) batch
   /\ List.Forall (fun t => names_row t) batch) ->
  insert_statement table ncols (length batch) (concat batch) s = Ok s' ->
  names_kept s -> names_kept s'.
Proof.
  intros Hb. unfold insert_statement.
  destruct (negb _); [discriminate|].
  destruct (String.eqb table "functions").
  { destruct (build_rows mk_function _ _) as [rows|]; [|discriminate].
    destruct (unique_keys _ _); [|discriminate]. now intros [= <-]. }
  destruct (String.eqb_spec table "function_calls") as [Ht|_].
  { destruct (Hb Ht) as [Hlen Hnames]. rewrite (tuples_of_concat _ _ Hlen).
    destruct (build_rows mk_call _ _) as [rows|] eqn:E; [|discriminate].
    intros [= <-] Hs fc Hfc Htag. simpl in Hfc.
    apply in_app_or in Hfc as [Hfc|Hfc]; [now apply Hs|].
    exact (build_rows_each mk_call
             (fun r => fc_callee_name r = derived_callee_name (fc_callee_codeql_id r))
             _ _ _ Hnames E fc Hfc). }
  destruct (String.eqb table "classes").
  { destruct (build_rows mk_class _ _) as [rows|]; [|discriminate].
    destruct (unique_keys _ _); [|discriminate]. now intros [= <-]. }
  destruct (build_rows mk_method _ _) as [rows|]; [|discriminate]. now intros [= <-].
Qed.

Lemma batch_loop_names table ncols bs values :
  (table = "function_calls" ->
   List.Forall (fun row => length row = ncols) values
   /\ List.Forall (fun t => names_row t) values) ->
  forall fuel i s r s',
    batch_loop fuel table ncols bs values i s = (r, s') -> names_kept s -> names_kept s'.
Proof.
  intros Hv. induction fuel as [|fuel IH]; intros i s r s' H Hs; cbn [batch_loop] in H.
  - now inversion H; subst.
  - destruct (i <? length values)%nat; [|now inversion H; subst].
    unfold bind, executeQuery in H.
    destruct (insert_statement table ncols _ _ s) as [s1|e] eqn:E.
    + apply (IH _ _ _ _ H). apply (insert_statement_names _ _ _ _ _) with (2 := E); [|exact Hs].
      intros Ht. destruct (Hv Ht). split; now apply Forall_slice.
    + now inversion H; subst.
Qed.

Lemma run_extraction_names env db ld stats e s r s' :
  In e extractions ->
  (forall csv, run_and_decode env db ld (query extract_calls) = Some csv ->
               Rows.well_formed extract_calls csv) ->
  run_extraction env db name ld stats e s = (r, s') -> names_kept s -> names_kept s'.
Proof.
  intros He Hw. unfold run_extraction.
  destruct (negb (access env ld (query e))).
  { destruct (required e); intros H; now inversion H; subst. }
  destruct (run_and_decode env db ld (query e)) as [csv|] eqn:Hcsv.
  2:{ intros H. now inversion H; subst. }
  unfold bind.
  destruct (0 <? length (values (ingest name e csv)))%nat.
  2:{ intros H. now inversion H; subst. }
  unfold insert_batches.
  assert (Hv : table e = "function_calls" ->
               List.Forall (fun row => length row = length (actualColumns e))
                 (values (ingest name e csv))
               /\ List.Forall (fun t => names_row t) (values (ingest name e csv))).
  { intros Ht.
    assert (Ee : e = extract_calls)
      by (destruct He as [<-|[<-|[<-|[<-|[]]]]]; try discriminate; reflexivity).
    subst e. specialize (Hw csv Hcsv). split.
    - eapply List.Forall_impl;
        [|exact (ingest_values_shaped name extract_calls csv He Hw)]. now intros ? [].
    - unfold ingest. apply ingest_from_values; [|constructor].
      intros line Hin T. apply row_of_call_names. exact (Hw line Hin T). }
  destruct (batch_loop _ _ _ _ _ _ s) as [[[]|err] s1] eqn:E;
    intros H Hs; inversion H; subst; exact (batch_loop_names _ _ _ _ Hv _ _ _ _ _ E Hs).
Qed.

Lemma for_each_keeps_in {A B} (P : store -> Prop) (body : A -> B -> M A) :
  forall l,
    (forall a x s r s', In x l -> body a x s = (r, s') -> P s -> P s') ->
    forall a s r s', for_each body a l s = (r, s') -> P s -> P s'.
Proof.
  induction l as [|x xs IH]; intros Hbody a s r s' H H0; simpl in H.
  - now inversion H; subst.
  - unfold bind in H. destruct (body a x s) as [[a'|e] s1] eqn:E.
    + apply (IH (fun a0 y s0 r0 s0' Hy => Hbody a0 y s0 r0 s0' (or_intror Hy)) _ _ _ _ H).
      exact (Hbody _ _ _ _ _ (or_introl eq_refl) E H0).
    + inversion H; subst. exact (Hbody _ _ _ _ _ (or_introl eq_refl) E H0).
Qed.

Lemma cleared_names s : names_kept (cleared name s).
Proof.
  intros fc Hfc Htag. exfalso.
  unfold cleared, delete_functions, delete_classes, delete_variables,
    delete_function_calls, delete_class_methods in Hfc. simpl in Hfc.
  apply filter_In in Hfc as [Hfc _]. apply filter_In in Hfc as [_ Hfc].
  rewrite Htag, tagged_same in Hfc. discriminate.
Qed.

Lemma resolve_caller_name db s fc :
  fc_callee_name (resolve_caller db s fc) = fc_callee_name fc
  /\ fc_callee_codeql_id (resolve_caller db s fc) = fc_callee_codeql_id fc.
Proof.
  unfold resolve_caller. destruct (_ && _); [|now split].
  now destruct (lookup_function _ _).
Qed.

Lemma resolve_callee_name db s fc :
  fc_callee_name (resolve_callee db s fc) = fc_callee_name fc
  /\ fc_callee_codeql_id (resolve_callee db s fc) = fc_callee_codeql_id fc.
Proof.
  unfold resolve_callee. destruct (_ && _); [|now split].
  now destruct (lookup_function _ _).
Qed.

Lemma updateForeignKeys_names db s r s' :
  updateForeignKeys db s = (r, s') -> names_kept s -> names_kept s'.
Proof.
  rewrite updateForeignKeys_unfold. cbv zeta. intros H Hs.
  set (s3 := set_parent_ids db (set_callee_ids db (set_caller_ids db s))) in *.
  assert (K3 : names_kept s3).
  { intros fc Hfc Htag.
    change (function_calls s3)
      with (map (resolve_callee db (set_caller_ids db s))
              (map (resolve_caller db s) (function_calls s))) in Hfc.
    apply in_map_iff in Hfc as (fc1 & <- & Hfc1).
    apply in_map_iff in Hfc1 as (fc0 & <- & Hfc0).
    rewrite resolve_callee_tag, resolve_caller_tag in Htag.
    destruct (resolve_callee_name db (set_caller_ids db s) (resolve_caller db s fc0))
      as [-> ->].
    destruct (resolve_caller_name db s fc0) as [-> ->]. now apply Hs. }
  assert (Hcm : forall f s0 s1, update_class_methods f s0 = Ok s1 ->
                                function_calls s1 = function_calls s0).
  { intros f s0 s1. unfold update_class_methods. destruct (_ && _); [discriminate|].
    now intros [= <-]. }
  destruct (update_class_methods (resolve_class db) s3) as [s4|e] eqn:E4.
  2:{ now inversion H; subst. }
  destruct (update_class_methods (resolve_method db) s4) as [s5|e] eqn:E5.
  - inversion H; subst. intros fc. rewrite (Hcm _ _ _ E5), (Hcm _ _ _ E4). apply K3.
  - inversion H; subst. intros fc. rewrite (Hcm _ _ _ E4). apply K3.
Qed.

(** After a build that returns, every call edge of the corpus bears the
    name derived from its callee reference. *)
Lemma handleBuildGraphIndex_names env s stats s' :
  (forall db ld csv,
     databases env !! name = Some db -> languageDir_of (db_language db) = Some ld ->
     run_and_decode env db ld (query extract_calls) = Some csv ->
     Rows.well_formed extract_calls csv) ->
  handleBuildGraphIndex env name s = (Returned stats, s') -> names_kept s'.
Proof.
  intros Hw H.
  destruct (databases env !! name) as [db|] eqn:Hdb.
  2:{ unfold handleBuildGraphIndex in H. rewrite Hdb in H. discriminate. }
  destruct (testConnection env) eqn:Hconn.
  2:{ unfold handleBuildGraphIndex in H. rewrite Hdb, Hconn in H. discriminate. }
  destruct (languageDir_of (db_language db)) as [ld|] eqn:Hld.
  2:{ unfold handleBuildGraphIndex in H. rewrite Hdb, Hconn, Hld in H. discriminate. }
  rewrite (handleBuildGraphIndex_cleared env name db ld s Hdb Hconn Hld) in H.
  unfold try_rethrow, bind in H.
  destruct (for_each (run_extraction env db name ld) ∅ extractions (cleared name s))
    as [[stats1|e] s1] eqn:E1; [|discriminate].
  destruct (updateForeignKeys name s1) as [[[]|e] s2] eqn:E2; [|discriminate].
  inversion H; subst.
  apply (updateForeignKeys_names _ _ _ _ E2).
  apply (for_each_keeps_in (fun x => names_kept x) _ extractions) with (2 := E1);
    [|apply cleared_names].
  intros a e s0 r s0' He. apply run_extraction_names; [exact He|].
  intros csv. now apply Hw.
Qed.

End CalleeNames.

Section HotSpotJoin.
Import Store Postgres Query.

(** The hot-spot query joins an edge to a function through the resolved
    callee id alone. *)
Lemma in_hot_join db s f fc :
  In (f, fc) (hot_join db s)
  <-> In f (functions s) /\ f_database_name f = db
      /\ In fc (function_calls s) /\ fc_callee_id fc = Some (f_id f).
Proof.
  unfold hot_join. rewrite in_flat_map. split.
  - intros (f0 & Hf0 & Hp). apply filter_In in Hf0 as [Hf0 Ht].
    apply in_map_iff in Hp as (fc0 & [= <- <-] & Hfc0).
    apply filter_In in Hfc0 as [Hfc0 Hid].
    unfold tagged in Ht. apply String.eqb_eq in Ht.
    repeat split; try assumption.
    unfold eq_id in Hid. destruct (fc_callee_id fc0) as [i|]; [|discriminate].
    apply Z.eqb_eq in Hid. now subst.
  - intros (Hf & Ht & Hfc & Hid). exists f. split.
    + apply filter_In. split; [exact Hf|]. rewrite Ht. apply tagged_same.
    + apply in_map. apply filter_In. split; [exact Hfc|].
      rewrite Hid. simpl. apply Z.eqb_refl.
Qed.

End HotSpotJoin.

(** C4. A stored call edge keeps the callee name ingestion derives from
    its callee reference ([<name>] for [unresolved:<name>@...]): after a
    build that returns, every call edge of the corpus bears it.  A stored
    edge of the corpus whose callee is unresolved, whose callee name is
    [n] and whose caller id is resolved to a stored function is selected
    by the caller lookup for [n], and returned, tagged unresolved, as
    long as the lookup selects no more than its cap of 200 rows.  The
    hot-spot ranking does not count it: the ranking joins an edge to a
    function through the resolved callee id alone, where the caller
    lookup also compares the callee name, so that it is the same with and
    without the unresolved edges.  In the corpus of [Samples.hot_env], C
    is called twice, by name only: both edges are stored with the name C
    and found by the caller lookup for C, yet the ranking lists D alone. *)
Theorem C4_hot_spots_leave_out_unresolved_edges :
  (forall env name s stats s',
     (forall db ld csv,
        Indexer.databases env !! name = Some db ->
        Indexer.languageDir_of (Indexer.db_language db) = Some ld ->
        Indexer.run_and_decode env db ld "extract-calls.ql" = Some csv ->
        Rows.well_formed Ingest.extract_calls csv) ->
     Indexer.handleBuildGraphIndex env name s = (Postgres.Returned stats, s') ->
     forall fc, In fc (Store.function_calls s') -> Store.fc_database_name fc = name ->
       Store.fc_callee_name fc = Ingest.derived_callee_name (Store.fc_callee_codeql_id fc))
  /\ (forall n rest,
        Ingest.before_at n = None -> n <> EmptyString ->
        Ingest.derived_callee_name (Ingest.unresolved_prefix ++ n ++ String Ingest.AT rest)
        = Some n)
  /\ (forall parts,
        Ingest.processRow_calls parts
        = parts ++ [match Ingest.at_index parts 1 with
                    | Some id => Ingest.derived_callee_name id
                    | None => None
                    end])
  /\ (forall text_leb s database_name n fc caller,
        In fc (Store.function_calls s) ->
        Store.fc_database_name fc = database_name ->
        Store.fc_callee_id fc = None ->
        Store.fc_callee_name fc = Some n ->
        In caller (Store.functions s) ->
        Store.fc_caller_id fc = Some (Store.f_id caller) ->
        In (fc, caller, None) (Query.callers_selected n database_name s)
        /\ ((length (Query.callers_selected n database_name s) <= 200)%nat ->
            In {| Query.caller_name := Store.f_name caller;
                  Query.caller_file := Store.f_file caller;
                  Query.call_line := Store.fc_line fc;
                  Query.call_type := "unresolved" |}
               (Query.handleFindCallers text_leb database_name n s)))
  /\ (forall database_name s f fc,
        In (f, fc) (Query.hot_join database_name s)
        <-> In f (Store.functions s) /\ Store.f_database_name f = database_name
            /\ In fc (Store.function_calls s)
            /\ Store.fc_callee_id fc = Some (Store.f_id f))
  /\ (forall database_name s,
        Query.hot_spots database_name (Query.resolved_edges_only s)
        = Query.hot_spots database_name s)
  /\ (forall s fc, In fc (Store.function_calls s) -> Store.fc_callee_id fc = None ->
        ~ In fc (Store.function_calls (Query.resolved_edges_only s)))
  /\ (map (fun f => (Store.f_id f, Store.f_name f)) (Store.functions Samples.hot_store)
      = [(1, "A"); (2, "B"); (3, "C"); (4, "D"); (5, "E"); (6, "F")]
      /\ map (fun fc => (Store.fc_caller_id fc, Store.fc_callee_id fc, Store.fc_callee_name fc))
           (Store.function_calls Samples.hot_store)
         = [(Some 1, None, Some "C"); (Some 2, None, Some "C");
            (Some 5, Some 4, Some "D"); (Some 6, Some 4, Some "D")]
      /\ map (fun h => (Query.caller_name h, Query.call_type h))
           (Query.handleFindCallers String.leb "sample" "C" Samples.hot_store)
         = [("A", "unresolved"); ("B", "unresolved")]
      /\ Query.hot_spots "sample" Samples.hot_store
         = [{| Query.hs_name := "D"; Query.hs_file := "a.js";
               Query.call_count := 2; Query.unique_callers := 2 |}]).
Proof.
  split; [|split; [|split; [|split; [|split; [|split; [|split]]]]]].
  - intros env name s stats s' Hw H. exact (handleBuildGraphIndex_names name env s stats s' Hw H).
  - exact derived_callee_name_unresolved.
  - exact processRow_calls_derived.
  - intros text_leb s db n fc caller Hfc Hdb Hnull Hname Hcaller Hid.
    assert (Hsel : In (fc, caller, None) (Query.callers_selected n db s)).
    { unfold Query.callers_selected. apply filter_In. split.
      - now apply in_callers_join_unresolved.
      - unfold Query.callers_where. rewrite Hname, Hdb. simpl.
        rewrite String.eqb_refl. simpl. unfold Postgres.tagged. apply String.eqb_refl. }
    split; [exact Hsel|].
    intros Hcap. unfold Query.handleFindCallers.
    rewrite limit_all by (now rewrite order_by_length).
    apply in_map_iff. exists (fc, caller, None). split.
    + unfold Query.caller_hit_of. now rewrite Hnull.
    + now apply order_by_In.
  - exact in_hot_join.
  - exact hot_spots_resolved_only.
  - intros s fc _ Hnull. unfold Query.resolved_edges_only. simpl.
    rewrite filter_In, Hnull. simpl. intros [_ H]. discriminate.
  - vm_compute. repeat split.
Qed.

Lemma C4_witness :
  let fc := {| Store.fc_id := 1; Store.fc_database_name := "sample";
               Store.fc_caller_codeql_id := "A@a.js:1";
               Store.fc_callee_codeql_id := "unresolved:C@a.js:2";
               Store.fc_caller_id := Some 1; Store.fc_callee_id := None;
               Store.fc_callee_name := Some "C"; Store.fc_file := "a.js";
               Store.fc_line := 2 |} in
  In fc (Store.function_calls Samples.hot_store)
  /\ Store.fc_callee_name fc = Ingest.derived_callee_name "unresolved:C@a.js:2"
  /\ In {| Query.caller_name := "A"; Query.caller_file := "a.js"; Query.call_line := 2;
           Query.call_type := "unresolved" |}
        (Query.handleFindCallers String.leb "sample" "C" Samples.hot_store).
Proof.
  intros fc.
  set (caller := {| Store.f_id := 1; Store.f_codeql_id := "A@a.js:1";
                    Store.f_database_name := "sample"; Store.f_name := "A";
                    Store.f_file := "a.js"; Store.f_line := 1;
                    Store.f_num_params := Some 0;
                    Store.f_signature := Some "function A" |}).
  assert (H1 : In fc (Store.function_calls Samples.hot_store))
    by (vm_compute; left; reflexivity).
  assert (H2 : In caller (Store.functions Samples.hot_store))
    by (vm_compute; left; reflexivity).
  assert (H3 : (length (Query.callers_selected "C" "sample" Samples.hot_store) <= 200)%nat)
    by (vm_compute; repeat constructor).
  assert (Hr : exists stats,
            fst (Indexer.handleBuildGraphIndex Samples.hot_env "sample" Store.empty)
            = Postgres.Returned stats) by (vm_compute; eexists; reflexivity).
  destruct Hr as [stats Hr].
  pose proof (surjective_pairing
                (Indexer.handleBuildGraphIndex Samples.hot_env "sample" Store.empty)) as E.
  rewrite Hr in E. change (snd _) with Samples.hot_store in E.
  destruct C4_hot_spots_leave_out_unresolved_edges as (Hnames & _ & _ & Hfound & _).
  split; [exact H1|]. split.
  - refine (Hnames Samples.hot_env "sample" Store.empty stats Samples.hot_store _ E fc H1
              eq_refl).
    intros db ld csv Hdb _ Hcsv line Hline _.
    vm_compute in Hdb. injection Hdb as <-. vm_compute in Hcsv. injection Hcsv as <-.
    vm_compute in Hline.
    repeat (destruct Hline as [<-|Hline]; [vm_compute; reflexivity|]). destruct Hline.
  - exact (proj2 (Hfound String.leb Samples.hot_store "sample" "C" fc caller
                    H1 eq_refl eq_refl eq_refl H2 eq_refl) H3).
Defined.
